(* ===== verification/_CoqProject ===== *)
-Q . S2P
Prelude.v
GoFloat.v
GoFmt.v
GoTime.v
GoJson.v
JsonText.v
Template.v
TemplateTypes.v
Rpc.v
Pool.v
Goroutines.v
Histories.v
Schedules.v
Linq.v
Alerts.v
Summary.v
Monitor.v
Consensus.v
CrossLink.v
Cx.v
Mock.v
P2p.v
Beacon.v
Config.v
Manager.v
Daemon.v
Reports.v
Wire.v
NetworkJson.v
System.v
Runs.v
Safety.v
Races.v
Invariants.v
Ticks.v
Alarms.v
Page.v
PageView.v
