(* ===== verification/Prelude.v ===== *)
(** * Harmony watchdog: a verification development

    The watchdog (src/blockchain-watchdog) watches the nodes of a Harmony
    blockchain over JSON-RPC, pages an operator through PagerDuty when a shard
    gets into trouble, and serves a status page. The program is one process:

    - a command reads a YAML file and the node lists of the shards (root.go,
      daemon-cmds.go) and starts the goroutines ([update], reporting-server.go);
    - every monitor works in rounds: it sends one job per node to a pool of
      workers, waits for all replies, and then looks at them;
    - two managers refresh the snapshots of headers and metadata that the reports
      read under the mutex [inUse];
    - the monitors of consensus, cross links, cross-shard transactions,
      connectivity and beacon sync keep a little state from tick to tick and page;
    - HTTP handlers turn the snapshots into a page, two JSON reports and CSV files.

    ** Files

    - [Prelude]: tactics, the outcome of code that can panic, what the Go runtime
      may choose (class [GoRuntime]: the order of a map, the capacity of a slice
      that grows), machine integers, strings, lemmas on lists and finite maps.
    - [GoFloat], [GoFmt], [GoTime], [GoJson], [JsonText]: what the program uses of
      float64, fmt, time and encoding/json; [JsonText] is about strings, which a
      decoder always makes valid UTF-8.
    - [Rpc]: rpc.go, and [request] and the body of [worker] of
      reporting-server.go. The HTTP client is an argument.
    - [Pool]: the worker pool, as a step relation over channels, wait groups,
      senders and workers.
    - [Linq]: go-linq, as a class of operations with their documented laws.
    - [Alerts]: alerts.go and pager.go, and the actions a monitor can take.
    - [Summary]: [blockHeaderSummary] and [summaryMaps] of reporting-server.go.
    - [Monitor]: the record [monitor] and its containers, with the array behind
      the one slice that two goroutines append to.
    - [Consensus], [CrossLink], [Cx], [P2p], [Beacon]: the monitors, one file per
      source file. A tick is a function of the replies of its rounds.
    - [Config]: [newInstructions] and [sanityCheck] of root.go. The file system
      and the YAML parser are arguments.
    - [Manager]: [manager], [update] and [stakingCommitteeUpdate] of
      reporting-server.go.
    - [Daemon]: the command tree and the commands of daemon-cmds.go and root.go,
      [monitorNetwork], [acceptConnection], [startReportingHTTPServer], [main].
      How cobra reads a command line is the class [Cobra], with an instance.
    - [Reports]: [networkSnapshot], [statusSnapshot], [renderReport] and
      [produceCSV] of reporting-server.go; [Wire]: the text of the CSV files and
      of the status report; [NetworkJson]: the text of the network report.
    - [Mock]: the mock node (node-mock-rpc), with the objects its handlers mutate,
      and what the monitors make of its answers.
    - [Template], [TemplateTypes]: what the page uses of Go's text/template, a
      parser and an interpreter, and a type system for templates. [Page]: the
      template of html-generators.go, word for word, and its parse tree.
      [PageView]: the data of a report as the template sees it, and the page.
    - [Goroutines]: programs of rounds, lock operations, reads and writes over
      worker pools and a shared memory, their interleavings, and the methods to
      reason about them; [Histories]: the log as a merge of what each goroutine
      did; [Schedules]: computable runs.
    - [System]: all goroutines of the watchdog as such programs, and the process
      as [update] starts it. [Runs]: concrete runs. [Ticks]: the programs against
      the ticks of the monitors. [Safety], [Races], [Invariants], [Alarms]: the
      theorems on the process.

    ** How code and model correspond

    Structs are records, with a short prefix on the field names; Go maps are
    finite maps, read in an arbitrary order wherever the code ranges over them;
    integers are [Z] with the conversions of the code written out. Code that can
    panic returns [outcome]. Log lines, pages, sleeps and goroutines started are
    the list of actions a function returns.

    Every monitor is modelled twice. In its own file a tick is one function of
    the replies of its rounds, with the state before and after, and sequences of
    ticks are inductive relations ([run], [crosslink_run]) or folds; the mutex is
    the field [m_inUse], a handler that finds it held has the result [None] (it
    waits), and one that panics while holding it leaves it held. In [System] the
    same code is a program whose steps are the sends, [Add], [Wait], close and
    drain of each round, the lock operations, and the reads and writes of the
    monitor's fields, interleaved with the workers, the other goroutines and any
    number of HTTP requests. A reachable state has the trace of what every goroutine
    saw and did: the ticks with their times, the replies received in rounds and by
    single requests, and the actions. The order in which a map is iterated, the
    growth of slices and the answers of PagerDuty ([runtime]) are chosen anew at
    every tick and for every goroutine that is started.
    [Safety.watchdog_refines] shows that a round of an interleaved program can be
    taken as one step with replies [served] by its jobs, which is what the ticks
    assume; [Ticks] and [Alarms.monitors_run] show that the goroutines do ticks of
    the first kind, on the replies in the trace, however they are interleaved. A map that two variables
    share ([consensusProgress] and the map of the consensus monitor) is a variable
    of its own, [VStatusMap]. The array that the header manager and the consensus
    monitor both append to is the field [m_DownArray] (its identity and capacity);
    [store_down] is a write into it.

    ** What the theorems show

    - Pool: rounds are complete, no worker blocks or sends on a closed channel,
      rounds end for every schedule; and the order of send and [Add] admits a
      schedule with a negative counter.
    - Process: interleaved rounds refine atomic ones; every monitor performs a run
      of its ticks on the replies it received, and every page and every check that
      is started has a cause in the trace before it; the published metadata always
      has every node once, the published headers every node that answered in one
      received round, although a silent node can get lost; what the handlers
      answered is what the nodes said in received rounds; exactly three parts of
      the monitor are raced for, and exactly one of the four maps of channels; with
      negated intervals, which are accepted, the process watches nothing.
    - Monitors: every monitor pages exactly when it should. Consensus and
      cross links are also proved over whole runs: alarms are justified, a
      stalled shard is detected on time, alarms persist, the recorded cross link
      is the first one of greatest block. Conversions between unsigned, signed
      and float numbers are shown harmless, or their error is bounded.
    - Managers: a tick replaces the whole snapshot with every node once;
      committees are fetched at most once per epoch.
    - Configuration: which configurations are accepted, and their committees, for
      node lists whose names end in at most one digit.
    - Reports: the two reports and the CSV agree with the snapshots; a malformed
      signature and a request for an unknown shard leave the mutex held for ever.
    - Page: the template parses; when the page is written to its end, and what is
      missing otherwise; a page written to its end has a row for everything.
    - Wire: what a node marshals is what the watchdog decodes, exactly when its
      integers and strings are legal; CSV files, the status report and the network
      report are read back as they were written, up to the bytes that are not
      UTF-8 in JSON; but the rows of a CSV file do not fit its column names.
    - Mock node: it makes the consensus monitor page, and never the cross shard
      monitor.
    - Commands: which exit status the monitor has, what the installed service
      runs, and which service commands cannot work.

    ** Bounds and fuel

    The JSON parser recurses with the length of the text plus one as fuel;
    [GoJson.parse_complete] shows that no other amount of fuel parses more.
    [Reports.split_at] recurses with the length of its text plus one, and removes
    a character per step. [Mock.fill] has the 1001 rounds of its loop as fuel
    ([Mock.fill_enough]). Every other function is structural; programs are
    inductive, so that [may] needs no fuel.
    [GoTime.whole_seconds_exact] is for durations below 2^23 seconds, beyond
    which the float seconds can round up; [GoFloat.percent_bounds] is for at most
    2^44 known peers.

    ** Not modelled

    - What html/template adds to text/template: the escaping of printed values (the
      page is modelled with the values as they are), the removal of HTML comments
      from the text, and the errors of its context analysis. The theorems on when
      the page is complete are for chain names of plain characters, which cannot
      change the context.
    - The functions of the template read the committees at each call; one read
      stands for all of them.
    - A program uses one iteration order per map and tick, also when the code
      iterates over the map again in the same tick.
    - [manager] stamps the working container between its sends and [Wait];
      [metadata_body] and [header_body] do it before the sends. No other goroutine
      reads the time.
    - In [System] the requests of [getBeaconHeaders] are made one after the other;
      its goroutines are those of [Beacon.fetch_step], where it is shown that for
      0 < poolSize < 2^31 they end with one reply per request, and by
      [Beacon.beaconSyncMonitor_perm] the order of the replies does not matter.
      Without a worker the program waits for ever, as the code does.
    - The help texts of cobra, the daemon library, the HTTP server and fasthttp's
      time-outs are arguments or left out; of the mock node, the HTTP server.
    - A panic of a loop ends the process; in [System] the loop stands still
      instead, so that the process has the same runs up to then.
    - The order of memory accesses is that of the program: the effects of a data
      race beyond it are not modelled, only that there is one. *)

From stdpp Require Export base gmap strings list fin_maps sorting pretty.
From Stdlib Require Export Ascii ZArith Lia.

#[global] Open Scope Z_scope.

(** ** Automation *)

Create HintDb watchdog.

(** Break conjunctions and existentials of the context, then simplify the
    equations they leave. *)
Ltac crush_hyps :=
  repeat match goal with
  | H : _ ∧ _ |- _ => destruct H
  | H : ∃ _, _ |- _ => destruct H
  end; simplify_eq.

(** Case analysis on the scrutinee of the first [match] or [if] of the goal. *)
Ltac split_match :=
  match goal with
  | |- context [match ?x with _ => _ end] => destruct x eqn:?
  end.

(** Boolean comparisons of the context as propositions on [Z]. *)
Ltac bool_hyps :=
  repeat match goal with
  | H : (_ && _) = true |- _ => apply andb_prop in H as [? ?]
  | H : (_ <=? _) = true |- _ => apply Z.leb_le in H
  | H : (_ <=? _) = false |- _ => apply Z.leb_gt in H
  | H : (_ <? _) = true |- _ => apply Z.ltb_lt in H
  | H : (_ <? _) = false |- _ => apply Z.ltb_ge in H
  | H : (_ =? _) = true |- _ => apply Z.eqb_eq in H
  | H : (_ =? _) = false |- _ => apply Z.eqb_neq in H
  | H : negb _ = true |- _ => apply negb_true_iff in H
  | H : negb _ = false |- _ => apply negb_false_iff in H
  end.

(** Linear arithmetic with [mod] and [/] by constants. *)
Ltac zmod := Z.to_euclidean_division_equations; lia.

(** ** Machine integers

    A Go integer is a [Z] kept in the range of its type; arithmetic that can
    leave the range is wrapped explicitly. *)

Definition two64 : Z := 18446744073709551616.
Definition two63 : Z := 9223372036854775808.
Definition two32 : Z := 4294967296.

(** Conversion to [uint64], [uint32] and [int64] (wrap-around). *)
Definition uint64 (z : Z) : Z := z mod two64.
Definition uint32 (z : Z) : Z := z mod two32.
Definition int64 (z : Z) : Z := (z + two63) mod two64 - two63.

Definition is_uint64 (z : Z) : Prop := 0 ≤ z < two64.
Definition is_uint32 (z : Z) : Prop := 0 ≤ z < two32.
Definition is_int64 (z : Z) : Prop := - two63 ≤ z < two63.

(** Unsigned subtraction [a - b] on [uint64]. *)
Definition sub64 (a b : Z) : Z := uint64 (a - b).

Lemma uint64_range z : is_uint64 (uint64 z).
Proof. unfold is_uint64, uint64, two64. zmod. Qed.

Lemma int64_range z : is_int64 (int64 z).
Proof. unfold is_int64, int64, two64, two63. zmod. Qed.

Lemma uint64_id z : is_uint64 z → uint64 z = z.
Proof. unfold is_uint64, uint64, two64. zmod. Qed.

Lemma int64_id z : is_int64 z → int64 z = z.
Proof. unfold is_int64, int64, two63, two64. zmod. Qed.

(** [uint64(int(h)) = h]: the detour through [int] loses nothing. *)
Lemma uint64_int64 z : is_uint64 z → uint64 (int64 z) = z.
Proof. unfold is_uint64, uint64, int64, two63, two64. zmod. Qed.

Lemma int64_uint32 z : is_uint32 z → int64 z = z.
Proof. unfold is_uint32, int64, two32, two63, two64. zmod. Qed.

Lemma sub64_no_wrap a b : is_uint64 a → is_uint64 b → b ≤ a → sub64 a b = a - b.
Proof. unfold is_uint64, sub64, uint64, two64. zmod. Qed.

#[export] Hint Resolve uint64_range int64_range : watchdog.

(** ** Outcomes: a Go call returns or panics *)

Inductive outcome (A : Type) : Type :=
  | Done (a : A)
  | Panic (why : string).
Arguments Done {A} _.
Arguments Panic {A} _.

#[global] Instance outcome_ret : MRet outcome := λ A a, Done a.
#[global] Instance outcome_bind : MBind outcome := λ A B f o,
  match o with Done a => f a | Panic w => Panic w end.
#[global] Instance outcome_fmap : FMap outcome := λ A B f o,
  match o with Done a => Done (f a) | Panic w => Panic w end.

Definition panics {A} (o : outcome A) : bool :=
  match o with Done _ => false | Panic _ => true end.

(** A Go [for] loop over a slice whose body may panic. *)
Fixpoint for_each {E S} (body : E → S → outcome S) (l : list E) (s : S) : outcome S :=
  match l with
  | [] => Done s
  | x :: l => s ← body x s; for_each body l s
  end.

Lemma for_each_app {E S} (body : E → S → outcome S) l1 l2 s :
  for_each body (l1 ++ l2) s = (s' ← for_each body l1 s; for_each body l2 s').
Proof.
  revert s; induction l1 as [|x l1 IH]; intros s; [done|].
  cbn. destruct (body x s); cbn; [apply IH|done].
Qed.

Lemma for_each_ext {E S} (f g : E → S → outcome S) l s :
  (∀ x s, f x s = g x s) → for_each f l s = for_each g l s.
Proof.
  intros Hfg. revert s; induction l as [|x l IH]; intros s; cbn; [done|].
  rewrite Hfg. destruct (g x s); cbn; [apply IH|done].
Qed.

(** A loop whose body never panics on the elements of the list is a fold. *)
Lemma for_each_fold {E S} (body : E → S → outcome S) (f : S → E → S) l s :
  (∀ x s, x ∈ l → body x s = Done (f s x)) →
  for_each body l s = Done (fold_left f l s).
Proof.
  revert s; induction l as [|x l IH]; intros s Hb; [done|].
  cbn. rewrite Hb by set_solver. cbn. apply IH. set_solver.
Qed.

(** Invariants of loops. *)
Lemma for_each_inv {E S} (body : E → S → outcome S) (P : S → Prop) l s s' :
  (∀ x s s', x ∈ l → P s → body x s = Done s' → P s') →
  P s → for_each body l s = Done s' → P s'.
Proof.
  revert s; induction l as [|x l IH]; intros s Hb HP; cbn.
  - by intros [= <-].
  - destruct (body x s) as [s1|] eqn:E1; cbn; [|done].
    apply IH; [set_solver|]. apply (Hb x s); [set_solver|done|done].
Qed.

Lemma fold_left_inv {E S} (f : S → E → S) (P : S → Prop) l s :
  (∀ x s, x ∈ l → P s → P (f s x)) → P s → P (fold_left f l s).
Proof.
  revert s; induction l as [|x l IH]; intros s Hf HP; cbn; [done|].
  apply IH; [set_solver|]. apply Hf; [set_solver|done].
Qed.

(** ** What the Go runtime is free to choose

    A Go map is a [gmap]. The order of [for k, v := range m] is unspecified: a
    [GoRuntime] chooses one, and every theorem holds for all choices. So is the
    capacity of the array that [append] allocates for a slice of [n] elements
    that is full, beyond the room for the new element. *)

Class GoRuntime : Type := {
  range {K} `{EqDecision K} `{!Countable K} {V} : gmap K V → list (K * V);
  range_perm {K} `{EqDecision K} `{!Countable K} {V} (m : gmap K V) :
    range m ≡ₚ map_to_list m;
  grow : nat → nat;
  grow_room n : (n < grow n)%nat;
}.

Lemma double_room n : (n < n + Nat.max 1 n)%nat.
Proof. lia. Qed.

(** One legal choice, used to evaluate the model on concrete inputs. *)
Definition range_ref : GoRuntime := {|
  range K _ _ V m := map_to_list m;
  range_perm K _ _ V m := Permutation_refl _;
  grow n := (n + Nat.max 1 n)%nat;
  grow_room := double_room;
|}.

Section map_range.
Context `{MR : GoRuntime} {K : Type} `{EqDecision K} `{!Countable K} {V : Type}.
Implicit Types m : gmap K V.

Lemma elem_of_range m k v : (k, v) ∈ range m ↔ m !! k = Some v.
Proof. by rewrite (range_perm m), elem_of_map_to_list. Qed.

Lemma NoDup_range_keys m : NoDup ((range m).*1).
Proof. rewrite (range_perm m). apply NoDup_fst_map_to_list. Qed.

Lemma NoDup_range m : NoDup (range m).
Proof. rewrite (range_perm m). apply NoDup_map_to_list. Qed.

Lemma elem_of_range_keys m k : k ∈ (range m).*1 ↔ is_Some (m !! k).
Proof.
  rewrite list_elem_of_fmap. split.
  - intros ([k' v] & -> & Hin). apply elem_of_range in Hin. eauto.
  - intros [v Hv]. exists (k, v). by rewrite elem_of_range.
Qed.

Lemma length_range m : length (range m) = size m.
Proof. rewrite (range_perm m). apply length_map_to_list. Qed.
End map_range.

(** [m[k] = append(m[k], v)] on a map of slices. *)
Definition map_append {K} `{Countable K} {V} (k : K) (v : V) (m : gmap K (list V)) :=
  <[k := default [] (m !! k) ++ [v]]> m.

(** Grouping a list with [map_append]: the slice of a key holds, in order, the
    values of that key. *)
Definition group_append {K} `{Countable K} {E V} (key : E → K) (val : E → V)
    (l : list E) : gmap K (list V) :=
  fold_left (λ m x, map_append (key x) (val x) m) l ∅.

Lemma group_append_lookup_acc {K} `{Countable K} {E V} (key : E → K) (val : E → V) l m k :
  default [] (fold_left (λ m x, map_append (key x) (val x) m) l m !! k)
  = default [] (m !! k) ++ (val <$> filter (λ x, key x = k) l).
Proof.
  revert m; induction l as [|x l IH]; intros m; cbn [fold_left]; [by rewrite app_nil_r|].
  rewrite IH, filter_cons. unfold map_append.
  destruct (decide (key x = k)) as [<-|Hne].
  - rewrite lookup_insert_eq. cbn. by rewrite <-app_assoc.
  - by rewrite lookup_insert_ne.
Qed.

Lemma group_append_lookup {K} `{Countable K} {E V} (key : E → K) (val : E → V) l k :
  default [] (group_append key val l !! k) = val <$> filter (λ x, key x = k) l.
Proof. unfold group_append. by rewrite group_append_lookup_acc, lookup_empty. Qed.

(** A key is present exactly when some element has it. *)
Lemma group_append_dom {K} `{Countable K} {E V} (key : E → K) (val : E → V) l k :
  is_Some (group_append key val l !! k) ↔ ∃ x, x ∈ l ∧ key x = k.
Proof.
  unfold group_append.
  assert (∀ m, is_Some (fold_left (λ m x, map_append (key x) (val x) m) l m !! k)
    ↔ is_Some (m !! k) ∨ ∃ x, x ∈ l ∧ key x = k) as Hacc.
  { induction l as [|x l IH]; intros m; cbn; [set_solver|].
    rewrite IH. unfold map_append. setoid_rewrite elem_of_cons.
    destruct (decide (key x = k)) as [<-|Hne].
    - rewrite lookup_insert_eq. naive_solver.
    - rewrite lookup_insert_ne by done. naive_solver. }
  rewrite Hacc, lookup_empty, is_Some_alt. naive_solver.
Qed.

Lemma group_append_Some {K} `{Countable K} {E V} (key : E → K) (val : E → V) l k vs :
  group_append key val l !! k = Some vs → vs = val <$> filter (λ x, key x = k) l.
Proof. intros E1. by rewrite <-group_append_lookup, E1. Qed.

Lemma group_append_nonempty {K} `{Countable K} {E V} (key : E → K) (val : E → V) l k vs :
  group_append key val l !! k = Some vs → vs ≠ [].
Proof.
  intros E1. destruct (proj1 (group_append_dom key val l k)) as (x & Hx & Hk); [eauto|].
  apply group_append_Some in E1 as ->. intros Hnil%fmap_nil_inv.
  assert (x ∈ filter (λ x, key x = k) l) as Hin by (by apply list_elem_of_filter).
  rewrite Hnil in Hin. set_solver.
Qed.

(** ** Sorting

    [sort.SliceStable] with the comparison [a > b] on unsigned integers. *)

Definition desc (a b : Z) : Prop := b ≤ a.

#[global] Instance desc_dec a b : Decision (desc a b) := decide (b ≤ a).

Definition sort_desc (l : list Z) : list Z := merge_sort desc l.

Lemma sort_desc_perm l : sort_desc l ≡ₚ l.
Proof. apply merge_sort_Permutation. Qed.

Lemma sort_desc_sorted l : StronglySorted desc (sort_desc l).
Proof.
  apply StronglySorted_merge_sort.
  - unfold desc. intros x y z ??. lia.
  - unfold desc. intros x y. lia.
Qed.

(** ** Strings *)

(** [strconv.Itoa] and [strconv.FormatUint(_, 10)]. *)
Definition Itoa (z : Z) : string := pretty z.

#[global] Instance Itoa_inj : Inj (=) (=) Itoa.
Proof. intros x y. apply (inj pretty). Qed.

(** [strings.Join]. *)
Fixpoint join (sep : string) (l : list string) : string :=
  match l with
  | [] => EmptyString
  | [x] => x
  | x :: l => x +:+ sep +:+ join sep l
  end.

(** The slice expression [s[i:j]]. *)
Definition slice (s : string) (i j : nat) : outcome string :=
  if decide (i ≤ j ≤ String.length s)%nat then Done (String.substring i (j - i) s)
  else Panic "slice bounds out of range".

(** ** Loops that fill a map *)

(** Inserting under distinct keys, in any order. *)
Lemma fold_insert_Some {A V K} `{Countable K} {X} (f : A → K) `{!Inj (=) (=) f} (h : X → V)
    (l : list (A * X)) (m : gmap K V) key v :
  NoDup (l.*1) →
  fold_left (λ m '(a, x), <[f a := h x]> m) l m !! key = Some v
  ↔ (∃ a x, (a, x) ∈ l ∧ key = f a ∧ v = h x)
    ∨ (m !! key = Some v ∧ ∀ a, a ∈ l.*1 → f a ≠ key).
Proof.
  revert m; induction l as [|[a x] l IH]; intros m Hnd; cbn.
  { split; [intros; right; split; [done|set_solver]|]. set_solver. }
  apply NoDup_cons in Hnd as [Hni Hnd]. rewrite IH by done.
  setoid_rewrite elem_of_cons. rewrite lookup_insert_Some. split.
  - intros [(b & y & Hin & -> & ->)|[[[<- <-]|[Hne Hm]] Hall]].
    + left. eauto 6.
    + left. exists a, x. auto.
    + right. split; [done|]. intros b [->|Hb]; auto.
  - intros [(b & y & [[= -> ->]|Hin] & -> & ->)|[Hm Hall]].
    + right. split; [by left|]. intros b Hb [= ->]%(inj f). done.
    + left. eauto 6.
    + right. split; [|auto]. right. split; [|done]. auto.
Qed.

(** Mapping the values of an association list, dropping some. *)
Definition omap_snd {K V W} (f : V → option W) (l : list (K * V)) : list (K * W) :=
  omap (λ p, w ← f p.2; Some (p.1, w)) l.

Lemma elem_of_omap_snd {K V W} (f : V → option W) (l : list (K * V)) k w :
  (k, w) ∈ omap_snd f l ↔ ∃ v, (k, v) ∈ l ∧ f v = Some w.
Proof.
  unfold omap_snd. rewrite list_elem_of_omap. split.
  - intros ([k' v] & Hin & E). cbn in E. destruct (f v) eqn:Ef; [|done].
    cbn in E. simplify_eq. eauto.
  - intros (v & Hin & E). exists (k, v). cbn. by rewrite E.
Qed.

Lemma NoDup_omap_snd {K V W} (f : V → option W) (l : list (K * V)) :
  NoDup (l.*1) → NoDup ((omap_snd f l).*1).
Proof.
  induction l as [|[k v] l IH]; intros Hnd; [constructor|].
  cbn in Hnd. apply NoDup_cons in Hnd as [Hni Hnd]. unfold omap_snd. cbn.
  destruct (f v) as [w|]; cbn; [|by apply IH]. apply NoDup_cons. split; [|by apply IH].
  intros ([k' w'] & -> & Hin)%list_elem_of_fmap. apply Hni.
  apply elem_of_omap_snd in Hin as (v' & Hin & _). by apply (list_elem_of_fmap_2 fst) in Hin.
Qed.

Lemma omap_snd_range `{MR : GoRuntime} {K} `{Countable K} {V W} (f : V → option W) (m : gmap K V) :
  omap_snd f (range m) ≡ₚ map_to_list (omap f m).
Proof.
  apply NoDup_Permutation.
  - apply (NoDup_fmap_1 fst), NoDup_omap_snd, NoDup_range_keys.
  - apply NoDup_map_to_list.
  - intros [k w]. rewrite elem_of_omap_snd, elem_of_map_to_list, lookup_omap.
    setoid_rewrite elem_of_range. destruct (m !! k) as [v|]; cbn; naive_solver.
Qed.

(** ** Partition by key *)

Lemma eq_Permutation {A} (l k : list A) : l = k → l ≡ₚ k.
Proof. by intros ->. Qed.

Lemma bind_insert_key {A K} `{EqDecision K} (ks : list K) (k0 : K) (x : A) (f : K → list A) :
  NoDup ks → k0 ∈ ks →
  (ks ≫= λ k, if decide (k0 = k) then x :: f k else f k) ≡ₚ x :: (ks ≫= f).
Proof.
  induction ks as [|k ks IH]; intros Hnd Hin; [set_solver|].
  apply NoDup_cons in Hnd as [Hni Hnd]. cbn. destruct (decide (k0 = k)) as [->|Hne].
  - cbn. constructor. apply eq_Permutation. f_equal. apply Forall_bind_ext, Forall_forall.
    intros k' Hk'. rewrite decide_False; [done|]. by intros ->.
  - rewrite IH by set_solver. by rewrite Permutation_middle.
Qed.

(** The elements of a list, collected key by key. *)
Lemma bind_partition {A K} `{EqDecision K} (key : A → K) (ks : list K) (l : list A) :
  NoDup ks → (∀ x, x ∈ l → key x ∈ ks) →
  (ks ≫= λ k, filter (λ x, key x = k) l) ≡ₚ l.
Proof.
  intros Hnd. induction l as [|x l IH]; intros Hks.
  - clear. induction ks as [|k ks IH]; [done|]. cbn. by rewrite IH.
  - transitivity (x :: (ks ≫= λ k, filter (λ x, key x = k) l));
      [|constructor; apply IH; set_solver].
    rewrite <-(bind_insert_key ks (key x) x) by set_solver.
    apply eq_Permutation, Forall_bind_ext, Forall_forall. intros k _.
    rewrite filter_cons. done.
Qed.

Lemma bind_perm_ext {A B} (f : A → list B) (g : A → list B) (l : list A) :
  (∀ x, x ∈ l → f x ≡ₚ g x) → (l ≫= f) ≡ₚ (l ≫= g).
Proof.
  induction l as [|x l IH]; intros Hfg; [done|]. cbn.
  rewrite (Hfg x) by set_solver. by rewrite IH by set_solver.
Qed.

(** The greatest element of a list of naturals kept in [Z]. *)
Definition list_max (l : list Z) : Z := fold_left Z.max l 0.

Lemma list_max_ge l x : x ∈ l → x ≤ list_max l.
Proof.
  unfold list_max.
  assert (∀ a, a ≤ fold_left Z.max l a ∧ ∀ x, x ∈ l → x ≤ fold_left Z.max l a) as H.
  { induction l as [|y l IH]; intros a; cbn; [set_solver by lia|].
    destruct (IH (Z.max a y)) as [H1 H2]. split; [lia|].
    intros z [->|Hz]%elem_of_cons; [lia|auto]. }
  apply H.
Qed.

Lemma list_max_in l : list_max l = 0 ∨ list_max l ∈ l.
Proof.
  unfold list_max.
  assert (∀ a, fold_left Z.max l a = a ∨ fold_left Z.max l a ∈ l) as H; [|apply H].
  induction l as [|y l IH]; intros a; cbn; [by left|].
  destruct (IH (Z.max a y)) as [->|]; [|set_solver]. destruct (Z.max_spec a y); set_solver.
Qed.

Lemma list_max_nonneg l : 0 ≤ list_max l.
Proof.
  unfold list_max. assert (∀ a, a ≤ fold_left Z.max l a) as H; [|apply H].
  induction l as [|y l IH]; intros a; cbn; [lia|]. specialize (IH (Z.max a y)). lia.
Qed.

Lemma list_max_unique l m : m ∈ l → 0 ≤ m → (∀ x, x ∈ l → x ≤ m) → list_max l = m.
Proof.
  intros Hm H0 Hub. pose proof (list_max_ge l m Hm).
  destruct (list_max_in l) as [E|Hin]; [lia|]. specialize (Hub _ Hin). lia.
Qed.

Lemma list_max_ext l k : (∀ x, x ∈ l ↔ x ∈ k) → list_max l = list_max k.
Proof.
  intros Hlk. apply Z.le_antisymm.
  - destruct (list_max_in l) as [->|Hin]; [apply list_max_nonneg|].
    apply list_max_ge. by apply Hlk.
  - destruct (list_max_in k) as [->|Hin]; [apply list_max_nonneg|].
    apply list_max_ge. by apply Hlk.
Qed.

(** ** Loops over a map, by key *)

Lemma range_bind_keys `{MR : GoRuntime} {K} `{Countable K} {V B} (m : gmap K V) (f : K → V → list B) :
  (range m ≫= λ '(k, v), f k v)
  = ((range m).*1 ≫= λ k, match m !! k with Some v => f k v | None => [] end).
Proof.
  assert (∀ l, (∀ k v, (k, v) ∈ l → m !! k = Some v) →
    (l ≫= λ '(k, v), f k v)
    = (l.*1 ≫= λ k, match m !! k with Some v => f k v | None => [] end)) as H1.
  { induction l as [|[k v] l IH]; intros Hl; [done|]. cbn.
    rewrite (Hl k v) by set_solver. f_equal. apply IH. set_solver. }
  apply H1. intros k v. apply elem_of_range.
Qed.

Lemma bind_fmap_out {A B C} (f : B → C) (g : A → list B) (l : list A) :
  (l ≫= λ x, f <$> g x) = f <$> (l ≫= g).
Proof. induction l as [|x l IH]; [done|]. cbn. by rewrite fmap_app, IH. Qed.

Lemma filter_commute {A} (P Q : A → Prop) `{∀ x, Decision (P x), ∀ x, Decision (Q x)} (l : list A) :
  filter P (filter Q l) = filter Q (filter P l).
Proof. rewrite !list_filter_filter. apply list_filter_iff. naive_solver. Qed.

(** A map built by appending, element by element. *)
Lemma group_append_snoc {K} `{Countable K} {E V} (key : E → K) (val : E → V) l x :
  group_append key val (l ++ [x]) = map_append (key x) (val x) (group_append key val l).
Proof. unfold group_append. by rewrite fold_left_app. Qed.

Lemma bind_fmap_in {A B C} (f : A → B) (g : B → list C) (l : list A) :
  ((f <$> l) ≫= g) = (l ≫= λ x, g (f x)).
Proof. induction l as [|x l IH]; [done|]. cbn. by rewrite IH. Qed.

Lemma omap_id {A} (f : A → option A) (l : list A) :
  (∀ x, x ∈ l → f x = Some x) → omap f l = l.
Proof.
  induction l as [|x l IH]; intros Hf; [done|]. cbn. rewrite (Hf x) by set_solver.
  f_equal. apply IH. set_solver.
Qed.

Lemma omap_bind_list {A B C} (f : B → option C) (g : A → list B) (l : list A) :
  omap f (l ≫= g) = (l ≫= λ x, omap f (g x)).
Proof. induction l as [|x l IH]; [done|]. cbn. by rewrite omap_app, IH. Qed.

Lemma filter_keep_all {A} (P : A → Prop) `{∀ x, Decision (P x)} (l : list A) :
  (∀ x, x ∈ l → P x) → filter P l = l.
Proof.
  induction l as [|x l IH]; intros HP; [done|]. rewrite filter_cons_True by set_solver.
  f_equal. apply IH. set_solver.
Qed.

Lemma filter_drop_all {A} (P : A → Prop) `{∀ x, Decision (P x)} (l : list A) :
  (∀ x, x ∈ l → ¬ P x) → filter P l = [].
Proof.
  induction l as [|x l IH]; intros HP; [done|]. rewrite filter_cons_False by set_solver.
  apply IH. set_solver.
Qed.

Lemma NoDup_fmap_filter {A B} (f : A → B) (P : A → Prop) `{∀ x, Decision (P x)} (l : list A) :
  NoDup (f <$> l) → NoDup (f <$> filter P l).
Proof.
  induction l as [|x l IH]; [done|]. rewrite fmap_cons. intros [Hni Hnd]%NoDup_cons.
  rewrite filter_cons. case_decide; [|auto]. cbn. apply NoDup_cons. split; [|auto].
  intros (y & E & [_ Hy]%list_elem_of_filter)%list_elem_of_fmap. apply Hni.
  rewrite E. by apply list_elem_of_fmap_2.
Qed.

(** Elements with distinct keys are determined by their key. *)
Lemma NoDup_fmap_eq {A B} (f : A → B) (l : list A) x y :
  NoDup (f <$> l) → x ∈ l → y ∈ l → f x = f y → x = y.
Proof.
  induction l as [|z l IH]; [set_solver|]. rewrite fmap_cons. intros [Hni Hnd]%NoDup_cons.
  intros [->|Hx]%elem_of_cons [->|Hy]%elem_of_cons E; [done| | |by apply IH];
    exfalso; apply Hni; [rewrite E|rewrite <-E]; by apply list_elem_of_fmap_2.
Qed.

(** Replacing one element changes an [omap] by that element's part. *)
Lemma omap_insert_lookup {A B} (f : A → option B) (l : list A) i x :
  l !! i = Some x → ∃ rest,
    omap f l ≡ₚ option_list (f x) ++ rest
    ∧ ∀ y, omap f (<[i := y]> l) ≡ₚ option_list (f y) ++ rest.
Proof.
  intros Hi. exists (omap f (delete i l)).
  assert (∀ k v, k !! i = Some v → omap f k ≡ₚ option_list (f v) ++ omap f (delete i k)) as H.
  { intros k v Hk. rewrite (delete_Permutation k i v Hk) at 1. cbn. by destruct (f v). }
  split; [by apply H|]. intros y.
  rewrite (H (<[i := y]> l) y) by (apply list_lookup_insert_eq; by eapply lookup_lt_Some).
  rewrite !delete_take_drop, take_insert_ge, drop_insert_lt by lia. done.
Qed.

(** The same for a sum over the list. *)
Lemma sum_insert {A} (g : A → nat) (l : list A) i x y :
  l !! i = Some x →
  (sum_list_with g (<[i := y]> l) + g x = sum_list_with g l + g y)%nat.
Proof.
  revert i. induction l as [|z l IH]; intros [|i] Hi; cbn in *; simplify_eq; [lia|].
  rewrite <-!Nat.add_assoc. f_equal. by apply IH.
Qed.

Lemma elem_of_list_insert {A} (l : list A) i x y :
  y ∈ <[i := x]> l → y = x ∨ y ∈ l.
Proof.
  rewrite !list_elem_of_lookup. intros [k Hk]. destruct (decide (k = i)) as [->|Hne].
  - apply list_lookup_insert_Some in Hk as [(_ & -> & _)|[? Hk]]; [by left|right; eauto].
  - rewrite list_lookup_insert_ne in Hk by done. right. eauto.
Qed.

(** ** Concatenation of strings *)

Lemma app_cons_string c (a b : string) : String c a +:+ b = String c (a +:+ b).
Proof. done. Qed.

Lemma app_nil_string (b : string) : EmptyString +:+ b = b.
Proof. done. Qed.

Lemma string_app_assoc (a b c : string) : (a +:+ b) +:+ c = a +:+ b +:+ c.
Proof. 
  induction a as [|x a IH]; [done|].
  by rewrite !app_cons_string, IH.
Qed.

Lemma string_app_nil_r (s : string) : s +:+ EmptyString = s.
Proof. induction s as [|c s IH]; [done|]. by rewrite app_cons_string, IH. Qed.

Lemma length_app_string (a b : string) :
  String.length (a +:+ b) = (String.length a + String.length b)%nat.
Proof. induction a as [|x a IH]; [done|]. rewrite app_cons_string. cbn. by rewrite IH. Qed.

Lemma string_app_inj_r (a b c : string) : a +:+ c = b +:+ c → a = b.
Proof.
  intros E. assert (String.length a = String.length b) as Hl.
  { apply (f_equal String.length) in E. rewrite !length_app_string in E. lia. }
  revert b E Hl. induction a as [|x a IH]; intros [|y b] E Hl; try done.
  rewrite !app_cons_string in E. injection E as -> E. f_equal. apply IH; [done|].
  cbn in Hl. lia.
Qed.

Lemma digit_cases (P : N → Prop) d :
  P 0%N → P 1%N → P 2%N → P 3%N → P 4%N → P 5%N → P 6%N → P 7%N → P 8%N → P 9%N →
  (d < 10)%N → P d.
Proof.
  intros. assert (d = 0 ∨ d = 1 ∨ d = 2 ∨ d = 3 ∨ d = 4 ∨ d = 5 ∨ d = 6 ∨ d = 7 ∨ d = 8
    ∨ d = 9)%N by lia. naive_solver.
Qed.
