(* ===== verification/GoFloat.v ===== *)
(** * float64

    The finite part of Go's [float64], as far as the watchdog uses it: integers
    converted to floats, sums, products and quotients of them, and truncation
    back to an integer. A float is a significand and an exponent, [fm * 2^fe];
    every operation computes the exact rational result and rounds it to 53
    significant bits, ties to even (IEEE 754 binary64). The watchdog's operands
    are 64-bit integers and the constants 100, 1e9 and 6e10, so no operation
    reaches the subnormal or the overflow range and the exponent needs no
    bounds. *)

From S2P Require Import Prelude.

Record float64 : Type := Float { fm : Z; fe : Z }.

(** Numerator and denominator of the value. *)
Definition fnum (f : float64) : Z := fm f * 2 ^ Z.max (fe f) 0.
Definition fden (f : float64) : Z := 2 ^ Z.max (- fe f) 0.

(** The integer nearest to [n / d], ties to even. *)
Definition div_even (n d : Z) : Z :=
  let q := n / d in
  let r := n mod d in
  if 2 * r <? d then q
  else if d <? 2 * r then q + 1
  else if Z.even q then q else q + 1.

(** [k] with [2^k <= n / d < 2^(k+1)]. *)
Definition ilog (n d : Z) : Z :=
  let k := Z.log2 n - Z.log2 d in
  if n * 2 ^ Z.max (- k) 0 <? d * 2 ^ Z.max k 0 then k - 1 else k.

(** Round the positive rational [n / d] to 53 significant bits. *)
Definition round_pos (n d : Z) : float64 :=
  let e := ilog n d - 52 in
  Float (div_even (n * 2 ^ Z.max (- e) 0) (d * 2 ^ Z.max e 0)) e.

Definition round_frac (n d : Z) : float64 :=
  if n =? 0 then Float 0 0
  else if n <? 0 then let f := round_pos (- n) d in Float (- fm f) (fe f)
  else round_pos n d.

Definition float_of_int (z : Z) : float64 := round_frac z 1.

Definition fadd (a b : float64) : float64 :=
  round_frac (fnum a * fden b + fnum b * fden a) (fden a * fden b).

Definition fmul (a b : float64) : float64 :=
  round_frac (fnum a * fnum b) (fden a * fden b).

(** Division by a non-zero float. *)
Definition fdiv (a b : float64) : float64 :=
  let n := fnum a * fden b in
  let d := fden a * fnum b in
  if d <? 0 then round_frac (- n) (- d) else round_frac n d.

(** Truncation towards zero. *)
Definition ftrunc (f : float64) : Z := Z.quot (fnum f) (fden f).

(** [int(f)]: a value outside the range gives the minimum integer (amd64). *)
Definition int_of_float (f : float64) : Z :=
  let z := ftrunc f in
  if bool_decide (- two63 ≤ z < two63) then z else - two63.

(** [uint64(f)] for [f] in range; other values wrap. *)
Definition uint64_of_float (f : float64) : Z := uint64 (ftrunc f).

(** [f > 0]. *)
Definition fpos (f : float64) : bool := 0 <? fm f.

(** ** Rounding *)

Lemma fden_pos f : 0 < fden f.
Proof. apply Z.pow_pos_nonneg; lia. Qed.

Lemma div_even_le n d c : 0 < d → n ≤ c * d → div_even n d ≤ c.
Proof.
  intros Hd Hn. unfold div_even.
  pose proof (Z.div_mod n d ltac:(lia)). pose proof (Z.mod_pos_bound n d Hd).
  assert (n / d ≤ c) by (apply Z.div_le_upper_bound; lia).
  destruct (Z.ltb_spec (2 * (n mod d)) d); [lia|].
  assert (n / d ≠ c) by (intros E; rewrite E in *; nia).
  destruct (d <? 2 * (n mod d)); [lia|]. destruct (Z.even (n / d)); lia.
Qed.

Lemma div_even_ge n d c : 0 < d → c * d ≤ n → c ≤ div_even n d.
Proof.
  intros Hd Hn. unfold div_even.
  assert (c ≤ n / d) by (apply Z.div_le_lower_bound; lia).
  destruct (2 * (n mod d) <? d); [lia|].
  destruct (d <? 2 * (n mod d)); [lia|]. destruct (Z.even (n / d)); lia.
Qed.

(** The rounding error is at most one half. *)
Lemma div_even_half n d : 0 < d → 2 * (div_even n d * d) ≤ 2 * n + d.
Proof.
  intros Hd. unfold div_even.
  pose proof (Z.div_mod n d ltac:(lia)). pose proof (Z.mod_pos_bound n d Hd).
  destruct (Z.ltb_spec (2 * (n mod d)) d); [nia|].
  destruct (Z.ltb_spec d (2 * (n mod d))); [nia|].
  destruct (Z.even (n / d)); nia.
Qed.

(** [ilog] brackets the quotient. The powers are split so that both sides stay
    integral whatever the sign of the exponent. *)
Lemma ilog_lower n d :
  0 < n → 0 < d →
  d * 2 ^ Z.max (ilog n d) 0 ≤ n * 2 ^ Z.max (- ilog n d) 0.
Proof.
  intros Hn Hd. unfold ilog.
  pose proof (Z.log2_spec n Hn) as [Hn1 Hn2]. pose proof (Z.log2_spec d Hd) as [Hd1 Hd2].
  pose proof (Z.log2_nonneg n). pose proof (Z.log2_nonneg d).
  set (k := Z.log2 n - Z.log2 d) in *.
  destruct (Z.ltb_spec (n * 2 ^ Z.max (- k) 0) (d * 2 ^ Z.max k 0)); [|lia].
  destruct (Z.le_gt_cases 1 k).
  - rewrite (Z.max_l (k - 1) 0), (Z.max_r (- (k - 1)) 0) by lia.
    rewrite Z.pow_0_r, Z.mul_1_r.
    assert (2 ^ Z.succ (Z.log2 d) * 2 ^ (k - 1) = 2 ^ Z.log2 n) as E1.
    { rewrite <-Z.pow_add_r by lia. f_equal. lia. }
    assert (0 < 2 ^ (k - 1)) by (apply Z.pow_pos_nonneg; lia). nia.
  - rewrite (Z.max_r (k - 1) 0), (Z.max_l (- (k - 1)) 0) by lia.
    rewrite Z.pow_0_r, Z.mul_1_r.
    assert (2 ^ Z.log2 n * 2 ^ (- (k - 1)) = 2 ^ Z.succ (Z.log2 d)) as E1.
    { rewrite <-Z.pow_add_r by lia. f_equal. lia. }
    assert (0 < 2 ^ (- (k - 1))) by (apply Z.pow_pos_nonneg; lia). nia.
Qed.

Lemma ilog_upper n d :
  0 < n → 0 < d →
  n * 2 ^ Z.max (- (ilog n d + 1)) 0 < d * 2 ^ Z.max (ilog n d + 1) 0.
Proof.
  intros Hn Hd. unfold ilog.
  pose proof (Z.log2_spec n Hn) as [Hn1 Hn2]. pose proof (Z.log2_spec d Hd) as [Hd1 Hd2].
  pose proof (Z.log2_nonneg n). pose proof (Z.log2_nonneg d).
  set (k := Z.log2 n - Z.log2 d) in *.
  destruct (Z.ltb_spec (n * 2 ^ Z.max (- k) 0) (d * 2 ^ Z.max k 0)).
  { replace (k - 1 + 1) with k by lia. lia. }
  destruct (Z.le_gt_cases 0 (k + 1)).
  - rewrite (Z.max_l (k + 1) 0), (Z.max_r (- (k + 1)) 0) by lia.
    rewrite Z.pow_0_r, Z.mul_1_r.
    assert (2 ^ Z.log2 d * 2 ^ (k + 1) = 2 ^ Z.succ (Z.log2 n)) as E1.
    { rewrite <-Z.pow_add_r by lia. f_equal. lia. }
    assert (0 < 2 ^ (k + 1)) by (apply Z.pow_pos_nonneg; lia). nia.
  - rewrite (Z.max_r (k + 1) 0), (Z.max_l (- (k + 1)) 0) by lia.
    rewrite Z.pow_0_r, Z.mul_1_r.
    assert (2 ^ Z.succ (Z.log2 n) * 2 ^ (- (k + 1)) = 2 ^ Z.log2 d) as E1.
    { rewrite <-Z.pow_add_r by lia. f_equal. lia. }
    assert (0 < 2 ^ (- (k + 1))) by (apply Z.pow_pos_nonneg; lia). nia.
Qed.

(** Powers with the sign split: [2^a / 2^(-a)] is strictly increasing. *)
Lemma pow_split_mono a b :
  a ≤ b → 2 ^ Z.max a 0 * 2 ^ Z.max (- b) 0 ≤ 2 ^ Z.max b 0 * 2 ^ Z.max (- a) 0.
Proof.
  intros Hab. rewrite <-!Z.pow_add_r by lia. apply Z.pow_le_mono_r; lia.
Qed.

(** The bracket determines the exponent. *)
Lemma ilog_unique n d k :
  0 < n → 0 < d →
  d * 2 ^ Z.max k 0 ≤ n * 2 ^ Z.max (- k) 0 →
  n * 2 ^ Z.max (- (k + 1)) 0 < d * 2 ^ Z.max (k + 1) 0 →
  ilog n d = k.
Proof.
  intros Hn Hd Hlo Hhi.
  pose proof (ilog_lower n d Hn Hd) as Hlo'. pose proof (ilog_upper n d Hn Hd) as Hhi'.
  set (j := ilog n d) in *.
  assert (∀ x, 0 < 2 ^ Z.max x 0) as Hp by (intros; apply Z.pow_pos_nonneg; lia).
  destruct (Z.lt_trichotomy j k) as [Hjk|[Hjk|Hjk]]; [exfalso|done|exfalso].
  - pose proof (pow_split_mono (j + 1) k ltac:(lia)).
    pose proof (Hp (- (j + 1))). pose proof (Hp (- k)).
    assert (d * (2 ^ Z.max k 0 * 2 ^ Z.max (- (j + 1)) 0)
      < d * (2 ^ Z.max (j + 1) 0 * 2 ^ Z.max (- k) 0)) by nia. nia.
  - pose proof (pow_split_mono (k + 1) j ltac:(lia)).
    pose proof (Hp (- (k + 1))). pose proof (Hp (- j)).
    assert (d * (2 ^ Z.max j 0 * 2 ^ Z.max (- (k + 1)) 0)
      < d * (2 ^ Z.max (k + 1) 0 * 2 ^ Z.max (- j) 0)) by nia. nia.
Qed.

Lemma ilog_scale c n d : 0 < c → 0 < n → 0 < d → ilog (c * n) (c * d) = ilog n d.
Proof.
  intros Hc Hn Hd. apply ilog_unique; [nia|nia| |].
  - pose proof (ilog_lower n d Hn Hd). nia.
  - pose proof (ilog_upper n d Hn Hd). nia.
Qed.

Lemma div_even_scale c n d : 0 < c → 0 < d → div_even (c * n) (c * d) = div_even n d.
Proof.
  intros Hc Hd. unfold div_even.
  rewrite Z.div_mul_cancel_l, Z.mul_mod_distr_l by lia.
  assert (∀ x y, (2 * (c * x) <? c * y) = (2 * x <? y)) as E1.
  { intros x y. apply eq_bool_prop_intro; rewrite !Is_true_true, !Z.ltb_lt; nia. }
  assert (∀ x y, (c * y <? 2 * (c * x)) = (y <? 2 * x)) as E2.
  { intros x y. apply eq_bool_prop_intro; rewrite !Is_true_true, !Z.ltb_lt; nia. }
  by rewrite E1, E2.
Qed.

(** Rounding depends on the rational, not on its representation. *)
Lemma round_frac_scale c n d :
  0 < c → 0 < d → round_frac (c * n) (c * d) = round_frac n d.
Proof.
  intros Hc Hd. unfold round_frac, round_pos.
  destruct (Z.eqb_spec n 0) as [->|Hn0].
  { by rewrite Z.mul_0_r. }
  destruct (Z.eqb_spec (c * n) 0); [nia|].
  assert ((c * n <? 0) = (n <? 0)) as ->.
  { apply eq_bool_prop_intro; rewrite !Is_true_true, !Z.ltb_lt; nia. }
  destruct (Z.ltb_spec n 0).
  - replace (- (c * n)) with (c * - n) by lia.
    rewrite ilog_scale by lia. rewrite <-!Z.mul_assoc.
    by rewrite div_even_scale by (try apply Z.mul_pos_pos; try apply Z.pow_pos_nonneg; lia).
  - rewrite ilog_scale by lia. rewrite <-!Z.mul_assoc.
    by rewrite div_even_scale by (try apply Z.mul_pos_pos; try apply Z.pow_pos_nonneg; lia).
Qed.

(** Below [2^53] the exponent is not positive, so the significand is the
    numerator. *)
Lemma ilog_small n d j : 0 < n → 0 < d → 0 ≤ j → n < d * 2 ^ j → ilog n d < j.
Proof.
  intros Hn Hd Hj Hlt. pose proof (ilog_lower n d Hn Hd) as Hlo.
  destruct (Z.lt_ge_cases (ilog n d) j) as [|Hge]; [done|exfalso].
  rewrite (Z.max_l (ilog n d) 0), (Z.max_r (- ilog n d) 0), Z.pow_0_r in Hlo by lia.
  pose proof (Z.pow_le_mono_r 2 j (ilog n d) ltac:(lia) Hge). nia.
Qed.

Definition two53 : Z := 9007199254740992.

Lemma round_small n d :
  0 < n → 0 < d → n < d * two53 →
  ∃ p, 0 ≤ p ∧ p = 52 - ilog n d ∧ fden (round_frac n d) = 2 ^ p
    ∧ fnum (round_frac n d) = div_even (n * 2 ^ p) d.
Proof.
  intros Hn Hd Hlt. pose proof (ilog_small n d 53 Hn Hd ltac:(lia) Hlt).
  exists (52 - ilog n d). unfold round_frac, round_pos, fden, fnum.
  destruct (Z.eqb_spec n 0); [lia|]. destruct (Z.ltb_spec n 0); [lia|].
  cbn [fm fe]. rewrite !(Z.max_r (ilog n d - 52) 0), !Z.pow_0_r, !Z.mul_1_r by lia.
  rewrite (Z.max_l (- (ilog n d - 52)) 0) by lia.
  replace (- (ilog n d - 52)) with (52 - ilog n d) by lia. repeat split; lia.
Qed.

Lemma round_frac_0 d : fnum (round_frac 0 d) = 0 ∧ fden (round_frac 0 d) = 1.
Proof. done. Qed.

(** Rounding is monotone at representable integers. *)
Lemma round_frac_le n d c :
  0 ≤ n → 0 < d → c < two53 → n ≤ c * d →
  fnum (round_frac n d) ≤ c * fden (round_frac n d).
Proof.
  intros Hn Hd Hc Hle.
  destruct (Z.eq_dec n 0) as [->|]; [destruct (round_frac_0 d) as [-> ->]; nia|].
  assert (c * d < two53 * d) by (apply Z.mul_lt_mono_pos_r; lia).
  destruct (round_small n d) as (p & Hp & _ & -> & ->); [lia|lia|lia|].
  apply div_even_le; [lia|]. pose proof (Z.pow_pos_nonneg 2 p). nia.
Qed.

Lemma round_frac_ge n d c :
  0 ≤ n → 0 < d → n < d * two53 → c * d ≤ n →
  c * fden (round_frac n d) ≤ fnum (round_frac n d).
Proof.
  intros Hn Hd Hlt Hle. destruct (Z.eq_dec n 0) as [->|]; [destruct (round_frac_0 d) as [-> ->]; nia|].
  destruct (round_small n d) as (p & Hp & _ & -> & ->); [lia|lia|lia|].
  apply div_even_ge; [lia|]. pose proof (Z.pow_pos_nonneg 2 p). nia.
Qed.

Lemma fnum_round_nonneg n d : 0 ≤ n → 0 < d → 0 ≤ fnum (round_frac n d).
Proof.
  intros Hn Hd. unfold round_frac, round_pos, fnum.
  destruct (n =? 0); [done|]. destruct (Z.ltb_spec n 0); [lia|]. cbn [fm fe].
  apply Z.mul_nonneg_nonneg; [|apply Z.pow_nonneg; lia].
  apply div_even_ge; [apply Z.mul_pos_pos; [lia|apply Z.pow_pos_nonneg; lia]|].
  rewrite Z.mul_0_l. apply Z.mul_nonneg_nonneg; [lia|apply Z.pow_nonneg; lia].
Qed.

(** ** Truncation *)

Lemma ftrunc_nonneg f : 0 ≤ fnum f → ftrunc f = fnum f / fden f.
Proof. intros Hf. pose proof (fden_pos f). apply Z.quot_div_nonneg; lia. Qed.

Lemma ftrunc_round_le n d c :
  0 ≤ n → 0 < d → 0 ≤ c < two53 → n ≤ c * d → ftrunc (round_frac n d) ≤ c.
Proof.
  intros Hn Hd Hc Hle. pose proof (fden_pos (round_frac n d)).
  rewrite ftrunc_nonneg by (by apply fnum_round_nonneg).
  apply Z.div_le_upper_bound; [done|]. pose proof (round_frac_le n d c). lia.
Qed.

Lemma ftrunc_round_ge n d c :
  0 ≤ n → 0 < d → n < d * two53 → c * d ≤ n → c ≤ ftrunc (round_frac n d).
Proof.
  intros Hn Hd Hlt Hle. pose proof (fden_pos (round_frac n d)).
  rewrite ftrunc_nonneg by (by apply fnum_round_nonneg).
  apply Z.div_le_lower_bound; [done|]. pose proof (round_frac_ge n d c). lia.
Qed.

(** A quotient of integers below [2^53] truncates to the integer quotient: the
    rounding never reaches the next integer. *)
Lemma ftrunc_quotient n d :
  0 ≤ n < two53 → 0 < d → ftrunc (round_frac n d) = n / d.
Proof.
  intros [Hn Hlt] Hd.
  pose proof (Z.div_mod n d ltac:(lia)) as Hdm. pose proof (Z.mod_pos_bound n d Hd).
  assert (0 ≤ n / d) by (apply Z.div_pos; lia).
  assert (n < d * two53) by (unfold two53 in *; nia).
  rewrite ftrunc_nonneg by (by apply fnum_round_nonneg).
  destruct (Z.eq_dec n 0) as [->|].
  { destruct (round_frac_0 d) as [-> ->]. by rewrite Z.div_0_l by lia. }
  pose proof (ilog_lower n d ltac:(lia) Hd) as Hlow.
  destruct (round_small n d) as (p & Hp & Ep & -> & ->); [lia|lia|lia|].
  assert (0 < 2 ^ p) as Hpp by (apply Z.pow_pos_nonneg; lia).
  (* the denominator is smaller than twice the scale *)
  assert (d < 2 * 2 ^ p) as Hscale.
  { destruct (Z.le_gt_cases 0 (ilog n d)) as [Hk|Hk].
    - rewrite (Z.max_l (ilog n d) 0), (Z.max_r (- ilog n d) 0), Z.pow_0_r in Hlow by lia.
      assert (2 ^ ilog n d * 2 ^ (p + 1) = two53) as Hprod.
      { rewrite <-Z.pow_add_r by lia. by replace (ilog n d + (p + 1)) with 53 by lia. }
      rewrite Z.pow_add_r in Hprod by lia. change (2 ^ 1) with 2 in Hprod.
      assert (0 < 2 ^ ilog n d) by (apply Z.pow_pos_nonneg; lia). nia.
    - rewrite (Z.max_r (ilog n d) 0), (Z.max_l (- ilog n d) 0), Z.pow_0_r in Hlow by lia.
      assert (2 * 2 ^ p = two53 * 2 ^ (- ilog n d)) as Hprod.
      { change two53 with (2 ^ 53). rewrite <-Z.pow_add_r by lia.
        change 2 with (2 ^ 1) at 1. rewrite <-Z.pow_add_r by lia. f_equal. lia. }
      assert (0 < 2 ^ (- ilog n d)) by (apply Z.pow_pos_nonneg; lia). nia. }
  assert (n / d * 2 ^ p ≤ div_even (n * 2 ^ p) d) by (apply div_even_ge; nia).
  pose proof (div_even_half (n * 2 ^ p) d Hd).
  symmetry. apply Z.div_unique with (div_even (n * 2 ^ p) d - 2 ^ p * (n / d)); [left|lia].
  split; [lia|]. nia.
Qed.

(** ** Integers as floats *)

Lemma float_of_int_exact z :
  0 ≤ z < two53 → fnum (float_of_int z) = z * fden (float_of_int z).
Proof.
  intros Hz. unfold float_of_int.
  pose proof (round_frac_le z 1 z). pose proof (round_frac_ge z 1 z). lia.
Qed.

Lemma float_of_int_nonneg z : 0 ≤ z → 0 ≤ fnum (float_of_int z).
Proof. intros. by apply fnum_round_nonneg. Qed.

(** [float64(a) / float64(b)] rounds the rational [a / b]. *)
Lemma fdiv_ints a b :
  0 ≤ a < two53 → 0 < b < two53 →
  fdiv (float_of_int a) (float_of_int b) = round_frac a b.
Proof.
  intros Ha Hb. unfold fdiv.
  rewrite !float_of_int_exact by lia.
  pose proof (fden_pos (float_of_int a)). pose proof (fden_pos (float_of_int b)).
  set (da := fden (float_of_int a)) in *. set (db := fden (float_of_int b)) in *.
  destruct (Z.ltb_spec (da * (b * db)) 0); [nia|].
  replace (a * da * db) with (da * db * a) by lia.
  replace (da * (b * db)) with (da * db * b) by lia.
  apply round_frac_scale; nia.
Qed.

(** [int(float64(sum) / float64(count))] is the integer quotient. *)
Lemma int_of_quotient a b :
  0 ≤ a < two53 → 0 < b < two53 →
  int_of_float (fdiv (float_of_int a) (float_of_int b)) = a / b.
Proof.
  intros Ha Hb. unfold int_of_float. rewrite fdiv_ints, ftrunc_quotient by lia.
  assert (0 ≤ a / b ≤ a).
  { split; [apply Z.div_pos; lia|]. apply Z.div_le_upper_bound; nia. }
  rewrite bool_decide_eq_true_2; [done|]. unfold two63, two53 in *. lia.
Qed.

(** A product with a small integer factor stays below its exact bound. *)
Lemma fmul_le f k c :
  0 ≤ fnum f → 0 ≤ k < two53 → 0 ≤ c → c * k < two53 → fnum f ≤ c * fden f →
  0 ≤ ftrunc (fmul f (float_of_int k)) ≤ c * k.
Proof.
  intros Hf Hk Hc Hck Hle. unfold fmul. rewrite float_of_int_exact by done.
  pose proof (fden_pos f). pose proof (fden_pos (float_of_int k)).
  set (dk := fden (float_of_int k)) in *.
  replace (fnum f * (k * dk)) with (dk * (fnum f * k)) by lia.
  rewrite (Z.mul_comm (fden f) dk), round_frac_scale by lia.
  split.
  - rewrite ftrunc_nonneg by (apply fnum_round_nonneg; nia).
    apply Z.div_pos; [apply fnum_round_nonneg; nia|apply fden_pos].
  - apply ftrunc_round_le; nia.
Qed.

(** Agreement with decimal results computed by Go. *)
Example float_ex1 : ftrunc (fmul (fdiv (float_of_int 29) (float_of_int 100)) (float_of_int 100)) = 28.
Proof. vm_compute. reflexivity. Qed.
Example float_ex2 : ftrunc (fmul (fdiv (float_of_int 1) (float_of_int 3)) (float_of_int 100)) = 33.
Proof. vm_compute. reflexivity. Qed.

(** ** Percentages *)

Lemma div_even_half_ge n d : 0 < d → 2 * n - d ≤ 2 * (div_even n d * d).
Proof.
  intros Hd. unfold div_even.
  pose proof (Z.div_mod n d ltac:(lia)). pose proof (Z.mod_pos_bound n d Hd).
  destruct (Z.ltb_spec (2 * (n mod d)) d); [nia|].
  destruct (Z.ltb_spec d (2 * (n mod d))); [nia|].
  destruct (Z.even (n / d)); nia.
Qed.

(** Rounding a rational below [2^j] moves it by at most [2^(j - 54)]; stated
    with [2^(53 - j) = s]. *)
Lemma round_error n d j s :
  0 < n → 0 < d → 0 ≤ j ≤ 53 → n < d * 2 ^ j → s = 2 ^ (53 - j) →
  let b := round_frac n d in
  2 * s * (fnum b * d) ≤ (2 * s * n + d) * fden b
  ∧ (2 * s * n - d) * fden b ≤ 2 * s * (fnum b * d).
Proof.
  intros Hn Hd Hj Hlt -> b.
  pose proof (ilog_small n d j Hn Hd ltac:(lia) Hlt).
  assert (2 ^ j ≤ 2 ^ 53) by (apply Z.pow_le_mono_r; lia).
  change (2 ^ 53) with two53 in *.
  destruct (round_small n d) as (p & Hp & Ep & Ed & En); [lia|lia|nia|].
  subst b. rewrite Ed, En.
  assert (2 ^ p = 2 ^ (53 - j) * 2 ^ (p - (53 - j))) as E
    by (rewrite <-Z.pow_add_r by lia; f_equal; lia).
  pose proof (div_even_half (n * 2 ^ p) d Hd). pose proof (div_even_half_ge (n * 2 ^ p) d Hd).
  assert (0 < 2 ^ (53 - j)) by (apply Z.pow_pos_nonneg; lia).
  assert (1 ≤ 2 ^ (p - (53 - j))) by (apply Zle_0_nat || (apply (Z.pow_le_mono_r 2 0); lia)).
  set (q := div_even (n * 2 ^ p) d) in *. set (s := 2 ^ (53 - j)) in *.
  set (t := 2 ^ (p - (53 - j))) in *. rewrite E in *. split; nia.
Qed.

(** [int(float64(c) / float64(k) * 100)] is the integer percentage, or one less
    when rounding falls on the wrong side. *)
Lemma percent_bounds c k :
  0 ≤ c ≤ k → 0 < k < 17592186044416 →
  let p := int_of_float (fmul (fdiv (float_of_int c) (float_of_int k)) (float_of_int 100)) in
  100 * c / k - 1 ≤ p ≤ 100 * c / k ∧ 0 ≤ p ≤ 100.
Proof.
  intros Hc Hk p. subst p. rewrite fdiv_ints by (unfold two53; lia).
  set (f := round_frac c k). pose proof (fden_pos f) as HD.
  assert (0 ≤ fnum f) as Hf0 by (apply fnum_round_nonneg; lia).
  assert (fnum f ≤ 1 * fden f) as Hf1 by (apply round_frac_le; unfold two53; lia).
  assert (0 ≤ ftrunc (fmul f (float_of_int 100)) ≤ 1 * 100) as Hp
    by (apply fmul_le; unfold two53; lia).
  unfold int_of_float. rewrite bool_decide_eq_true_2 by (unfold two63; lia).
  split; [|lia]. destruct (Z.eq_dec c 0) as [->|Hc0].
  { subst f. change (round_frac 0 k) with (Float 0 0).
    replace (100 * 0) with 0 by lia. rewrite Z.div_0_l by lia. vm_compute. split; congruence. }
  destruct (round_error c k 1 4503599627370496 ltac:(lia) ltac:(lia) ltac:(lia) ltac:(lia) eq_refl)
    as [Hup Hlo]. fold f in Hup, Hlo.
  assert (0 < fnum f) as Hfpos by nia.
  pose proof (Z.div_mod (100 * c) k ltac:(lia)) as Hq.
  pose proof (Z.mod_pos_bound (100 * c) k ltac:(lia)) as Hr.
  set (q := 100 * c / k) in *. set (r := (100 * c) mod k) in *.
  assert (fmul f (float_of_int 100) = round_frac (fnum f * 100) (fden f)) as ->.
  { unfold fmul. rewrite float_of_int_exact by (unfold two53; lia).
    pose proof (fden_pos (float_of_int 100)). set (dk := fden (float_of_int 100)) in *.
    replace (fnum f * (100 * dk)) with (dk * (fnum f * 100)) by lia.
    by rewrite (Z.mul_comm (fden f) dk), round_frac_scale by lia. }
  split.
  - apply ftrunc_round_ge; [lia|lia|unfold two53; lia|].
    assert (9007199254740992 * q * k * fden f - 100 * k * fden f
      ≤ 9007199254740992 * (fnum f * 100) * k) by nia. nia.
  - destruct (round_error (fnum f * 100) (fden f) 7 70368744177664 ltac:(lia) HD ltac:(lia)
      ltac:(lia) eq_refl) as [Hup2 _].
    set (b := round_frac (fnum f * 100) (fden f)) in *. pose proof (fden_pos b) as HB.
    rewrite ftrunc_nonneg by (apply fnum_round_nonneg; lia).
    assert (fnum b < (q + 1) * fden b); [|apply Z.lt_succ_r, Z.div_lt_upper_bound; lia].
    assert (100 * c ≤ (q + 1) * k - 1) as Hc1 by lia.
    assert (9007199254740992 * fnum f * k ≤ (9007199254740992 * c + k) * fden f) by lia.
    assert (9007199254740992 * (fnum b * k) * fden f
      ≤ (100 * 9007199254740992 * c + 164 * k) * fden b * fden f) as H1 by nia.
    assert (9007199254740992 * (fnum b * k)
      ≤ (100 * 9007199254740992 * c + 164 * k) * fden b) as H2
      by (eapply Z.mul_le_mono_pos_r; [exact HD|exact H1]).
    assert ((100 * 9007199254740992 * c + 164 * k) < 9007199254740992 * ((q + 1) * k)) by lia.
    nia.
Qed.
