(* ===== verification/GoFmt.v ===== *)
(** * fmt.Sprintf

    The verbs the watchdog's format strings use, [%s], [%d], [%v], [%f] and
    [%%], on the operand types it passes, with the text Go prints for a wrong
    verb, a missing operand and an extra one. *)

From S2P Require Import Prelude GoFloat.

(** The integer types of operands (Go prints the name for a wrong verb). *)
Inductive int_type : Set := TInt | TInt64 | TUint32 | TUint64.

Definition int_type_name (t : int_type) : string :=
  match t with
  | TInt => "int" | TInt64 => "int64" | TUint32 => "uint32" | TUint64 => "uint64"
  end.

(** An operand of [Sprintf]. *)
Inductive operand : Type :=
  | OInt (t : int_type) (z : Z)
  | OStr (s : string)
  | OBool (b : bool)
  | OFloat (f : float64)
  | OInts (t : int_type) (l : list Z).

Definition show_bool (b : bool) : string := if b then "true" else "false".

Fixpoint pad_left (c : ascii) (n : nat) (s : string) : string :=
  match n with
  | O => s
  | S n => if (String.length s <? S n)%nat then String c (pad_left c n s) else s
  end.

(** [%f]: six decimals, rounded to even on the exact value. *)
Definition show_float (f : float64) : string :=
  let n := div_even (Z.abs (fnum f) * 1000000) (fden f) in
  (if fm f <? 0 then "-" else EmptyString)
  +:+ Itoa (n / 1000000) +:+ "." +:+ pad_left "0"%char 6 (Itoa (n mod 1000000)).

Definition show_ints (l : list Z) : string := "[" +:+ join " " (Itoa <$> l) +:+ "]".

Definition operand_type (o : operand) : string :=
  match o with
  | OInt t _ => int_type_name t
  | OStr _ => "string"
  | OBool _ => "bool"
  | OFloat _ => "float64"
  | OInts t _ => "[]" +:+ int_type_name t
  end.

(** [%v]; [OFloat] does not occur under it. *)
Definition show_default (o : operand) : string :=
  match o with
  | OInt _ z => Itoa z
  | OStr s => s
  | OBool b => show_bool b
  | OFloat f => show_float f
  | OInts _ l => show_ints l
  end.

(** [%!verb(type=value)]. A slice under a wrong verb prints per element. *)
Definition bad_verb (c : ascii) (o : operand) : string :=
  match o with
  | OInts t l =>
      "[" +:+ join " " ((λ z, "%!" +:+ String c EmptyString +:+ "(" +:+ int_type_name t
        +:+ "=" +:+ Itoa z +:+ ")") <$> l) +:+ "]"
  | _ => "%!" +:+ String c EmptyString +:+ "(" +:+ operand_type o +:+ "="
           +:+ show_default o +:+ ")"
  end.

Definition format_verb (c : ascii) (o : operand) : string :=
  if decide (c = "v"%char) then show_default o
  else if decide (c = "d"%char) then
    match o with
    | OInt _ z => Itoa z | OInts _ l => show_ints l | _ => bad_verb c o
    end
  else if decide (c = "s"%char) then
    match o with OStr s => s | _ => bad_verb c o end
  else if decide (c = "f"%char) then
    match o with OFloat f => show_float f | _ => bad_verb c o end
  else bad_verb c o.

(** What follows the text when operands are left over. *)
Definition extra_operands (args : list operand) : string :=
  match args with
  | [] => EmptyString
  | _ => "%!(EXTRA "
      +:+ join ", " ((λ o, operand_type o +:+ "=" +:+ show_default o) <$> args) +:+ ")"
  end.

Fixpoint Sprintf (format : string) (args : list operand) : string :=
  match format with
  | EmptyString => extra_operands args
  | String "%"%char EmptyString => "%!(NOVERB)" +:+ extra_operands args
  | String "%"%char (String "%"%char rest) => String "%"%char (Sprintf rest args)
  | String "%"%char (String c rest) =>
      match args with
      | [] => "%!" +:+ String c EmptyString +:+ "(MISSING)" +:+ Sprintf rest []
      | o :: args => format_verb c o +:+ Sprintf rest args
      end
  | String c rest => String c (Sprintf rest args)
  end.

Example sprintf_ex1 :
  Sprintf "Shard %d at %s: %f%%" [OInt TInt (-3); OStr "x"; OFloat (fdiv (float_of_int 5) (float_of_int 2))]
  = "Shard -3 at x: 2.500000%".
Proof. vm_compute. reflexivity. Qed.

Example sprintf_ex2 :
  Sprintf "%s %d" [OInt TInt 7] = "%!s(int=7) %!d(MISSING)".
Proof. vm_compute. reflexivity. Qed.
