(* ===== verification/GoTime.v ===== *)
(** * time

    Instants, durations, their conversion to seconds and minutes and the one
    layout the watchdog prints ([timeFormat], reporting-server.go). *)

From S2P Require Import Prelude GoFloat GoFmt.

(** A [time.Duration]: nanoseconds as [int64]. *)
Definition Second : Z := 1000000000.

(** [d.Seconds()]. *)
Definition Seconds (d : Z) : float64 :=
  fadd (float_of_int (Z.quot d Second))
       (fdiv (float_of_int (Z.rem d Second)) (float_of_int Second)).

(** [d.Minutes()]. *)
Definition Minutes (d : Z) : float64 :=
  fadd (float_of_int (Z.quot d (60 * Second)))
       (fdiv (float_of_int (Z.rem d (60 * Second))) (float_of_int (60 * Second))).

(** A wall-clock instant in UTC: seconds since year 1 as [int64] and
    nanoseconds within the second. *)
Record Time : Type := MkTime { t_sec : Z; t_nsec : Z }.

#[global] Instance Time_eq_dec : EqDecision Time.
Proof. solve_decision. Defined.

Definition unixToInternal : Z := 62135596800.

(** [time.Unix(sec, 0).UTC()]. *)
Definition Unix (sec : Z) : Time := MkTime (int64 (sec + unixToInternal)) 0.

(** [t.Unix()]. *)
Definition unixSec (t : Time) : Z := int64 (t_sec t - unixToInternal).

(** Nanoseconds since year 1. *)
Definition instant (t : Time) : Z := t_sec t * Second + t_nsec t.

(** [t.Sub(u)]: the difference, saturated at the range of [int64]. *)
Definition Sub (t u : Time) : Z :=
  let d := instant t - instant u in
  if d <? - two63 then - two63 else if two63 - 1 <? d then two63 - 1 else d.

(** ** The layout "15:04:05 Jan _2 MST" *)

(** Month (1 to 12) and day of the month of the [n]-th day after 1970-01-01 in
    the proleptic Gregorian calendar. Years are counted from 1 March, so that
    the leap day is the last of its year. *)
Definition month_day (n : Z) : Z * Z :=
  let doe := (n + 719468) mod 146097 in
  let yoe := (doe - doe / 1460 + doe / 36524 - doe / 146096) / 365 in
  let doy := doe - (365 * yoe + yoe / 4 - yoe / 100) in
  let mp := (5 * doy + 2) / 153 in
  (if mp <? 10 then mp + 3 else mp - 9, doy - (153 * mp + 2) / 5 + 1).

Definition month_names : list string :=
  ["Jan"; "Feb"; "Mar"; "Apr"; "May"; "Jun"; "Jul"; "Aug"; "Sep"; "Oct"; "Nov"; "Dec"].

Definition two_digits (z : Z) : string := pad_left "0"%char 2 (Itoa z).

(** [t.Format(timeFormat)] for a UTC time. *)
Definition Format (t : Time) : string :=
  let s := unixSec t in
  let '(m, d) := month_day (s / 86400) in
  let r := s mod 86400 in
  two_digits (r / 3600) +:+ ":" +:+ two_digits (r / 60 mod 60) +:+ ":"
  +:+ two_digits (r mod 60) +:+ " " +:+ default EmptyString (month_names !! Z.to_nat (m - 1))
  +:+ " " +:+ pad_left " "%char 2 (Itoa d) +:+ " UTC".

Example format_ex1 : Format (Unix 1581100674) = "18:37:54 Feb  7 UTC".
Proof. vm_compute. reflexivity. Qed.
Example format_ex2 : Format (Unix 951782400) = "00:00:00 Feb 29 UTC".
Proof. vm_compute. reflexivity. Qed.

(** ** Whole seconds *)

(** The whole seconds the monitors compare with their thresholds:
    [uint64(d.Seconds())]. *)
Definition whole_seconds (d : Z) : Z := uint64_of_float (Seconds d).

Lemma Sub_exact t u :
  is_int64 (instant t - instant u) → Sub t u = instant t - instant u.
Proof.
  intros [H1 H2]. unfold Sub. cbv zeta.
  destruct (Z.ltb_spec (instant t - instant u) (- two63)); [lia|].
  destruct (Z.ltb_spec (two63 - 1) (instant t - instant u)); lia.
Qed.

Lemma Sub_range t u : is_int64 (Sub t u).
Proof.
  unfold Sub, is_int64. cbv zeta. assert (0 < two63) by done.
  destruct (Z.ltb_spec (instant t - instant u) (- two63)); [lia|].
  destruct (Z.ltb_spec (two63 - 1) (instant t - instant u)); lia.
Qed.

Lemma unixSec_Unix s : is_int64 s → unixSec (Unix s) = s.
Proof. unfold is_int64, unixSec, Unix, int64, unixToInternal, two63, two64. cbn. intros. zmod. Qed.

(** The fractional part of [Seconds] stays clear of one. *)
Lemma frac_second_gap ns :
  0 ≤ ns < Second →
  let b := round_frac ns Second in
  0 ≤ fnum b ∧ fden b ≤ 1073741824 * (fden b - fnum b).
Proof.
  intros Hns b. unfold Second in *. destruct (Z.eq_dec ns 0) as [->|].
  { subst b. destruct (round_frac_0 1000000000) as [-> ->]. lia. }
  split; [apply fnum_round_nonneg; lia|].
  pose proof (ilog_small ns 1000000000 0 ltac:(lia) ltac:(lia) ltac:(lia) ltac:(lia)).
  destruct (round_small ns 1000000000) as (p & Hp & Ep & Ed & En);
    [lia|lia|unfold two53; lia|].
  subst b. rewrite Ed, En.
  assert (2 ^ 53 ≤ 2 ^ p) by (apply Z.pow_le_mono_r; lia).
  pose proof (div_even_half (ns * 2 ^ p) 1000000000 ltac:(lia)).
  change (2 ^ 53) with 9007199254740992 in *. nia.
Qed.

(** [Seconds] as one rounding of the whole seconds plus the rounded fraction. *)
Lemma Seconds_round d :
  0 ≤ d < two63 →
  let b := round_frac (d mod Second) Second in
  Seconds d = round_frac (d / Second * fden b + fnum b) (fden b).
Proof.
  intros Hd b. unfold Seconds. unfold two63, Second in *.
  rewrite Z.quot_div_nonneg, Z.rem_mod_nonneg by lia.
  rewrite fdiv_ints by (unfold two53; zmod). fold b.
  unfold fadd. rewrite float_of_int_exact by (unfold two53; zmod).
  pose proof (fden_pos b). pose proof (fden_pos (float_of_int (d / 1000000000))).
  set (da := fden (float_of_int _)) in *.
  replace (d / 1000000000 * da * fden b + fnum b * da)
    with (da * (d / 1000000000 * fden b + fnum b)) by lia.
  by apply round_frac_scale.
Qed.

(** Truncated seconds are never below the elapsed whole seconds, *)
Lemma whole_seconds_ge d : 0 ≤ d < two63 → d / Second ≤ whole_seconds d.
Proof.
  intros Hd. unfold whole_seconds, uint64_of_float. rewrite Seconds_round by done.
  set (b := round_frac (d mod Second) Second).
  assert (0 ≤ d / Second < 17179869184) by (unfold two63, Second in *; zmod).
  destruct (frac_second_gap (d mod Second)) as [Hb1 Hb2]; [unfold Second; zmod|].
  fold b in Hb1, Hb2. pose proof (fden_pos b). set (s := d / Second) in *.
  assert (0 ≤ s * fden b + fnum b) by nia.
  assert (s * fden b + fnum b ≤ (s + 1) * fden b) by nia.
  set (N := s * fden b + fnum b) in *.
  pose proof (ftrunc_round_ge N (fden b) s ltac:(lia) ltac:(lia)
    ltac:(unfold two53; nia) ltac:(nia)).
  pose proof (ftrunc_round_le N (fden b) (s + 1) ltac:(lia) ltac:(lia)
    ltac:(unfold two53; lia) ltac:(nia)).
  rewrite uint64_id; [done|]. unfold is_uint64, two64. lia.
Qed.

(** and they are exactly the whole seconds for any duration below [2^23]
    seconds (97 days). *)
Lemma Seconds_trunc d :
  0 ≤ d < 8388608 * Second → ftrunc (Seconds d) = d / Second.
Proof.
  intros Hd.
  assert (d < two63) by (unfold two63, Second in *; lia).
  rewrite Seconds_round by lia.
  set (b := round_frac (d mod Second) Second).
  assert (0 ≤ d / Second < 8388608) as Hs by (unfold Second in *; zmod).
  destruct (frac_second_gap (d mod Second)) as [Hb1 Hb2]; [unfold Second; zmod|].
  fold b in Hb1, Hb2. pose proof (fden_pos b). set (s := d / Second) in *.
  assert (0 ≤ s * fden b + fnum b) by nia.
  assert (s * fden b + fnum b ≤ (s + 1) * fden b) by nia.
  set (N := s * fden b + fnum b) in *.
  pose proof (ftrunc_round_ge N (fden b) s ltac:(lia) ltac:(lia)
    ltac:(unfold two53; nia) ltac:(nia)).
  assert (ftrunc (round_frac N (fden b)) < s + 1).
  { rewrite ftrunc_nonneg by (apply fnum_round_nonneg; lia).
    destruct (Z.eq_dec N 0) as [->|].
    { destruct (round_frac_0 (fden b)) as [-> ->]. by rewrite Z.div_0_l; lia. }
    apply Z.div_lt_upper_bound; [apply fden_pos|].
    pose proof (ilog_small N (fden b) 23 ltac:(lia) ltac:(lia) ltac:(lia) ltac:(nia)).
    destruct (round_small N (fden b)) as (p & Hp & Ep & -> & ->);
      [lia|lia|unfold two53; nia|].
    assert (2 ^ 30 ≤ 2 ^ p) by (apply Z.pow_le_mono_r; lia).
    change (2 ^ 30) with 1073741824 in *.
    pose proof (div_even_half (N * 2 ^ p) (fden b) ltac:(lia)).
    destruct (Z.lt_ge_cases (div_even (N * 2 ^ p) (fden b)) (2 ^ p * (s + 1))) as [|Hge];
      [done|exfalso].
    assert (2 * (2 ^ p * (s + 1) * fden b) ≤ 2 * (N * 2 ^ p) + fden b) by nia.
    assert (2 * (2 ^ p * (fden b - fnum b)) ≤ fden b) by (unfold N in *; nia). nia. }
  lia.
Qed.

Lemma whole_seconds_exact d :
  0 ≤ d < 8388608 * Second → whole_seconds d = d / Second.
Proof.
  intros Hd. unfold whole_seconds, uint64_of_float. rewrite Seconds_trunc by done.
  apply uint64_id. unfold is_uint64, two64, Second in *. zmod.
Qed.

(** A float of at least one is positive. *)
Lemma fpos_trunc f : 1 ≤ ftrunc f → fpos f = true.
Proof.
  unfold ftrunc, fpos. intros Hf. apply Z.ltb_lt.
  destruct (Z.lt_ge_cases 0 (fm f)) as [|Hle]; [done|exfalso].
  assert (0 < 2 ^ Z.max (fe f) 0) by (apply Z.pow_pos_nonneg; lia).
  assert (fnum f ≤ 0) by (unfold fnum; nia). pose proof (fden_pos f).
  assert (Z.quot (fnum f) (fden f) ≤ 0); [|lia].
  replace (fnum f) with (- (- fnum f)) by lia. rewrite Z.quot_opp_l by lia.
  pose proof (Z.quot_pos (- fnum f) (fden f)). lia.
Qed.
