(* ===== verification/GoJson.v ===== *)
(** * encoding/json

    [json.Unmarshal] and [json.Marshal] on the types the watchdog uses: a
    parser of JSON text with Go's grammar and its treatment of escapes and of
    invalid UTF-8, decoders that store a JSON value in a target the way Go
    does (a value of the wrong type or out of range leaves the target as it
    was, and the other fields are still stored), and the compact printer. *)

From S2P Require Import Prelude.

Inductive json : Type :=
  | JNull
  | JBool (b : bool)
  | JNum (lit : string)
  | JStr (s : string)
  | JArr (l : list json)
  | JObj (l : list (string * json)).

(** ** Characters *)

Definition ord (c : ascii) : Z := Z.of_N (N_of_ascii c).
Definition chr (z : Z) : ascii := ascii_of_N (Z.to_N z).
Definition str1 (c : ascii) : string := String c EmptyString.
Definition dquote : ascii := chr 34.

Definition between (lo hi : Z) (c : ascii) : bool := (lo <=? ord c) && (ord c <=? hi).
Definition is_digit (c : ascii) : bool := between 48 57 c.

Definition is_space (c : ascii) : bool :=
  (ord c =? 32) || (ord c =? 9) || (ord c =? 10) || (ord c =? 13).

Fixpoint skip_ws (s : string) : string :=
  match s with
  | String c r => if is_space c then skip_ws r else s
  | EmptyString => s
  end.

Definition hexval (c : ascii) : option Z :=
  if is_digit c then Some (ord c - 48)
  else if between 97 102 c then Some (ord c - 87)
  else if between 65 70 c then Some (ord c - 55)
  else None.

Definition hex4 (a b c d : ascii) : option Z :=
  a ← hexval a; b ← hexval b; c ← hexval c; d ← hexval d;
  Some (((a * 16 + b) * 16 + c) * 16 + d).

(** [utf8.EncodeRune]. *)
Definition encode_rune (r : Z) : string :=
  if r <? 128 then str1 (chr r)
  else if r <? 2048 then
    String (chr (192 + r / 64)) (str1 (chr (128 + r mod 64)))
  else if (1114111 <? r) || ((55296 <=? r) && (r <=? 57343)) then
    String (chr 239) (String (chr 191) (str1 (chr 189)))
  else if r <? 65536 then
    String (chr (224 + r / 4096)) (String (chr (128 + r / 64 mod 64)) (str1 (chr (128 + r mod 64))))
  else
    String (chr (240 + r / 262144)) (String (chr (128 + r / 4096 mod 64))
      (String (chr (128 + r / 64 mod 64)) (str1 (chr (128 + r mod 64))))).

Definition rune_error : string := encode_rune 65533.

Definition is_cont : ascii → bool := between 128 191.

(** The first two bytes of a three- and of a four-byte sequence. *)
Definition lead3 (a b : ascii) : bool :=
  between 225 236 a && is_cont b || between 238 239 a && is_cont b
  || (ord a =? 224) && between 160 191 b || (ord a =? 237) && between 128 159 b.
Definition lead4 (a b : ascii) : bool :=
  between 241 243 a && is_cont b
  || (ord a =? 240) && between 144 191 b || (ord a =? 244) && between 128 143 b.

(** ** Strings *)

(** The single-character escapes. *)
Definition escape_char (c : ascii) : option ascii :=
  if ord c =? 34 then Some dquote
  else if ord c =? 92 then Some c
  else if ord c =? 47 then Some c
  else if ord c =? 98 then Some (chr 8)
  else if ord c =? 102 then Some (chr 12)
  else if ord c =? 110 then Some (chr 10)
  else if ord c =? 114 then Some (chr 13)
  else if ord c =? 116 then Some (chr 9)
  else None.

Definition prepend (p : string) (o : option (string * string)) : option (string * string) :=
  match o with Some (s, r) => Some (p +:+ s, r) | None => None end.

(** The rest of a string literal after its opening quote: the decoded string
    and the text after the closing quote. *)
Fixpoint scan_string (s : string) : option (string * string) :=
  match s with
  | EmptyString => None
  | String c r =>
      if ord c =? 34 then Some (EmptyString, r)
      else if ord c =? 92 then
        match r with
        | String "u"%char (String h1 (String h2 (String h3 (String h4 r1)))) =>
            match hex4 h1 h2 h3 h4 with
            | None => None
            | Some u =>
                if (55296 <=? u) && (u <=? 57343) then
                  (* a surrogate: the second half must follow *)
                  match r1 with
                  | String "\"%char (String "u"%char (String k1 (String k2 (String k3 (String k4 r2))))) =>
                      match hex4 k1 k2 k3 k4 with
                      | Some v =>
                          if (u <=? 56319) && (56320 <=? v) && (v <=? 57343) then
                            prepend (encode_rune ((u - 55296) * 1024 + (v - 56320) + 65536)) (scan_string r2)
                          else prepend rune_error (scan_string r1)
                      | None => None
                      end
                  | _ => prepend rune_error (scan_string r1)
                  end
                else prepend (encode_rune u) (scan_string r1)
            end
        | String e r1 =>
            match escape_char e with
            | Some c => prepend (str1 c) (scan_string r1)
            | None => None
            end
        | EmptyString => None
        end
      else if ord c <? 32 then None
      else if ord c <? 128 then prepend (str1 c) (scan_string r)
      else
        match r with
        | String c2 r2 =>
            if between 194 223 c && is_cont c2 then
              prepend (String c (str1 c2)) (scan_string r2)
            else
              match r2 with
              | String c3 r3 =>
                  if lead3 c c2 && is_cont c3 then
                    prepend (String c (String c2 (str1 c3))) (scan_string r3)
                  else
                    match r3 with
                    | String c4 r4 =>
                        if lead4 c c2 && is_cont c3 && is_cont c4 then
                          prepend (String c (String c2 (String c3 (str1 c4)))) (scan_string r4)
                        else prepend rune_error (scan_string r)
                    | EmptyString => prepend rune_error (scan_string r)
                    end
              | EmptyString => prepend rune_error (scan_string r)
              end
        | EmptyString => prepend rune_error (scan_string r)
        end
  end.

(** ** Numbers *)

Fixpoint take_digits (s : string) : string * string :=
  match s with
  | String c r =>
      if is_digit c then let '(d, r') := take_digits r in (String c d, r') else (EmptyString, s)
  | EmptyString => (EmptyString, EmptyString)
  end.

Definition nonempty_digits (s : string) : option (string * string) :=
  let '(d, r) := take_digits s in
  match d with EmptyString => None | _ => Some (d, r) end.

Definition scan_int (s : string) : option (string * string) :=
  match s with
  | String "0"%char r => Some (str1 "0"%char, r)
  | _ => nonempty_digits s
  end.

Definition scan_frac (s : string) : option (string * string) :=
  match s with
  | String "."%char r => prepend "." (nonempty_digits r)
  | _ => Some (EmptyString, s)
  end.

Definition scan_exp (s : string) : option (string * string) :=
  match s with
  | String c r =>
      if (ord c =? 101) || (ord c =? 69) then
        match r with
        | String "+"%char r1 => prepend (String c "+") (nonempty_digits r1)
        | String "-"%char r1 => prepend (String c "-") (nonempty_digits r1)
        | _ => prepend (str1 c) (nonempty_digits r)
        end
      else Some (EmptyString, s)
  | EmptyString => Some (EmptyString, s)
  end.

Definition scan_number (s : string) : option (string * string) :=
  let '(sign, s1) :=
    match s with String "-"%char r => ("-"%string, r) | _ => (EmptyString, s) end in
  '(i, s2) ← scan_int s1;
  '(f, s3) ← scan_frac s2;
  '(e, s4) ← scan_exp s3;
  Some (sign +:+ i +:+ f +:+ e, s4).

(** ** Values *)

Definition expect (c : ascii) (s : string) : option string :=
  match skip_ws s with
  | String d r => if decide (c = d) then Some r else None
  | EmptyString => None
  end.

Fixpoint strip_prefix (p s : string) : option string :=
  match p, s with
  | EmptyString, _ => Some s
  | String a p, String b s => if decide (a = b) then strip_prefix p s else None
  | _, EmptyString => None
  end.

(** The recursion follows the nesting and the length of the text; [fuel]
    bounds it (see [parse] for the amount). *)
Fixpoint parse_value (fuel : nat) (s : string) : option (json * string) :=
  match fuel with
  | O => None
  | S fuel =>
    match skip_ws s with
    | EmptyString => None
    | String c r =>
      if decide (c = "{"%char) then
        match skip_ws r with
        | String "}"%char r1 => Some (JObj [], r1)
        | _ => '(l, r1) ← parse_members fuel r; Some (JObj l, r1)
        end
      else if decide (c = "["%char) then
        match skip_ws r with
        | String "]"%char r1 => Some (JArr [], r1)
        | _ => '(l, r1) ← parse_elements fuel r; Some (JArr l, r1)
        end
      else if ord c =? 34 then
        '(t, r1) ← scan_string r; Some (JStr t, r1)
      else if decide (c = "t"%char) then r1 ← strip_prefix "rue" r; Some (JBool true, r1)
      else if decide (c = "f"%char) then r1 ← strip_prefix "alse" r; Some (JBool false, r1)
      else if decide (c = "n"%char) then r1 ← strip_prefix "ull" r; Some (JNull, r1)
      else '(lit, r1) ← scan_number (String c r); Some (JNum lit, r1)
    end
  end
with parse_elements (fuel : nat) (s : string) : option (list json * string) :=
  match fuel with
  | O => None
  | S fuel =>
    '(v, r) ← parse_value fuel s;
    match skip_ws r with
    | String ","%char r1 => '(l, r2) ← parse_elements fuel r1; Some (v :: l, r2)
    | String "]"%char r1 => Some ([v], r1)
    | _ => None
    end
  end
with parse_members (fuel : nat) (s : string) : option (list (string * json) * string) :=
  match fuel with
  | O => None
  | S fuel =>
    r0 ← expect dquote s;
    '(k, r1) ← scan_string r0;
    r2 ← expect ":"%char r1;
    '(v, r) ← parse_value fuel r2;
    match skip_ws r with
    | String ","%char r3 => '(l, r4) ← parse_members fuel r3; Some ((k, v) :: l, r4)
    | String "}"%char r3 => Some ([(k, v)], r3)
    | _ => None
    end
  end.

(** A whole text: one value, then only white space. *)
Definition parse (s : string) : option json :=
  '(v, r) ← parse_value (S (String.length s)) s;
  match skip_ws r with EmptyString => Some v | _ => None end.

(** ** Decoding into a target *)

Definition decoder (A : Type) : Type := json → A → A.

Definition dec_string : decoder string := λ j old,
  match j with JStr s => s | _ => old end.

Definition dec_bool : decoder bool := λ j old,
  match j with JBool b => b | _ => old end.

(** [strconv.ParseUint(s, 10, _)] without the range check. *)
Fixpoint digits_value (acc : Z) (s : string) : option Z :=
  match s with
  | EmptyString => Some acc
  | String c r => if is_digit c then digits_value (acc * 10 + (ord c - 48)) r else None
  end.

Definition parse_uint (s : string) : option Z :=
  match s with EmptyString => None | _ => digits_value 0 s end.

Definition parse_int (s : string) : option Z :=
  match s with
  | String "-"%char r => z ← parse_uint r; Some (- z)
  | _ => parse_uint s
  end.

(** Unsigned fields of [lim] values ([2^64] or [2^32]). *)
Definition dec_uint (lim : Z) : decoder Z := λ j old,
  match j with
  | JNum lit =>
      match parse_uint lit with Some z => if z <? lim then z else old | None => old end
  | _ => old
  end.

(** [int] and [int64] fields. *)
Definition dec_int : decoder Z := λ j old,
  match j with
  | JNum lit =>
      match parse_int lit with
      | Some z => if bool_decide (- two63 ≤ z < two63) then z else old
      | None => old
      end
  | _ => old
  end.

(** Slices: element [i] is stored over the old element [i], if there is one. *)
Fixpoint dec_elems {A} (zero : A) (d : decoder A) (l : list json) (old : list A) : list A :=
  match l with
  | [] => []
  | j :: l =>
      match old with
      | [] => d j zero :: dec_elems zero d l []
      | a :: old => d j a :: dec_elems zero d l old
      end
  end.

Definition dec_list {A} (zero : A) (d : decoder A) : decoder (list A) := λ j old,
  match j with
  | JArr l => dec_elems zero d l old
  | JNull => []
  | _ => old
  end.

(** A slice whose nil value shows, when it is encoded again: [None] is nil. *)
Definition slice_elems {A} (s : option (list A)) : list A := default [] s.

Definition dec_slice {A} (zero : A) (d : decoder A) : decoder (option (list A)) := λ j old,
  match j with
  | JArr l => Some (dec_elems zero d l (slice_elems old))
  | JNull => None
  | _ => old
  end.

(** Maps with string keys: every value is stored in a fresh zero element. *)
Definition dec_map {A} (zero : A) (d : decoder A) : decoder (gmap string A) := λ j old,
  match j with
  | JObj l => fold_left (λ m '(k, v), <[k := d v zero]> m) l old
  | JNull => ∅
  | _ => old
  end.

(** Field names match exactly or, failing that, up to case; the letters k and
    s also match the Kelvin sign and the long s. *)
Definition lower (c : ascii) : ascii := if between 65 90 c then chr (ord c + 32) else c.

Fixpoint fold_case (s : string) : string :=
  match s with
  | EmptyString => EmptyString
  | String c r =>
      match r with
      | String c2 r2 =>
          if (ord c =? 197) && (ord c2 =? 191) then String "s"%char (fold_case r2)
          else
            match r2 with
            | String c3 r3 =>
                if (ord c =? 226) && (ord c2 =? 132) && (ord c3 =? 170)
                then String "k"%char (fold_case r3)
                else String (lower c) (fold_case r)
            | EmptyString => String (lower c) (fold_case r)
            end
      | EmptyString => String (lower c) (fold_case r)
      end
  end.

Definition find_field {A} (fields : list (string * decoder A)) (key : string) :
    option (decoder A) :=
  match list_find (λ p, p.1 = key) fields with
  | Some (_, (_, d)) => Some d
  | None =>
      match list_find (λ p, fold_case p.1 = fold_case key) fields with
      | Some (_, (_, d)) => Some d
      | None => None
      end
  end.

Definition dec_struct {A} (fields : list (string * decoder A)) : decoder A := λ j old,
  match j with
  | JObj l =>
      fold_left (λ a '(k, v),
        match find_field fields k with Some d => d v a | None => a end) l old
  | _ => old
  end.

(** [json.Unmarshal(data, &target)], the error ignored as every caller does. *)
Definition Unmarshal {A} (d : decoder A) (data : string) (target : A) : A :=
  match parse data with Some j => d j target | None => target end.

(** ** Printing *)

Definition hexdigit (z : Z) : ascii := if z <? 10 then chr (48 + z) else chr (87 + z).

Definition u00 (c : ascii) : string :=
  "\u00" +:+ String (hexdigit (ord c / 16)) (str1 (hexdigit (ord c mod 16))).

Definition is_ascii (c : ascii) : bool := ord c <? 128.

(** The escape of one ASCII character (HTML characters are escaped too). *)
Definition quote_char (c : ascii) : string :=
  if (ord c =? 34) || (ord c =? 92) then String "\"%char (str1 c)
  else if ord c =? 10 then "\n"
  else if ord c =? 13 then "\r"
  else if ord c =? 9 then "\t"
  else if (ord c <? 32) || (ord c =? 60) || (ord c =? 62) || (ord c =? 38) then u00 c
  else str1 c.

(** A sequence of three bytes; U+2028 and U+2029 are escaped. *)
Definition quote_rune3 (a b c : ascii) : string :=
  if (ord a =? 226) && (ord b =? 128) && (ord c =? 168) then "\u2028"
  else if (ord a =? 226) && (ord b =? 128) && (ord c =? 169) then "\u2029"
  else String a (String b (str1 c)).

(** The characters of a string; a byte that is not part of valid UTF-8 becomes
    the replacement character. *)
Fixpoint quote_chars (s : string) : string :=
  match s with
  | EmptyString => EmptyString
  | String c r =>
      if is_ascii c then quote_char c +:+ quote_chars r
      else
        match r with
        | String c2 r2 =>
            if between 194 223 c && is_cont c2 then String c (String c2 (quote_chars r2))
            else
              match r2 with
              | String c3 r3 =>
                  if lead3 c c2 && is_cont c3 then quote_rune3 c c2 c3 +:+ quote_chars r3
                  else
                    match r3 with
                    | String c4 r4 =>
                        if lead4 c c2 && is_cont c3 && is_cont c4 then
                          String c (String c2 (String c3 (String c4 (quote_chars r4))))
                        else "\ufffd" +:+ quote_chars r
                    | EmptyString => "\ufffd" +:+ quote_chars r
                    end
              | EmptyString => "\ufffd" +:+ quote_chars r
              end
        | EmptyString => "\ufffd" +:+ quote_chars r
        end
  end.

Definition quote (s : string) : string :=
  str1 dquote +:+ quote_chars s +:+ str1 dquote.

Fixpoint print (j : json) : string :=
  match j with
  | JNull => "null"
  | JBool b => if b then "true" else "false"
  | JNum lit => lit
  | JStr s => quote s
  | JArr l => "[" +:+ join "," (print <$> l) +:+ "]"
  | JObj l => "{" +:+ join "," ((λ p, quote p.1 +:+ ":" +:+ print p.2) <$> l) +:+ "}"
  end.

(** Entries by their keys. *)
Definition key_le {V} (a b : string * V) : Prop := String.le a.1 b.1.

#[global] Instance key_le_dec {V} (a b : string * V) : Decision (key_le a b).
Proof. unfold key_le. apply _. Defined.

(** The entries of a map in the order of their keys. *)
Definition sorted_entries {V} (m : gmap string V) : list (string * V) :=
  merge_sort key_le (map_to_list m).

Lemma sorted_entries_perm {V} (m : gmap string V) : sorted_entries m ≡ₚ map_to_list m.
Proof. apply merge_sort_Permutation. Qed.

Lemma elem_of_sorted_entries {V} (m : gmap string V) k v :
  (k, v) ∈ sorted_entries m ↔ m !! k = Some v.
Proof. by rewrite sorted_entries_perm, elem_of_map_to_list. Qed.

(** [json.Marshal] of a map with string keys: the keys are sorted. *)
Definition Marshal_map (m : gmap string json) : string :=
  print (JObj (sorted_entries m)).

(** ** Ranges of decoded integers *)

Lemma dec_uint_range lim j old :
  0 ≤ old < lim → 0 ≤ dec_uint lim j old < lim.
Proof.
  assert (∀ s acc z, 0 ≤ acc → digits_value acc s = Some z → 0 ≤ z) as Hnn.
  { induction s as [|c s IH]; cbn; intros acc z Hacc; [by intros [= <-]|].
    destruct (is_digit c) eqn:Ec; [|done]. apply IH.
    unfold is_digit, between in Ec. bool_hyps. lia. }
  intros Hold. unfold dec_uint. destruct j; try done.
  destruct (parse_uint lit) as [z|] eqn:E; [|done].
  destruct (Z.ltb_spec z lim); [|done]. split; [|done].
  unfold parse_uint in E. destruct lit; [done|]. by eapply Hnn, E.
Qed.

Lemma dec_int_range j old : is_int64 old → is_int64 (dec_int j old).
Proof.
  intros Hold. unfold dec_int. destruct j; try done.
  destruct (parse_int lit) as [z|]; [|done]. case_bool_decide; done.
Qed.

(** A property of the target that every field keeps is kept by the struct. *)
Lemma find_field_elem {A} (fields : list (string * decoder A)) k d :
  find_field fields k = Some d → ∃ n, (n, d) ∈ fields.
Proof.
  unfold find_field. destruct (list_find (λ p, p.1 = k) fields) as [[i [n d']]|] eqn:E1.
  - intros [= <-]. apply list_find_Some in E1 as [E1 _]. exists n. by eapply list_elem_of_lookup_2.
  - destruct (list_find (λ p, fold_case p.1 = fold_case k) fields) as [[i [n d']]|] eqn:E2; [|done].
    intros [= <-]. apply list_find_Some in E2 as [E2 _]. exists n. by eapply list_elem_of_lookup_2.
Qed.

(** A property of the target that every field's decoder keeps, for the members
    of [j]. *)
Lemma dec_struct_members {A} (P : A → Prop) (Q : json → Prop) (fields : list (string * decoder A))
    l old :
  Forall (λ p, ∀ j a, Q j → P a → P (p.2 j a)) fields → (∀ k v, (k, v) ∈ l → Q v) →
  P old → P (dec_struct fields (JObj l) old).
Proof.
  intros Hf Hl HP. unfold dec_struct. apply fold_left_inv; [|done]. intros [k v] a Hin Ha.
  destruct (find_field fields k) as [d|] eqn:E; [|done].
  destruct (find_field_elem _ _ _ E) as [n Hn]. rewrite Forall_forall in Hf.
  exact (Hf _ Hn v a (Hl k v Hin) Ha).
Qed.

Lemma dec_struct_inv {A} (P : A → Prop) (fields : list (string * decoder A)) j old :
  Forall (λ p, ∀ j a, P a → P (p.2 j a)) fields → P old → P (dec_struct fields j old).
Proof.
  intros Hf HP. destruct j; try done. apply (dec_struct_members P (λ _, True)); [|done|done].
  eapply Forall_impl; [exact Hf|]. cbn. auto.
Qed.

Lemma Unmarshal_inv {A} (P : A → Prop) (d : decoder A) data target :
  (∀ j a, P a → P (d j a)) → P target → P (Unmarshal d data target).
Proof. intros Hd HP. unfold Unmarshal. destruct (parse data); auto. Qed.

(** ** Quoted strings scan back *)

(** Valid UTF-8. *)
Fixpoint utf8 (s : string) : bool :=
  match s with
  | EmptyString => true
  | String c r =>
      if is_ascii c then utf8 r
      else
        match r with
        | String c2 r2 =>
            if between 194 223 c && is_cont c2 then utf8 r2
            else
              match r2 with
              | String c3 r3 =>
                  if lead3 c c2 && is_cont c3 then utf8 r3
                  else
                    match r3 with
                    | String c4 r4 => lead4 c c2 && is_cont c3 && is_cont c4 && utf8 r4
                    | EmptyString => false
                    end
              | EmptyString => false
              end
        | EmptyString => false
        end
  end.

(** Printing then scanning one ASCII character. *)
Lemma scan_quote_char c s :
  is_ascii c = true → scan_string (quote_char c +:+ s) = prepend (str1 c) (scan_string s).
Proof.
  destruct c as [[] [] [] [] [] [] [] []]; vm_compute (is_ascii _); intros Hc;
    first [discriminate Hc | reflexivity].
Qed.

(** A text with every byte outside valid UTF-8 replaced. *)
Fixpoint valid (s : string) : string :=
  match s with
  | EmptyString => EmptyString
  | String c r =>
      if is_ascii c then String c (valid r)
      else
        match r with
        | String c2 r2 =>
            if between 194 223 c && is_cont c2 then String c (String c2 (valid r2))
            else
              match r2 with
              | String c3 r3 =>
                  if lead3 c c2 && is_cont c3 then String c (String c2 (String c3 (valid r3)))
                  else
                    match r3 with
                    | String c4 r4 =>
                        if lead4 c c2 && is_cont c3 && is_cont c4 then
                          String c (String c2 (String c3 (String c4 (valid r4))))
                        else rune_error +:+ valid r
                    | EmptyString => rune_error +:+ valid r
                    end
              | EmptyString => rune_error +:+ valid r
              end
        | EmptyString => rune_error +:+ valid r
        end
  end.

(** The first character of valid UTF-8. *)
Inductive utf8_view : string → Prop :=
  | view_nil : utf8_view EmptyString
  | view_1 c r : is_ascii c = true → utf8 r = true → utf8_view (String c r)
  | view_2 c c2 r :
      is_ascii c = false → between 194 223 c && is_cont c2 = true → utf8 r = true →
      utf8_view (String c (String c2 r))
  | view_3 c c2 c3 r :
      is_ascii c = false → between 194 223 c && is_cont c2 = false →
      lead3 c c2 && is_cont c3 = true → utf8 r = true →
      utf8_view (String c (String c2 (String c3 r)))
  | view_4 c c2 c3 c4 r :
      is_ascii c = false → between 194 223 c && is_cont c2 = false →
      lead3 c c2 && is_cont c3 = false → lead4 c c2 && is_cont c3 && is_cont c4 = true →
      utf8 r = true → utf8_view (String c (String c2 (String c3 (String c4 r)))).

Lemma utf8_cases s : utf8 s = true → utf8_view s.
Proof.
  destruct s as [|c r]; [constructor|]. cbn [utf8]. destruct (is_ascii c) eqn:E1; [by constructor|].
  destruct r as [|c2 r]; [done|]. destruct (between 194 223 c && is_cont c2) eqn:E2; [by constructor|].
  destruct r as [|c3 r]; [done|]. destruct (lead3 c c2 && is_cont c3) eqn:E3; [by constructor|].
  destruct r as [|c4 r]; [done|]. intros [E4 Hr]%andb_prop. by constructor.
Qed.

(** A character outside ASCII is none of those the scanner treats apart. *)
Lemma beyond_ascii c :
  is_ascii c = false →
  (ord c =? 34) = false ∧ (ord c =? 92) = false ∧ (ord c <? 32) = false ∧ (ord c <? 128) = false.
Proof. unfold is_ascii. intros H. split_and!; lia. Qed.

Lemma scan_rune2 c c2 s :
  is_ascii c = false → between 194 223 c && is_cont c2 = true →
  scan_string (String c (String c2 s)) = prepend (String c (str1 c2)) (scan_string s).
Proof. intros (E1 & E2 & E3 & E4)%beyond_ascii E. cbn [scan_string]. by rewrite E1, E2, E3, E4, E. Qed.

Lemma scan_rune3 c c2 c3 s :
  is_ascii c = false → between 194 223 c && is_cont c2 = false → lead3 c c2 && is_cont c3 = true →
  scan_string (quote_rune3 c c2 c3 +:+ s)
  = prepend (String c (String c2 (str1 c3))) (scan_string s).
Proof.
  intros (E1 & E2 & E3 & E4)%beyond_ascii H2 H3. unfold quote_rune3.
  assert (∀ x y, (ord x =? y) = true → 0 ≤ y → x = chr y) as Hord.
  { intros x y E Hy. bool_hyps. unfold ord, chr in *. subst y.
    by rewrite N2Z.id, ascii_N_embedding. }
  destruct (_ && _ && (ord c3 =? 168)) eqn:E5.
  { apply andb_prop in E5 as [[Ea Eb]%andb_prop Ec].
    rewrite (Hord _ _ Ea), (Hord _ _ Eb), (Hord _ _ Ec) by done. reflexivity. }
  destruct (_ && _ && (ord c3 =? 169)) eqn:E6.
  { apply andb_prop in E6 as [[Ea Eb]%andb_prop Ec].
    rewrite (Hord _ _ Ea), (Hord _ _ Eb), (Hord _ _ Ec) by done. reflexivity. }
  unfold str1. rewrite !app_cons_string, app_nil_string. cbn [scan_string].
  by rewrite E1, E2, E3, E4, H2, H3.
Qed.

Lemma scan_rune4 c c2 c3 c4 s :
  is_ascii c = false → between 194 223 c && is_cont c2 = false →
  lead3 c c2 && is_cont c3 = false → lead4 c c2 && is_cont c3 && is_cont c4 = true →
  scan_string (String c (String c2 (String c3 (String c4 s))))
  = prepend (String c (String c2 (String c3 (str1 c4)))) (scan_string s).
Proof.
  intros (E1 & E2 & E3 & E4)%beyond_ascii H2 H3 H4. cbn [scan_string].
  by rewrite E1, E2, E3, E4, H2, H3, H4.
Qed.

Lemma valid_utf8 s : utf8 s = true → valid s = s.
Proof.
  induction s as [s IH] using (induction_ltof1 _ String.length). unfold ltof in IH.
  intros Hs. destruct (utf8_cases s Hs) as [|c r E1 Hr|c c2 r E1 E2 Hr|c c2 c3 r E1 E2 E3 Hr
    |c c2 c3 c4 r E1 E2 E3 E4 Hr]; [done|..]; cbn [valid]; rewrite E1, ?E2, ?E3, ?E4;
    by rewrite IH by (done || (cbn; lia)).
Qed.

(** A quoted string scans back to its valid form. *)
Lemma scan_quote_chars s rest :
  scan_string (quote_chars s +:+ String dquote rest) = Some (valid s, rest).
Proof.
  induction s as [s IH] using (induction_ltof1 _ String.length). unfold ltof in IH.
  destruct s as [|c r]; [done|].
  assert (scan_string (("\ufffd" +:+ quote_chars r) +:+ String dquote rest)
    = Some (rune_error +:+ valid r, rest)) as Hbad.
  { rewrite string_app_assoc. change (scan_string ("\ufffd" +:+ ?x)) with (prepend rune_error (scan_string x)).
    by rewrite IH by (cbn; lia). }
  cbn [quote_chars valid]. destruct (is_ascii c) eqn:E1.
  { by rewrite string_app_assoc, scan_quote_char, IH by (done || (cbn; lia)). }
  destruct r as [|c2 r]; [done|]. destruct (between 194 223 c && is_cont c2) eqn:E2.
  { rewrite !app_cons_string, scan_rune2 by done. by rewrite IH by (cbn; lia). }
  destruct r as [|c3 r]; [done|]. destruct (lead3 c c2 && is_cont c3) eqn:E3.
  { rewrite string_app_assoc, scan_rune3 by done. by rewrite IH by (cbn; lia). }
  destruct r as [|c4 r]; [done|]. destruct (lead4 c c2 && is_cont c3 && is_cont c4) eqn:E4; [|done].
  rewrite !app_cons_string, scan_rune4 by done. by rewrite IH by (cbn; lia).
Qed.

(** ** Integer literals *)

Fixpoint all_digits (s : string) : bool :=
  match s with EmptyString => true | String c r => is_digit c && all_digits r end.

(** Decimal digits without a leading zero, and the same with a sign. *)
Definition nat_literal (s : string) : bool :=
  match s with
  | EmptyString => false
  | String c r =>
      if decide (c = "0"%char) then bool_decide (r = EmptyString) else is_digit c && all_digits r
  end.

Definition int_literal (s : string) : bool :=
  match s with String "-"%char r => nat_literal r | _ => nat_literal s end.

(** What follows a value inside a text, or the line feed after it. *)
Definition delimiter (c : ascii) : bool :=
  bool_decide (c = ","%char) || bool_decide (c = "]"%char) || bool_decide (c = "}"%char)
  || bool_decide (c = "010"%char).
Definition delimited (rest : string) : bool :=
  match rest with EmptyString => true | String c _ => delimiter c end.

Lemma delimiter_cases c :
  delimiter c = true → c = ","%char ∨ c = "]"%char ∨ c = "}"%char ∨ c = "010"%char.
Proof. unfold delimiter. repeat case_bool_decide; naive_solver. Qed.

Lemma take_digits_app s rest :
  all_digits s = true → delimited rest = true → take_digits (s +:+ rest) = (s, rest).
Proof.
  intros Hs Hr. induction s as [|c s IH].
  - rewrite app_nil_string. destruct rest as [|c rest]; [done|].
    by destruct (delimiter_cases c Hr) as [->|[->|[->| ->]]].
  - cbn in Hs. apply andb_prop in Hs as [Hc Hs]. rewrite app_cons_string. cbn.
    by rewrite Hc, IH.
Qed.

(** Nothing of the delimiter is read as a fraction or an exponent. *)
Lemma scan_tail_delimited rest :
  delimited rest = true →
  scan_frac rest = Some (EmptyString, rest) ∧ scan_exp rest = Some (EmptyString, rest).
Proof.
  destruct rest as [|c rest]; [done|]. intros Hr.
  by destruct (delimiter_cases c Hr) as [->|[->|[->| ->]]].
Qed.

Lemma scan_int_app s rest :
  nat_literal s = true → delimited rest = true → scan_int (s +:+ rest) = Some (s, rest).
Proof.
  destruct s as [|c s]; [done|]. unfold nat_literal. intros Hs Hr.
  destruct (decide (c = "0"%char)) as [->|Hc].
  - by apply bool_decide_eq_true in Hs as ->.
  - assert (∀ r, scan_int (String c r) = nonempty_digits (String c r)) as E.
    { intros r. destruct c as [[] [] [] [] [] [] [] []]; first [done|by destruct Hc]. }
    rewrite app_cons_string, E, <-app_cons_string. unfold nonempty_digits.
    by rewrite take_digits_app.
Qed.

Lemma scan_number_app s rest :
  int_literal s = true → delimited rest = true → scan_number (s +:+ rest) = Some (s, rest).
Proof.
  intros Hs Hr. destruct (scan_tail_delimited rest Hr) as [Ef Ee].
  destruct s as [|c s]; [done|]. destruct (decide (c = "-"%char)) as [->|Hc].
  - unfold scan_number. rewrite app_cons_string. rewrite scan_int_app by done.
    cbn [mbind option_bind]. rewrite Ef. cbn [mbind option_bind]. rewrite Ee. cbn [mbind option_bind].
    by rewrite !string_app_nil_r.
  - assert (int_literal (String c s) = nat_literal (String c s)) as E
      by (destruct c as [[] [] [] [] [] [] [] []]; first [done|by destruct Hc]).
    rewrite E in Hs. unfold scan_number. rewrite app_cons_string.
    replace (match String c (s +:+ rest) with
             | String "-"%char r => ("-"%string, r) | _ => (EmptyString, String c (s +:+ rest)) end)
      with (EmptyString, String c (s +:+ rest))
      by (destruct c as [[] [] [] [] [] [] [] []]; first [done|by destruct Hc]).
    rewrite <-app_cons_string, scan_int_app by done.
    cbn [mbind option_bind]. rewrite Ef. cbn [mbind option_bind]. rewrite Ee. cbn [mbind option_bind].
    by rewrite !string_app_nil_r, app_nil_string.
Qed.

(** The head of a literal starts no other kind of value. *)
Lemma int_literal_head c r :
  int_literal (String c r) = true →
  is_space c = false ∧ c ≠ "]"%char ∧ c ≠ "}"%char ∧ (ord c =? 34) = false
  ∧ c ≠ "{"%char ∧ c ≠ "["%char ∧ c ≠ "t"%char ∧ c ≠ "f"%char ∧ c ≠ "n"%char.
Proof.
  intros H. assert (c = "-"%char ∨ is_digit c = true) as Hc.
  { destruct (decide (c = "-"%char)); [by left|right].
    destruct c as [[] [] [] [] [] [] [] []]; first [done|discriminate H]. }
  clear H. destruct Hc as [->|Hc]; [by split_and!|].
  destruct c as [[] [] [] [] [] [] [] []]; first [discriminate Hc|by split_and!].
Qed.

(** *** Printed integers *)

Lemma digit_char_ok d :
  (d < 10)%N → is_digit (pretty_N_char d) = true ∧ ord (pretty_N_char d) - 48 = Z.of_N d.
Proof.
  by apply (digit_cases (λ d, is_digit (pretty_N_char d) = true
                              ∧ ord (pretty_N_char d) - 48 = Z.of_N d)).
Qed.

Lemma digit_char_zero d : (0 < d < 10)%N → pretty_N_char d ≠ "0"%char.
Proof.
  intros [H1 H2]. revert H1.
  by apply (digit_cases (λ d, (0 < d)%N → pretty_N_char d ≠ "0"%char)).
Qed.

Lemma all_digits_app a b : all_digits (a +:+ b) = all_digits a && all_digits b.
Proof.
  induction a as [|c a IH]; [done|]. rewrite app_cons_string. cbn. rewrite IH. by rewrite andb_assoc.
Qed.

Lemma pretty_go_digits x s :
  (0 < x)%N → ∃ c t,
    pretty_N_go x s = String c t +:+ s ∧ c ≠ "0"%char ∧ all_digits (String c t) = true
    ∧ ∀ s', digits_value 0 (String c t +:+ s') = digits_value (Z.of_N x) s'.
Proof.
  revert s. induction (N.lt_wf_0 x) as [x _ IH]; intros s Hx.
  rewrite pretty_N_go_step by lia.
  assert (x mod 10 < 10)%N as Hd by (apply N.mod_lt; lia).
  destruct (digit_char_ok _ Hd) as [Hdig Hval].
  pose proof (N.div_mod x 10 ltac:(lia)) as Ex.
  destruct (decide (x / 10 = 0)%N) as [E0|E0].
  - rewrite E0, pretty_N_go_0. exists (pretty_N_char (x mod 10)), EmptyString. split_and!.
    + done.
    + apply digit_char_zero. lia.
    + cbn. by rewrite Hdig.
    + intros s'. rewrite app_cons_string, app_nil_string. cbn [digits_value]. rewrite Hdig, Hval.
      f_equal. lia.
  - destruct (IH (x / 10)%N (N.div_lt x 10 ltac:(lia) ltac:(lia))
      (String (pretty_N_char (x mod 10)) s) ltac:(lia)) as (c & t & E & Hc & Ht & Hv).
    exists c, (t +:+ str1 (pretty_N_char (x mod 10))). split_and!.
    + rewrite E, !app_cons_string, string_app_assoc. done.
    + done.
    + rewrite <-app_cons_string, all_digits_app, Ht. cbn. by rewrite Hdig.
    + intros s'. rewrite <-app_cons_string, string_app_assoc.
      change (str1 ?d +:+ s') with (String d s'). rewrite Hv. cbn [digits_value]. rewrite Hdig, Hval.
      f_equal. lia.
Qed.

Lemma Itoa_nat z : 0 ≤ z → nat_literal (Itoa z) = true ∧ parse_uint (Itoa z) = Some z.
Proof.
  intros Hz. destruct z as [|p|p]; [done| |lia].
  change (Itoa (Z.pos p)) with (pretty_N_go (N.pos p) EmptyString).
  destruct (pretty_go_digits (N.pos p) EmptyString ltac:(lia)) as (c & t & E & Hc & Ht & Hv).
  rewrite E, string_app_nil_r. split.
  - unfold nat_literal. rewrite decide_False by done. exact Ht.
  - specialize (Hv EmptyString). rewrite string_app_nil_r in Hv. exact Hv.
Qed.

Lemma nat_literal_int s : nat_literal s = true → int_literal s = true ∧ parse_int s = parse_uint s.
Proof.
  destruct s as [|c s]; [done|]. intros H. destruct (decide (c = "-"%char)) as [->|Hc]; [done|].
  destruct c as [[] [] [] [] [] [] [] []]; first [done|by destruct Hc].
Qed.

Lemma Itoa_int z : int_literal (Itoa z) = true ∧ parse_int (Itoa z) = Some z.
Proof.
  destruct (Z.le_gt_cases 0 z) as [Hz|Hz].
  - destruct (Itoa_nat z Hz) as [H1 H2]. by destruct (nat_literal_int _ H1) as [? ->].
  - destruct (Itoa_nat (- z) ltac:(lia)) as [H1 H2].
    assert (Itoa z = String "-"%char (Itoa (- z))) as -> by (by destruct z).
    cbn. rewrite H2. cbn. split; [done|]. f_equal. lia.
Qed.

(** A printed integer is stored as it is when it fits. *)
Lemma dec_uint_Itoa lim z old : 0 ≤ z < lim → dec_uint lim (JNum (Itoa z)) old = z.
Proof.
  intros Hz. unfold dec_uint. destruct (Itoa_nat z ltac:(lia)) as [_ ->].
  by rewrite (proj2 (Z.ltb_lt z lim)) by lia.
Qed.

Lemma dec_int_Itoa z old : is_int64 z → dec_int (JNum (Itoa z)) old = z.
Proof.
  intros Hz. unfold dec_int. destruct (Itoa_int z) as [_ ->].
  by rewrite bool_decide_eq_true_2.
Qed.

(** ** Printing then parsing

    Values of ASCII strings and integers: what the watchdog marshals as requests
    and what the nodes answer. *)

Section json_ind.
Variable P : json → Prop.
Hypothesis Pnull : P JNull.
Hypothesis Pbool : ∀ b, P (JBool b).
Hypothesis Pnum : ∀ lit, P (JNum lit).
Hypothesis Pstr : ∀ s, P (JStr s).
Hypothesis Parr : ∀ l, Forall P l → P (JArr l).
Hypothesis Pobj : ∀ l, Forall (λ p, P p.2) l → P (JObj l).

Fixpoint json_nested_ind (j : json) : P j :=
  match j with
  | JNull => Pnull
  | JBool b => Pbool b
  | JNum lit => Pnum lit
  | JStr s => Pstr s
  | JArr l => Parr l ((fix go l : Forall P l :=
      match l with
      | [] => Forall_nil_2 _
      | x :: l => Forall_cons_2 _ _ _ (json_nested_ind x) (go l)
      end) l)
  | JObj l => Pobj l ((fix go l : Forall (λ p, P p.2) l :=
      match l with
      | [] => Forall_nil_2 _
      | (k, x) :: l => Forall_cons_2 _ (k, x) _ (json_nested_ind x) (go l)
      end) l)
  end.
End json_ind.

(** Values whose numbers are integers; those whose text is also valid. *)
Fixpoint integral (j : json) : bool :=
  match j with
  | JNull | JBool _ | JStr _ => true
  | JNum lit => int_literal lit
  | JArr l => forallb integral l
  | JObj l => forallb (λ p, integral p.2) l
  end.

Fixpoint plain (j : json) : bool :=
  match j with
  | JNull | JBool _ => true
  | JNum lit => int_literal lit
  | JStr s => utf8 s
  | JArr l => forallb plain l
  | JObj l => forallb (λ p, utf8 p.1 && plain p.2) l
  end.

(** The value with valid text. *)
Fixpoint scrub (j : json) : json :=
  match j with
  | JNull => JNull
  | JBool b => JBool b
  | JNum lit => JNum lit
  | JStr s => JStr (valid s)
  | JArr l => JArr (scrub <$> l)
  | JObj l => JObj ((λ p, (valid p.1, scrub p.2)) <$> l)
  end.

Definition print_member (p : string * json) : string := quote p.1 +:+ ":" +:+ print p.2.

(** A printed value starts with a character that is neither white space nor a
    closing bracket. *)
Lemma print_head j :
  integral j = true →
  ∃ c r, print j = String c r ∧ is_space c = false ∧ c ≠ "]"%char ∧ c ≠ "}"%char.
Proof.
  destruct j as [|[]|lit| | |]; cbn [integral]; try done; intros Hp;
    try (eexists _, _; (split; [reflexivity|]); done).
  destruct lit as [|c r]; [done|]. exists c, r. split; [done|].
  by destruct (int_literal_head c r Hp) as (? & ? & ? & ? & ?).
Qed.

(** The statement for one value, by length of its text. *)
Definition parses (j : json) : Prop := ∀ fuel rest,
  integral j = true → delimited rest = true → (String.length (print j) ≤ fuel)%nat →
  parse_value fuel (print j +:+ rest) = Some (scrub j, rest).

Lemma skip_ws_head c r : is_space c = false → skip_ws (String c r) = String c r.
Proof. intros E. cbn. by rewrite E. Qed.

Lemma print_nonempty j : integral j = true → (1 ≤ String.length (print j))%nat.
Proof. intros Hp. destruct (print_head j Hp) as (c & r & -> & _). cbn. lia. Qed.

#[local] Arguments parse_value : simpl never.
#[local] Arguments parse_elements : simpl never.
#[local] Arguments parse_members : simpl never.

Lemma parse_elements_S fuel s :
  parse_elements (S fuel) s =
    ('(v, r) ← parse_value fuel s;
     match skip_ws r with
     | String ","%char r1 => '(l, r2) ← parse_elements fuel r1; Some (v :: l, r2)
     | String "]"%char r1 => Some ([v], r1)
     | _ => None
     end).
Proof. done. Qed.

Lemma parse_elements_last fuel s v r :
  parse_value fuel s = Some (v, String "]"%char r) →
  parse_elements (S fuel) s = Some ([v], r).
Proof. intros E. rewrite parse_elements_S, E. done. Qed.

Lemma parse_elements_more fuel s v r l r' :
  parse_value fuel s = Some (v, String ","%char r) →
  parse_elements fuel r = Some (l, r') →
  parse_elements (S fuel) s = Some (v :: l, r').
Proof.
  intros E E'. rewrite parse_elements_S, E. cbn [mbind option_bind].
  rewrite skip_ws_head by done. by rewrite E'.
Qed.

Lemma join_more (x y : string) l : join "," (x :: y :: l) = x +:+ String ","%char (join "," (y :: l)).
Proof. done. Qed.

Lemma parse_elements_print l x fuel rest :
  Forall parses (x :: l) → forallb integral (x :: l) = true →
  (String.length (join "," (print <$> x :: l)) + 1 ≤ fuel)%nat →
  parse_elements fuel (join "," (print <$> x :: l) +:+ String "]"%char rest)
  = Some (scrub <$> x :: l, rest).
Proof.
  revert x fuel; induction l as [|y l IH]; intros x fuel HF Hp Hfuel;
    apply Forall_cons in HF as [Hx HF]; cbn in Hp; apply andb_prop in Hp as [Hpx Hp];
    (destruct fuel as [|fuel]; [lia|]).
  - apply parse_elements_last. apply Hx; [done|done|]. cbn in Hfuel. lia.
  - rewrite !fmap_cons, join_more, string_app_assoc, app_cons_string in *.
    rewrite <-(fmap_cons print y l) in *.
    rewrite length_app_string in Hfuel. cbn [String.length] in Hfuel.
    pose proof (print_nonempty x Hpx).
    eapply parse_elements_more; [apply Hx; [done|done|lia]|]. apply IH; [done|done|lia].
Qed.

Lemma parse_members_S fuel s :
  parse_members (S fuel) s =
    (r0 ← expect dquote s;
     '(k, r1) ← scan_string r0;
     r2 ← expect ":"%char r1;
     '(v, r) ← parse_value fuel r2;
     match skip_ws r with
     | String ","%char r3 => '(l, r4) ← parse_members fuel r3; Some ((k, v) :: l, r4)
     | String "}"%char r3 => Some ([(k, v)], r3)
     | _ => None
     end).
Proof. done. Qed.

(** The quote and the colon of a member. *)
Lemma parse_members_key fuel k s :
  parse_members (S fuel) (quote k +:+ String ":"%char s) =
    ('(v, r) ← parse_value fuel s;
     match skip_ws r with
     | String ","%char r3 => '(l, r4) ← parse_members fuel r3; Some ((valid k, v) :: l, r4)
     | String "}"%char r3 => Some ([(valid k, v)], r3)
     | _ => None
     end).
Proof.
  rewrite parse_members_S. unfold quote, str1.
  rewrite app_cons_string, app_nil_string, app_cons_string, string_app_assoc.
  rewrite app_cons_string, app_nil_string.
  change (expect dquote (String dquote ?r)) with (Some r). cbn [mbind option_bind].
  rewrite scan_quote_chars. done.
Qed.

Lemma parse_members_print l p fuel rest :
  Forall (λ p, parses p.2) (p :: l) →
  forallb (λ p, integral p.2) (p :: l) = true →
  (String.length (join "," (print_member <$> p :: l)) + 1 ≤ fuel)%nat →
  parse_members fuel (join "," (print_member <$> p :: l) +:+ String "}"%char rest)
  = Some ((λ p, (valid p.1, scrub p.2)) <$> p :: l, rest).
Proof.
  revert p fuel; induction l as [|q l IH]; intros [k v] fuel HF Hp Hfuel;
    apply Forall_cons in HF as [Hv HF]; cbn in Hp, Hv;
    apply andb_prop in Hp as [Hpv Hp];
    (destruct fuel as [|fuel]; [lia|]).
  - cbn [fmap list_fmap join print_member fst snd] in *. unfold print_member in *.
    cbn [fst snd] in *. rewrite !length_app_string in Hfuel. cbn [String.length] in Hfuel.
    rewrite !string_app_assoc, app_cons_string, app_nil_string, parse_members_key.
    rewrite Hv by (done || lia). cbn [mbind option_bind].
    by rewrite skip_ws_head by done.
  - rewrite !fmap_cons, join_more in *. rewrite <-(fmap_cons print_member q l) in *.
    change (print_member (k, v)) with (quote k +:+ ":" +:+ print v) in *.
    rewrite !length_app_string in Hfuel. cbn [String.length] in Hfuel.
    rewrite !string_app_assoc, !app_cons_string, app_nil_string, parse_members_key.
    pose proof (print_nonempty v Hpv).
    rewrite Hv by (done || lia). cbn [mbind option_bind].
    rewrite skip_ws_head by done. rewrite IH by (done || lia). done.
Qed.

Lemma parse_value_S fuel c r :
  is_space c = false →
  parse_value (S fuel) (String c r) =
      if decide (c = "{"%char) then
        match skip_ws r with
        | String "}"%char r1 => Some (JObj [], r1)
        | _ => '(l, r1) ← parse_members fuel r; Some (JObj l, r1)
        end
      else if decide (c = "["%char) then
        match skip_ws r with
        | String "]"%char r1 => Some (JArr [], r1)
        | _ => '(l, r1) ← parse_elements fuel r; Some (JArr l, r1)
        end
      else if ord c =? 34 then
        '(t, r1) ← scan_string r; Some (JStr t, r1)
      else if decide (c = "t"%char) then r1 ← strip_prefix "rue" r; Some (JBool true, r1)
      else if decide (c = "f"%char) then r1 ← strip_prefix "alse" r; Some (JBool false, r1)
      else if decide (c = "n"%char) then r1 ← strip_prefix "ull" r; Some (JNull, r1)
      else '(lit, r1) ← scan_number (String c r); Some (JNum lit, r1).
Proof. intros E. unfold parse_value at 1. cbn -[decide ord]. by rewrite E. Qed.

(** An opening bracket followed by the head of a value. *)
Lemma parse_value_arr fuel c r :
  is_space c = false → c ≠ "]"%char →
  parse_value (S fuel) (String "["%char (String c r))
  = ('(l, r1) ← parse_elements fuel (String c r); Some (JArr l, r1)).
Proof.
  intros Hs Hc. destruct c as [[] [] [] [] [] [] [] []];
    first [reflexivity | discriminate Hs | by destruct Hc].
Qed.

Lemma parse_value_obj fuel c r :
  is_space c = false → c ≠ "}"%char →
  parse_value (S fuel) (String "{"%char (String c r))
  = ('(l, r1) ← parse_members fuel (String c r); Some (JObj l, r1)).
Proof.
  intros Hs Hc. destruct c as [[] [] [] [] [] [] [] []];
    first [reflexivity | discriminate Hs | by destruct Hc].
Qed.

Lemma join_head x l z :
  (∃ c r, x = String c r ∧ is_space c = false ∧ c ≠ "]"%char ∧ c ≠ "}"%char) →
  ∃ c r, join "," (x :: l) +:+ z = String c r
    ∧ is_space c = false ∧ c ≠ "]"%char ∧ c ≠ "}"%char.
Proof.
  intros (c & r & -> & Hc). destruct l as [|y l].
  - exists c, (r +:+ z). by rewrite <-app_cons_string.
  - exists c, ((r +:+ String ","%char (join "," (y :: l))) +:+ z).
    by rewrite join_more, <-!app_cons_string.
Qed.

Lemma print_arr l : print (JArr l) = String "["%char (join "," (print <$> l) +:+ "]").
Proof. done. Qed.

Lemma print_obj l : print (JObj l) = String "{"%char (join "," (print_member <$> l) +:+ "}").
Proof. done. Qed.

Lemma parses_all j : parses j.
Proof.
  induction j as [|[]|lit|s|l IH|l IH] using json_nested_ind;
    intros fuel rest Hp Hr Hf; (destruct fuel as [|fuel]; [pose proof (print_nonempty _ Hp); lia|]);
    try reflexivity.
  - cbn [integral print] in *. destruct lit as [|c r]; [done|].
    destruct (int_literal_head c r Hp) as (Hs & _ & _ & H1 & H2). rewrite app_cons_string, parse_value_S by done.
    destruct H2 as (H2 & H3 & H4 & H5 & H6). rewrite !decide_False by done.
    rewrite H1, <-app_cons_string, scan_number_app by done. done.
  - change (print (JStr s)) with (quote s). unfold quote, str1.
    rewrite app_cons_string, app_nil_string, app_cons_string, string_app_assoc.
    rewrite app_cons_string, app_nil_string, parse_value_S by done.
    change (ord dquote =? 34) with true. cbn -[scan_string quote_chars valid].
    by rewrite scan_quote_chars.
  - destruct l as [|x l]; [reflexivity|].
    rewrite print_arr, app_cons_string, string_app_assoc, app_cons_string, app_nil_string.
    destruct (join_head (print x) (print <$> l) (String "]"%char rest))
      as (c & r & E & Hc & Hb & _).
    { apply print_head. cbn in Hp. by apply andb_prop in Hp as [? ?]. }
    rewrite fmap_cons, E, parse_value_arr by done.
    rewrite <-E, <-fmap_cons, parse_elements_print; [done|done|done|].
    rewrite print_arr in Hf. cbn [String.length] in Hf. rewrite length_app_string in Hf.
    cbn [String.length] in Hf. lia.
  - destruct l as [|p l]; [reflexivity|].
    rewrite print_obj, app_cons_string, string_app_assoc, app_cons_string, app_nil_string.
    destruct (join_head (print_member p) (print_member <$> l) (String "}"%char rest))
      as (c & r & E & Hc & _ & Hb).
    { eexists _, _. split; [reflexivity|]. done. }
    rewrite fmap_cons, E, parse_value_obj by done.
    rewrite <-E, <-fmap_cons, parse_members_print; [done|done|done|].
    rewrite print_obj in Hf. cbn [String.length] in Hf. rewrite length_app_string in Hf.
    cbn [String.length] in Hf. lia.
Qed.

(** Every printed value parses to itself with valid text. *)
Lemma parse_print_scrub j : integral j = true → parse (print j) = Some (scrub j).
Proof.
  intros Hp. unfold parse.
  rewrite <-(string_app_nil_r (print j)) at 2. rewrite parses_all; [done|done|done|lia].
Qed.

(** The same with the line feed of [Encode]. *)
Lemma parse_line_scrub j :
  integral j = true → parse (print j +:+ String "010"%char EmptyString) = Some (scrub j).
Proof.
  intros Hp. unfold parse. rewrite parses_all; [done|done|done|].
  rewrite length_app_string. lia.
Qed.

Lemma plain_scrub j : plain j = true → integral j = true ∧ scrub j = j.
Proof.
  induction j as [|[]|lit|s|l IH|l IH] using json_nested_ind; cbn [plain integral scrub]; try done.
  - intros H. by rewrite valid_utf8.
  - induction IH as [|x l Hx _ IHl]; [done|]. cbn. intros [H1 H2]%andb_prop.
    destruct (Hx H1) as [-> ->]. destruct (IHl H2) as [-> [= E]]. by rewrite E.
  - induction IH as [|[k x] l Hx _ IHl]; [done|]. cbn. intros [[H0 H1]%andb_prop H2]%andb_prop.
    cbn in Hx. destruct (Hx H1) as [-> ->]. destruct (IHl H2) as [-> [= E]].
    by rewrite E, valid_utf8.
Qed.

Lemma parse_print j : plain j = true → parse (print j) = Some j.
Proof. intros [H1 H2]%plain_scrub. by rewrite parse_print_scrub, H2. Qed.

Lemma parse_print_line j : plain j = true → parse (print j +:+ String "010"%char EmptyString) = Some j.
Proof. intros [H1 H2]%plain_scrub. by rewrite parse_line_scrub, H2. Qed.

(** ** Fuel

    A successful parse consumes text, and the text it consumes is fuel enough:
    [parse] gives every text the value that any amount of fuel gives it. *)

Lemma skip_ws_length s : (String.length (skip_ws s) ≤ String.length s)%nat.
Proof. induction s as [|c s IH]; [done|]. cbn. destruct (is_space c); cbn; lia. Qed.

Lemma prepend_Some p o s r : prepend p o = Some (s, r) → ∃ t, o = Some (t, r).
Proof. destruct o as [[t r']|]; cbn; [|done]. intros [= _ <-]. eauto. Qed.

(** Follow a scanner into its branches until [H] applies to the rest. *)
Ltac scan_cases H :=
  repeat first
    [ done
    | let E := fresh in intros E; eapply H, E; cbn in *; lia
    | match goal with |- match ?x with _ => _ end = _ → _ => destruct x end ].

Lemma scan_string_length s t r :
  scan_string s = Some (t, r) → (String.length r < String.length s)%nat.
Proof.
  assert (∀ n s t, (String.length s ≤ n)%nat → scan_string s = Some (t, r) →
    (String.length r < String.length s)%nat) as Hn; [|by apply (Hn (String.length s))].
  clear s t. induction n as [|n IH]; intros [|c s] t Hn; try done; cbn in Hn; [lia|].
  assert (∀ p s' t, (String.length s' ≤ String.length s)%nat →
    prepend p (scan_string s') = Some (t, r) → (String.length r < String.length (String c s))%nat) as H.
  { intros p s' t' Hs (t2 & E)%prepend_Some. apply IH in E; cbn; lia. }
  clear IH. cbn [scan_string].
  destruct (ord c =? 34); [intros [= _ <-]; cbn; lia|]. scan_cases H.
Qed.

Lemma take_digits_length s d r :
  take_digits s = (d, r) →
  (String.length r + String.length d = String.length s)%nat.
Proof.
  revert d. induction s as [|c s IH]; intros d; cbn; [by intros [= <- <-]|].
  destruct (is_digit c); [|by intros [= <- <-]]. destruct (take_digits s) as [d' r'].
  intros [= <- <-]. cbn. specialize (IH d' eq_refl). lia.
Qed.

Lemma nonempty_digits_length s d r :
  nonempty_digits s = Some (d, r) → (String.length r < String.length s)%nat.
Proof.
  unfold nonempty_digits. destruct (take_digits s) as [d' r'] eqn:E.
  apply take_digits_length in E. destruct d'; [done|]. intros [= _ <-]. cbn in E. lia.
Qed.

Lemma scan_frac_length s d r : scan_frac s = Some (d, r) → (String.length r ≤ String.length s)%nat.
Proof.
  assert (∀ s' s'' d, (String.length s' ≤ String.length s'')%nat →
    prepend "." (nonempty_digits s') = Some (d, r) → (String.length r ≤ String.length s'')%nat) as H.
  { intros s' s'' d' Hs (t & E%nonempty_digits_length)%prepend_Some. lia. }
  destruct s as [|c s]; unfold scan_frac; [by intros [= _ <-]|].
  repeat first [by intros [= _ <-] | by apply H; cbn; lia
    | match goal with |- match ?x with _ => _ end = _ → _ => destruct x end].
Qed.

Lemma scan_exp_length s d r : scan_exp s = Some (d, r) → (String.length r ≤ String.length s)%nat.
Proof.
  assert (∀ p s' s'' d, (String.length s' ≤ String.length s'')%nat →
    prepend p (nonempty_digits s') = Some (d, r) → (String.length r ≤ String.length s'')%nat) as H.
  { intros p s' s'' d' Hs (t & E%nonempty_digits_length)%prepend_Some. lia. }
  destruct s as [|c s]; unfold scan_exp; [by intros [= _ <-]|].
  destruct ((ord c =? 101) || (ord c =? 69)); [|by intros [= _ <-]]. scan_cases H.
Qed.

Lemma scan_int_length s d r : scan_int s = Some (d, r) → (String.length r < String.length s)%nat.
Proof.
  destruct s as [|c s]; [done|]. destruct (decide (c = "0"%char)) as [->|Hc].
  - intros [= _ <-]. cbn. lia.
  - intros E. apply (nonempty_digits_length _ d). rewrite <-E.
    destruct c as [[] [] [] [] [] [] [] []]; first [done|by destruct Hc].
Qed.

Lemma scan_number_length s d r :
  scan_number s = Some (d, r) → (String.length r < String.length s)%nat.
Proof.
  assert (∀ sign s', (String.length s' ≤ String.length s)%nat →
    ('(i, s2) ← scan_int s'; '(f, s3) ← scan_frac s2; '(e, s4) ← scan_exp s3;
     Some (sign +:+ i +:+ f +:+ e, s4)) = Some (d, r) → (String.length r < String.length s)%nat) as H.
  { intros sign s' Hs. destruct (scan_int s') as [[i s2]|] eqn:E1; [|done]. cbn [mbind option_bind].
    destruct (scan_frac s2) as [[f s3]|] eqn:E2; [|done]. cbn [mbind option_bind].
    destruct (scan_exp s3) as [[e s4]|] eqn:E3; [|done]. cbn [mbind option_bind]. intros [= _ <-].
    apply scan_int_length in E1. apply scan_frac_length in E2. apply scan_exp_length in E3. lia. }
  destruct s as [|c s]; [done|]. destruct (decide (c = "-"%char)) as [->|Hc].
  - apply (H "-"%string). cbn. lia.
  - intros E. apply (H EmptyString (String c s)); [done|]. rewrite <-E.
    destruct c as [[] [] [] [] [] [] [] []]; first [done|by destruct Hc].
Qed.

Lemma strip_prefix_length p s r :
  strip_prefix p s = Some r → (String.length r ≤ String.length s)%nat.
Proof.
  revert s. induction p as [|a p IH]; intros [|b s]; cbn; try done; try (by intros [= <-]).
  case_decide; [|done]. intros E%IH. lia.
Qed.

Lemma expect_length c s r : expect c s = Some r → (String.length r < String.length s)%nat.
Proof.
  unfold expect. pose proof (skip_ws_length s). destruct (skip_ws s) as [|d r']; [done|].
  case_decide; [|done]. intros [= <-]. cbn in *. lia.
Qed.

(** With the fuel [f] the parser [p] succeeds only by consuming text, and then
    succeeds in the same way with any fuel that covers the text consumed. *)
Definition adequate {A} (p : nat → string → option (A * string)) (f : nat) : Prop :=
  ∀ s v r, p f s = Some (v, r) →
    (String.length r < String.length s)%nat
    ∧ ∀ f', (String.length s ≤ f' + String.length r)%nat → p f' s = Some (v, r).

Lemma parse_value_unfold f s :
  parse_value (S f) s =
    match skip_ws s with
    | EmptyString => None
    | String c r =>
      if decide (c = "{"%char) then
        match skip_ws r with
        | String "}"%char r1 => Some (JObj [], r1)
        | _ => '(l, r1) ← parse_members f r; Some (JObj l, r1)
        end
      else if decide (c = "["%char) then
        match skip_ws r with
        | String "]"%char r1 => Some (JArr [], r1)
        | _ => '(l, r1) ← parse_elements f r; Some (JArr l, r1)
        end
      else if ord c =? 34 then
        '(t, r1) ← scan_string r; Some (JStr t, r1)
      else if decide (c = "t"%char) then r1 ← strip_prefix "rue" r; Some (JBool true, r1)
      else if decide (c = "f"%char) then r1 ← strip_prefix "alse" r; Some (JBool false, r1)
      else if decide (c = "n"%char) then r1 ← strip_prefix "ull" r; Some (JNull, r1)
      else '(lit, r1) ← scan_number (String c r); Some (JNum lit, r1)
    end.
Proof. done. Qed.

(** The matches on the next character. *)
Lemma match_brace s :
  (∃ r, s = String "}"%char r)
  ∨ ∀ B (hit : string → B) miss, match s with String "}"%char r => hit r | _ => miss end = miss.
Proof. destruct s as [|[[] [] [] [] [] [] [] []] s]; eauto. Qed.

Lemma match_bracket s :
  (∃ r, s = String "]"%char r)
  ∨ ∀ B (hit : string → B) miss, match s with String "]"%char r => hit r | _ => miss end = miss.
Proof. destruct s as [|[[] [] [] [] [] [] [] []] s]; eauto. Qed.

Lemma match_next s :
  (∃ r, s = String ","%char r) ∨ (∃ r, s = String "]"%char r) ∨ (∃ r, s = String "}"%char r)
  ∨ (∀ B (more last : string → option B),
       match s with String ","%char r => more r | String "]"%char r => last r | _ => None end = None)
    ∧ (∀ B (more last : string → option B),
       match s with String ","%char r => more r | String "}"%char r => last r | _ => None end = None).
Proof. destruct s as [|[[] [] [] [] [] [] [] []] s]; eauto 6. Qed.

Lemma adequate_bind {A B} (p : nat → string → option (A * string)) (g : A → B) f s v r :
  adequate p f → ('(l, r1) ← p f s; Some (g l, r1)) = Some (v, r) →
  (String.length r < String.length s)%nat
  ∧ ∀ f', (String.length s ≤ f' + String.length r)%nat →
      ('(l, r1) ← p f' s; Some (g l, r1)) = Some (v, r).
Proof.
  intros Hp. destruct (p f s) as [[l r1]|] eqn:E; [|done]. cbn [mbind option_bind]. intros [= <- <-].
  apply Hp in E as [Hl Hf]. split; [done|]. intros f' Hf'. by rewrite Hf.
Qed.

Lemma adequate_value f :
  adequate parse_members f → adequate parse_elements f → adequate parse_value (S f).
Proof.
  intros Hm He s v r. rewrite parse_value_unfold. pose proof (skip_ws_length s) as Hws.
  destruct (skip_ws s) as [|c r0] eqn:Es; [done|]. cbn [String.length] in Hws. intros E.
  assert ((String.length r ≤ String.length r0)%nat
    ∧ ∀ f', (String.length r0 ≤ f' + String.length r)%nat → parse_value (S f') s = Some (v, r))
    as [Hl Hf].
  { setoid_rewrite parse_value_unfold. setoid_rewrite Es. pose proof (skip_ws_length r0) as Hws0.
    destruct (decide (c = "{"%char)).
    { destruct (match_brace (skip_ws r0)) as [[r1 E1]|E1].
      - rewrite E1 in *. cbn [String.length] in Hws0. injection E as <- <-. split; [lia|done].
      - rewrite E1 in E. setoid_rewrite E1. apply (adequate_bind _ JObj) in E as [Hl Hf]; [|done].
        split; [lia|done]. }
    destruct (decide (c = "["%char)).
    { destruct (match_bracket (skip_ws r0)) as [[r1 E1]|E1].
      - rewrite E1 in *. cbn [String.length] in Hws0. injection E as <- <-. split; [lia|done].
      - rewrite E1 in E. setoid_rewrite E1. apply (adequate_bind _ JArr) in E as [Hl Hf]; [|done].
        split; [lia|done]. }
    split; [|done]. revert E.
    destruct (ord c =? 34).
    { destruct (scan_string r0) as [[t r1]|] eqn:E1; [|done]. intros [= _ <-].
      apply scan_string_length in E1. lia. }
    do 3 (case_decide; [destruct (strip_prefix _ r0) as [r1|] eqn:E1; [|done]; intros [= _ <-];
      by apply strip_prefix_length in E1|]).
    destruct (scan_number (String c r0)) as [[lit r1]|] eqn:E1; [|done]. intros [= _ <-].
    apply scan_number_length in E1. cbn in E1. lia. }
  split; [lia|]. intros [|f'] Hf'; [lia|]. apply Hf. lia.
Qed.

Lemma adequate_elements f :
  adequate parse_value f → adequate parse_elements f → adequate parse_elements (S f).
Proof.
  intros Hv He s l r. rewrite parse_elements_S. intros E.
  destruct (parse_value f s) as [[v r0]|] eqn:E0; [|done]. cbn [mbind option_bind] in E.
  apply Hv in E0 as [Hl Hf]. pose proof (skip_ws_length r0) as Hws.
  destruct (match_next (skip_ws r0)) as [[r1 E1]|[[r1 E1]|[[r1 E1]|[E1 _]]]];
    [rewrite E1 in *|rewrite E1 in *|by rewrite E1 in E|by rewrite E1 in E]; cbn [String.length] in Hws.
  - destruct (parse_elements f r1) as [[l' r2]|] eqn:E2; [|done]. cbn [mbind option_bind] in E.
    injection E as <- <-. apply He in E2 as [Hl2 Hf2]. split; [lia|].
    intros [|f'] Hf'; [lia|]. rewrite parse_elements_S, Hf by lia. cbn [mbind option_bind].
    by rewrite E1, Hf2 by lia.
  - injection E as <- <-. split; [lia|]. intros [|f'] Hf'; [lia|].
    rewrite parse_elements_S, Hf by lia. cbn [mbind option_bind]. by rewrite E1.
Qed.

Lemma adequate_members f :
  adequate parse_value f → adequate parse_members f → adequate parse_members (S f).
Proof.
  intros Hv He s l r. rewrite parse_members_S. intros E.
  destruct (expect dquote s) as [r0|] eqn:E1; [|done]. cbn [mbind option_bind] in E.
  destruct (scan_string r0) as [[k r1]|] eqn:E2; [|done]. cbn [mbind option_bind] in E.
  destruct (expect ":"%char r1) as [r2|] eqn:E3; [|done]. cbn [mbind option_bind] in E.
  destruct (parse_value f r2) as [[v r3]|] eqn:E4; [|done]. cbn [mbind option_bind] in E.
  apply Hv in E4 as [Hl Hf]. pose proof (skip_ws_length r3) as Hws.
  pose proof (expect_length _ _ _ E1). pose proof (scan_string_length _ _ _ E2).
  pose proof (expect_length _ _ _ E3).
  assert (∀ f', (String.length r2 ≤ f' + String.length r3)%nat →
    parse_members (S f') s = match skip_ws r3 with
      | String ","%char r3 => '(l, r4) ← parse_members f' r3; Some ((k, v) :: l, r4)
      | String "}"%char r3 => Some ([(k, v)], r3)
      | _ => None
      end) as Hs.
  { intros f' Hf'. rewrite parse_members_S, E1. cbn [mbind option_bind]. rewrite E2.
    cbn [mbind option_bind]. rewrite E3. cbn [mbind option_bind]. by rewrite Hf. }
  destruct (match_next (skip_ws r3)) as [[r4 E5]|[[r4 E5]|[[r4 E5]|[_ E5]]]];
    [rewrite E5 in *|by rewrite E5 in E|rewrite E5 in *|by rewrite E5 in E]; cbn [String.length] in Hws.
  - destruct (parse_members f r4) as [[l' r5]|] eqn:E6; [|done]. cbn [mbind option_bind] in E.
    injection E as <- <-. apply He in E6 as [Hl6 Hf6]. split; [lia|].
    intros [|f'] Hf'; [lia|]. rewrite Hs by lia. by rewrite Hf6 by lia.
  - injection E as <- <-. split; [lia|]. intros [|f'] Hf'; [lia|]. by rewrite Hs by lia.
Qed.

Lemma parser_adequate f :
  adequate parse_value f ∧ adequate parse_elements f ∧ adequate parse_members f.
Proof.
  induction f as [|f (IH1 & IH2 & IH3)]; [by split_and!|].
  auto using adequate_value, adequate_elements, adequate_members.
Qed.

(** The fuel of [parse] is enough: a text that is a value for some fuel is that
    value for [parse]. *)
Lemma parse_complete f s v r :
  parse_value f s = Some (v, r) → skip_ws r = EmptyString → parse s = Some v.
Proof.
  intros E Hr. apply parser_adequate in E as [_ Hf]. unfold parse. rewrite Hf by lia.
  cbn [mbind option_bind]. by rewrite Hr.
Qed.
