(* ===== verification/JsonText.v ===== *)
(** * Text that encoding/json accepts is valid UTF-8

    The scanner replaces every byte that is not part of valid UTF-8, so that all
    strings of a decoded value are valid; what the watchdog has decoded can
    therefore be encoded and read back without loss. *)

From S2P Require Import Prelude GoJson.

(** ** Characters *)

Lemma ord_chr z : 0 ≤ z < 256 → ord (chr z) = z.
Proof. intros H. unfold ord, chr. rewrite N_ascii_embedding; lia. Qed.

Lemma utf8_app a b : utf8 a = true → utf8 (a +:+ b) = utf8 b.
Proof.
  induction a as [a IH] using (induction_ltof1 _ String.length). unfold ltof in IH.
  intros Ha. destruct (utf8_cases a Ha) as [|c r E1 Hr|c c2 r E1 E2 Hr|c c2 c3 r E1 E2 E3 Hr
    |c c2 c3 c4 r E1 E2 E3 E4 Hr]; rewrite ?app_nil_string, ?app_cons_string; [done|..];
    cbn [utf8]; rewrite E1, ?E2, ?E3, ?E4, IH by (done || (cbn; lia)); done.
Qed.

(** Ranges of bytes. *)
Ltac byte_range :=
  unfold is_ascii, is_cont, between, lead3, lead4, is_cont, between; rewrite !ord_chr by zmod;
  repeat (rewrite ?andb_true_iff, ?orb_true_iff, ?andb_false_iff, ?orb_false_iff);
  zmod.

Lemma encode_rune_utf8 r : 0 ≤ r → utf8 (encode_rune r) = true.
Proof.
  intros H0. unfold encode_rune.
  destruct (r <? 128) eqn:E1; bool_hyps.
  { unfold str1. cbn [utf8]. by replace (is_ascii (chr r)) with true by (symmetry; byte_range). }
  destruct (r <? 2048) eqn:E2; bool_hyps.
  { unfold str1. cbn [utf8].
    replace (is_ascii (chr (192 + r / 64))) with false by (symmetry; byte_range).
    by replace (between 194 223 (chr (192 + r / 64)) && is_cont (chr (128 + r mod 64))) with true
      by (symmetry; byte_range). }
  destruct ((1114111 <? r) || _) eqn:E3; [done|].
  assert (r ≤ 1114111 ∧ ¬ (55296 ≤ r ≤ 57343)) as [E4 E5] by lia. clear E3.
  destruct (r <? 65536) eqn:E6; bool_hyps; unfold str1; cbn [utf8].
  { replace (is_ascii (chr (224 + r / 4096))) with false by (symmetry; byte_range).
    replace (between 194 223 (chr (224 + r / 4096))) with false by (symmetry; byte_range).
    cbn [andb].
    by replace (lead3 _ _ && is_cont _) with true by (symmetry; byte_range). }
  replace (is_ascii (chr (240 + r / 262144))) with false by (symmetry; byte_range).
  replace (between 194 223 (chr (240 + r / 262144))) with false by (symmetry; byte_range).
  cbn [andb].
  replace (lead3 (chr (240 + r / 262144)) _) with false by (symmetry; byte_range).
  cbn [andb]. rewrite andb_true_r. byte_range.
Qed.

Lemma hexval_range c z : hexval c = Some z → 0 ≤ z.
Proof.
  unfold hexval, is_digit, between. intros H.
  repeat (case_match; [simplify_eq; lia|]). done.
Qed.

Lemma hex4_range a b c d z : hex4 a b c d = Some z → 0 ≤ z.
Proof.
  unfold hex4. destruct (hexval a) as [x|] eqn:Ea; [|done]. destruct (hexval b) as [y|] eqn:Eb; [|done].
  destruct (hexval c) as [u|] eqn:Ec; [|done]. destruct (hexval d) as [v|] eqn:Ed; [|done].
  apply hexval_range in Ea, Eb, Ec, Ed. cbn. intros [= <-]. lia.
Qed.

Lemma escape_char_ascii c e : escape_char c = Some e → is_ascii e = true.
Proof.
  unfold escape_char, is_ascii. intros H.
  repeat (case_match; [simplify_eq; first [done|lia]|]). done.
Qed.

Lemma utf8_str1 c : is_ascii c = true → utf8 (str1 c) = true.
Proof. intros E. unfold str1. cbn [utf8]. by rewrite E. Qed.

(** ** Scanned strings *)

Lemma prepend_utf8 p o t r :
  utf8 p = true → (∀ t r, o = Some (t, r) → utf8 t = true) →
  prepend p o = Some (t, r) → utf8 t = true.
Proof.
  intros Hp Ho. destruct o as [[t' r']|]; [|done]. intros [= <- <-]. rewrite utf8_app by done.
  by eapply Ho.
Qed.

Lemma scan_string_utf8 s t r : scan_string s = Some (t, r) → utf8 t = true.
Proof.
  revert t r. induction s as [s IH] using (induction_ltof1 _ String.length). unfold ltof in IH.
  destruct s as [|c s]; [done|]. intros t r. cbn [scan_string].
  assert (∀ p s' t r, utf8 p = true → (String.length s' ≤ String.length s)%nat →
    prepend p (scan_string s') = Some (t, r) → utf8 t = true) as H.
  { intros p s' t' r' Hp Hs. apply prepend_utf8; [done|]. intros t2 r2. apply IH. cbn. lia. }
  clear IH. destruct (ord c =? 34); [by intros [= <- <-]|].
  destruct (ord c =? 92).
  { repeat match goal with
    | |- None = _ → _ => done
    | |- prepend _ _ = _ → _ => apply H
    | |- match ?x with _ => _ end = _ → _ => destruct x eqn:?
    end; try (cbn; lia); try done;
    repeat match goal with E : hex4 _ _ _ _ = Some _ |- _ => apply hex4_range in E end;
    first [apply encode_rune_utf8; lia | by eapply utf8_str1, escape_char_ascii]. }
  destruct (ord c <? 32); [done|]. destruct (ord c <? 128) eqn:E1.
  { apply H; [by apply utf8_str1|cbn; lia]. }
  assert (is_ascii c = false) as Ec by done. unfold str1.
  destruct s as [|c2 s2]; [by apply H|]. destruct (between 194 223 c && is_cont c2) eqn:E2.
  { apply H; [cbn [utf8]; by rewrite Ec, E2|cbn; lia]. }
  destruct s2 as [|c3 s3]; [by apply H|]. destruct (lead3 c c2 && is_cont c3) eqn:E3.
  { apply H; [cbn [utf8]; by rewrite Ec, E2, E3|cbn; lia]. }
  destruct s3 as [|c4 s4]; [by apply H|].
  destruct (lead4 c c2 && is_cont c3 && is_cont c4) eqn:E4; [|by apply H].
  apply H; [cbn [utf8]; by rewrite Ec, E2, E3, E4|cbn; lia].
Qed.

(** ** Parsed values *)

(** All strings and keys are valid. *)
Fixpoint clean (j : json) : bool :=
  match j with
  | JNull | JBool _ | JNum _ => true
  | JStr s => utf8 s
  | JArr l => forallb clean l
  | JObj l => forallb (λ p, utf8 p.1 && clean p.2) l
  end.

Lemma parse_clean_fuel f :
  (∀ s j r, parse_value f s = Some (j, r) → clean j = true)
  ∧ (∀ s l r, parse_elements f s = Some (l, r) → forallb clean l = true)
  ∧ (∀ s l r, parse_members f s = Some (l, r) → forallb (λ p, utf8 p.1 && clean p.2) l = true).
Proof.
  induction f as [|f (IHv & IHe & IHm)]; [done|]. split_and!.
  - intros s j r. rewrite parse_value_unfold. destruct (skip_ws s) as [|c r0]; [done|].
    case_decide.
    { destruct (match_brace (skip_ws r0)) as [[r1 E1]|E1]; rewrite E1; [by intros [= <- <-]|].
      destruct (parse_members f r0) as [[l r1]|] eqn:E; [|done]. intros [= <- <-]. by eapply IHm. }
    case_decide.
    { destruct (match_bracket (skip_ws r0)) as [[r1 E1]|E1]; rewrite E1; [by intros [= <- <-]|].
      destruct (parse_elements f r0) as [[l r1]|] eqn:E; [|done]. intros [= <- <-]. by eapply IHe. }
    destruct (ord c =? 34).
    { destruct (scan_string r0) as [[t r1]|] eqn:E; [|done]. intros [= <- <-].
      by eapply scan_string_utf8. }
    do 3 (case_decide; [by destruct (strip_prefix _ r0); [intros [= <- <-]|]|]).
    by destruct (scan_number _) as [[lit r1]|]; [intros [= <- <-]|].
  - intros s l r. rewrite parse_elements_S.
    destruct (parse_value f s) as [[v r0]|] eqn:E; [|done]. cbn [mbind option_bind].
    apply IHv in E. destruct (match_next (skip_ws r0)) as [[r1 E1]|[[r1 E1]|[[r1 E1]|[E1 _]]]];
      rewrite E1; try done.
    + destruct (parse_elements f r1) as [[l' r2]|] eqn:E2; [|done]. intros [= <- <-].
      cbn. rewrite E. by eapply IHe.
    + intros [= <- <-]. cbn. by rewrite E.
  - intros s l r. rewrite parse_members_S. destruct (expect dquote s) as [r0|]; [|done].
    cbn [mbind option_bind]. destruct (scan_string r0) as [[k r1]|] eqn:Ek; [|done].
    cbn [mbind option_bind]. apply scan_string_utf8 in Ek. destruct (expect _ r1) as [r2|]; [|done].
    cbn [mbind option_bind]. destruct (parse_value f r2) as [[v r3]|] eqn:E; [|done].
    cbn [mbind option_bind]. apply IHv in E.
    destruct (match_next (skip_ws r3)) as [[r4 E1]|[[r4 E1]|[[r4 E1]|[_ E1]]]]; rewrite E1; try done.
    + destruct (parse_members f r4) as [[l' r5]|] eqn:E2; [|done]. intros [= <- <-].
      cbn. rewrite Ek, E. by eapply IHm.
    + intros [= <- <-]. cbn. by rewrite Ek, E.
Qed.

Lemma parse_clean s j : parse s = Some j → clean j = true.
Proof.
  unfold parse. destruct (parse_value _ s) as [[v r]|] eqn:E; [|done]. cbn.
  destruct (skip_ws r); [|done]. intros [= <-]. by eapply parse_clean_fuel.
Qed.


(** ** Decoders keep strings valid *)

Lemma clean_members l k v : clean (JObj l) = true → (k, v) ∈ l → clean v = true.
Proof.
  cbn. rewrite forallb_forall. intros H Hin%list_elem_of_In. by apply H, andb_prop in Hin as [_ ?].
Qed.

Lemma dec_struct_clean {A} (P : A → Prop) (fields : list (string * decoder A)) j old :
  Forall (λ p, ∀ j a, clean j = true → P a → P (p.2 j a)) fields →
  clean j = true → P old → P (dec_struct fields j old).
Proof.
  intros Hf Hj HP. destruct j as [| | | | |l]; try done.
  apply (dec_struct_members P (λ j, clean j = true)); [done| |done].
  intros k v. by apply clean_members.
Qed.

Lemma dec_string_clean j old : clean j = true → utf8 old = true → utf8 (dec_string j old) = true.
Proof. by destruct j. Qed.

Lemma dec_elems_clean {A} (P : A → Prop) (zero : A) (d : decoder A) l old :
  (∀ j a, clean j = true → P a → P (d j a)) → P zero → clean (JArr l) = true → Forall P old →
  Forall P (dec_elems zero d l old).
Proof.
  intros Hd Hz. revert old. induction l as [|j l IH]; intros old Hl Ho; cbn; [by apply Forall_nil|].
  apply andb_prop in Hl as [Hj Hl]. destruct Ho as [|a old Ha Ho]; constructor; auto.
Qed.

(** The value a decoded body is stored from. *)
Lemma Unmarshal_clean {A} (P : A → Prop) (d : decoder A) data target :
  (∀ j a, clean j = true → P a → P (d j a)) → P target → P (Unmarshal d data target).
Proof.
  intros Hd HP. unfold Unmarshal. destruct (parse data) eqn:E; [|done].
  apply Hd; [by eapply parse_clean|done].
Qed.
