(* ===== verification/Template.v ===== *)
(** * text/template

    The part of Go's template language the report page uses: actions with
    variables, [if], [with] and [range] without [else], field chains, the
    functions [index], [len] and [ne] and functions supplied by the program. A
    template is parsed from its text, with the checks the parser makes on names,
    and executed on a value. Execution writes as it goes: an error leaves what
    was written before it. Values are written as html/template prints them,
    before it escapes them for the place they stand in. *)

From S2P Require Import Prelude GoFmt GoJson.

(** ** Values *)

(** Data as reflection shows it; a map comes with the zero value of its element
    type and its entries in the order of their keys. *)
Inductive tval : Type :=
  | VNil
  | VBool (b : bool)
  | VInt (z : Z)
  | VStr (s : string)
  | VList (l : list tval)
  | VMap (zero : tval) (l : list (string * tval))
  | VStruct (fields : list (string * tval)).

(** [fmt.Sprint]. *)
Fixpoint sprint (v : tval) : string :=
  match v with
  | VNil => "<nil>"
  | VBool b => show_bool b
  | VInt z => Itoa z
  | VStr s => s
  | VList l => "[" +:+ join " " (sprint <$> l) +:+ "]"
  | VMap _ l => "map[" +:+ join " " ((λ p, p.1 +:+ ":" +:+ sprint p.2) <$> l) +:+ "]"
  | VStruct l => "{" +:+ join " " ((λ p, sprint p.2) <$> l) +:+ "}"
  end.

(** What an action writes: nil is skipped. *)
Definition written (v : tval) : string :=
  match v with VNil => EmptyString | _ => sprint v end.

(** [IsTrue]. *)
Definition truth (v : tval) : bool :=
  match v with
  | VNil => false
  | VBool b => b
  | VInt z => negb (z =? 0)
  | VStr s => negb (String.length s =? 0)%nat
  | VList l => negb (length l =? 0)%nat
  | VMap _ l => negb (length l =? 0)%nat
  | VStruct _ => true
  end.

Fixpoint assoc {A} (k : string) (l : list (string * A)) : option A :=
  match l with
  | [] => None
  | (k', a) :: l => if decide (k' = k) then Some a else assoc k l
  end.

(** ** Syntax *)

(** An operand or a call; the dot and the variables carry their field chain. *)
Inductive expr : Type :=
  | EDot (fields : list string)
  | EVar (x : string) (fields : list string)
  | EStr (s : string)
  | EInt (z : Z)
  | ECall (f : string) (args : list expr).

Inductive node : Type :=
  | NText (s : string)
  | NAction (decl : option string) (e : expr)
  | NIf (e : expr) (body : list node)
  | NWith (e : expr) (body : list node)
  | NRange (decl : option (string * string)) (e : expr) (body : list node).

(** ** Lexer *)

Inductive piece : Type :=
  | PText (s : string)
  | PAction (s : string).

(** The state of the scanner: in text, after one opening brace, in an action,
    after one closing brace of it, or in a string of it. *)
Inductive mode : Set := InText | OpenBrace | InAction | CloseBrace | InString | InEscape.

(** The mode, the characters of the current piece and the pieces before it, both
    latest first. *)
Definition scan_state : Type := mode * list ascii * list piece.

Definition text_of (rev_chars : list ascii) : string :=
  fold_left (λ s c, String c s) rev_chars EmptyString.

Definition add_text (buf : list ascii) (out : list piece) : list piece :=
  match buf with [] => out | _ => PText (text_of buf) :: out end.

Definition scan_char (st : scan_state) (c : ascii) : scan_state :=
  let '(md, buf, out) := st in
  match md with
  | InText => if decide (c = "{"%char) then (OpenBrace, buf, out) else (InText, c :: buf, out)
  | OpenBrace =>
      if decide (c = "{"%char) then (InAction, [], add_text buf out)
      else (InText, c :: "{"%char :: buf, out)
  | InAction =>
      if decide (c = "}"%char) then (CloseBrace, buf, out)
      else if decide (c = dquote) then (InString, c :: buf, out)
      else (InAction, c :: buf, out)
  | CloseBrace =>
      if decide (c = "}"%char) then (InText, [], PAction (text_of buf) :: out)
      else (InAction, c :: "}"%char :: buf, out)
  | InString =>
      if decide (c = dquote) then (InAction, c :: buf, out)
      else if decide (c = "\"%char) then (InEscape, c :: buf, out)
      else (InString, c :: buf, out)
  | InEscape => (InString, c :: buf, out)
  end.

Fixpoint scan (st : scan_state) (s : string) : scan_state :=
  match s with EmptyString => st | String c s => scan (scan_char st c) s end.

(** The pieces of a template; an action that is not closed is an error. *)
Definition finish_scan (st : scan_state) : option (list piece) :=
  match st with
  | (InText, buf, out) => Some (rev (add_text buf out))
  | (OpenBrace, buf, out) => Some (rev (add_text ("{"%char :: buf) out))
  | _ => None
  end.

Definition pieces (s : string) : option (list piece) := finish_scan (scan (InText, [], []) s).

(** ** Tokens of an action *)

Inductive token : Type :=
  | TWord (s : string)   (** a name, a number, a variable or a field chain *)
  | TStr (s : string)
  | TOpen
  | TClose
  | TComma
  | TDeclare.

Definition is_word (c : ascii) : bool :=
  is_digit c || between 65 90 c || between 97 122 c || (ord c =? 95) || (ord c =? 46)
  || (ord c =? 36).

Definition add_word (buf : list ascii) (out : list token) : list token :=
  match buf with [] => out | _ => TWord (text_of buf) :: out end.

(** Strings are taken without escapes. *)
Fixpoint tokens (s : string) (in_str : bool) (buf : list ascii) (out : list token) :
    option (list token) :=
  match s with
  | EmptyString => if in_str then None else Some (rev (add_word buf out))
  | String c r =>
      if in_str then
        if decide (c = dquote) then tokens r false [] (TStr (text_of buf) :: out)
        else if decide (c = "\"%char) then None
        else tokens r true (c :: buf) out
      else if is_word c then tokens r false (c :: buf) out
      else if is_space c then tokens r false [] (add_word buf out)
      else if decide (c = dquote) then tokens r true [] (add_word buf out)
      else if decide (c = "("%char) then tokens r false [] (TOpen :: add_word buf out)
      else if decide (c = ")"%char) then tokens r false [] (TClose :: add_word buf out)
      else if decide (c = ","%char) then tokens r false [] (TComma :: add_word buf out)
      else if decide (c = ":"%char) then
        match r with
        | String "="%char r => tokens r false [] (TDeclare :: add_word buf out)
        | _ => None
        end
      else None
  end.

(** ** Parser *)

(** The parts of a word between its dots. *)
Fixpoint split_dots (s : string) (part : list ascii) : list string :=
  match s with
  | EmptyString => [text_of part]
  | String c r =>
      if decide (c = "."%char) then text_of part :: split_dots r [] else split_dots r (c :: part)
  end.

Definition nonempty_parts (l : list string) : bool :=
  forallb (λ s, negb (String.length s =? 0)%nat) l.

(** A word as an operand: the dot, a field chain, a variable, a number or the
    name of a function. *)
Definition operand_of (w : string) : option expr :=
  match split_dots w [] with
  | EmptyString :: fields =>
      if decide (fields = [EmptyString]) then Some (EDot [])
      else if nonempty_parts fields then Some (EDot fields) else None
  | (String c x as name) :: fields =>
      if decide (c = "$"%char) then
        if nonempty_parts fields then Some (EVar name fields) else None
      else if decide (fields = []) then
        match parse_uint name with
        | Some z => Some (EInt z)
        | None => Some (ECall name [])
        end
      else None
  | [] => None
  end.

(** A command: one operand, or a function with its arguments. *)
Definition command_of (rev_operands : list expr) : option expr :=
  match rev rev_operands with
  | [e] => Some e
  | ECall f [] :: args => Some (ECall f args)
  | _ => None
  end.

(** A pipeline of one command; [open] holds the operands before each open
    parenthesis. *)
Fixpoint parse_expr (l : list token) (cur : list expr) (open : list (list expr)) : option expr :=
  match l with
  | [] => match open with [] => command_of cur | _ => None end
  | TWord w :: l => e ← operand_of w; parse_expr l (e :: cur) open
  | TStr s :: l => parse_expr l (EStr s :: cur) open
  | TOpen :: l => parse_expr l [] (cur :: open)
  | TClose :: l =>
      match open with
      | before :: open => e ← command_of cur; parse_expr l (e :: before) open
      | [] => None
      end
  | _ => None
  end.

Inductive action_kind : Type :=
  | AEmit (decl : option string) (e : expr)
  | AIf (e : expr)
  | AWith (e : expr)
  | ARange (decl : option (string * string)) (e : expr)
  | AEnd.

Definition is_var (w : string) : bool :=
  match w with String c (String _ _) => bool_decide (c = "$"%char) | _ => false end.

Definition parse_action (l : list token) : option action_kind :=
  match l with
  | [TWord "end"] => Some AEnd
  | TWord "if" :: l => e ← parse_expr l [] []; Some (AIf e)
  | TWord "with" :: l => e ← parse_expr l [] []; Some (AWith e)
  | TWord "range" :: TWord k :: TComma :: TWord v :: TDeclare :: l =>
      if is_var k && is_var v then e ← parse_expr l [] []; Some (ARange (Some (k, v)) e) else None
  | TWord "range" :: l => e ← parse_expr l [] []; Some (ARange None e)
  | TWord x :: TDeclare :: l =>
      if is_var x then e ← parse_expr l [] []; Some (AEmit (Some x) e) else None
  | l => e ← parse_expr l [] []; Some (AEmit None e)
  end.

(** The blocks that are open, innermost first, with the nodes before them. *)
Definition close_block (k : action_kind) (body : list node) : option node :=
  match k with
  | AIf e => Some (NIf e body)
  | AWith e => Some (NWith e body)
  | ARange d e => Some (NRange d e body)
  | _ => None
  end.

Fixpoint parse_nodes (l : list piece) (cur : list node) (open : list (action_kind * list node)) :
    option (list node) :=
  match l with
  | [] => match open with [] => Some (rev cur) | _ => None end
  | PText s :: l => parse_nodes l (NText s :: cur) open
  | PAction s :: l =>
      ts ← tokens s false [] [];
      k ← parse_action ts;
      match k with
      | AEmit d e => parse_nodes l (NAction d e :: cur) open
      | AEnd =>
          match open with
          | (k, before) :: open => n ← close_block k (rev cur); parse_nodes l (n :: before) open
          | [] => None
          end
      | _ => parse_nodes l [] ((k, cur) :: open)
      end
  end.

(** *** Names

    The parser refuses functions that are not defined and variables that are not
    in scope. *)

Fixpoint names_ok (funcs vars : list string) (e : expr) : bool :=
  match e with
  | EVar x _ => bool_decide (x ∈ vars)
  | ECall f args => bool_decide (f ∈ funcs) && forallb (names_ok funcs vars) args
  | _ => true
  end.

(** The variables in scope after a node, if its names are right. *)
Fixpoint check_node (funcs : list string) (n : node) (vars : list string) {struct n} :
    option (list string) :=
  let fix check_list (l : list node) (vars : list string) : bool :=
    match l with
    | [] => true
    | n :: l => match check_node funcs n vars with Some vars => check_list l vars | None => false end
    end in
  match n with
  | NText _ => Some vars
  | NAction d e =>
      if names_ok funcs vars e then Some (option_list d ++ vars) else None
  | NIf e body | NWith e body =>
      if names_ok funcs vars e && check_list body vars then Some vars else None
  | NRange d e body =>
      if names_ok funcs vars e
         && check_list body (match d with Some (k, v) => [v; k] | None => [] end ++ vars)
      then Some vars else None
  end.

Fixpoint check_nodes (funcs : list string) (l : list node) (vars : list string) : bool :=
  match l with
  | [] => true
  | n :: l =>
      match check_node funcs n vars with Some vars => check_nodes funcs l vars | None => false end
  end.

Definition builtins : list string := ["index"; "len"; "ne"].

(** [template.New(...).Funcs(...).Parse(text)]. *)
Definition Parse (funcs : list string) (text : string) : option (list node) :=
  ps ← pieces text;
  ns ← parse_nodes ps [] [];
  if check_nodes (builtins ++ funcs) ns ["$"%string] then Some ns else None.

(** ** Execution *)

(** What is written: text of the template, or a value. *)
Inductive chunk : Type :=
  | Lit (s : string)
  | Out (s : string).

Definition chunk_text (c : chunk) : string := match c with Lit s => s | Out s => s end.
Definition page_text (l : list chunk) : string := join EmptyString (chunk_text <$> l).

Definition env : Type := list (string * tval).

(** An error or a value. *)
Definition eres : Type := string + tval.

Fixpoint field_chain (v : tval) (fields : list string) : eres :=
  match fields with
  | [] => inr v
  | f :: fields =>
      match v with
      | VStruct l =>
          match assoc f l with
          | Some v => field_chain v fields
          | None => inl ("can't evaluate field " +:+ f)%string
          end
      | _ => inl ("can't evaluate field " +:+ f)%string
      end
  end.

(** [index] with one index. *)
Definition index1 (item key : tval) : eres :=
  match item, key with
  | VNil, _ => inl "index of untyped nil"%string
  | VMap zero l, VStr k => inr (default zero (assoc k l))
  | VList l, VInt i =>
      if (0 <=? i) && (i <? Z.of_nat (length l)) then inr (default VNil (l !! Z.to_nat i))
      else inl "index out of range"%string
  | _, _ => inl "can't index item"%string
  end.

Definition len_of (v : tval) : eres :=
  match v with
  | VStr s => inr (VInt (Z.of_nat (String.length s)))
  | VList l => inr (VInt (Z.of_nat (length l)))
  | VMap _ l => inr (VInt (Z.of_nat (length l)))
  | _ => inl "len of a value without a length"%string
  end.

Definition ne_of (a b : tval) : eres :=
  match a, b with
  | VInt x, VInt y => inr (VBool (negb (x =? y)))
  | VStr x, VStr y => inr (VBool (bool_decide (x ≠ y)))
  | VBool x, VBool y => inr (VBool (xorb x y))
  | _, _ => inl "incompatible types for comparison"%string
  end.

(** The functions of the program: a result, or an error (a panic is caught). *)
Definition funcs : Type := string → option (list tval → eres).

Definition call (fs : funcs) (f : string) (args : list tval) : eres :=
  if decide (f = "index"%string) then
    match args with
    | item :: keys => fold_left (λ r k, match r with inl e => inl e | inr v => index1 v k end) keys (inr item)
    | [] => inl "wrong number of args for index"%string
    end
  else if decide (f = "len"%string) then
    match args with [v] => len_of v | _ => inl "wrong number of args for len"%string end
  else if decide (f = "ne"%string) then
    match args with [a; b] => ne_of a b | _ => inl "wrong number of args for ne"%string end
  else
    match fs f with
    | Some g => g args
    | None => inl (f +:+ " is not a defined function")%string
    end.

Section exec.
Context (fs : funcs).

Fixpoint eval (vars : env) (dot : tval) (e : expr) : eres :=
  match e with
  | EDot fields => field_chain dot fields
  | EVar x fields =>
      match assoc x vars with
      | Some v => field_chain v fields
      | None => inl ("undefined variable: " +:+ x)%string
      end
  | EStr s => inr (VStr s)
  | EInt z => inr (VInt z)
  | ECall f args =>
      let fix eval_args (l : list expr) : string + list tval :=
        match l with
        | [] => inr []
        | e :: l =>
            match eval vars dot e with
            | inl err => inl err
            | inr v => match eval_args l with inl err => inl err | inr vs => inr (v :: vs) end
            end
        end in
      match eval_args args with
      | inl err => inl err
      | inr vs => call fs f vs
      end
  end.

(** The elements [range] visits, with their index or key. *)
Definition elements (v : tval) : string + list (tval * tval) :=
  match v with
  | VMap _ l => inr ((λ p, (VStr p.1, p.2)) <$> l)
  | VList l => inr (zip (VInt ∘ Z.of_nat <$> seq 0 (length l)) l)
  | VNil => inr []
  | _ => inl "range can't iterate over the value"%string
  end.

(** What was written, and an error or the variables. *)
Definition xres : Type := list chunk * (string + env).

Definition written_then (r : xres) (k : env → xres) : xres :=
  match r with
  | (out, inl err) => (out, inl err)
  | (out, inr vars) => let '(out', r') := k vars in (out ++ out', r')
  end.

(** A block: the variables it declares end with it. *)
Definition block (vars : env) (r : xres) : xres :=
  match r with (out, inl err) => (out, inl err) | (out, inr _) => (out, inr vars) end.

Definition loop_vars (decl : option (string * string)) (i v : tval) (vars : env) : env :=
  match decl with Some (x, y) => (y, v) :: (x, i) :: vars | None => vars end.

Fixpoint exec (n : node) (vars : env) (dot : tval) {struct n} : xres :=
  let fix exec_body (l : list node) (vars : env) (dot : tval) : xres :=
    match l with
    | [] => ([], inr vars)
    | n :: l => written_then (exec n vars dot) (λ vars, exec_body l vars dot)
    end in
  match n with
  | NText s => ([Lit s], inr vars)
  | NAction d e =>
      match eval vars dot e with
      | inl err => ([], inl err)
      | inr v =>
          match d with
          | Some x => ([], inr ((x, v) :: vars))
          | None => ([Out (written v)], inr vars)
          end
      end
  | NIf e body =>
      match eval vars dot e with
      | inl err => ([], inl err)
      | inr v => if truth v then block vars (exec_body body vars dot) else ([], inr vars)
      end
  | NWith e body =>
      match eval vars dot e with
      | inl err => ([], inl err)
      | inr v => if truth v then block vars (exec_body body vars v) else ([], inr vars)
      end
  | NRange d e body =>
      match eval vars dot e with
      | inl err => ([], inl err)
      | inr v =>
          match elements v with
          | inl err => ([], inl err)
          | inr els =>
              (fix loop (els : list (tval * tval)) : xres :=
                 match els with
                 | [] => ([], inr vars)
                 | (i, x) :: els =>
                     written_then (block vars (exec_body body (loop_vars d i x vars) x))
                       (λ _, loop els)
                 end) els
          end
      end
  end.

Fixpoint exec_list (l : list node) (vars : env) (dot : tval) : xres :=
  match l with
  | [] => ([], inr vars)
  | n :: l => written_then (exec n vars dot) (λ vars, exec_list l vars dot)
  end.

(** [t.ExecuteTemplate(w, name, data)]: what is written and the error, if any. The
    chunks are the texts of the template and the values as they are: html/template
    also escapes the values for their context and leaves out the comments of the
    texts, and refuses a template whose contexts it cannot follow. *)
Definition Execute (l : list node) (data : tval) : list chunk * option string :=
  match exec_list l [("$"%string, data)] data with
  | (out, inl err) => (out, Some err)
  | (out, inr _) => (out, None)
  end.

(** The loop of [range] over its elements. *)
Definition exec_loop (d : option (string * string)) (body : list node) (vars : env) :
    list (tval * tval) → xres :=
  fix loop els :=
    match els with
    | [] => ([], inr vars)
    | (i, x) :: els =>
        written_then (block vars (exec_list body (loop_vars d i x vars) x)) (λ _, loop els)
    end.

(** The arguments of a call. *)
Definition eval_args (vars : env) (dot : tval) : list expr → string + list tval :=
  fix go l :=
    match l with
    | [] => inr []
    | e :: l =>
        match eval vars dot e with
        | inl err => inl err
        | inr v => match go l with inl err => inl err | inr vs => inr (v :: vs) end
        end
    end.

(** *** Equations *)

Lemma eval_call vars dot f args :
  eval vars dot (ECall f args) =
  match eval_args vars dot args with inl err => inl err | inr vs => call fs f vs end.
Proof. done. Qed.

Lemma exec_if e body vars dot :
  exec (NIf e body) vars dot =
  match eval vars dot e with
  | inl err => ([], inl err)
  | inr v => if truth v then block vars (exec_list body vars dot) else ([], inr vars)
  end.
Proof. done. Qed.

Lemma exec_with e body vars dot :
  exec (NWith e body) vars dot =
  match eval vars dot e with
  | inl err => ([], inl err)
  | inr v => if truth v then block vars (exec_list body vars v) else ([], inr vars)
  end.
Proof. done. Qed.

Lemma exec_range d e body vars dot :
  exec (NRange d e body) vars dot =
  match eval vars dot e with
  | inl err => ([], inl err)
  | inr v =>
      match elements v with
      | inl err => ([], inl err)
      | inr els => exec_loop d body vars els
      end
  end.
Proof. done. Qed.

End exec.

(** ** What a finished execution went through

    When a template is executed to its end, every node of a list, every body of
    a taken branch and every round of a loop was, and what it wrote is in the
    output. *)

Definition infix (a b : list chunk) : Prop := ∃ p q, b = p ++ a ++ q.

Lemma infix_refl a : infix a a.
Proof. exists [], []. by rewrite app_nil_r. Qed.

Lemma infix_trans a b c : infix a b → infix b c → infix a c.
Proof.
  intros (p & q & ->) (p' & q' & ->). exists (p' ++ p), (q ++ q'). by rewrite <-!app_assoc.
Qed.

Lemma infix_app_l a b c : infix a b → infix a (c ++ b).
Proof. intros (p & q & ->). exists (c ++ p), q. by rewrite <-!app_assoc. Qed.

Lemma infix_app_r a b c : infix a b → infix a (b ++ c).
Proof. intros (p & q & ->). exists p, (q ++ c). by rewrite <-!app_assoc. Qed.

(** A node that does not declare the variable. *)
Definition keeps (x : string) (n : node) : bool :=
  match n with NAction (Some y) _ => bool_decide (y ≠ x) | _ => true end.

Section visits.
Context (fs : funcs).

Lemma written_then_inv r k out vars :
  written_then r k = (out, inr vars) →
  ∃ out1 vars1 out2, r = (out1, inr vars1) ∧ k vars1 = (out2, inr vars) ∧ out = out1 ++ out2.
Proof.
  destruct r as [out1 [err|vars1]]; [done|]. cbn. destruct (k vars1) as [out2 r] eqn:E.
  intros [= <- ->]. eauto 10.
Qed.

Lemma block_inv vars r out vars' :
  block vars r = (out, inr vars') → vars' = vars ∧ ∃ vars1, r = (out, inr vars1).
Proof. destruct r as [out1 [err|vars1]]; [done|]. intros [= <- <-]. eauto. Qed.

Lemma exec_loop_vars d body vars els out vars' :
  exec_loop fs d body vars els = (out, inr vars') → vars' = vars.
Proof.
  revert out. induction els as [|[i x] els IH]; intros out; cbn; [by intros [= <- <-]|].
  intros (out1 & vars1 & out2 & _ & E & _)%written_then_inv. by eapply IH.
Qed.

Lemma exec_keeps x n vars d out vars' :
  keeps x n = true → exec fs n vars d = (out, inr vars') → assoc x vars' = assoc x vars.
Proof.
  destruct n as [s|[y|] e|e l|e l|dc e l]; intros Hk.
  - by intros [= <- <-].
  - cbn in Hk |- *. destruct (eval fs vars d e); [done|]. intros [= <- <-]. cbn.
    rewrite decide_False; [done|]. by apply bool_decide_eq_true in Hk.
  - cbn. destruct (eval fs vars d e); [done|]. by intros [= <- <-].
  - rewrite exec_if. destruct (eval fs vars d e) as [|v]; [done|]. destruct (truth v).
    + by intros [-> _]%block_inv.
    + by intros [= <- <-].
  - rewrite exec_with. destruct (eval fs vars d e) as [|v]; [done|]. destruct (truth v).
    + by intros [-> _]%block_inv.
    + by intros [= <- <-].
  - rewrite exec_range. destruct (eval fs vars d e) as [|v]; [done|].
    destruct (elements v) as [|els]; [done|]. by intros ->%exec_loop_vars.
Qed.

(** A node of a list, after the nodes before it. *)
Lemma exec_list_visit l vars d out vars' k n :
  exec_list fs l vars d = (out, inr vars') → l !! k = Some n →
  ∃ out0 vars1 out1 vars2, exec_list fs (take k l) vars d = (out0, inr vars1)
    ∧ exec fs n vars1 d = (out1, inr vars2) ∧ infix out1 out.
Proof.
  revert k vars out. induction l as [|n' l IH]; intros k vars out; [done|]. cbn [exec_list].
  intros (out1 & vars1 & out2 & E1 & E2 & ->)%written_then_inv. destruct k as [|k]; cbn.
  - intros [= <-]. exists [], vars, out1, vars1. split; [done|]. split; [done|].
    apply infix_app_r, infix_refl.
  - intros Hk. destruct (IH k vars1 out2 E2 Hk) as (out0 & vars2 & out' & vars3 & E0 & E & Hi).
    rewrite E1. cbn. rewrite E0. eexists _, vars2, out', vars3. split; [done|].
    split; [done|]. by apply infix_app_l.
Qed.

(** The variables after a list: those it does not declare, and one it declares. *)
Lemma exec_list_keeps x l vars d out vars' :
  exec_list fs l vars d = (out, inr vars') → forallb (keeps x) l = true →
  assoc x vars' = assoc x vars.
Proof.
  revert vars out. induction l as [|n l IH]; intros vars out; cbn [exec_list forallb].
  - by intros [= _ <-].
  - intros (out1 & vars1 & out2 & E1 & E2 & ->)%written_then_inv [Hn Hl]%andb_true_iff.
    rewrite (IH vars1 out2) by done. by eapply exec_keeps.
Qed.

Lemma exec_list_declared x e l vars d out vars' k :
  exec_list fs l vars d = (out, inr vars') → l !! k = Some (NAction (Some x) e) →
  forallb (keeps x) (drop (S k) l) = true →
  ∃ out0 vars0 v, exec_list fs (take k l) vars d = (out0, inr vars0)
    ∧ eval fs vars0 d e = inr v ∧ assoc x vars' = Some v.
Proof.
  revert k vars out. induction l as [|n l IH]; intros k vars out; [done|]. destruct k as [|k];
    cbn [exec_list]; intros (out1 & vars1 & out2 & E1 & E2 & ->)%written_then_inv Hk Hd.
  - injection Hk as ->. cbn in E1. destruct (eval fs vars d e) as [err|v] eqn:Ev; [done|].
    injection E1 as <- <-. exists [], vars, v. split; [done|]. split; [done|].
    rewrite (exec_list_keeps x l _ d _ _ E2 Hd). cbn. by rewrite decide_True.
  - destruct (IH k vars1 out2 E2 Hk Hd) as (out0 & vars0 & v & E0 & Ev & Hx). cbn [take exec_list].
    rewrite E1. cbn. rewrite E0. eauto 10.
Qed.

(** The body of a taken branch and of a round of a loop. *)
Lemma exec_if_visit e body vars d out vars' v :
  exec fs (NIf e body) vars d = (out, inr vars') → eval fs vars d e = inr v → truth v = true →
  ∃ vars1, exec_list fs body vars d = (out, inr vars1).
Proof. rewrite exec_if. intros E Ev Ht. rewrite Ev, Ht in E. by apply block_inv in E as [_ ?]. Qed.

Lemma exec_with_visit e body vars d out vars' v :
  exec fs (NWith e body) vars d = (out, inr vars') → eval fs vars d e = inr v → truth v = true →
  ∃ vars1, exec_list fs body vars v = (out, inr vars1).
Proof. rewrite exec_with. intros E Ev Ht. rewrite Ev, Ht in E. by apply block_inv in E as [_ ?]. Qed.

Lemma exec_range_visit dc e body vars d out vars' v els i x :
  exec fs (NRange dc e body) vars d = (out, inr vars') → eval fs vars d e = inr v →
  elements v = inr els → (i, x) ∈ els →
  ∃ out1 vars1, exec_list fs body (loop_vars dc i x vars) x = (out1, inr vars1) ∧ infix out1 out.
Proof.
  rewrite exec_range. intros E Ev Eels Hin. rewrite Ev, Eels in E. clear Ev Eels. revert out E.
  induction els as [|[j y] els IH]; intros out E; [by apply not_elem_of_nil in Hin|].
  cbn in E. apply written_then_inv in E as (out1 & vars1 & out2 & E1 & E2 & ->).
  apply elem_of_cons in Hin as [[= -> ->]|Hin].
  - apply block_inv in E1 as [_ [vars2 E1]]. exists out1, vars2. split; [done|].
    apply infix_app_r, infix_refl.
  - destruct (IH Hin out2 E2) as (out' & vars2 & E & Hi). exists out', vars2.
    split; [done|]. by apply infix_app_l.
Qed.
End visits.

(** ** Induction *)

Section syntax_ind.
Variables (P : expr → Prop) (Q : node → Prop).
Hypothesis Pdot : ∀ l, P (EDot l).
Hypothesis Pvar : ∀ x l, P (EVar x l).
Hypothesis Pstr : ∀ s, P (EStr s).
Hypothesis Pint : ∀ z, P (EInt z).
Hypothesis Pcall : ∀ f l, Forall P l → P (ECall f l).

Fixpoint expr_nested_ind (e : expr) : P e :=
  match e with
  | EDot l => Pdot l
  | EVar x l => Pvar x l
  | EStr s => Pstr s
  | EInt z => Pint z
  | ECall f l => Pcall f l ((fix go l : Forall P l :=
      match l with
      | [] => Forall_nil_2 _
      | e :: l => Forall_cons_2 _ _ _ (expr_nested_ind e) (go l)
      end) l)
  end.

Hypothesis Qtext : ∀ s, Q (NText s).
Hypothesis Qaction : ∀ d e, Q (NAction d e).
Hypothesis Qif : ∀ e l, Forall Q l → Q (NIf e l).
Hypothesis Qwith : ∀ e l, Forall Q l → Q (NWith e l).
Hypothesis Qrange : ∀ d e l, Forall Q l → Q (NRange d e l).

Fixpoint node_nested_ind (n : node) : Q n :=
  let fix go (l : list node) : Forall Q l :=
    match l with
    | [] => Forall_nil_2 _
    | n :: l => Forall_cons_2 _ _ _ (node_nested_ind n) (go l)
    end in
  match n with
  | NText s => Qtext s
  | NAction d e => Qaction d e
  | NIf e l => Qif e l (go l)
  | NWith e l => Qwith e l (go l)
  | NRange d e l => Qrange d e l (go l)
  end.
End syntax_ind.

(** ** Where the texts come from *)

(** The texts of a node, at any depth. *)
Fixpoint node_texts (n : node) : list string :=
  match n with
  | NText s => [s]
  | NAction _ _ => []
  | NIf _ l | NWith _ l | NRange _ _ l => l ≫= node_texts
  end.

Section texts.
Context (fs : funcs).

Lemma exec_list_app l1 l2 vars d :
  exec_list fs (l1 ++ l2) vars d
  = written_then (exec_list fs l1 vars d) (λ vars, exec_list fs l2 vars d).
Proof.
  revert vars. induction l1 as [|n l1 IH]; intros vars; cbn [app exec_list written_then].
  - by destruct (exec_list fs l2 vars d).
  - destruct (exec fs n vars d) as [out [err|vars1]]; cbn; [done|]. rewrite IH.
    destruct (exec_list fs l1 vars1 d) as [out1 [err|vars2]]; cbn; [done|].
    destruct (exec_list fs l2 vars2 d). by rewrite app_assoc.
Qed.

Lemma written_then_texts (P : string → Prop) r k :
  (∀ t, Lit t ∈ r.1 → P t) → (∀ vars t, Lit t ∈ (k vars).1 → P t) →
  ∀ t, Lit t ∈ (written_then r k).1 → P t.
Proof.
  intros Hr Hk t. destruct r as [out [err|vars]]; cbn; [apply Hr|].
  specialize (Hk vars t). destruct (k vars) as [out' r']. cbn in *.
  intros [?|?]%elem_of_app; [by apply Hr|by apply Hk].
Qed.

Lemma block_out vars r : (block vars r).1 = r.1.
Proof. by destruct r as [out [err|vars']]. Qed.

(** The texts of the output are texts of the template. *)
Lemma exec_list_texts_aux l vars d t :
  Forall (λ n, ∀ vars d t, Lit t ∈ (exec fs n vars d).1 → t ∈ node_texts n) l →
  Lit t ∈ (exec_list fs l vars d).1 → t ∈ l ≫= node_texts.
Proof.
  intros Hl. revert vars t. induction Hl as [|n l Hn _ IH]; intros vars; [by intros t ?%elem_of_nil|].
  cbn [exec_list mbind list_bind]. apply written_then_texts.
  - intros t Ht. apply elem_of_app. left. by eapply Hn.
  - intros vars1 t Ht. apply elem_of_app. right. by eapply IH.
Qed.

Lemma exec_texts_in n : ∀ vars d t, Lit t ∈ (exec fs n vars d).1 → t ∈ node_texts n.
Proof.
  induction n as [s|dc e|e l IH|e l IH|dc e l IH] using node_nested_ind; intros vars d t.
  - cbn. intros [= ->]%list_elem_of_singleton. apply list_elem_of_here.
  - cbn. destruct (eval fs vars d e); [by intros ?%elem_of_nil|].
    destruct dc; cbn; [by intros ?%elem_of_nil|]. by intros [=]%list_elem_of_singleton.
  - rewrite exec_if. destruct (eval fs vars d e) as [|v]; [by intros ?%elem_of_nil|].
    destruct (truth v); [|by intros ?%elem_of_nil]. rewrite block_out. by apply exec_list_texts_aux.
  - rewrite exec_with. destruct (eval fs vars d e) as [|v]; [by intros ?%elem_of_nil|].
    destruct (truth v); [|by intros ?%elem_of_nil]. rewrite block_out. by apply exec_list_texts_aux.
  - rewrite exec_range. destruct (eval fs vars d e) as [|v]; [by intros ?%elem_of_nil|].
    destruct (elements v) as [|els]; [by intros ?%elem_of_nil|]. revert t.
    induction els as [|[i x] els IHe]; [by intros t ?%elem_of_nil|]. cbn.
    apply written_then_texts; [|intros _; exact IHe]. intros t. rewrite block_out.
    by apply exec_list_texts_aux.
Qed.

Lemma exec_list_texts l vars d t : Lit t ∈ (exec_list fs l vars d).1 → t ∈ l ≫= node_texts.
Proof. apply exec_list_texts_aux, Forall_true, exec_texts_in. Qed.
End texts.
