(* ===== verification/TemplateTypes.v ===== *)
(** * Types for templates

    Executing a template can fail half way through the page: a field that does
    not exist, [index] of nil, [range] over a number. A type says what a value
    offers, [type_nodes] checks a template against the type of its data, and
    [type_nodes_sound] shows that a template that passes is executed to its end
    on every value of the type. The keys of maps are tracked by name, so that an
    [index] with a key of one map into another is accepted only if the keys of
    the first are known to be keys of the second. *)

From S2P Require Import Prelude GoFmt GoJson Template.

Inductive ty : Type :=
  | TAny                                  (** written only *)
  | TInt
  | TBool
  | TStr
  | TKey (k : nat)                        (** a string of the key set [k] *)
  | TList (t : ty)
  | TKeyMap (k : nat) (t : ty)            (** a map whose keys are the set [k] *)
  | TDict (fields : list (string * ty))   (** a map with at least these keys *)
  | TStruct (fields : list (string * ty)).

Section typing.
(** The strings of each key set. *)
Context (keys : nat → list string).

(** A value has a type. *)
Fixpoint has_type (t : ty) (v : tval) {struct t} : Prop :=
  let fix has_fields (fields : list (string * ty)) (l : list (string * tval)) : Prop :=
    match fields with
    | [] => True
    | (f, t) :: fields => (∃ v, assoc f l = Some v ∧ has_type t v) ∧ has_fields fields l
    end in
  match t with
  | TAny => True
  | TInt => ∃ z, v = VInt z
  | TBool => ∃ b, v = VBool b
  | TStr => ∃ s, v = VStr s
  | TKey k => ∃ s, v = VStr s ∧ s ∈ keys k
  | TList t => ∃ l, v = VList l ∧ Forall (has_type t) l
  | TKeyMap k t => ∃ zero l, v = VMap zero l ∧ (∀ s, s ∈ l.*1 ↔ s ∈ keys k)
      ∧ Forall (λ p, has_type t p.2) l
  | TDict fields => ∃ zero l, v = VMap zero l ∧ has_fields fields l
  | TStruct fields => ∃ l, v = VStruct l ∧ has_fields fields l
  end.

Definition has_field (l : list (string * tval)) (p : string * ty) : Prop :=
  ∃ v, assoc p.1 l = Some v ∧ has_type p.2 v.

Lemma has_type_dict fields v :
  has_type (TDict fields) v ↔ ∃ zero l, v = VMap zero l ∧ Forall (has_field l) fields.
Proof.
  cbn. split; intros (zero & l & -> & H); exists zero, l; (split; [done|]);
    induction fields as [|[f t] fields IH]; cbn in *; try done.
  - destruct H. by constructor; [|apply IH].
  - apply Forall_cons in H as [??]. by split; [|apply IH].
Qed.

Lemma has_type_struct fields v :
  has_type (TStruct fields) v ↔ ∃ l, v = VStruct l ∧ Forall (has_field l) fields.
Proof.
  cbn. split; intros (l & -> & H); exists l; (split; [done|]);
    induction fields as [|[f t] fields IH]; cbn in *; try done.
  - destruct H. by constructor; [|apply IH].
  - apply Forall_cons in H as [??]. by split; [|apply IH].
Qed.

(** ** Checking *)

(** Which key sets are contained in which. *)
Context (sub : nat → nat → bool).
Context (sub_ok : ∀ a b, sub a b = true → ∀ s, s ∈ keys a → s ∈ keys b).

(** The program's functions: the type of the result for the types of the
    arguments, and that the functions keep to it. *)
Context (fs : funcs) (sig : string → list ty → option ty).
Context (sig_ok : ∀ f ts t vs, sig f ts = Some t → Forall2 has_type ts vs →
  ∃ g v, fs f = Some g ∧ g vs = inr v ∧ has_type t v).

Definition tenv : Type := list (string * ty).

Fixpoint type_chain (t : ty) (fields : list string) : option ty :=
  match fields with
  | [] => Some t
  | f :: fields =>
      match t with
      | TStruct l => match assoc f l with Some t => type_chain t fields | None => None end
      | _ => None
      end
  end.

(** [index] with a literal key and with a computed one. *)
Definition type_index_lit (t : ty) (k : string) : option ty :=
  match t with
  | TDict l => Some (default TAny (assoc k l))
  | TKeyMap _ _ => Some TAny
  | _ => None
  end.

Definition type_index (t key : ty) : option ty :=
  match t, key with
  | TKeyMap h t, TKey c => if sub c h then Some t else Some TAny
  | _, _ => None
  end.

Definition has_len (t : ty) : bool :=
  match t with TStr | TKey _ | TList _ | TKeyMap _ _ | TDict _ => true | _ => false end.

Fixpoint type_expr (G : tenv) (dot : ty) (e : expr) : option ty :=
  match e with
  | EDot fields => type_chain dot fields
  | EVar x fields => match assoc x G with Some t => type_chain t fields | None => None end
  | EStr _ => Some TStr
  | EInt _ => Some TInt
  | ECall f args =>
      if decide (f = "index"%string) then
        match args with
        | [e; EStr k] => t ← type_expr G dot e; type_index_lit t k
        | [e; e'] => t ← type_expr G dot e; t' ← type_expr G dot e'; type_index t t'
        | _ => None
        end
      else if decide (f = "len"%string) then
        match args with
        | [e] => t ← type_expr G dot e; if has_len t then Some TInt else None
        | _ => None
        end
      else if decide (f = "ne"%string) then
        match args with
        | [e; e'] =>
            match type_expr G dot e, type_expr G dot e' with
            | Some TInt, Some TInt => Some TBool
            | _, _ => None
            end
        | _ => None
        end
      else
        (fix type_args (l : list expr) (ts : list ty) : option ty :=
           match l with
           | [] => sig f (rev ts)
           | e :: l => match type_expr G dot e with Some t => type_args l (t :: ts) | None => None end
           end) args []
  end.

(** The types of the elements of [range]. *)
Definition type_elements (t : ty) : option (ty * ty) :=
  match t with
  | TList t => Some (TInt, t)
  | TKeyMap k t => Some (TKey k, t)
  | _ => None
  end.

Definition loop_tenv (decl : option (string * string)) (i v : ty) (G : tenv) : tenv :=
  match decl with Some (x, y) => (y, v) :: (x, i) :: G | None => G end.

(** The types of the variables after a node. *)
Fixpoint type_node (n : node) (G : tenv) (dot : ty) {struct n} : option tenv :=
  let fix type_body (l : list node) (G : tenv) (dot : ty) : bool :=
    match l with
    | [] => true
    | n :: l => match type_node n G dot with Some G => type_body l G dot | None => false end
    end in
  match n with
  | NText _ => Some G
  | NAction d e =>
      t ← type_expr G dot e;
      Some (match d with Some x => (x, t) :: G | None => G end)
  | NIf e body => t ← type_expr G dot e; if type_body body G dot then Some G else None
  | NWith e body => t ← type_expr G dot e; if type_body body G t then Some G else None
  | NRange d e body =>
      t ← type_expr G dot e;
      '(i, x) ← type_elements t;
      if type_body body (loop_tenv d i x G) x then Some G else None
  end.

Fixpoint type_nodes (l : list node) (G : tenv) (dot : ty) : bool :=
  match l with
  | [] => true
  | n :: l => match type_node n G dot with Some G => type_nodes l G dot | None => false end
  end.

(** ** Soundness *)

Definition env_ok (G : tenv) (vars : env) : Prop :=
  ∀ x t, assoc x G = Some t → ∃ v, assoc x vars = Some v ∧ has_type t v.

Lemma env_ok_cons x t v G vars :
  has_type t v → env_ok G vars → env_ok ((x, t) :: G) ((x, v) :: vars).
Proof.
  intros Hv HG y t'. cbn. destruct (decide (x = y)) as [->|].
  - intros [= <-]. eauto.
  - apply HG.
Qed.

Lemma has_field_assoc fields l f t :
  Forall (has_field l) fields → assoc f fields = Some t →
  ∃ v, assoc f l = Some v ∧ has_type t v.
Proof.
  induction 1 as [|[f' t'] fields Hp _ IH]; cbn; [done|].
  destruct (decide (f' = f)) as [->|]; [|done]. intros [= <-]. exact Hp.
Qed.

Lemma type_chain_sound t fields t' v :
  type_chain t fields = Some t' → has_type t v →
  ∃ v', field_chain v fields = inr v' ∧ has_type t' v'.
Proof.
  revert t v. induction fields as [|f fields IH]; intros t v; cbn.
  - intros [= <-]. eauto.
  - destruct t as [| | | | | | | |l]; try done. destruct (assoc f l) as [t|] eqn:E; [|done].
    intros Ht Hv. apply has_type_struct in Hv as (l' & -> & Hl).
    destruct (has_field_assoc _ _ _ _ Hl E) as (v & -> & Hv). by eapply IH.
Qed.

Lemma assoc_elem {A} k (l : list (string * A)) :
  k ∈ l.*1 → ∃ a, assoc k l = Some a ∧ (k, a) ∈ l.
Proof.
  induction l as [|[k' a] l IH]; cbn; [set_solver|].
  destruct (decide (k' = k)) as [->|]; [eexists; split; [done|set_solver]|].
  intros [?|(b & ? & ?)%IH]%elem_of_cons; [done|]. exists b. set_solver.
Qed.

Lemma type_index_lit_sound t k t' v :
  type_index_lit t k = Some t' → has_type t v →
  ∃ v', index1 v (VStr k) = inr v' ∧ has_type t' v'.
Proof.
  destruct t as [| | | | | |h t|l|]; try done; cbn [type_index_lit].
  - intros [= <-] (zero & l & -> & _). cbn. eauto.
  - intros [= <-] (zero & l' & -> & Hl)%has_type_dict. cbn.
    eexists. split; [done|]. destruct (assoc k l) as [t|] eqn:E; [|done].
    by destruct (has_field_assoc _ _ _ _ Hl E) as (v & -> & Hv).
Qed.

Lemma type_index_sound t key t' v k :
  type_index t key = Some t' → has_type t v → has_type key k →
  ∃ v', index1 v k = inr v' ∧ has_type t' v'.
Proof.
  destruct t as [| | | | | |h t| |]; try done. destruct key as [| | | |c| | | |]; try done.
  cbn [type_index has_type]. intros Ht (zero & l & -> & Hk & Hl) (s & -> & Hs). cbn.
  eexists. split; [done|]. destruct (sub c h) eqn:E; injection Ht as <-; [|done].
  destruct (assoc_elem s l) as (a & -> & Ha); [by apply Hk, (sub_ok _ _ E)|].
  rewrite Forall_forall in Hl. apply (Hl _ Ha).
Qed.

Lemma has_len_sound t v : has_len t = true → has_type t v → ∃ z, len_of v = inr (VInt z).
Proof. destruct t; try done; intros _; cbn; intros Hv; crush_hyps; cbn; eauto. Qed.

(** The arguments of one of the program's functions. *)
Definition type_args (G : tenv) (dot : ty) (f : string) : list expr → list ty → option ty :=
  fix type_args l ts :=
    match l with
    | [] => sig f (rev ts)
    | e :: l => match type_expr G dot e with Some t => type_args l (t :: ts) | None => None end
    end.

Lemma type_args_inv G dot f l ts t :
  type_args G dot f l ts = Some t →
  ∃ ts', sig f (rev ts ++ ts') = Some t ∧ Forall2 (λ e t, type_expr G dot e = Some t) l ts'.
Proof.
  revert ts. induction l as [|e l IH]; intros ts; cbn.
  - intros E. exists []. by rewrite app_nil_r.
  - destruct (type_expr G dot e) as [t'|] eqn:E; [|done]. intros (ts' & Hs & Hl)%IH.
    exists (t' :: ts'). cbn in Hs. rewrite <-app_assoc in Hs. by split; [|constructor].
Qed.

Section expressions.
Context (G : tenv) (dot : ty) (vars : env) (d : tval).
Context (HG : env_ok G vars) (Hd : has_type dot d).

Definition sound_at (e : expr) : Prop :=
  ∀ t, type_expr G dot e = Some t → ∃ v, eval fs vars d e = inr v ∧ has_type t v.

Lemma eval_args_sound l ts :
  Forall sound_at l → Forall2 (λ e t, type_expr G dot e = Some t) l ts →
  ∃ vs, eval_args fs vars d l = inr vs ∧ Forall2 has_type ts vs.
Proof.
  intros Hs H2. induction H2 as [|e t l ts He _ IH]; [by exists []|].
  apply Forall_cons in Hs as [Hse Hs]. destruct (Hse t He) as (v & Ev & Hv).
  destruct (IH Hs) as (vs & Evs & Hvs). exists (v :: vs). cbn. rewrite Ev, Evs. by split; [|constructor].
Qed.

(** Two arguments of a builtin function. *)
Lemma eval_two f e e' v v' :
  eval fs vars d e = inr v → eval fs vars d e' = inr v' →
  eval fs vars d (ECall f [e; e']) = call fs f [v; v'].
Proof. intros E E'. rewrite eval_call. cbn. by rewrite E, E'. Qed.

Lemma type_index_call_sound e e' t :
  sound_at e → sound_at e' →
  match e' with
  | EStr k => t0 ← type_expr G dot e; type_index_lit t0 k
  | _ => t0 ← type_expr G dot e; t' ← type_expr G dot e'; type_index t0 t'
  end = Some t →
  ∃ v, eval fs vars d (ECall "index" [e; e']) = inr v ∧ has_type t v.
Proof.
  intros He He' Ht. destruct (type_expr G dot e) as [t0|] eqn:E; [|by destruct e'].
  destruct (He t0 E) as (v & Ev & Hv). cbn [mbind option_bind] in Ht.
  assert ((∃ k, e' = EStr k ∧ type_index_lit t0 k = Some t)
    ∨ ∃ t', type_expr G dot e' = Some t' ∧ type_index t0 t' = Some t) as Hcase.
  { destruct e'; [right|right|left; eauto|right|right];
      match type of Ht with (?o ≫= _) = _ => destruct o as [t'|]; [eauto|done] end. }
  destruct Hcase as [(k & -> & Hi)|(t' & E' & Hi)].
  - destruct (type_index_lit_sound _ _ _ _ Hi Hv) as (v' & Ei & Hv').
    exists v'. split; [|done]. by rewrite (eval_two _ _ _ v (VStr k)).
  - destruct (He' t' E') as (k & Ek & Hk).
    destruct (type_index_sound _ _ _ _ _ Hi Hv Hk) as (v' & Ei & Hv').
    exists v'. split; [|done]. by rewrite (eval_two _ _ _ v k).
Qed.

Lemma type_call_sound f l t :
  Forall sound_at l → type_expr G dot (ECall f l) = Some t →
  ∃ v, eval fs vars d (ECall f l) = inr v ∧ has_type t v.
Proof.
  intros Hl Ht. cbn [type_expr] in Ht.
  destruct (decide (f = "index"%string)) as [->|Hi].
  { destruct l as [|e [|e' [|? ?]]]; try done; [|by destruct e'].
    rewrite !Forall_cons in Hl. destruct Hl as (H1 & H2 & _). by apply type_index_call_sound. }
  destruct (decide (f = "len"%string)) as [->|Hlen].
  { destruct l as [|e [|? ?]]; try done. apply Forall_cons in Hl as [He _].
    destruct (type_expr G dot e) as [t0|] eqn:E; [|done]. cbn [mbind option_bind] in Ht.
    destruct (has_len t0) eqn:Eh; [|done]. injection Ht as <-.
    destruct (He t0 E) as (v & Ev & Hv). destruct (has_len_sound _ _ Eh Hv) as [z Ez].
    exists (VInt z). rewrite eval_call. cbn. rewrite Ev. cbn. split; [done|by exists z]. }
  destruct (decide (f = "ne"%string)) as [->|Hne].
  { destruct l as [|e [|e' [|? ?]]]; try done. rewrite !Forall_cons in Hl.
    destruct Hl as (He & He' & _).
    destruct (type_expr G dot e) as [[]|] eqn:E; try done.
    destruct (type_expr G dot e') as [[]|] eqn:E'; try done. injection Ht as <-.
    destruct (He _ E) as (v & Ev & z & ->). destruct (He' _ E') as (v' & Ev' & z' & ->).
    rewrite (eval_two _ _ _ _ _ Ev Ev'). cbn. eauto. }
  apply (type_args_inv G dot f l []) in Ht as (ts & Hs & H2). cbn in Hs.
  destruct (eval_args_sound l ts Hl H2) as (vs & Evs & Hvs).
  destruct (sig_ok f ts t vs Hs Hvs) as (g & v & Eg & Ev & Hv).
  exists v. split; [|done]. rewrite eval_call, Evs. unfold call.
  by rewrite !decide_False, Eg.
Qed.

Lemma type_expr_sound e : sound_at e.
Proof.
  induction e as [l|x l|s|z|f l IH] using expr_nested_ind; intros t; cbn [type_expr eval].
  - intros Ht. by eapply type_chain_sound.
  - destruct (assoc x G) as [t0|] eqn:E; [|done]. destruct (HG x t0 E) as (v & -> & Hv).
    intros Ht. by eapply type_chain_sound.
  - intros [= <-]. eexists. split; [done|]. cbn. eauto.
  - intros [= <-]. eexists. split; [done|]. cbn. eauto.
  - by apply type_call_sound.
Qed.
End expressions.

(** ** Nodes *)

Lemma type_elements_sound t i x v :
  type_elements t = Some (i, x) → has_type t v →
  ∃ els, elements v = inr els ∧ Forall (λ p, has_type i p.1 ∧ has_type x p.2) els.
Proof.
  destruct t as [| | | | |t|k t| |]; try done; intros [= <- <-]; cbn.
  - intros (l & -> & Hl). eexists. split; [done|].
    rewrite Forall_forall. rewrite Forall_forall in Hl. intros [a b] Hab. split.
    + apply elem_of_zip_l in Hab. apply list_elem_of_fmap in Hab as (n & -> & _). cbn. eauto.
    + apply elem_of_zip_r in Hab. by apply Hl.
  - intros (zero & l & -> & Hk & Hl). eexists. split; [done|].
    apply Forall_fmap. rewrite Forall_forall. rewrite Forall_forall in Hl. intros [s a] Hs. cbn. split.
    + exists s. split; [done|]. apply Hk. by apply (list_elem_of_fmap_2' fst _ (s, a)).
    + by apply (Hl _ Hs).
Qed.

Lemma loop_env_ok d i x ti tx G vars :
  has_type ti i → has_type tx x → env_ok G vars →
  env_ok (loop_tenv d ti tx G) (loop_vars d i x vars).
Proof. destruct d as [[k v]|]; intros; [|done]. by apply env_ok_cons, env_ok_cons. Qed.

(** A node that passes is executed to its end. *)
Definition node_sound (n : node) : Prop := ∀ G dot G' vars d,
  type_node n G dot = Some G' → env_ok G vars → has_type dot d →
  ∃ out vars', exec fs n vars d = (out, inr vars') ∧ env_ok G' vars'.

Lemma type_nodes_sound_aux l G dot vars d :
  Forall node_sound l → type_nodes l G dot = true → env_ok G vars → has_type dot d →
  ∃ out vars', exec_list fs l vars d = (out, inr vars').
Proof.
  intros Hl. revert G vars. induction Hl as [|n l Hn _ IH]; intros G vars Ht HG Hd; cbn; [eauto|].
  cbn in Ht. destruct (type_node n G dot) as [G'|] eqn:E; [|done].
  destruct (Hn _ _ _ _ _ E HG Hd) as (out & vars' & -> & HG'). cbn.
  destruct (IH G' vars' Ht HG' Hd) as (out' & vars'' & ->). eauto.
Qed.

Lemma exec_loop_sound d body vars els :
  Forall (λ p, ∃ out vars', exec_list fs body (loop_vars d p.1 p.2 vars) p.2 = (out, inr vars')) els →
  ∃ out, exec_loop fs d body vars els = (out, inr vars).
Proof.
  induction 1 as [|[i x] els (out & vars' & E) _ (out' & IH)]; cbn; [eauto|].
  cbn in E. rewrite E. cbn. rewrite IH. eauto.
Qed.

Lemma type_node_sound n : node_sound n.
Proof.
  induction n as [s|d e|e l IH|e l IH|d e l IH] using node_nested_ind;
    intros G dot G' vars v Ht HG Hv.
  - injection Ht as <-. cbn. eauto.
  - cbn in Ht |- *. destruct (type_expr G dot e) as [t|] eqn:E; [|done].
    destruct (type_expr_sound G dot vars v HG Hv e t E) as (w & -> & Hw).
    injection Ht as <-. destruct d as [x|]; eexists _, _; (split; [done|]); [|done].
    by apply env_ok_cons.
  - change (match type_expr G dot e with Some _ => if type_nodes l G dot then Some G else None
            | None => None end = Some G') in Ht.
    destruct (type_expr G dot e) as [t|] eqn:E; [|done].
    destruct (type_nodes l G dot) eqn:El; [|done]. injection Ht as <-.
    destruct (type_expr_sound G dot vars v HG Hv e t E) as (w & Ew & Hw). rewrite exec_if, Ew.
    destruct (truth w); [|eauto].
    destruct (type_nodes_sound_aux l G dot vars v IH El HG Hv) as (out & vars' & ->). cbn. eauto.
  - change (match type_expr G dot e with Some t => if type_nodes l G t then Some G else None
            | None => None end = Some G') in Ht.
    destruct (type_expr G dot e) as [t|] eqn:E; [|done].
    destruct (type_nodes l G t) eqn:El; [|done]. injection Ht as <-.
    destruct (type_expr_sound G dot vars v HG Hv e t E) as (w & Ew & Hw). rewrite exec_with, Ew.
    destruct (truth w); [|eauto].
    destruct (type_nodes_sound_aux l G t vars w IH El HG Hw) as (out & vars' & ->). cbn. eauto.
  - change (match type_expr G dot e with
            | Some t => match type_elements t with
                | Some (i, x) => if type_nodes l (loop_tenv d i x G) x then Some G else None
                | None => None end
            | None => None end = Some G') in Ht.
    destruct (type_expr G dot e) as [t|] eqn:E; [|done].
    destruct (type_elements t) as [[i x]|] eqn:Ee; [|done].
    destruct (type_nodes l (loop_tenv d i x G) x) eqn:El; [|done]. injection Ht as <-.
    destruct (type_expr_sound G dot vars v HG Hv e t E) as (w & Ew & Hw). rewrite exec_range, Ew.
    destruct (type_elements_sound _ _ _ _ Ee Hw) as (els & -> & Hels).
    destruct (exec_loop_sound d l vars els) as (out & ->); [|eauto].
    eapply Forall_impl; [exact Hels|]. intros [a b] [Ha Hb]. cbn.
    eapply type_nodes_sound_aux; [done|done| |done]. by apply loop_env_ok.
Qed.

(** A template that passes is executed to its end. *)
Lemma type_nodes_sound l t v :
  type_nodes l [("$"%string, t)] t = true → has_type t v → (Execute fs l v).2 = None.
Proof.
  intros Ht Hv. unfold Execute.
  destruct (type_nodes_sound_aux l [("$"%string, t)] t [("$"%string, v)] v) as (out & vars & ->); try done.
  - apply Forall_true. apply type_node_sound.
  - by apply env_ok_cons.
Qed.
End typing.
