(* ===== verification/Rpc.v ===== *)
(** * JSON-RPC: requests, replies and transport

    The data types of rpc.go with their JSON decoders, [getRPCRequest], and
    from reporting-server.go the [work] and [reply] records, [request] and what
    a worker does with one job. The HTTP client (fasthttp) is a parameter. *)

From S2P Require Import Prelude GoFmt GoJson JsonText.

(** ** Methods *)

Definition NodeMetadataRPC : string := "hmy_getNodeMetadata".
Definition BlockHeaderRPC : string := "hmy_latestHeader".
Definition PendingCXRPC : string := "hmy_getPendingCXReceipts".
Definition SuperCommitteeRPC : string := "hmy_getSuperCommittees".
Definition LastCrossLinkRPC : string := "hmy_getLastCrossLinks".
Definition LatestHeadersRPC : string := "hmy_getLatestChainHeaders".
Definition JSONVersion : string := "2.0".

(** ** Replies *)

(** The [ChainConfig] part of [NodeMetadataReply]. *)
Record ChainConfig : Type := MkChainConfig {
  cc_ChainID : Z;
  cc_CrossLinkEpoch : Z;
  cc_CrossTxEpoch : Z;
  cc_Eip155Epoch : Z;
  cc_PreStakingEpoch : Z;
  cc_S3Epoch : Z;
  cc_StakingEpoch : Z;
}.

Definition zero_ChainConfig : ChainConfig := {|
  cc_ChainID := 0;
  cc_CrossLinkEpoch := 0;
  cc_CrossTxEpoch := 0;
  cc_Eip155Epoch := 0;
  cc_PreStakingEpoch := 0;
  cc_S3Epoch := 0;
  cc_StakingEpoch := 0;
|}.

Definition dec_ChainConfig : decoder ChainConfig := dec_struct [
  ("chain-id"%string, λ j r, MkChainConfig
     (dec_int j (cc_ChainID r)) (cc_CrossLinkEpoch r) (cc_CrossTxEpoch r) (cc_Eip155Epoch r) (cc_PreStakingEpoch r) (cc_S3Epoch r) (cc_StakingEpoch r));
  ("cross-link-epoch"%string, λ j r, MkChainConfig
     (cc_ChainID r) (dec_int j (cc_CrossLinkEpoch r)) (cc_CrossTxEpoch r) (cc_Eip155Epoch r) (cc_PreStakingEpoch r) (cc_S3Epoch r) (cc_StakingEpoch r));
  ("cross-tx-epoch"%string, λ j r, MkChainConfig
     (cc_ChainID r) (cc_CrossLinkEpoch r) (dec_int j (cc_CrossTxEpoch r)) (cc_Eip155Epoch r) (cc_PreStakingEpoch r) (cc_S3Epoch r) (cc_StakingEpoch r));
  ("eip155-epoch"%string, λ j r, MkChainConfig
     (cc_ChainID r) (cc_CrossLinkEpoch r) (cc_CrossTxEpoch r) (dec_int j (cc_Eip155Epoch r)) (cc_PreStakingEpoch r) (cc_S3Epoch r) (cc_StakingEpoch r));
  ("prestaking-epoch"%string, λ j r, MkChainConfig
     (cc_ChainID r) (cc_CrossLinkEpoch r) (cc_CrossTxEpoch r) (cc_Eip155Epoch r) (dec_int j (cc_PreStakingEpoch r)) (cc_S3Epoch r) (cc_StakingEpoch r));
  ("s3-epoch"%string, λ j r, MkChainConfig
     (cc_ChainID r) (cc_CrossLinkEpoch r) (cc_CrossTxEpoch r) (cc_Eip155Epoch r) (cc_PreStakingEpoch r) (dec_int j (cc_S3Epoch r)) (cc_StakingEpoch r));
  ("staking-epoch"%string, λ j r, MkChainConfig
     (cc_ChainID r) (cc_CrossLinkEpoch r) (cc_CrossTxEpoch r) (cc_Eip155Epoch r) (cc_PreStakingEpoch r) (cc_S3Epoch r) (dec_int j (cc_StakingEpoch r)))].

Definition wf_ChainConfig (r : ChainConfig) : Prop :=
  is_int64 (cc_ChainID r) ∧ is_int64 (cc_CrossLinkEpoch r) ∧ is_int64 (cc_CrossTxEpoch r) ∧ is_int64 (cc_Eip155Epoch r) ∧ is_int64 (cc_PreStakingEpoch r) ∧ is_int64 (cc_S3Epoch r) ∧ is_int64 (cc_StakingEpoch r).

(** The [P2PConnectivity] part of [NodeMetadataReply]. *)
Record P2PConnectivity : Type := MkP2PConnectivity {
  p2p_Connected : Z;
  p2p_NotConnected : Z;
  p2p_TotalKnown : Z;
}.

Definition zero_P2PConnectivity : P2PConnectivity := {|
  p2p_Connected := 0;
  p2p_NotConnected := 0;
  p2p_TotalKnown := 0;
|}.

Definition dec_P2PConnectivity : decoder P2PConnectivity := dec_struct [
  ("connected"%string, λ j r, MkP2PConnectivity
     (dec_int j (p2p_Connected r)) (p2p_NotConnected r) (p2p_TotalKnown r));
  ("not-connected"%string, λ j r, MkP2PConnectivity
     (p2p_Connected r) (dec_int j (p2p_NotConnected r)) (p2p_TotalKnown r));
  ("total-known-peers"%string, λ j r, MkP2PConnectivity
     (p2p_Connected r) (p2p_NotConnected r) (dec_int j (p2p_TotalKnown r)))].

Definition wf_P2PConnectivity (r : P2PConnectivity) : Prop :=
  is_int64 (p2p_Connected r) ∧ is_int64 (p2p_NotConnected r) ∧ is_int64 (p2p_TotalKnown r).

(** [NodeMetadataReply]. *)
Record NodeMetadataReply : Type := MkNodeMetadataReply {
  nm_BLSPublicKey : option (list string);
  nm_Version : string;
  nm_NetworkType : string;
  nm_IsLeader : bool;
  nm_ShardID : Z;
  nm_NodeRole : string;
  nm_BlocksPerEpoch : Z;
  nm_DNSZone : string;
  nm_ArchivalNode : bool;
  nm_NodeStartTime : Z;
  nm_Chain : ChainConfig;
  nm_P2P : P2PConnectivity;
}.

Definition zero_NodeMetadataReply : NodeMetadataReply := {|
  nm_BLSPublicKey := None;
  nm_Version := EmptyString;
  nm_NetworkType := EmptyString;
  nm_IsLeader := false;
  nm_ShardID := 0;
  nm_NodeRole := EmptyString;
  nm_BlocksPerEpoch := 0;
  nm_DNSZone := EmptyString;
  nm_ArchivalNode := false;
  nm_NodeStartTime := 0;
  nm_Chain := zero_ChainConfig;
  nm_P2P := zero_P2PConnectivity;
|}.

Definition dec_NodeMetadataReply : decoder NodeMetadataReply := dec_struct [
  ("blskey"%string, λ j r, MkNodeMetadataReply
     ((dec_slice EmptyString dec_string) j (nm_BLSPublicKey r)) (nm_Version r) (nm_NetworkType r) (nm_IsLeader r) (nm_ShardID r) (nm_NodeRole r) (nm_BlocksPerEpoch r) (nm_DNSZone r) (nm_ArchivalNode r) (nm_NodeStartTime r) (nm_Chain r) (nm_P2P r));
  ("version"%string, λ j r, MkNodeMetadataReply
     (nm_BLSPublicKey r) (dec_string j (nm_Version r)) (nm_NetworkType r) (nm_IsLeader r) (nm_ShardID r) (nm_NodeRole r) (nm_BlocksPerEpoch r) (nm_DNSZone r) (nm_ArchivalNode r) (nm_NodeStartTime r) (nm_Chain r) (nm_P2P r));
  ("network"%string, λ j r, MkNodeMetadataReply
     (nm_BLSPublicKey r) (nm_Version r) (dec_string j (nm_NetworkType r)) (nm_IsLeader r) (nm_ShardID r) (nm_NodeRole r) (nm_BlocksPerEpoch r) (nm_DNSZone r) (nm_ArchivalNode r) (nm_NodeStartTime r) (nm_Chain r) (nm_P2P r));
  ("is-leader"%string, λ j r, MkNodeMetadataReply
     (nm_BLSPublicKey r) (nm_Version r) (nm_NetworkType r) (dec_bool j (nm_IsLeader r)) (nm_ShardID r) (nm_NodeRole r) (nm_BlocksPerEpoch r) (nm_DNSZone r) (nm_ArchivalNode r) (nm_NodeStartTime r) (nm_Chain r) (nm_P2P r));
  ("shard-id"%string, λ j r, MkNodeMetadataReply
     (nm_BLSPublicKey r) (nm_Version r) (nm_NetworkType r) (nm_IsLeader r) ((dec_uint two32) j (nm_ShardID r)) (nm_NodeRole r) (nm_BlocksPerEpoch r) (nm_DNSZone r) (nm_ArchivalNode r) (nm_NodeStartTime r) (nm_Chain r) (nm_P2P r));
  ("role"%string, λ j r, MkNodeMetadataReply
     (nm_BLSPublicKey r) (nm_Version r) (nm_NetworkType r) (nm_IsLeader r) (nm_ShardID r) (dec_string j (nm_NodeRole r)) (nm_BlocksPerEpoch r) (nm_DNSZone r) (nm_ArchivalNode r) (nm_NodeStartTime r) (nm_Chain r) (nm_P2P r));
  ("blocks-per-epoch"%string, λ j r, MkNodeMetadataReply
     (nm_BLSPublicKey r) (nm_Version r) (nm_NetworkType r) (nm_IsLeader r) (nm_ShardID r) (nm_NodeRole r) (dec_int j (nm_BlocksPerEpoch r)) (nm_DNSZone r) (nm_ArchivalNode r) (nm_NodeStartTime r) (nm_Chain r) (nm_P2P r));
  ("dns-zone"%string, λ j r, MkNodeMetadataReply
     (nm_BLSPublicKey r) (nm_Version r) (nm_NetworkType r) (nm_IsLeader r) (nm_ShardID r) (nm_NodeRole r) (nm_BlocksPerEpoch r) (dec_string j (nm_DNSZone r)) (nm_ArchivalNode r) (nm_NodeStartTime r) (nm_Chain r) (nm_P2P r));
  ("is-archival"%string, λ j r, MkNodeMetadataReply
     (nm_BLSPublicKey r) (nm_Version r) (nm_NetworkType r) (nm_IsLeader r) (nm_ShardID r) (nm_NodeRole r) (nm_BlocksPerEpoch r) (nm_DNSZone r) (dec_bool j (nm_ArchivalNode r)) (nm_NodeStartTime r) (nm_Chain r) (nm_P2P r));
  ("node-unix-start-time"%string, λ j r, MkNodeMetadataReply
     (nm_BLSPublicKey r) (nm_Version r) (nm_NetworkType r) (nm_IsLeader r) (nm_ShardID r) (nm_NodeRole r) (nm_BlocksPerEpoch r) (nm_DNSZone r) (nm_ArchivalNode r) (dec_int j (nm_NodeStartTime r)) (nm_Chain r) (nm_P2P r));
  ("chain-config"%string, λ j r, MkNodeMetadataReply
     (nm_BLSPublicKey r) (nm_Version r) (nm_NetworkType r) (nm_IsLeader r) (nm_ShardID r) (nm_NodeRole r) (nm_BlocksPerEpoch r) (nm_DNSZone r) (nm_ArchivalNode r) (nm_NodeStartTime r) (dec_ChainConfig j (nm_Chain r)) (nm_P2P r));
  ("p2p-connectivity"%string, λ j r, MkNodeMetadataReply
     (nm_BLSPublicKey r) (nm_Version r) (nm_NetworkType r) (nm_IsLeader r) (nm_ShardID r) (nm_NodeRole r) (nm_BlocksPerEpoch r) (nm_DNSZone r) (nm_ArchivalNode r) (nm_NodeStartTime r) (nm_Chain r) (dec_P2PConnectivity j (nm_P2P r)))].

Definition wf_NodeMetadataReply (r : NodeMetadataReply) : Prop :=
  is_uint32 (nm_ShardID r) ∧ is_int64 (nm_BlocksPerEpoch r) ∧ is_int64 (nm_NodeStartTime r) ∧ wf_ChainConfig (nm_Chain r) ∧ wf_P2PConnectivity (nm_P2P r).

(** [NodeMetadata]: a reply and the node it came from. *)
Record NodeMetadata : Type := MkNodeMetadata {
  nmd_Payload : NodeMetadataReply;
  nmd_IP : string;
}.

(** [BlockHeaderReply]. *)
Record BlockHeaderReply : Type := MkBlockHeaderReply {
  bh_BlockHash : string;
  bh_BlockNumber : Z;
  bh_ShardID : Z;
  bh_Leader : string;
  bh_ViewID : Z;
  bh_Epoch : Z;
  bh_Timestamp : string;
  bh_UnixTime : Z;
  bh_LastCommitSig : string;
  bh_LastCommitBitmap : string;
}.

Definition zero_BlockHeaderReply : BlockHeaderReply := {|
  bh_BlockHash := EmptyString;
  bh_BlockNumber := 0;
  bh_ShardID := 0;
  bh_Leader := EmptyString;
  bh_ViewID := 0;
  bh_Epoch := 0;
  bh_Timestamp := EmptyString;
  bh_UnixTime := 0;
  bh_LastCommitSig := EmptyString;
  bh_LastCommitBitmap := EmptyString;
|}.

Definition dec_BlockHeaderReply : decoder BlockHeaderReply := dec_struct [
  ("blockHash"%string, λ j r, MkBlockHeaderReply
     (dec_string j (bh_BlockHash r)) (bh_BlockNumber r) (bh_ShardID r) (bh_Leader r) (bh_ViewID r) (bh_Epoch r) (bh_Timestamp r) (bh_UnixTime r) (bh_LastCommitSig r) (bh_LastCommitBitmap r));
  ("blockNumber"%string, λ j r, MkBlockHeaderReply
     (bh_BlockHash r) ((dec_uint two64) j (bh_BlockNumber r)) (bh_ShardID r) (bh_Leader r) (bh_ViewID r) (bh_Epoch r) (bh_Timestamp r) (bh_UnixTime r) (bh_LastCommitSig r) (bh_LastCommitBitmap r));
  ("shardID"%string, λ j r, MkBlockHeaderReply
     (bh_BlockHash r) (bh_BlockNumber r) ((dec_uint two32) j (bh_ShardID r)) (bh_Leader r) (bh_ViewID r) (bh_Epoch r) (bh_Timestamp r) (bh_UnixTime r) (bh_LastCommitSig r) (bh_LastCommitBitmap r));
  ("leader"%string, λ j r, MkBlockHeaderReply
     (bh_BlockHash r) (bh_BlockNumber r) (bh_ShardID r) (dec_string j (bh_Leader r)) (bh_ViewID r) (bh_Epoch r) (bh_Timestamp r) (bh_UnixTime r) (bh_LastCommitSig r) (bh_LastCommitBitmap r));
  ("viewID"%string, λ j r, MkBlockHeaderReply
     (bh_BlockHash r) (bh_BlockNumber r) (bh_ShardID r) (bh_Leader r) ((dec_uint two64) j (bh_ViewID r)) (bh_Epoch r) (bh_Timestamp r) (bh_UnixTime r) (bh_LastCommitSig r) (bh_LastCommitBitmap r));
  ("epoch"%string, λ j r, MkBlockHeaderReply
     (bh_BlockHash r) (bh_BlockNumber r) (bh_ShardID r) (bh_Leader r) (bh_ViewID r) ((dec_uint two64) j (bh_Epoch r)) (bh_Timestamp r) (bh_UnixTime r) (bh_LastCommitSig r) (bh_LastCommitBitmap r));
  ("timestamp"%string, λ j r, MkBlockHeaderReply
     (bh_BlockHash r) (bh_BlockNumber r) (bh_ShardID r) (bh_Leader r) (bh_ViewID r) (bh_Epoch r) (dec_string j (bh_Timestamp r)) (bh_UnixTime r) (bh_LastCommitSig r) (bh_LastCommitBitmap r));
  ("unixtime"%string, λ j r, MkBlockHeaderReply
     (bh_BlockHash r) (bh_BlockNumber r) (bh_ShardID r) (bh_Leader r) (bh_ViewID r) (bh_Epoch r) (bh_Timestamp r) (dec_int j (bh_UnixTime r)) (bh_LastCommitSig r) (bh_LastCommitBitmap r));
  ("lastCommitSig"%string, λ j r, MkBlockHeaderReply
     (bh_BlockHash r) (bh_BlockNumber r) (bh_ShardID r) (bh_Leader r) (bh_ViewID r) (bh_Epoch r) (bh_Timestamp r) (bh_UnixTime r) (dec_string j (bh_LastCommitSig r)) (bh_LastCommitBitmap r));
  ("lastCommitBitmap"%string, λ j r, MkBlockHeaderReply
     (bh_BlockHash r) (bh_BlockNumber r) (bh_ShardID r) (bh_Leader r) (bh_ViewID r) (bh_Epoch r) (bh_Timestamp r) (bh_UnixTime r) (bh_LastCommitSig r) (dec_string j (bh_LastCommitBitmap r)))].

Definition wf_BlockHeaderReply (r : BlockHeaderReply) : Prop :=
  is_uint64 (bh_BlockNumber r) ∧ is_uint32 (bh_ShardID r) ∧ is_uint64 (bh_ViewID r) ∧ is_uint64 (bh_Epoch r) ∧ is_int64 (bh_UnixTime r).

(** [BlockHeader]: a reply and the node it came from. *)
Record BlockHeader : Type := MkBlockHeader {
  bhd_Payload : BlockHeaderReply;
  bhd_IP : string;
}.

(** [CommitteeMember]. *)
Record CommitteeMember : Type := MkCommitteeMember {
  cm_Address : string;
  cm_IsHarmonyNode : bool;
  cm_BLSKey : string;
  cm_RawPercent : string;
  cm_VotingPower : string;
  cm_EffectiveStake : string;
}.

Definition zero_CommitteeMember : CommitteeMember := {|
  cm_Address := EmptyString;
  cm_IsHarmonyNode := false;
  cm_BLSKey := EmptyString;
  cm_RawPercent := EmptyString;
  cm_VotingPower := EmptyString;
  cm_EffectiveStake := EmptyString;
|}.

Definition dec_CommitteeMember : decoder CommitteeMember := dec_struct [
  ("earning-account"%string, λ j r, MkCommitteeMember
     (dec_string j (cm_Address r)) (cm_IsHarmonyNode r) (cm_BLSKey r) (cm_RawPercent r) (cm_VotingPower r) (cm_EffectiveStake r));
  ("is-harmony-slot"%string, λ j r, MkCommitteeMember
     (cm_Address r) (dec_bool j (cm_IsHarmonyNode r)) (cm_BLSKey r) (cm_RawPercent r) (cm_VotingPower r) (cm_EffectiveStake r));
  ("bls-public-key"%string, λ j r, MkCommitteeMember
     (cm_Address r) (cm_IsHarmonyNode r) (dec_string j (cm_BLSKey r)) (cm_RawPercent r) (cm_VotingPower r) (cm_EffectiveStake r));
  ("voting-power-unnormalized"%string, λ j r, MkCommitteeMember
     (cm_Address r) (cm_IsHarmonyNode r) (cm_BLSKey r) (dec_string j (cm_RawPercent r)) (cm_VotingPower r) (cm_EffectiveStake r));
  ("voting-power-%"%string, λ j r, MkCommitteeMember
     (cm_Address r) (cm_IsHarmonyNode r) (cm_BLSKey r) (cm_RawPercent r) (dec_string j (cm_VotingPower r)) (cm_EffectiveStake r));
  ("effective-stake"%string, λ j r, MkCommitteeMember
     (cm_Address r) (cm_IsHarmonyNode r) (cm_BLSKey r) (cm_RawPercent r) (cm_VotingPower r) (dec_string j (cm_EffectiveStake r)))].

(** [CommitteeInfo]. *)
Record CommitteeInfo : Type := MkCommitteeInfo {
  ci_PolicyType : string;
  ci_MemberCount : Z;
  ci_Externals : Z;
  ci_Committee : list CommitteeMember;
  ci_HarmonyPower : string;
  ci_StakedPower : string;
  ci_TotalRawStake : string;
}.

Definition zero_CommitteeInfo : CommitteeInfo := {|
  ci_PolicyType := EmptyString;
  ci_MemberCount := 0;
  ci_Externals := 0;
  ci_Committee := [];
  ci_HarmonyPower := EmptyString;
  ci_StakedPower := EmptyString;
  ci_TotalRawStake := EmptyString;
|}.

Definition dec_CommitteeInfo : decoder CommitteeInfo := dec_struct [
  ("policy"%string, λ j r, MkCommitteeInfo
     (dec_string j (ci_PolicyType r)) (ci_MemberCount r) (ci_Externals r) (ci_Committee r) (ci_HarmonyPower r) (ci_StakedPower r) (ci_TotalRawStake r));
  ("count"%string, λ j r, MkCommitteeInfo
     (ci_PolicyType r) (dec_int j (ci_MemberCount r)) (ci_Externals r) (ci_Committee r) (ci_HarmonyPower r) (ci_StakedPower r) (ci_TotalRawStake r));
  ("external-validator-slot-count"%string, λ j r, MkCommitteeInfo
     (ci_PolicyType r) (ci_MemberCount r) (dec_int j (ci_Externals r)) (ci_Committee r) (ci_HarmonyPower r) (ci_StakedPower r) (ci_TotalRawStake r));
  ("committee-members"%string, λ j r, MkCommitteeInfo
     (ci_PolicyType r) (ci_MemberCount r) (ci_Externals r) ((dec_list zero_CommitteeMember dec_CommitteeMember) j (ci_Committee r)) (ci_HarmonyPower r) (ci_StakedPower r) (ci_TotalRawStake r));
  ("hmy-voting-power"%string, λ j r, MkCommitteeInfo
     (ci_PolicyType r) (ci_MemberCount r) (ci_Externals r) (ci_Committee r) (dec_string j (ci_HarmonyPower r)) (ci_StakedPower r) (ci_TotalRawStake r));
  ("staked-voting-power"%string, λ j r, MkCommitteeInfo
     (ci_PolicyType r) (ci_MemberCount r) (ci_Externals r) (ci_Committee r) (ci_HarmonyPower r) (dec_string j (ci_StakedPower r)) (ci_TotalRawStake r));
  ("total-raw-staked"%string, λ j r, MkCommitteeInfo
     (ci_PolicyType r) (ci_MemberCount r) (ci_Externals r) (ci_Committee r) (ci_HarmonyPower r) (ci_StakedPower r) (dec_string j (ci_TotalRawStake r)))].

Definition wf_CommitteeInfo (r : CommitteeInfo) : Prop :=
  is_int64 (ci_MemberCount r) ∧ is_int64 (ci_Externals r).

(** One of the two committees of [SuperCommitteeReply]. *)
Record Committees : Type := MkCommittees {
  co_Deciders : gmap string CommitteeInfo;
  co_ExternalCount : Z;
}.

Definition zero_Committees : Committees := {|
  co_Deciders := ∅;
  co_ExternalCount := 0;
|}.

Definition dec_Committees : decoder Committees := dec_struct [
  ("quorum-deciders"%string, λ j r, MkCommittees
     ((dec_map zero_CommitteeInfo dec_CommitteeInfo) j (co_Deciders r)) (co_ExternalCount r));
  ("external-slot-count"%string, λ j r, MkCommittees
     (co_Deciders r) (dec_int j (co_ExternalCount r)))].

Definition wf_Committees (r : Committees) : Prop :=
  is_int64 (co_ExternalCount r) ∧ map_Forall (λ _, wf_CommitteeInfo) (co_Deciders r).

(** [SuperCommitteeReply]. *)
Record SuperCommitteeReply : Type := MkSuperCommitteeReply {
  sc_PreviousCommittee : Committees;
  sc_CurrentCommittee : Committees;
}.

Definition zero_SuperCommitteeReply : SuperCommitteeReply := {|
  sc_PreviousCommittee := zero_Committees;
  sc_CurrentCommittee := zero_Committees;
|}.

Definition dec_SuperCommitteeReply : decoder SuperCommitteeReply := dec_struct [
  ("previous"%string, λ j r, MkSuperCommitteeReply
     (dec_Committees j (sc_PreviousCommittee r)) (sc_CurrentCommittee r));
  ("current"%string, λ j r, MkSuperCommitteeReply
     (sc_PreviousCommittee r) (dec_Committees j (sc_CurrentCommittee r)))].

(** [CrossLink]. *)
Record CrossLink : Type := MkCrossLink {
  cl_Hash : string;
  cl_BlockNumber : Z;
  cl_Signature : string;
  cl_SignatureBitmap : string;
  cl_ShardID : Z;
  cl_EpochNumber : Z;
}.

Definition zero_CrossLink : CrossLink := {|
  cl_Hash := EmptyString;
  cl_BlockNumber := 0;
  cl_Signature := EmptyString;
  cl_SignatureBitmap := EmptyString;
  cl_ShardID := 0;
  cl_EpochNumber := 0;
|}.

Definition dec_CrossLink : decoder CrossLink := dec_struct [
  ("hash"%string, λ j r, MkCrossLink
     (dec_string j (cl_Hash r)) (cl_BlockNumber r) (cl_Signature r) (cl_SignatureBitmap r) (cl_ShardID r) (cl_EpochNumber r));
  ("block-number"%string, λ j r, MkCrossLink
     (cl_Hash r) (dec_int j (cl_BlockNumber r)) (cl_Signature r) (cl_SignatureBitmap r) (cl_ShardID r) (cl_EpochNumber r));
  ("signature"%string, λ j r, MkCrossLink
     (cl_Hash r) (cl_BlockNumber r) (dec_string j (cl_Signature r)) (cl_SignatureBitmap r) (cl_ShardID r) (cl_EpochNumber r));
  ("signature-bitmap"%string, λ j r, MkCrossLink
     (cl_Hash r) (cl_BlockNumber r) (cl_Signature r) (dec_string j (cl_SignatureBitmap r)) (cl_ShardID r) (cl_EpochNumber r));
  ("shard-id"%string, λ j r, MkCrossLink
     (cl_Hash r) (cl_BlockNumber r) (cl_Signature r) (cl_SignatureBitmap r) (dec_int j (cl_ShardID r)) (cl_EpochNumber r));
  ("epoch-number"%string, λ j r, MkCrossLink
     (cl_Hash r) (cl_BlockNumber r) (cl_Signature r) (cl_SignatureBitmap r) (cl_ShardID r) (dec_int j (cl_EpochNumber r)))].

Definition wf_CrossLink (r : CrossLink) : Prop :=
  is_int64 (cl_BlockNumber r) ∧ is_int64 (cl_ShardID r) ∧ is_int64 (cl_EpochNumber r).

(** [LastCrossLinkReply]. *)
Record LastCrossLinkReply : Type := MkLastCrossLinkReply {
  lc_CrossLinks : list CrossLink;
}.

Definition zero_LastCrossLinkReply : LastCrossLinkReply := {|
  lc_CrossLinks := [];
|}.

Definition dec_LastCrossLinkReply : decoder LastCrossLinkReply := dec_struct [
  ("result"%string, λ j r, MkLastCrossLinkReply
     ((dec_list zero_CrossLink dec_CrossLink) j (lc_CrossLinks r)))].

(** [Header]. *)
Record Header : Type := MkHeader {
  hd_Hash : string;
  hd_Number : Z;
  hd_Epoch : Z;
  hd_ShardID : Z;
  hd_ViewID : Z;
}.

Definition zero_Header : Header := {|
  hd_Hash := EmptyString;
  hd_Number := 0;
  hd_Epoch := 0;
  hd_ShardID := 0;
  hd_ViewID := 0;
|}.

Definition dec_Header : decoder Header := dec_struct [
  ("block-header-hash"%string, λ j r, MkHeader
     (dec_string j (hd_Hash r)) (hd_Number r) (hd_Epoch r) (hd_ShardID r) (hd_ViewID r));
  ("block-number"%string, λ j r, MkHeader
     (hd_Hash r) ((dec_uint two64) j (hd_Number r)) (hd_Epoch r) (hd_ShardID r) (hd_ViewID r));
  ("epoch"%string, λ j r, MkHeader
     (hd_Hash r) (hd_Number r) ((dec_uint two64) j (hd_Epoch r)) (hd_ShardID r) (hd_ViewID r));
  ("shard-id"%string, λ j r, MkHeader
     (hd_Hash r) (hd_Number r) (hd_Epoch r) ((dec_uint two32) j (hd_ShardID r)) (hd_ViewID r));
  ("view-id"%string, λ j r, MkHeader
     (hd_Hash r) (hd_Number r) (hd_Epoch r) (hd_ShardID r) ((dec_uint two64) j (hd_ViewID r)))].

Definition wf_Header (r : Header) : Prop :=
  is_uint64 (hd_Number r) ∧ is_uint64 (hd_Epoch r) ∧ is_uint32 (hd_ShardID r) ∧ is_uint64 (hd_ViewID r).

(** [HeaderPair]. *)
Record HeaderPair : Type := MkHeaderPair {
  hp_Beacon : Header;
  hp_AuxShard : Header;
}.

Definition zero_HeaderPair : HeaderPair := {|
  hp_Beacon := zero_Header;
  hp_AuxShard := zero_Header;
|}.

Definition dec_HeaderPair : decoder HeaderPair := dec_struct [
  ("beacon-chain-header"%string, λ j r, MkHeaderPair
     (dec_Header j (hp_Beacon r)) (hp_AuxShard r));
  ("shard-chain-header"%string, λ j r, MkHeaderPair
     (hp_Beacon r) (dec_Header j (hp_AuxShard r)))].

Definition wf_HeaderPair (r : HeaderPair) : Prop :=
  wf_Header (hp_Beacon r) ∧ wf_Header (hp_AuxShard r).

(** ** Envelopes

    Every reply is decoded through a local struct with one field [Result]. *)

Definition dec_result {A} (d : decoder A) : decoder A :=
  dec_struct [("result"%string, d)].

(** The fresh target and the decoded [Result] of a reply body. *)
Definition decode_metadata (data : string) : NodeMetadataReply :=
  Unmarshal (dec_result dec_NodeMetadataReply) data zero_NodeMetadataReply.
Definition decode_header (data : string) : BlockHeaderReply :=
  Unmarshal (dec_result dec_BlockHeaderReply) data zero_BlockHeaderReply.
Definition decode_pair (data : string) : HeaderPair :=
  Unmarshal (dec_result dec_HeaderPair) data zero_HeaderPair.
Definition decode_committee (data : string) : SuperCommitteeReply :=
  Unmarshal (dec_result dec_SuperCommitteeReply) data zero_SuperCommitteeReply.
Definition decode_cx (data : string) : Z :=
  Unmarshal (dec_result (dec_uint two64)) data 0.
Definition decode_crosslinks (data : string) (old : LastCrossLinkReply) : LastCrossLinkReply :=
  Unmarshal dec_LastCrossLinkReply data old.

(** ** Requests *)

Definition getRPCRequest (rpc : string) : gmap string json :=
  <["jsonrpc" := JStr JSONVersion]> (<["method" := JStr rpc]>
    (<["params" := JArr []]> {["id" := JStr "1"]})).

(** [json.Marshal(getRPCRequest(rpc))]. *)
Definition request_body (rpc : string) : string := Marshal_map (getRPCRequest rpc).

(** The fields a JSON-RPC server reads from a request body. *)
Record RpcCall : Type := MkRpcCall { rc_jsonrpc : string; rc_method : string; rc_id : string }.

Definition dec_RpcCall : decoder RpcCall := dec_struct [
  ("jsonrpc"%string, λ j r, MkRpcCall (dec_string j (rc_jsonrpc r)) (rc_method r) (rc_id r));
  ("method"%string, λ j r, MkRpcCall (rc_jsonrpc r) (dec_string j (rc_method r)) (rc_id r));
  ("id"%string, λ j r, MkRpcCall (rc_jsonrpc r) (rc_method r) (dec_string j (rc_id r)))].

(** ** Transport *)

(** What [client.Do] of the HTTP client does with a URL and a request body: an
    error, or a status code and a response body. *)
Definition http_client : Type := string → string → string + (Z * string).

(** [work] and [reply]. A nil byte slice is the empty string. *)
Record work : Type := MkWork { w_address : string; w_rpc : string; w_body : string }.

Record reply : Type := MkReply {
  r_address : string;
  r_rpc : string;
  r_payload : string;
  r_result : string;
  r_oops : option string;
}.

(** [request]: the result, the request payload and the error. *)
Definition request (client : http_client) (node body : string) :
    string * string * option string :=
  match client node body with
  | inl err => (EmptyString, body, Some err)
  | inr (c, res) =>
      if negb (c =? 200) then
        (EmptyString, body,
          Some (Sprintf "http status code not 200, received: %d" [OInt TInt c]))
      else if (String.length res =? 0)%nat then
        (EmptyString, body, Some "empty reply received"%string)
      else (res, EmptyString, None)
  end.

(** The body of the worker's loop for one job. *)
Definition do_work (client : http_client) (j : work) : reply :=
  let '(res, payload, oops) := request client ("http://" +:+ w_address j) (w_body j) in
  MkReply (w_address j) (w_rpc j) payload res oops.

(** ** Facts *)

(** Decoded replies hold integers of their declared widths. *)
Ltac solve_decoder_wf P :=
  intros; apply (dec_struct_inv P); [|done];
  repeat (apply Forall_cons; split); try apply Forall_nil; unfold P; cbn;
  intros; crush_hyps; repeat match goal with |- _ ∧ _ => split end;
  first [done | apply dec_uint_range; done | apply dec_int_range; done
        | eauto with watchdog].

Lemma dec_BlockHeaderReply_wf j r :
  wf_BlockHeaderReply r → wf_BlockHeaderReply (dec_BlockHeaderReply j r).
Proof. solve_decoder_wf wf_BlockHeaderReply. Qed.

Lemma dec_ChainConfig_wf j r : wf_ChainConfig r → wf_ChainConfig (dec_ChainConfig j r).
Proof. solve_decoder_wf wf_ChainConfig. Qed.

Lemma dec_P2PConnectivity_wf j r :
  wf_P2PConnectivity r → wf_P2PConnectivity (dec_P2PConnectivity j r).
Proof. solve_decoder_wf wf_P2PConnectivity. Qed.

Lemma dec_Header_wf j r : wf_Header r → wf_Header (dec_Header j r).
Proof. solve_decoder_wf wf_Header. Qed.

#[export] Hint Resolve dec_ChainConfig_wf dec_P2PConnectivity_wf dec_Header_wf
  dec_BlockHeaderReply_wf : watchdog.

Lemma dec_NodeMetadataReply_wf j r :
  wf_NodeMetadataReply r → wf_NodeMetadataReply (dec_NodeMetadataReply j r).
Proof. solve_decoder_wf wf_NodeMetadataReply. Qed.

Lemma dec_HeaderPair_wf j r : wf_HeaderPair r → wf_HeaderPair (dec_HeaderPair j r).
Proof. solve_decoder_wf wf_HeaderPair. Qed.

Lemma dec_CrossLink_wf j r : wf_CrossLink r → wf_CrossLink (dec_CrossLink j r).
Proof. solve_decoder_wf wf_CrossLink. Qed.

#[export] Hint Resolve dec_NodeMetadataReply_wf dec_HeaderPair_wf dec_CrossLink_wf : watchdog.

Lemma decode_result_wf {A} (P : A → Prop) (d : decoder A) data zero :
  (∀ j a, P a → P (d j a)) → P zero → P (Unmarshal (dec_result d) data zero).
Proof.
  intros Hd Hz. apply Unmarshal_inv; [|done]. intros j a Ha.
  apply (dec_struct_inv P); [|done]. apply Forall_cons. split; [done|by apply Forall_nil].
Qed.

Lemma decode_header_wf data : wf_BlockHeaderReply (decode_header data).
Proof. apply (decode_result_wf wf_BlockHeaderReply); [auto with watchdog|done]. Qed.

Lemma decode_metadata_wf data : wf_NodeMetadataReply (decode_metadata data).
Proof. apply (decode_result_wf wf_NodeMetadataReply); [auto with watchdog|done]. Qed.

Lemma decode_pair_wf data : wf_HeaderPair (decode_pair data).
Proof. apply (decode_result_wf wf_HeaderPair); [auto with watchdog|done]. Qed.

(** Slices and maps of decoded records. *)
Lemma dec_list_Forall {A} (P : A → Prop) (zero : A) (d : decoder A) j old :
  (∀ j a, P a → P (d j a)) → P zero → Forall P old → Forall P (dec_list zero d j old).
Proof.
  intros Hd Hz Ho. destruct j as [| | | |l|]; cbn; try done.
  revert old Ho. induction l as [|j l IH]; intros old Ho; cbn; [by apply Forall_nil|].
  destruct Ho; constructor; auto.
Qed.

Lemma dec_map_Forall {A} (P : A → Prop) (zero : A) (d : decoder A) j old :
  (∀ j a, P a → P (d j a)) → P zero → map_Forall (λ _, P) old →
  map_Forall (λ _, P) (dec_map zero d j old).
Proof.
  intros Hd Hz Ho. destruct j as [| | | | |l]; cbn; try done.
  revert old Ho. induction l as [|[k v] l IH]; intros old Ho; cbn; [done|].
  apply IH, map_Forall_insert_2; auto.
Qed.

Lemma dec_CommitteeInfo_wf j r : wf_CommitteeInfo r → wf_CommitteeInfo (dec_CommitteeInfo j r).
Proof. solve_decoder_wf wf_CommitteeInfo. Qed.

Lemma dec_Deciders_wf j old :
  map_Forall (λ _, wf_CommitteeInfo) old →
  map_Forall (λ _, wf_CommitteeInfo) (dec_map zero_CommitteeInfo dec_CommitteeInfo j old).
Proof. apply dec_map_Forall; [apply dec_CommitteeInfo_wf|done]. Qed.
#[export] Hint Resolve dec_Deciders_wf : watchdog.

Lemma dec_Committees_wf j r : wf_Committees r → wf_Committees (dec_Committees j r).
Proof. solve_decoder_wf wf_Committees. Qed.
#[export] Hint Resolve dec_Committees_wf : watchdog.

Definition wf_SuperCommitteeReply (r : SuperCommitteeReply) : Prop :=
  wf_Committees (sc_PreviousCommittee r) ∧ wf_Committees (sc_CurrentCommittee r).

Lemma zero_SuperCommitteeReply_wf : wf_SuperCommitteeReply zero_SuperCommitteeReply.
Proof. by split; (split; [|apply map_Forall_empty]). Qed.

Lemma decode_committee_wf data : wf_SuperCommitteeReply (decode_committee data).
Proof.
  apply (decode_result_wf wf_SuperCommitteeReply); [|apply zero_SuperCommitteeReply_wf].
  solve_decoder_wf wf_SuperCommitteeReply.
Qed.

Lemma decode_crosslinks_wf data old :
  Forall wf_CrossLink (lc_CrossLinks old) →
  Forall wf_CrossLink (lc_CrossLinks (decode_crosslinks data old)).
Proof.
  intros Ho. apply (Unmarshal_inv (λ r, Forall wf_CrossLink (lc_CrossLinks r))); [|done].
  intros j r Hr. apply (dec_struct_inv (λ r, Forall wf_CrossLink (lc_CrossLinks r))); [|done].
  apply Forall_cons. split; [|by apply Forall_nil]. cbn. intros j' r' Hr'.
  apply dec_list_Forall; [apply dec_CrossLink_wf|done|done].
Qed.

Lemma decode_cx_range data : is_uint64 (decode_cx data).
Proof.
  apply (decode_result_wf is_uint64); [|done]. intros. by apply dec_uint_range.
Qed.

#[export] Hint Resolve decode_header_wf decode_metadata_wf decode_pair_wf
  decode_cx_range : watchdog.

(** *** Requests on the wire *)

Lemma request_members rpc id :
  sorted_entries (<["id" := JStr id]> (getRPCRequest rpc))
  = [("id", JStr id); ("jsonrpc", JStr JSONVersion); ("method", JStr rpc); ("params", JArr [])]%string.
Proof. vm_compute. reflexivity. Qed.

Lemma request_id rpc : <["id" := JStr "1"]> (getRPCRequest rpc) = getRPCRequest rpc.
Proof. apply insert_id. unfold getRPCRequest. by simplify_map_eq. Qed.

(** A request body parses back to the call it was made for, whatever the
    method and the id. *)
Lemma marshal_request_roundtrip rpc id :
  utf8 rpc = true → utf8 id = true →
  Unmarshal dec_RpcCall (Marshal_map (<["id" := JStr id]> (getRPCRequest rpc)))
    (MkRpcCall EmptyString EmptyString EmptyString)
  = MkRpcCall JSONVersion rpc id.
Proof.
  intros Hrpc Hid. unfold Marshal_map, Unmarshal. rewrite request_members.
  rewrite parse_print; [reflexivity|]. cbn -[utf8]. rewrite Hrpc, Hid. done.
Qed.

(** *** Requests: outcome *)

Definition http_ok (client : http_client) (node body res : string) : Prop :=
  client node body = inr (200, res) ∧ res ≠ EmptyString.

Lemma request_ok_iff client node body res payload :
  request client node body = (res, payload, None)
  ↔ http_ok client node body res ∧ payload = EmptyString.
Proof.
  unfold request, http_ok. destruct (client node body) as [err|[c b]]; [naive_solver|].
  destruct (Z.eqb_spec c 200) as [->|Hc]; cbn -[String.length].
  - destruct b as [|x b]; cbn; naive_solver.
  - naive_solver.
Qed.

Lemma request_err client node body res payload err :
  request client node body = (res, payload, Some err) → res = EmptyString ∧ payload = body.
Proof. unfold request. repeat case_match; naive_solver. Qed.

(** *** Replies on the wire *)

Definition enc_int (z : Z) : json := JNum (Itoa z).

(** [json.Marshal] of the structs; fields marked [omitempty] are left out when
    they are zero. *)
Definition enc_BlockHeaderReply (r : BlockHeaderReply) : json := JObj [
  ("blockHash", JStr (bh_BlockHash r)); ("blockNumber", enc_int (bh_BlockNumber r));
  ("shardID", enc_int (bh_ShardID r)); ("leader", JStr (bh_Leader r));
  ("viewID", enc_int (bh_ViewID r)); ("epoch", enc_int (bh_Epoch r));
  ("timestamp", JStr (bh_Timestamp r)); ("unixtime", enc_int (bh_UnixTime r));
  ("lastCommitSig", JStr (bh_LastCommitSig r));
  ("lastCommitBitmap", JStr (bh_LastCommitBitmap r))]%string.

Definition enc_ChainConfig (r : ChainConfig) : json := JObj [
  ("chain-id", enc_int (cc_ChainID r)); ("cross-link-epoch", enc_int (cc_CrossLinkEpoch r));
  ("cross-tx-epoch", enc_int (cc_CrossTxEpoch r)); ("eip155-epoch", enc_int (cc_Eip155Epoch r));
  ("prestaking-epoch", enc_int (cc_PreStakingEpoch r)); ("s3-epoch", enc_int (cc_S3Epoch r));
  ("staking-epoch", enc_int (cc_StakingEpoch r))]%string.

Definition enc_P2PConnectivity (r : P2PConnectivity) : json := JObj [
  ("connected", enc_int (p2p_Connected r)); ("not-connected", enc_int (p2p_NotConnected r));
  ("total-known-peers", enc_int (p2p_TotalKnown r))]%string.

(** A nil slice is null. *)
Definition enc_strings (s : option (list string)) : json :=
  match s with Some l => JArr (JStr <$> l) | None => JNull end.

Definition enc_NodeMetadataReply (r : NodeMetadataReply) : json := JObj (
  [("blskey", enc_strings (nm_BLSPublicKey r)); ("version", JStr (nm_Version r));
   ("network", JStr (nm_NetworkType r)); ("is-leader", JBool (nm_IsLeader r));
   ("shard-id", enc_int (nm_ShardID r)); ("role", JStr (nm_NodeRole r));
   ("blocks-per-epoch", enc_int (nm_BlocksPerEpoch r))]%string
  ++ (if bool_decide (nm_DNSZone r = EmptyString) then [] else [("dns-zone"%string, JStr (nm_DNSZone r))])
  ++ (if nm_ArchivalNode r then [("is-archival"%string, JBool true)] else [])
  ++ [("node-unix-start-time", enc_int (nm_NodeStartTime r));
      ("chain-config", enc_ChainConfig (nm_Chain r));
      ("p2p-connectivity", enc_P2PConnectivity (nm_P2P r))]%string).

(** The body of an answer with one result. *)
Definition reply_body (result : json) : string := print (JObj [("result"%string, result)]).

Lemma decode_answer {A} (d : decoder A) result zero :
  plain result = true → Unmarshal (dec_result d) (reply_body result) zero = d result zero.
Proof.
  intros Hp. unfold Unmarshal, reply_body. rewrite parse_print; [reflexivity|].
  cbn -[utf8]. by rewrite Hp.
Qed.

Lemma dec_elems_strings l : dec_elems EmptyString dec_string (JStr <$> l) [] = l.
Proof. induction l as [|s l IH]; [done|]. cbn. by rewrite IH. Qed.

Lemma dec_slice_strings s : dec_slice EmptyString dec_string (enc_strings s) None = s.
Proof. destruct s as [l|]; [|done]. cbn. by rewrite dec_elems_strings. Qed.

Lemma dec_BlockHeaderReply_enc r zero :
  wf_BlockHeaderReply r → dec_BlockHeaderReply (enc_BlockHeaderReply r) zero = r.
Proof.
  intros (H1 & H2 & H3 & H4 & H5). destruct r. cbn in H1, H2, H3, H4, H5. unfold is_uint64, is_uint32 in *.
  lazy -[dec_uint dec_int Itoa two64 two32].
  rewrite !dec_uint_Itoa by done. by rewrite dec_int_Itoa.
Qed.

Lemma dec_ChainConfig_enc r zero :
  wf_ChainConfig r → dec_ChainConfig (enc_ChainConfig r) zero = r.
Proof.
  intros (H1 & H2 & H3 & H4 & H5 & H6 & H7). destruct r. cbn in H1, H2, H3, H4, H5, H6, H7.
  lazy -[dec_int Itoa]. by rewrite !dec_int_Itoa.
Qed.

Lemma dec_P2PConnectivity_enc r zero :
  wf_P2PConnectivity r → dec_P2PConnectivity (enc_P2PConnectivity r) zero = r.
Proof.
  intros (H1 & H2 & H3). destruct r. cbn in H1, H2, H3.
  lazy -[dec_int Itoa]. by rewrite !dec_int_Itoa.
Qed.

Lemma dec_NodeMetadataReply_enc r :
  wf_NodeMetadataReply r →
  dec_NodeMetadataReply (enc_NodeMetadataReply r) zero_NodeMetadataReply = r.
Proof.
  intros (H1 & H2 & H3 & H4 & H5).
  destruct r as [keys v net lead shard role blocks zone arch start chain p2p].
  cbn in H1, H2, H3, H4, H5. unfold is_uint32 in H1. unfold enc_NodeMetadataReply.
  cbn [nm_DNSZone nm_ArchivalNode nm_BLSPublicKey].
  case_bool_decide as Hz; [cbn in Hz; subst zone|]; destruct arch;
  lazy -[dec_uint dec_int dec_ChainConfig dec_P2PConnectivity enc_ChainConfig enc_P2PConnectivity
    Itoa two32 dec_slice enc_strings dec_string];
  by rewrite dec_uint_Itoa, !dec_int_Itoa, dec_ChainConfig_enc, dec_P2PConnectivity_enc, dec_slice_strings.
Qed.

(** Strings of decoded replies are valid UTF-8, whatever the body was. *)
Definition text_BlockHeaderReply (r : BlockHeaderReply) : Prop :=
  utf8 (bh_BlockHash r) = true ∧ utf8 (bh_Leader r) = true ∧ utf8 (bh_Timestamp r) = true
  ∧ utf8 (bh_LastCommitSig r) = true ∧ utf8 (bh_LastCommitBitmap r) = true.

Definition text_NodeMetadataReply (r : NodeMetadataReply) : Prop :=
  Forall (λ k, utf8 k = true) (slice_elems (nm_BLSPublicKey r)) ∧ utf8 (nm_Version r) = true
  ∧ utf8 (nm_NetworkType r) = true ∧ utf8 (nm_NodeRole r) = true ∧ utf8 (nm_DNSZone r) = true.

Ltac solve_decoder_text P :=
  intros; apply (dec_struct_clean P); [|done|done];
  repeat (apply Forall_cons; split); try apply Forall_nil; unfold P; cbn [fst snd];
  intros; crush_hyps; repeat match goal with |- _ ∧ _ => split end;
  first [done | by apply dec_string_clean | eauto with watchdog].

Lemma dec_BlockHeaderReply_text j r :
  clean j = true → text_BlockHeaderReply r → text_BlockHeaderReply (dec_BlockHeaderReply j r).
Proof. solve_decoder_text text_BlockHeaderReply. Qed.

Lemma dec_keys_text j old :
  clean j = true → Forall (λ k, utf8 k = true) (slice_elems old) →
  Forall (λ k, utf8 k = true) (slice_elems (dec_slice EmptyString dec_string j old)).
Proof.
  intros Hj Ho. destruct j as [| | | |l|]; cbn; try done.
  apply dec_elems_clean; [apply dec_string_clean|done|done|done].
Qed.
#[export] Hint Resolve dec_keys_text : watchdog.

Lemma dec_NodeMetadataReply_text j r :
  clean j = true → text_NodeMetadataReply r → text_NodeMetadataReply (dec_NodeMetadataReply j r).
Proof. solve_decoder_text text_NodeMetadataReply. Qed.

Lemma decode_result_text {A} (P : A → Prop) (d : decoder A) data zero :
  (∀ j a, clean j = true → P a → P (d j a)) → P zero → P (Unmarshal (dec_result d) data zero).
Proof.
  intros Hd Hz. apply Unmarshal_clean; [|done]. intros j a Hj Ha.
  apply (dec_struct_clean P); [|done|done]. apply Forall_cons. split; [done|by apply Forall_nil].
Qed.

Lemma decode_header_text data : text_BlockHeaderReply (decode_header data).
Proof. apply (decode_result_text text_BlockHeaderReply); [apply dec_BlockHeaderReply_text|done]. Qed.

Lemma decode_metadata_text data : text_NodeMetadataReply (decode_metadata data).
Proof.
  apply (decode_result_text text_NodeMetadataReply); [apply dec_NodeMetadataReply_text|].
  split; [by apply Forall_nil|done].
Qed.

Lemma plain_int z : plain (enc_int z) = true.
Proof. apply Itoa_int. Qed.

Lemma plain_BlockHeaderReply r : text_BlockHeaderReply r → plain (enc_BlockHeaderReply r) = true.
Proof.
  intros (H1 & H2 & H3 & H4 & H5). unfold enc_BlockHeaderReply. cbn -[utf8 enc_int].
  rewrite !plain_int. cbn -[utf8]. by rewrite H1, H2, H3, H4, H5.
Qed.

Lemma plain_NodeMetadataReply r : text_NodeMetadataReply r → plain (enc_NodeMetadataReply r) = true.
Proof.
  intros (H1 & H2 & H3 & H4 & H5). unfold enc_NodeMetadataReply.
  assert (plain (enc_strings (nm_BLSPublicKey r)) = true) as Hk.
  { destruct (nm_BLSPublicKey r) as [l|]; [|done]. cbn in H1. cbn -[utf8].
    induction H1 as [|k l Hk _ IH]; [done|]. cbn -[utf8]. by rewrite Hk. }
  unfold enc_ChainConfig, enc_P2PConnectivity.
  case_bool_decide; destruct (nm_ArchivalNode r); cbn -[utf8 enc_int enc_strings];
    rewrite Hk, !plain_int; cbn -[utf8]; by rewrite H2, H3, H4, ?H5.
Qed.

(** C33: what a node answers is what the watchdog reads. A header or a metadata
    record, marshalled as the result of a reply, decodes to itself exactly when
    its integers have their declared widths and its strings are valid UTF-8; and
    every record the watchdog ever decodes is of this kind, whatever the bytes of
    the reply. *)
Theorem reply_roundtrip h n data :
  (decode_header (reply_body (enc_BlockHeaderReply h)) = h
   ↔ wf_BlockHeaderReply h ∧ text_BlockHeaderReply h)
  ∧ (decode_metadata (reply_body (enc_NodeMetadataReply n)) = n
     ↔ wf_NodeMetadataReply n ∧ text_NodeMetadataReply n)
  ∧ decode_header (reply_body (enc_BlockHeaderReply (decode_header data))) = decode_header data
  ∧ decode_metadata (reply_body (enc_NodeMetadataReply (decode_metadata data)))
    = decode_metadata data.
Proof.
  assert (∀ h, wf_BlockHeaderReply h ∧ text_BlockHeaderReply h →
    decode_header (reply_body (enc_BlockHeaderReply h)) = h) as Hh.
  { intros h' [Hw Ht]. unfold decode_header.
    by rewrite decode_answer, dec_BlockHeaderReply_enc by auto using plain_BlockHeaderReply. }
  assert (∀ n, wf_NodeMetadataReply n ∧ text_NodeMetadataReply n →
    decode_metadata (reply_body (enc_NodeMetadataReply n)) = n) as Hn.
  { intros n' [Hw Ht]. unfold decode_metadata.
    by rewrite decode_answer, dec_NodeMetadataReply_enc by auto using plain_NodeMetadataReply. }
  split_and!; [split; [|apply Hh]|split; [|apply Hn]|apply Hh|apply Hn].
  - intros <-. split; [apply decode_header_wf|apply decode_header_text].
  - intros <-. split; [apply decode_metadata_wf|apply decode_metadata_text].
  - split; [apply decode_header_wf|apply decode_header_text].
  - split; [apply decode_metadata_wf|apply decode_metadata_text].
Qed.

Module RpcWitness.
Definition header : BlockHeaderReply :=
  MkBlockHeaderReply "0xab" 18446744073709551615 3 "one1" 7 1 "now" (-5) "0x12" "0x1".
Definition metadata : NodeMetadataReply :=
  MkNodeMetadataReply (Some ["key1"; "key2"]) "v1" "testnet" true 4294967295 "Validator" 10 EmptyString
    true 5 (MkChainConfig 1 2 3 4 5 6 7) (MkP2PConnectivity 29 71 100).
End RpcWitness.

Lemma reply_roundtrip_witness :
  decode_header (reply_body (enc_BlockHeaderReply RpcWitness.header)) = RpcWitness.header
  ∧ decode_metadata (reply_body (enc_NodeMetadataReply RpcWitness.metadata)) = RpcWitness.metadata.
Proof.
  destruct (reply_roundtrip RpcWitness.header RpcWitness.metadata EmptyString) as (Hh & Hn & _).
  split; [apply Hh|apply Hn]; repeat split; vm_compute; first [congruence|reflexivity|idtac].
  by repeat constructor.
Defined.
