(* ===== verification/Pool.v ===== *)
(** * The worker pool

    Every monitor works in rounds over a pool of workers (the goroutine
    [worker] of reporting-server.go): it sends one job per node on the buffered
    channel [jobs], counting them in a wait group, waits until the group is back
    at zero, closes the reply channel of the RPC, drains it, and puts a fresh
    channel in the map. [pool_step] is the interleaving of the senders and the
    workers; senders of different RPCs share the workers and the job channel. *)

From Stdlib Require Import Wf_nat Inclusion.
From S2P Require Import Prelude GoJson Rpc.

(** ** Jobs and their replies *)

(** [d] is a reply the loop body of [worker] can produce for [j]: the network
    behaves differently at every call. *)
Definition answers (j : work) (d : reply) : Prop := ∃ client, d = do_work client j.

(** [ds] holds, in some order, one reply per job. *)
Definition served (js : list work) (ds : list reply) : Prop :=
  ∃ rs, Forall2 answers js rs ∧ ds ≡ₚ rs.

Lemma answers_address j d : answers j d → r_address d = w_address j ∧ r_rpc d = w_rpc j.
Proof. intros [client ->]. unfold do_work. by destruct (request _ _ _) as [[??]?]. Qed.

Lemma served_nil : served [] [].
Proof. exists []. auto. Qed.

Lemma served_cons j d js ds : answers j d → served js ds → served (j :: js) (ds ++ [d]).
Proof.
  intros Hd (rs & Hrs & Hp). exists (d :: rs). split; [by constructor|].
  by rewrite Hp, <-Permutation_cons_append.
Qed.

Lemma served_perm js js' ds : js ≡ₚ js' → served js ds → served js' ds.
Proof.
  intros Hp (rs & Hrs & Hd).
  destruct (Permutation_Forall2 Hp Hrs) as (rs' & Hp' & Hrs').
  exists rs'. split; [done|]. by rewrite Hd.
Qed.

Lemma served_length js ds : served js ds → length ds = length js.
Proof. intros (rs & Hrs%Forall2_length & ->). done. Qed.

Lemma served_elem js ds d : served js ds → d ∈ ds → ∃ j, j ∈ js ∧ answers j d.
Proof.
  intros (rs & Hrs & ->) Hd. apply list_elem_of_lookup in Hd as [i Hi].
  destruct (Forall2_lookup_r _ _ _ _ _ Hrs Hi) as (j & Hj & Ha).
  exists j. split; [|done]. by eapply list_elem_of_lookup_2.
Qed.

Lemma served_addresses js ds : served js ds → r_address <$> ds ≡ₚ w_address <$> js.
Proof.
  intros (rs & Hrs & ->). apply eq_Permutation.
  induction Hrs as [|j d js rs Ha _ IH]; [done|]. cbn.
  by rewrite IH, (proj1 (answers_address _ _ Ha)).
Qed.

(** ** The pool *)

(** A worker waits for a job, has taken one, or has posted its reply and not
    yet called [Done]. *)
Inductive worker_state : Type :=
  | Idle
  | Working (j : work)
  | Replied (j : work).

#[global] Instance work_eq_dec : EqDecision work.
Proof. solve_decision. Defined.

#[global] Instance worker_state_eq_dec : EqDecision worker_state.
Proof. solve_decision. Defined.

(** Where the goroutine that owns an RPC stands in its round. *)
Inductive phase : Type :=
  | Sending   (** before the next [jobs <- work], or in [group.Wait()] *)
  | Adding    (** between [jobs <- work] and [group.Add(1)] *)
  | Draining. (** after [close(channels[rpc])] *)

#[global] Instance phase_eq_dec : EqDecision phase.
Proof. solve_decision. Defined.

Record sender : Type := MkSender {
  s_phase : phase;
  s_todo : list work;   (** jobs still to send in this round *)
  s_sent : list work;   (** jobs sent in this round *)
}.

Inductive crash : Type := NegativeCounter | ClosedChannel.

Record pool : Type := MkPool {
  p_jobs : list work;               (** the buffer of [jobs] *)
  p_workers : list worker_state;
  p_sender : string → sender;
  p_chan : string → list reply;     (** the buffer of [channels[rpc]] *)
  p_open : string → bool;
  p_group : string → Z;             (** the counter of [groups[rpc]] *)
  p_crash : option crash;
}.

(** Update of a table indexed by RPC. *)
Definition upd {A} (r : string) (a : A) (f : string → A) : string → A :=
  λ r', if decide (r' = r) then a else f r'.

Lemma upd_eq {A} r (a : A) f : upd r a f r = a.
Proof. unfold upd. by rewrite decide_True. Qed.

Lemma upd_ne {A} r r' (a : A) f : r' ≠ r → upd r a f r' = f r'.
Proof. intros. unfold upd. by rewrite decide_False. Qed.

Definition set_jobs js p :=
  MkPool js (p_workers p) (p_sender p) (p_chan p) (p_open p) (p_group p) (p_crash p).
Definition set_worker i w p :=
  MkPool (p_jobs p) (<[i := w]> (p_workers p)) (p_sender p) (p_chan p) (p_open p) (p_group p)
    (p_crash p).
Definition set_sender r s p :=
  MkPool (p_jobs p) (p_workers p) (upd r s (p_sender p)) (p_chan p) (p_open p) (p_group p)
    (p_crash p).
Definition set_chan r ds p :=
  MkPool (p_jobs p) (p_workers p) (p_sender p) (upd r ds (p_chan p)) (p_open p) (p_group p)
    (p_crash p).
Definition set_open r b p :=
  MkPool (p_jobs p) (p_workers p) (p_sender p) (p_chan p) (upd r b (p_open p)) (p_group p)
    (p_crash p).
Definition set_group r n p :=
  MkPool (p_jobs p) (p_workers p) (p_sender p) (p_chan p) (p_open p) (upd r n (p_group p))
    (p_crash p).
Definition set_crash c p :=
  MkPool (p_jobs p) (p_workers p) (p_sender p) (p_chan p) (p_open p) (p_group p) (Some c).

Lemma sum_upd ks r (f g : string → nat) k :
  NoDup ks → r ∈ ks → (∀ r', r' ≠ r → f r' = g r') → (f r + k = g r)%nat →
  (sum_list_with f ks + k = sum_list_with g ks)%nat.
Proof.
  induction ks as [|x ks IH]; intros Hnd Hin Hne Hr; [set_solver|].
  apply NoDup_cons in Hnd as [Hni Hnd]. cbn. destruct (decide (x = r)) as [->|Hx].
  - assert (sum_list_with f ks = sum_list_with g ks) as ->; [|lia].
    clear -Hne Hni. induction ks as [|y ks IH]; [done|]. cbn.
    rewrite Hne, IH by set_solver. done.
  - rewrite Hne by done. specialize (IH Hnd ltac:(set_solver) Hne Hr). lia.
Qed.

Section pool.
(** [cap] is the capacity of every channel, [len(shardMap)]; [rpcs] are the RPCs
    of the pool, each owned by one goroutine at a time; [legal r js] tells which
    job lists the owner of [r] may send in a round. *)
Context (cap : nat) (rpcs : list string) (legal : string → list work → Prop).

(** One step of worker [i]. *)
Inductive worker_step : pool → pool → Prop :=
  | step_take i j js p :
      (** [for j := range jobs] *)
      p_workers p !! i = Some Idle → p_jobs p = j :: js →
      worker_step p (set_jobs js (set_worker i (Working j) p))
  | step_post i j d p :
      (** [request]; [channels[j.rpc] <- result] *)
      p_workers p !! i = Some (Working j) → answers j d → p_open p (w_rpc j) = true →
      (length (p_chan p (w_rpc j)) < cap)%nat →
      worker_step p (set_chan (w_rpc j) (p_chan p (w_rpc j) ++ [d]) (set_worker i (Replied j) p))
  | step_post_closed i j p :
      (** send on a closed channel *)
      p_workers p !! i = Some (Working j) → p_open p (w_rpc j) = false →
      worker_step p (set_crash ClosedChannel p)
  | step_done i j p :
      (** [groups[j.rpc].Done()] *)
      p_workers p !! i = Some (Replied j) → 0 < p_group p (w_rpc j) →
      worker_step p (set_group (w_rpc j) (p_group p (w_rpc j) - 1) (set_worker i Idle p))
  | step_done_negative i j p :
      (** [Done] on a counter at zero: negative WaitGroup counter *)
      p_workers p !! i = Some (Replied j) → p_group p (w_rpc j) ≤ 0 →
      worker_step p (set_crash NegativeCounter p).

(** One step of a worker or of the owner of [r]. *)
Inductive pool_step : pool → pool → Prop :=
  | step_worker p p' : worker_step p p' → pool_step p p'
  | step_send r j todo p :
      (** [jobs <- work{n, rpc, requestBody}] *)
      r ∈ rpcs → s_phase (p_sender p r) = Sending → s_todo (p_sender p r) = j :: todo →
      (length (p_jobs p) < cap)%nat →
      pool_step p (set_jobs (p_jobs p ++ [j])
        (set_sender r (MkSender Adding todo (s_sent (p_sender p r) ++ [j])) p))
  | step_add r p :
      (** [group.Add(1)] *)
      r ∈ rpcs → s_phase (p_sender p r) = Adding →
      pool_step p (set_group r (p_group p r + 1)
        (set_sender r (MkSender Sending (s_todo (p_sender p r)) (s_sent (p_sender p r))) p))
  | step_close r p :
      (** [group.Wait(); close(channels[rpc])] *)
      r ∈ rpcs → s_phase (p_sender p r) = Sending → s_todo (p_sender p r) = [] → p_group p r = 0 →
      pool_step p (set_open r false
        (set_sender r (MkSender Draining [] (s_sent (p_sender p r))) p))
  | step_renew r js p :
      (** [for d := range channels[rpc]]; [channels[rpc] = make(chan reply, len(shardMap))];
          next tick *)
      r ∈ rpcs → s_phase (p_sender p r) = Draining → legal r js →
      pool_step p (set_open r true (set_chan r [] (set_sender r (MkSender Sending js []) p)))
  | step_plan r js p :
      (** the owner decides on the jobs of a round it has not started *)
      r ∈ rpcs → p_sender p r = MkSender Sending [] [] → legal r js → js ≠ [] →
      pool_step p (set_sender r (MkSender Sending js []) p).

(** A panic ends the process. *)
Inductive pool_run : pool → pool → Prop :=
  | pool_run_refl p : pool_run p p
  | pool_run_step p p1 p2 :
      pool_run p p1 → p_crash p1 = None → pool_step p1 p2 → pool_run p p2.

(** No worker is ever lost. *)
Lemma pool_run_workers p p' : pool_run p p' → length (p_workers p') = length (p_workers p).
Proof.
  induction 1 as [|p p1 p2 _ IH _ Hstep]; [done|]. rewrite <-IH.
  destruct Hstep as [p1 p2 []| | | | |]; cbn; by rewrite ?length_insert.
Qed.

(** The pool as the goroutines start: no job sent, every worker idle, every
    owner about to send its first round. *)
Definition initial_pool (first : string → list work) (workers : nat) : pool :=
  MkPool [] (replicate workers Idle) (λ r, MkSender Sending (first r) []) (λ _, [])
    (λ _, true) (λ _, 0) None.

(** ** The invariant of a round *)

Definition queued (r : string) (p : pool) : list work :=
  filter (λ j, w_rpc j = r) (p_jobs p).

Definition working_on (r : string) (w : worker_state) : option work :=
  match w with Working j => if decide (w_rpc j = r) then Some j else None | _ => None end.
Definition replied_to (r : string) (w : worker_state) : option work :=
  match w with Replied j => if decide (w_rpc j = r) then Some j else None | _ => None end.

Definition working (r : string) (p : pool) : list work := omap (working_on r) (p_workers p).
Definition replied (r : string) (p : pool) : list work := omap (replied_to r) (p_workers p).

Definition adding (f : phase) : Z := match f with Adding => 1 | _ => 0 end.

(** Of the jobs sent in the round of [r], some are in the job channel, some are
    held by workers, and the rest, [fin], are finished; the reply channel holds
    one reply for every job that was replied to; the counter is the number of
    jobs announced and not finished. *)
Definition accounted (r : string) (p : pool) (fin : list work) : Prop :=
  s_sent (p_sender p r) ≡ₚ queued r p ++ working r p ++ replied r p ++ fin
  ∧ served (replied r p ++ fin) (p_chan p r)
  ∧ p_group p r = Z.of_nat (length (s_sent (p_sender p r)))
      - adding (s_phase (p_sender p r)) - Z.of_nat (length fin).

(** The owner of [r] works through a legal list of jobs, all of [r] and at most
    [cap] of them; the channel is closed exactly while it drains, and then the
    counter is zero. *)
Definition owner_ok (r : string) (p : pool) : Prop :=
  let s := p_sender p r in
  legal r (s_sent s ++ s_todo s)
  ∧ Forall (λ j, w_rpc j = r) (s_todo s)
  ∧ (length (s_todo s) + length (s_sent s) ≤ cap)%nat
  ∧ p_open p r = negb (bool_decide (s_phase s = Draining))
  ∧ (s_phase s = Draining → s_todo s = [] ∧ p_group p r = 0).

Definition round_ok (r : string) (p : pool) : Prop :=
  owner_ok r p ∧ ∃ fin, accounted r p fin.

(** Nothing is outstanding once the counter is at zero and no [Add] is due. *)
Lemma accounted_zero r p fin :
  accounted r p fin → s_phase (p_sender p r) ≠ Adding → p_group p r = 0 →
  queued r p = [] ∧ working r p = [] ∧ replied r p = [].
Proof.
  intros (Hs & _ & Hg) Hph H0. apply Permutation_length in Hs.
  rewrite !length_app in Hs.
  assert (adding (s_phase (p_sender p r)) = 0) as Ha by (by destruct (s_phase _)).
  rewrite Ha in Hg. repeat split; apply nil_length_inv; lia.
Qed.

(** A round depends on the pool only through its own jobs and its own entries. *)
Lemma round_ok_frame r p p' :
  queued r p' = queued r p → working r p' ≡ₚ working r p → replied r p' ≡ₚ replied r p →
  p_sender p' r = p_sender p r → p_chan p' r = p_chan p r → p_open p' r = p_open p r →
  p_group p' r = p_group p r → round_ok r p → round_ok r p'.
Proof.
  intros Eq Ew Er Es Ec Eo Eg [Ho (fin & Ha & Hs & Hg)].
  unfold round_ok, owner_ok, accounted. rewrite Es, Ec, Eo, Eg. split; [done|].
  exists fin. split; [|split; [|done]].
  - by rewrite Eq, Ew, Er.
  - eapply served_perm; [|done]. by rewrite Er.
Qed.

Lemma step_send_ok r j todo p :
  s_phase (p_sender p r) = Sending → s_todo (p_sender p r) = j :: todo →
  (∀ r, round_ok r p) → ∀ r',
  round_ok r' (set_jobs (p_jobs p ++ [j])
    (set_sender r (MkSender Adding todo (s_sent (p_sender p r) ++ [j])) p)).
Proof.
  intros Hph Htodo Hok r'. destruct (Hok r) as [(Hlegal & Hrpc & Hlen & Hopen & Hdr) (fin & Ha & Hs & Hg)].
  rewrite Htodo in Hlegal, Hrpc, Hlen. apply Forall_cons in Hrpc as [Hj Hrpc].
  destruct (decide (r' = r)) as [->|Hne].
  - assert (queued r (set_jobs (p_jobs p ++ [j]) p) = queued r p ++ [j]) as Eq.
    { unfold queued. cbn. rewrite filter_app, (filter_cons_True _ j) by done. done. }
    unfold round_ok, owner_ok, accounted. cbn. rewrite !upd_eq. cbn in *.
    rewrite Hph in *. split.
    + rewrite length_app, <-app_assoc. cbn. split_and!; [done|done|lia|done|done].
    + exists fin. change (queued r _) with (queued r (set_jobs (p_jobs p ++ [j]) p)). rewrite Eq.
      split_and!; [|done|rewrite length_app; unfold adding in *; cbn [length]; lia].
      change (s_sent (p_sender p r) ++ [j]
        ≡ₚ (queued r p ++ [j]) ++ working r p ++ replied r p ++ fin).
      rewrite Ha. solve_Permutation.
  - apply (round_ok_frame r' p); try done; cbn; rewrite ?upd_ne by done; try done.
    unfold queued. cbn. rewrite filter_app, (filter_cons_False _ j) by congruence.
    by rewrite app_nil_r.
Qed.

Lemma step_add_ok r p :
  s_phase (p_sender p r) = Adding → (∀ r, round_ok r p) → ∀ r',
  round_ok r' (set_group r (p_group p r + 1)
    (set_sender r (MkSender Sending (s_todo (p_sender p r)) (s_sent (p_sender p r))) p)).
Proof.
  intros Hph Hok r'. destruct (Hok r) as [(Hlegal & Hrpc & Hlen & Hopen & Hdr) (fin & Ha & Hs & Hg)].
  destruct (decide (r' = r)) as [->|Hne].
  - unfold round_ok, owner_ok, accounted. cbn. rewrite !upd_eq. cbn. rewrite Hph in *.
    split; [split_and!; done|]. exists fin. split_and!; [done|done|unfold adding in *; lia].
  - apply (round_ok_frame r' p); try done; cbn; by rewrite ?upd_ne by done.
Qed.

Lemma step_close_ok r p :
  s_phase (p_sender p r) = Sending → s_todo (p_sender p r) = [] → p_group p r = 0 →
  (∀ r, round_ok r p) → ∀ r',
  round_ok r' (set_open r false (set_sender r (MkSender Draining [] (s_sent (p_sender p r))) p)).
Proof.
  intros Hph Htodo H0 Hok r'.
  destruct (Hok r) as [(Hlegal & Hrpc & Hlen & Hopen & Hdr) (fin & Ha & Hs & Hg)].
  destruct (decide (r' = r)) as [->|Hne].
  - unfold round_ok, owner_ok, accounted. cbn. rewrite !upd_eq. cbn. rewrite Hph, Htodo in *.
    split; [split_and!; done|]. exists fin. done.
  - apply (round_ok_frame r' p); try done; cbn; by rewrite ?upd_ne by done.
Qed.

(** Replacing the state of worker [i] changes what is worked on and replied to
    by that worker's part only. *)
Lemma worker_change r p i w w' :
  p_workers p !! i = Some w → ∃ wk rp,
    working r p ≡ₚ option_list (working_on r w) ++ wk
    ∧ working r (set_worker i w' p) ≡ₚ option_list (working_on r w') ++ wk
    ∧ replied r p ≡ₚ option_list (replied_to r w) ++ rp
    ∧ replied r (set_worker i w' p) ≡ₚ option_list (replied_to r w') ++ rp.
Proof.
  intros Hi. destruct (omap_insert_lookup (working_on r) _ _ _ Hi) as (wk & Hw & Hw').
  destruct (omap_insert_lookup (replied_to r) _ _ _ Hi) as (rp & Hr & Hr').
  exists wk, rp. unfold working, replied. cbn. auto.
Qed.

Ltac by_rpc j r' :=
  cbn in *; destruct (decide (w_rpc j = r')) as [Hjr|Hjr]; cbn in *;
  [subst r'|].

Lemma step_take_ok i j js p :
  p_workers p !! i = Some Idle → p_jobs p = j :: js →
  (∀ r, round_ok r p) → ∀ r', round_ok r' (set_jobs js (set_worker i (Working j) p)).
Proof.
  intros Hi Hjs Hok r'. destruct (Hok r') as [Ho (fin & Ha & Hs & Hg)].
  destruct (worker_change r' p i Idle (Working j) Hi) as (wk & rp & H1 & H2 & H3 & H4).
  assert (replied r' (set_worker i (Working j) p) ≡ₚ replied r' p) as Hrp by (by rewrite H3, H4).
  by_rpc j r'.
  - split; [done|]. exists fin. split_and!; [|by eapply served_perm; [|exact Hs]; rewrite <-Hrp|done].
    change (s_sent (p_sender p (w_rpc j)) ≡ₚ filter (λ j', w_rpc j' = w_rpc j) js
      ++ working (w_rpc j) (set_worker i (Working j) p)
      ++ replied (w_rpc j) (set_worker i (Working j) p) ++ fin).
    rewrite Ha, H2, Hrp, H1. unfold queued. rewrite Hjs, filter_cons_True by done.
    solve_Permutation.
  - apply (round_ok_frame r' p); try done.
    + unfold queued. cbn. by rewrite Hjs, filter_cons_False by done.
    + change (working r' (set_worker i (Working j) p) ≡ₚ working r' p). by rewrite H2, H1.
Qed.

Lemma step_post_ok i j d p :
  p_workers p !! i = Some (Working j) → answers j d →
  (∀ r, round_ok r p) → ∀ r',
  round_ok r' (set_chan (w_rpc j) (p_chan p (w_rpc j) ++ [d]) (set_worker i (Replied j) p)).
Proof.
  intros Hi Hd Hok r'. destruct (Hok r') as [Ho (fin & Ha & Hs & Hg)].
  destruct (worker_change r' p i (Working j) (Replied j) Hi) as (wk & rp & H1 & H2 & H3 & H4).
  by_rpc j r'.
  - split; [done|]. exists fin.
    unfold accounted. cbn. rewrite upd_eq. split_and!; [| |done].
    + change (s_sent (p_sender p (w_rpc j)) ≡ₚ queued (w_rpc j) p
        ++ working (w_rpc j) (set_worker i (Replied j) p)
        ++ replied (w_rpc j) (set_worker i (Replied j) p) ++ fin).
      rewrite Ha, H1, H2, H3, H4. solve_Permutation.
    + apply (served_perm (j :: replied (w_rpc j) p ++ fin)); [|by apply served_cons].
      change (j :: replied (w_rpc j) p ++ fin
        ≡ₚ replied (w_rpc j) (set_worker i (Replied j) p) ++ fin).
      by rewrite H4, H3.
  - apply (round_ok_frame r' p); try done; cbn; rewrite ?upd_ne by done; try done.
    + change (working r' (set_worker i (Replied j) p) ≡ₚ working r' p). by rewrite H2, H1.
    + change (replied r' (set_worker i (Replied j) p) ≡ₚ replied r' p). by rewrite H4, H3.
Qed.

Lemma step_done_ok i j p :
  p_workers p !! i = Some (Replied j) → 0 < p_group p (w_rpc j) →
  (∀ r, round_ok r p) → ∀ r',
  round_ok r' (set_group (w_rpc j) (p_group p (w_rpc j) - 1) (set_worker i Idle p)).
Proof.
  intros Hi Hpos Hok r'.
  destruct (Hok r') as [(Hlegal & Hrpc & Hlen & Hopen & Hdr) (fin & Ha & Hs & Hg)].
  destruct (worker_change r' p i (Replied j) Idle Hi) as (wk & rp & H1 & H2 & H3 & H4).
  by_rpc j r'.
  - split.
    + unfold owner_ok. cbn. rewrite upd_eq. split_and!; try done.
      intros [_ H0]%Hdr. lia.
    + exists (j :: fin). unfold accounted. cbn. rewrite upd_eq. split_and!.
      * change (s_sent (p_sender p (w_rpc j)) ≡ₚ queued (w_rpc j) p
          ++ working (w_rpc j) (set_worker i Idle p)
          ++ replied (w_rpc j) (set_worker i Idle p) ++ j :: fin).
        rewrite Ha, H1, H2, H3, H4. solve_Permutation.
      * eapply served_perm; [|exact Hs].
        change (replied (w_rpc j) p ++ fin
          ≡ₚ replied (w_rpc j) (set_worker i Idle p) ++ j :: fin).
        rewrite H3, H4. solve_Permutation.
      * rewrite Hg. lia.
  - apply (round_ok_frame r' p); try done; cbn; rewrite ?upd_ne by done; try done.
    + change (working r' (set_worker i Idle p) ≡ₚ working r' p). by rewrite H2, H1.
    + change (replied r' (set_worker i Idle p) ≡ₚ replied r' p). by rewrite H4, H3.
Qed.

(** ** Reachable pools *)

(** What the callers promise: a round asks for at most one job per node, all of
    its own RPC. *)
Hypothesis legal_ok : ∀ r js, legal r js →
  Forall (λ j, w_rpc j = r) js ∧ (length js ≤ cap)%nat.

Lemma step_renew_ok r js p :
  s_phase (p_sender p r) = Draining → legal r js → (∀ r, round_ok r p) → ∀ r',
  round_ok r' (set_open r true (set_chan r [] (set_sender r (MkSender Sending js []) p))).
Proof.
  intros Hph Hnext Hok r'.
  destruct (Hok r) as [(Hlegal & Hrpc & Hlen & Hopen & Hdr) (fin & Hacc)].
  destruct (Hdr Hph) as [_ H0]. destruct (legal_ok r js Hnext) as [Hjs Hcap].
  destruct (decide (r' = r)) as [->|Hne].
  - destruct (accounted_zero r p fin Hacc) as (Eq & Ew & Er); [congruence|done|].
    unfold round_ok, owner_ok. cbn. rewrite !upd_eq. cbn.
    split; [split_and!; [done|done|lia|done|done]|]. exists [].
    unfold accounted. cbn. rewrite !upd_eq. cbn.
    change ([] ≡ₚ queued r p ++ working r p ++ replied r p ++ []
      ∧ served (replied r p ++ []) [] ∧ p_group p r = 0).
    rewrite Eq, Ew, Er. split_and!; [done|apply served_nil|done].
  - apply (round_ok_frame r' p); try done; cbn; by rewrite ?upd_ne by done.
Qed.

Lemma step_plan_ok r js p :
  p_sender p r = MkSender Sending [] [] → legal r js → (∀ r, round_ok r p) → ∀ r',
  round_ok r' (set_sender r (MkSender Sending js []) p).
Proof.
  intros Hs Hjs Hok r'. destruct (Hok r) as [(_ & _ & _ & Hopen & _) (fin & Hacc)].
  destruct (legal_ok r js Hjs) as [Hrpc Hcap]. destruct (decide (r' = r)) as [->|Hne].
  - unfold round_ok, owner_ok, accounted in *. cbn. rewrite !upd_eq. rewrite Hs in Hopen, Hacc. cbn in *.
    split; [split_and!; [done|done|lia|done|done]|]. exists fin. exact Hacc.
  - apply (round_ok_frame r' p); try done; cbn; by rewrite ?upd_ne by done.
Qed.

(** While a worker holds a job of [r], the channel of [r] is open and has room. *)
Lemma working_room r p j i :
  round_ok r p → p_workers p !! i = Some (Working j) → w_rpc j = r →
  p_open p r = true ∧ (length (p_chan p r) < cap)%nat.
Proof.
  intros [(Hlegal & Hrpc & Hlen & Hopen & Hdr) (fin & Hacc)] Hi Hj.
  assert (j ∈ working r p) as Hin.
  { apply list_elem_of_omap. exists (Working j). split; [by eapply list_elem_of_lookup_2|].
    cbn. by rewrite decide_True. }
  split.
  - rewrite Hopen. rewrite bool_decide_eq_false_2; [done|]. intros Hph.
    destruct (accounted_zero r p fin Hacc) as (_ & Ew & _); [congruence|by apply Hdr|].
    rewrite Ew in Hin. set_solver.
  - destruct Hacc as (Ha%Permutation_length & Hs%served_length & _).
    destruct (working r p); [set_solver|]. rewrite !length_app in *. cbn in *. lia.
Qed.

Definition pool_ok (p : pool) : Prop :=
  (p_crash p = None → ∀ r, round_ok r p) ∧ p_crash p ≠ Some ClosedChannel.

Lemma worker_step_ok p p' :
  (∀ r, round_ok r p) → p_crash p = None → worker_step p p' → pool_ok p'.
Proof.
  intros Hok Hc Hstep. destruct Hstep; unfold pool_ok; cbn -[round_ok]; try (split; [|congruence]).
  - intros _. by apply step_take_ok.
  - intros _. by apply step_post_ok.
  - exfalso. destruct (working_room (w_rpc j) p j i) as [Ho _]; [auto|done|done|congruence].
  - intros _. by apply step_done_ok.
  - done.
Qed.

Lemma pool_step_ok p p' :
  (∀ r, round_ok r p) → p_crash p = None → pool_step p p' → pool_ok p'.
Proof.
  intros Hok Hc Hstep. destruct Hstep; [by eapply worker_step_ok|..]; split; cbn; try congruence;
    intros _.
  - by apply step_send_ok.
  - by apply step_add_ok.
  - by apply step_close_ok.
  - by apply step_renew_ok.
  - by apply step_plan_ok.
Qed.

Lemma pool_run_ok p p' : pool_ok p → pool_run p p' → pool_ok p'.
Proof.
  intros Hp. induction 1 as [p|p p1 p2 _ IH Hc Hstep]; [done|].
  apply (pool_step_ok p1); [|done|done]. by apply IH.
Qed.

Lemma initial_pool_ok first workers : (∀ r, legal r (first r)) → pool_ok (initial_pool first workers).
Proof.
  intros Hfirst. split; [|done]. intros _ r. destruct (legal_ok r _ (Hfirst r)) as [H1 H2]. split.
  - unfold owner_ok. cbn. split_and!; [by apply Hfirst|done|lia|done|done].
  - exists []. unfold accounted.
    assert (working r (initial_pool first workers) = []
      ∧ replied r (initial_pool first workers) = []) as [-> ->].
    { unfold working, replied. cbn. by induction workers. }
    split_and!; [done|apply served_nil|done].
Qed.

Lemma working_step p i w :
  (∀ r, round_ok r p) → p_workers p !! i = Some w → w ≠ Idle → ∃ p', pool_step p p'.
Proof.
  intros Hok Hi Hw. destruct w as [|j|j]; [done| |].
  - destruct (working_room (w_rpc j) p j i) as [Ho Hroom]; [auto|done|done|].
    eexists. eapply step_worker, (step_post i j (do_work (λ _ _, inl EmptyString) j)); try done.
    by eexists.
  - destruct (Z.lt_ge_cases 0 (p_group p (w_rpc j))).
    + eexists. by eapply step_worker, step_done.
    + eexists. by eapply step_worker, step_done_negative.
Qed.

(** A pool with a worker and something in the job channel can move. *)
Lemma queue_step p w :
  (∀ r, round_ok r p) → w ∈ p_workers p → p_jobs p ≠ [] → ∃ p', pool_step p p'.
Proof.
  intros Hok [i Hi]%list_elem_of_lookup Hq. destruct (decide (w = Idle)) as [->|Hw].
  - destruct (p_jobs p) as [|j js] eqn:E; [done|]. eexists. by eapply step_worker, step_take.
  - by eapply working_step.
Qed.

(** A drained channel holds one reply per job of the round. *)
Lemma draining_served r p :
  round_ok r p → s_phase (p_sender p r) = Draining →
  legal r (s_sent (p_sender p r)) ∧ served (s_sent (p_sender p r)) (p_chan p r).
Proof.
  intros [(Hl & _ & _ & _ & Hdr) (fin & Hacc)] Hph.
  destruct (Hdr Hph) as [Htodo H0]. rewrite Htodo, app_nil_r in Hl.
  destruct (accounted_zero r p fin Hacc) as (Eq & Ew & Er); [congruence|done|].
  destruct Hacc as (Ha & Hs & _). rewrite Eq, Ew, Er in *. cbn in *.
  split; [done|]. eapply served_perm; [symmetry; exact Ha|done].
Qed.

(** Every step but the start of a new round lowers this measure, summed over the
    RPCs [rpcs] of the pool. *)
Definition sender_work (s : sender) : nat :=
  5 * length (s_todo s) + match s_phase s with Sending => 1 | Adding => 2 | Draining => 0 end.
Definition worker_work (w : worker_state) : nat :=
  match w with Idle => 0 | Working _ => 2 | Replied _ => 1 end.
Definition pending (p : pool) : nat :=
  sum_list_with (λ r, sender_work (p_sender p r)) rpcs
  + 3 * length (p_jobs p) + sum_list_with worker_work (p_workers p).

(** The step from [p] to [p'] starts a new round: it opens a fresh channel or
    decides on the jobs of the round. *)
Definition renews (p p' : pool) : Prop :=
  ∃ r, s_phase (p_sender p r) = Draining ∧ s_phase (p_sender p' r) ≠ Draining
    ∨ s_todo (p_sender p r) = [] ∧ s_todo (p_sender p' r) ≠ [].

Hypothesis rpcs_NoDup : NoDup rpcs.

Lemma sender_step_pending p p' r s k :
  r ∈ rpcs → p_sender p' = upd r s (p_sender p) → p_workers p' = p_workers p →
  (sender_work s + k = sender_work (p_sender p r))%nat →
  (pending p' + k + 3 * length (p_jobs p) = pending p + 3 * length (p_jobs p'))%nat.
Proof.
  intros Hr Es Ew Hs. unfold pending. rewrite Es, Ew.
  pose proof (sum_upd rpcs r (λ r', sender_work (upd r s (p_sender p) r'))
    (λ r', sender_work (p_sender p r')) k rpcs_NoDup Hr) as Hsum.
  rewrite <-Hsum; [lia| |by rewrite upd_eq]. intros r' Hne. cbn. by rewrite upd_ne.
Qed.

Lemma worker_step_pending p p' i w w' :
  p_workers p !! i = Some w → p_sender p' = p_sender p →
  p_workers p' = <[i := w']> (p_workers p) →
  (pending p' + 3 * length (p_jobs p) + worker_work w
   = pending p + 3 * length (p_jobs p') + worker_work w')%nat.
Proof.
  intros Hi Es Ew. unfold pending. rewrite Es, Ew.
  pose proof (sum_insert worker_work (p_workers p) i w w' Hi). lia.
Qed.

Ltac sender_pending p r k Hr H :=
  match goal with |- (pending ?p' < _)%nat =>
    epose proof (sender_step_pending p p' r _ k Hr eq_refl eq_refl) as H
  end; unfold sender_work in H.
Ltac worker_pending p i Hi H :=
  match goal with |- (pending ?p' < _)%nat =>
    epose proof (worker_step_pending p p' i _ _ Hi eq_refl eq_refl) as H
  end; cbn [worker_work p_jobs set_jobs set_chan set_group set_worker] in H.

Lemma worker_step_lowers p p' :
  p_crash p' = None → worker_step p p' → (pending p' < pending p)%nat.
Proof.
  intros Hc Hstep.
  destruct Hstep as [i j js p Hi Hjs|i j d p Hi Hd _ _|i j p Hi _|i j p Hi _|i j p Hi _]; try done.
  - worker_pending p i Hi H. rewrite Hjs in H. cbn [length] in H. lia.
  - worker_pending p i Hi H. lia.
  - worker_pending p i Hi H. lia.
Qed.

Lemma pool_step_pending p p' :
  p_crash p' = None → pool_step p p' → (pending p' < pending p)%nat ∨ renews p p'.
Proof.
  intros Hc Hstep.
  destruct Hstep as [p p' Hw|r j todo p Hr Hph Htodo _|r p Hr Hph|r p Hr Hph Htodo H0
    |r js p Hr Hph Hl|r js p Hr Hs Hl Hne].
  - left. by apply worker_step_lowers.
  - left. sender_pending p r 4%nat Hr H. rewrite Hph, Htodo in H. specialize (H ltac:(cbn; lia)).
    cbn [p_jobs set_jobs] in H. rewrite length_app in H. cbn [length] in H. lia.
  - left. sender_pending p r 1%nat Hr H. rewrite Hph in H. specialize (H ltac:(cbn; lia)).
    cbn [p_jobs set_group set_sender] in H. lia.
  - left. sender_pending p r 1%nat Hr H. rewrite Hph, Htodo in H. specialize (H ltac:(cbn; lia)).
    cbn [p_jobs set_open set_sender] in H. lia.
  - right. exists r. left. split; [done|]. cbn. by rewrite upd_eq.
  - right. exists r. right. rewrite Hs. split; [done|]. cbn. by rewrite upd_eq.
Qed.

(** A reachable pool with at least one worker and one RPC is never stuck. *)
Lemma pool_progress p :
  (∀ r, round_ok r p) → p_workers p ≠ [] → rpcs ≠ [] → (∀ r, ∃ js, legal r js) →
  ∃ p', pool_step p p'.
Proof.
  intros Hok Hw Hrpcs Hnext. destruct rpcs as [|r rs] eqn:Erpcs; [done|].
  rewrite <-Erpcs in *. assert (r ∈ rpcs) as Hr by (rewrite Erpcs; set_solver).
  destruct (p_workers p) as [|w ws] eqn:Ews; [done|].
  assert (w ∈ p_workers p) as Hin by (rewrite Ews; set_solver).
  destruct (Hok r) as [(_ & Hrpc & Hlen & Hopen & _) (fin & Hacc)].
  destruct (s_phase (p_sender p r)) eqn:Hph.
  - destruct (s_todo (p_sender p r)) as [|j todo] eqn:Htodo.
    + destruct (Z.eq_dec (p_group p r) 0) as [H0|H0]; [eexists; by eapply step_close|].
      destruct Hacc as (Ha%Permutation_length & _ & Hg).
      rewrite Hph in Hg. rewrite !length_app in Ha.
      destruct (decide (p_jobs p = [])) as [Hq|Hq]; [|by eapply queue_step].
      assert (∃ w, w ∈ p_workers p ∧ w ≠ Idle) as (w' & [i Hi]%list_elem_of_lookup & Hne).
      { destruct (decide (Forall (λ w, w = Idle) (p_workers p))) as [Hall|Hex].
        - exfalso. unfold queued, working, replied in Ha. rewrite Hq in Ha.
          assert (omap (working_on r) (p_workers p) = [] ∧ omap (replied_to r) (p_workers p) = [])
            as [Ew Er].
          { clear -Hall. induction Hall as [|? l -> _ [IH1 IH2]]; done. }
          rewrite Ew, Er in Ha. cbn in Ha, Hg. lia.
        - apply not_Forall_Exists, Exists_exists in Hex; [|apply _]. done. }
      by eapply working_step.
    + destruct (Nat.lt_ge_cases (length (p_jobs p)) cap) as [Hroom|Hfull].
      * eexists. by eapply step_send.
      * eapply queue_step; [done|done|]. intros Hq. rewrite Hq in Hfull. cbn in *. lia.
  - eexists. by eapply step_add.
  - destruct (Hnext r) as [js Hjs]. eexists. by eapply step_renew.
Qed.
End pool.

(** ** The rounds of the watchdog *)

(** [work{n, rpc, requestBody}] with the body of [getRPCRequest(rpc)]. *)
Definition job (rpc : string) (n : string) : work := MkWork n rpc (request_body rpc).

(** The jobs [manager] and [consensusMonitor] send in a tick: one per node, in
    the order of the map. *)
Definition node_jobs `{MR : GoRuntime} (shardMap : gmap string Z) (rpc : string) : list work :=
  (λ '(n, _), job rpc n) <$> range shardMap.

(** The jobs of a round in general: distinct nodes of the shard map, all of
    them, those of shard 0, or the leaders. *)
Definition round_jobs (shardMap : gmap string Z) (rpc : string) (js : list work) : Prop :=
  ∃ nodes, js = job rpc <$> nodes ∧ NoDup nodes ∧ ∀ n, n ∈ nodes → is_Some (shardMap !! n).

Lemma node_jobs_addresses (MR : GoRuntime) shardMap rpc :
  w_address <$> node_jobs shardMap rpc = (range shardMap).*1.
Proof. unfold node_jobs. rewrite <-list_fmap_compose. apply list_fmap_ext. by intros ? []. Qed.

Lemma node_jobs_round (MR : GoRuntime) shardMap rpc :
  round_jobs shardMap rpc (node_jobs shardMap rpc).
Proof.
  exists ((range shardMap).*1). split_and!.
  - unfold node_jobs. rewrite <-list_fmap_compose. apply list_fmap_ext. by intros ? [].
  - apply NoDup_range_keys.
  - intros n. apply elem_of_range_keys.
Qed.

Lemma round_jobs_ok shardMap rpc js :
  round_jobs shardMap rpc js →
  Forall (λ j, w_rpc j = rpc) js ∧ (length js ≤ size shardMap)%nat.
Proof.
  intros (nodes & -> & Hnd & Hin). split.
  - apply Forall_fmap, Forall_true. done.
  - rewrite length_fmap, <-length_map_to_list, <-(length_fmap fst).
    apply submseteq_length, NoDup_submseteq; [done|]. intros n [s Hs]%Hin.
    apply (list_elem_of_fmap_2' fst _ (n, s)); [by apply elem_of_map_to_list|done].
Qed.

Lemma round_jobs_nil shardMap rpc : round_jobs shardMap rpc [].
Proof. exists []. split_and!; [done|constructor|set_solver]. Qed.

#[export] Hint Resolve round_jobs_ok round_jobs_nil : watchdog.

Lemma round_jobs_perm shardMap rpc js js' :
  js ≡ₚ js' → round_jobs shardMap rpc js → round_jobs shardMap rpc js'.
Proof.
  intros Hp (nodes & -> & Hnd & Hin). symmetry in Hp.
  destruct (Permutation_map_inv _ _ Hp) as (nodes' & -> & Hp'). exists nodes'.
  split; [done|]. split; [by rewrite <-Hp'|]. intros n. rewrite <-Hp'. apply Hin.
Qed.

(** Nodes selected among those that answered a round make a round. *)
Lemma leaders_round shardMap rpc rpc' js ds (P : reply → Prop) `{∀ d, Decision (P d)} :
  round_jobs shardMap rpc js → served js ds →
  round_jobs shardMap rpc' (job rpc' <$> (r_address <$> filter P ds)).
Proof.
  intros (nodes & -> & Hnd & Hin) Hs. eexists. split; [done|].
  apply served_addresses in Hs. rewrite <-list_fmap_compose in Hs. cbn in Hs.
  rewrite list_fmap_id in Hs. split.
  - apply NoDup_fmap_filter. by rewrite Hs.
  - intros n (d & -> & [_ Hd]%list_elem_of_filter)%list_elem_of_fmap.
    apply Hin. rewrite <-Hs. by apply list_elem_of_fmap_2.
Qed.

(** The reply of a worker without an error is the body of a good response. *)
Lemma do_work_ok client j :
  r_oops (do_work client j) = None →
  http_ok client ("http://" +:+ w_address j) (w_body j) (r_result (do_work client j))
  ∧ r_payload (do_work client j) = EmptyString.
Proof.
  unfold do_work. destruct (request _ _ _) as [[res payload] oops] eqn:E. cbn. intros ->.
  by apply request_ok_iff.
Qed.

(** Pools of the watchdog: channels of capacity [len(shardMap)]. *)
Definition watchdog_run (shardMap : gmap string Z) (rpcs : list string) : pool → pool → Prop :=
  pool_run (size shardMap) rpcs (round_jobs shardMap).
Definition watchdog_step (shardMap : gmap string Z) (rpcs : list string) : pool → pool → Prop :=
  pool_step (size shardMap) rpcs (round_jobs shardMap).

Lemma watchdog_reachable shardMap rpcs first workers p :
  (∀ r, round_jobs shardMap r (first r)) →
  watchdog_run shardMap rpcs (initial_pool first workers) p →
  pool_ok (size shardMap) (round_jobs shardMap) p.
Proof.
  intros Hfirst Hrun. eapply pool_run_ok; [apply round_jobs_ok| |exact Hrun].
  apply initial_pool_ok; [apply round_jobs_ok|done].
Qed.

(** C5: when [Wait] returns, the round is complete. In every reachable state of
    the pool in which the owner of an RPC has closed its reply channel, the
    channel holds exactly one reply for every node the owner asked in this
    round, each the answer to that node's own request; so a tick never misses,
    repeats or mixes up a node. *)
Theorem round_complete shardMap rpcs first workers p r :
  (∀ r, round_jobs shardMap r (first r)) →
  watchdog_run shardMap rpcs (initial_pool first workers) p → p_crash p = None →
  s_phase (p_sender p r) = Draining →
  round_jobs shardMap r (s_sent (p_sender p r))
  ∧ served (s_sent (p_sender p r)) (p_chan p r)
  ∧ r_address <$> p_chan p r ≡ₚ w_address <$> s_sent (p_sender p r).
Proof.
  intros Hfirst Hrun Hc Hph.
  destruct (watchdog_reachable _ _ _ _ _ Hfirst Hrun) as [Hok _].
  destruct (draining_served _ _ r p (Hok Hc r) Hph) as [Hl Hs].
  split_and!; [done|done|by apply served_addresses].
Qed.

(** C6: a worker never blocks on or panics at the reply channel. Whenever a
    worker holds a job, the reply channel of the job's RPC is open and has room,
    and no reachable state has sent on a closed channel. *)
Theorem replies_have_room shardMap rpcs first workers p :
  (∀ r, round_jobs shardMap r (first r)) →
  watchdog_run shardMap rpcs (initial_pool first workers) p →
  p_crash p ≠ Some ClosedChannel
  ∧ (p_crash p = None → ∀ i j, p_workers p !! i = Some (Working j) →
      p_open p (w_rpc j) = true ∧ (length (p_chan p (w_rpc j)) < size shardMap)%nat).
Proof.
  intros Hfirst Hrun. destruct (watchdog_reachable _ _ _ _ _ Hfirst Hrun) as [Hok Hcl].
  split; [done|]. intros Hc i j Hi.
  eapply working_room; [apply round_jobs_ok|exact (Hok Hc _)|exact Hi|done].
Qed.

(** C7: rounds end. With at least one worker, every reachable state that has
    not panicked has a next step, and no infinite sequence of steps avoids
    starting a new round: whatever the schedule, every round reaches its end or
    the process panics. *)
Theorem rounds_end shardMap rpcs first workers p :
  NoDup rpcs → rpcs ≠ [] → (0 < workers)%nat → (∀ r, round_jobs shardMap r (first r)) →
  watchdog_run shardMap rpcs (initial_pool first workers) p → p_crash p = None →
  (∃ p', watchdog_step shardMap rpcs p p')
  ∧ Acc (λ p2 p1, watchdog_step shardMap rpcs p1 p2 ∧ p_crash p2 = None ∧ ¬ renews p1 p2) p.
Proof.
  intros Hnd Hne Hw Hfirst Hrun Hc.
  destruct (watchdog_reachable _ _ _ _ _ Hfirst Hrun) as [Hok _]. split.
  - eapply pool_progress; [apply round_jobs_ok|done|exact (Hok Hc)| |done|intros r; exists []; auto with watchdog].
    intros Hnil. apply (f_equal length) in Hnil. rewrite (pool_run_workers _ _ _ _ _ Hrun) in Hnil.
    cbn in Hnil. rewrite length_replicate in Hnil. lia.
  - refine (wf_incl _ _ _ _ (well_founded_ltof _ (pending rpcs)) p). intros p2 p1 (Hstep & Hc2 & Hnr).
    by destruct (pool_step_pending _ _ _ Hnd _ _ Hc2 Hstep).
Qed.

(** C34: the counter is raised too late. Because a job is sent before it is
    counted, a fast worker can finish it first and call [Done] on a counter at
    zero: from the start of any round with a job there is a schedule in which
    the process panics. *)
Theorem add_after_send_race shardMap rpcs first workers r j todo :
  (∀ r, round_jobs shardMap r (first r)) → r ∈ rpcs → first r = j :: todo → (0 < workers)%nat →
  ∃ p, watchdog_run shardMap rpcs (initial_pool first workers) p
    ∧ p_crash p = Some NegativeCounter.
Proof.
  intros Hfirst Hr Ej Hw. destruct workers as [|workers]; [lia|].
  destruct (round_jobs_ok _ _ _ (Hfirst r)) as [Hrpc Hcap]. rewrite Ej in Hrpc, Hcap.
  apply Forall_cons in Hrpc as [Hj _]. cbn in Hcap.
  set (p0 := initial_pool first (S workers)).
  set (p1 := set_jobs [j] (set_sender r (MkSender Adding todo [j]) p0)).
  set (p2 := set_jobs [] (set_worker 0 (Working j) p1)).
  set (p3 := set_chan r [do_work (λ _ _, inl EmptyString) j] (set_worker 0 (Replied j) p2)).
  exists (set_crash NegativeCounter p3). split; [|done].
  assert (watchdog_step shardMap rpcs p0 p1) as S1.
  { apply (step_send _ _ _ r j todo p0); [done|done|done|cbn; lia]. }
  assert (watchdog_step shardMap rpcs p1 p2) as S2.
  { by apply step_worker, (step_take _ 0 j [] p1). }
  assert (watchdog_step shardMap rpcs p2 p3) as S3.
  { apply step_worker. pose proof (step_post (size shardMap) 0 j
      (do_work (λ _ _, inl EmptyString) j) p2) as Hpost. rewrite Hj in Hpost.
    apply Hpost; [done|by eexists|done|cbn; lia]. }
  assert (watchdog_step shardMap rpcs p3 (set_crash NegativeCounter p3)) as S4.
  { by apply step_worker, (step_done_negative _ 0 j p3). }
  unfold watchdog_run. eapply (pool_run_step _ _ _ _ p3); [|done|exact S4].
  eapply (pool_run_step _ _ _ _ p2); [|done|exact S3].
  eapply (pool_run_step _ _ _ _ p1); [|done|exact S2].
  eapply (pool_run_step _ _ _ _ p0); [apply pool_run_refl|done|exact S1].
Qed.

(** ** A concrete round: one node, one worker, one RPC *)

Module PoolWitness.
Definition shardMap : gmap string Z := {["n"%string := 0]}.
Definition rpcs : list string := [BlockHeaderRPC].
Definition first (r : string) : list work := [job r "n"].
Definition j : work := job BlockHeaderRPC "n".
Definition d : reply := do_work (λ _ _, inr (200, "{}"%string)) j.

Definition p0 : pool := initial_pool first 1.
Definition p1 : pool := set_jobs [j] (set_sender BlockHeaderRPC (MkSender Adding [] [j]) p0).
Definition p2 : pool :=
  set_group BlockHeaderRPC 1 (set_sender BlockHeaderRPC (MkSender Sending [] [j]) p1).
Definition p3 : pool := set_jobs [] (set_worker 0 (Working j) p2).
Definition p4 : pool := set_chan BlockHeaderRPC [d] (set_worker 0 (Replied j) p3).
Definition p5 : pool := set_group BlockHeaderRPC 0 (set_worker 0 Idle p4).
Definition p6 : pool :=
  set_open BlockHeaderRPC false (set_sender BlockHeaderRPC (MkSender Draining [] [j]) p5).

Lemma first_ok r : round_jobs shardMap r (first r).
Proof.
  exists ["n"%string]. split_and!; [done|apply NoDup_singleton|].
  intros n ->%list_elem_of_singleton. by exists 0.
Qed.

Lemma in_rpcs : BlockHeaderRPC ∈ rpcs.
Proof. apply list_elem_of_here. Qed.

Lemma run3 : watchdog_run shardMap rpcs p0 p3.
Proof.
  unfold watchdog_run.
  eapply (pool_run_step _ _ _ _ p2); [|done|exact (step_worker _ _ _ _ _ (step_take _ 0 j [] p2 eq_refl eq_refl))].
  eapply (pool_run_step _ _ _ _ p1);
    [|done|exact (step_add _ _ _ BlockHeaderRPC p1 in_rpcs eq_refl)].
  eapply (pool_run_step _ _ _ _ p0); [apply pool_run_refl|done|].
  apply (step_send _ _ _ BlockHeaderRPC j [] p0); [apply in_rpcs|done|done|apply Nat.lt_0_1].
Qed.

Lemma run6 : watchdog_run shardMap rpcs p0 p6.
Proof.
  unfold watchdog_run.
  eapply (pool_run_step _ _ _ _ p5);
    [|done|exact (step_close _ _ _ BlockHeaderRPC p5 in_rpcs eq_refl eq_refl eq_refl)].
  eapply (pool_run_step _ _ _ _ p4); [|done|exact (step_worker _ _ _ _ _ (step_done _ 0 j p4 eq_refl eq_refl))].
  eapply (pool_run_step _ _ _ _ p3); [apply run3|done|].
  apply step_worker, (step_post _ 0 j d p3); [done|by eexists|done|apply Nat.lt_0_1].
Qed.
End PoolWitness.

Lemma round_complete_witness :
  served [PoolWitness.j] [PoolWitness.d] ∧ r_address <$> [PoolWitness.d] ≡ₚ ["n"%string].
Proof.
  exact (proj2 (round_complete PoolWitness.shardMap PoolWitness.rpcs PoolWitness.first 1
    PoolWitness.p6 BlockHeaderRPC PoolWitness.first_ok PoolWitness.run6 eq_refl eq_refl)).
Defined.

Lemma replies_have_room_witness :
  p_open PoolWitness.p3 (w_rpc PoolWitness.j) = true
  ∧ (length (p_chan PoolWitness.p3 (w_rpc PoolWitness.j)) < size PoolWitness.shardMap)%nat.
Proof.
  exact (proj2 (replies_have_room PoolWitness.shardMap PoolWitness.rpcs PoolWitness.first 1
    PoolWitness.p3 PoolWitness.first_ok PoolWitness.run3) eq_refl 0%nat PoolWitness.j eq_refl).
Defined.

Lemma rounds_end_witness :
  ∃ p', watchdog_step PoolWitness.shardMap PoolWitness.rpcs PoolWitness.p3 p'.
Proof.
  refine (proj1 (rounds_end PoolWitness.shardMap PoolWitness.rpcs PoolWitness.first 1
    PoolWitness.p3 (NoDup_singleton _) _ _ PoolWitness.first_ok PoolWitness.run3 eq_refl)).
  - done.
  - lia.
Defined.

Lemma add_after_send_race_witness :
  ∃ p, watchdog_run PoolWitness.shardMap PoolWitness.rpcs PoolWitness.p0 p
    ∧ p_crash p = Some NegativeCounter.
Proof.
  refine (add_after_send_race PoolWitness.shardMap PoolWitness.rpcs PoolWitness.first 1
    BlockHeaderRPC PoolWitness.j [] PoolWitness.first_ok PoolWitness.in_rpcs eq_refl _). lia.
Defined.
