(* ===== verification/Goroutines.v ===== *)
(** * Goroutines over worker pools

    The monitors are goroutines that work in rounds over a pool of workers and
    share the monitor's memory. A goroutine is a program of rounds, fresh reply
    channels, lock operations, reads and writes of the shared memory and log
    lines, which the trace of the system records; [sys_step] interleaves such goroutines with the workers of their pools
    and with the HTTP handlers, and [abs_step] is the same system with every
    round as a single step. [rounds_refine] shows that the first implements the
    second, so that properties of the memory can be proved on the second. *)

From S2P Require Import Prelude GoTime Rpc Pool.

(** ** Programs *)

Section programs.
(** The names of the shared variables, the state a goroutine keeps between
    ticks, the shared memory, the actions that are logged, and the choices the
    runtime makes when a goroutine starts a tick. *)
Context {F S M A RT : Type}.

Inductive prog : Type :=
  | Return (s : S)                 (** the end of a tick or of a handler *)
  | Panics (w : string)
  | Blocks                         (** waits for a channel nobody uses *)
  | Round (rpc : string) (js : list work) (k : list reply → prog)
      (** send the jobs, wait, close the channel and range over it *)
  | Fetch (url body : string) (k : string * string * option string → prog)
      (** a request the goroutine makes itself *)
  | Remake (rpc : string) (k : prog)
      (** [channels[rpc] = make(chan reply, len(shardMap))] *)
  | Lock (k : prog)
  | Unlock (k : prog)
  | Get (x : F) (k : M → prog)     (** a read of the variable [x] *)
  | Put (x : F) (f : M → M) (k : prog)
  | Log (acts : list A) (k : prog).

(** A goroutine of a monitor: the pool it uses, the RPCs it owns there, the
    period of its ticker in nanoseconds and its loop body. [time.Tick] gives a
    nil channel, on which the loop waits for ever, unless the period is
    positive. *)
Record loop : Type := MkLoop {
  l_pool : nat;
  l_owns : list string;
  l_period : Z;
  l_body : RT → Time → S → prog;
}.

(** Where a goroutine stands: waiting for a tick (or finished), running, or in a
    round, before the next send, between the send and [Add], or after the close
    of the channel. *)
Inductive gstate : Type :=
  | Waiting (s : S)
  | Running (q : prog)
  | Sends (rpc : string) (todo sent : list work) (k : list reply → prog)
  | Adds (rpc : string) (todo sent : list work) (k : list reply → prog)
  | Drains (rpc : string) (sent : list work) (k : list reply → prog).

(** A goroutine without a loop is an HTTP handler or was started by [go]. *)
Notation goroutines := (list (option loop * gstate)).

(** What a goroutine does that others can tell: a tick, the replies it ranged over
    at the end of a round, the answer to a request of its own, what it logged. *)
Inductive event : Type :=
  | Ticked (now : Time)
  | Received (rpc : string) (ds : list reply)
  | Fetched (url body : string) (r : string * string * option string)
  | Logged (acts : list A).

(** The events of all goroutines, in the order in which they happened. *)
Notation trace := (list (nat * event)).

Definition acts_of (e : event) : list A := match e with Logged acts => acts | _ => [] end.
Definition all_acts (es : list event) : list A := es ≫= acts_of.
Definition own (i : nat) (es : list event) : trace := pair i <$> es.

Record sys : Type := MkSys {
  y_pools : list pool;
  y_gos : goroutines;
  y_mem : M;
  y_trace : trace;
}.

(** The log of the process. *)
Definition logged (tr : trace) : list A := all_acts tr.*2.
Definition y_log (y : sys) : list A := logged (y_trace y).

(** ** Steps of one goroutine *)

Context (cap : nat).
Context (held : M → bool) (set_held : bool → M → M).

(** The owner decides on the jobs of its round. *)
Definition plan (rpc : string) (js : list work) (p : pool) : pool :=
  match js with [] => p | _ => set_sender rpc (MkSender Sending js []) p end.

(** Steps that use the pool. *)
Inductive owner_step : gstate → pool → gstate → pool → list event → Prop :=
  | owner_round rpc js k p :
      owner_step (Running (Round rpc js k)) p
        (Sends rpc js [] k) (plan rpc js p) []
  | owner_send rpc j todo sent k p :
      (length (p_jobs p) < cap)%nat →
      owner_step (Sends rpc (j :: todo) sent k) p
        (Adds rpc todo (sent ++ [j]) k)
        (set_jobs (p_jobs p ++ [j]) (set_sender rpc (MkSender Adding todo (sent ++ [j])) p)) []
  | owner_add rpc todo sent k p :
      owner_step (Adds rpc todo sent k) p
        (Sends rpc todo sent k)
        (set_group rpc (p_group p rpc + 1) (set_sender rpc (MkSender Sending todo sent) p)) []
  | owner_close rpc sent k p :
      p_group p rpc = 0 →
      owner_step (Sends rpc [] sent k) p
        (Drains rpc sent k) (set_open rpc false (set_sender rpc (MkSender Draining [] sent) p)) []
  | owner_drain rpc sent k p :
      owner_step (Drains rpc sent k) p (Running (k (p_chan p rpc))) p
        [Received rpc (p_chan p rpc)]
  | owner_remake rpc k p :
      owner_step (Running (Remake rpc k)) p
        (Running k) (set_open rpc true (set_chan rpc [] (set_sender rpc (MkSender Sending [] []) p))) [].

(** Steps that use the memory or log. *)
Inductive prog_step : prog → M → prog → M → list event → Prop :=
  | prog_lock k m : held m = false → prog_step (Lock k) m k (set_held true m) []
  | prog_unlock k m : prog_step (Unlock k) m k (set_held false m) []
  | prog_fetch client url body k m :
      prog_step (Fetch url body k) m (k (request client url body)) m
        [Fetched url body (request client url body)]
  | prog_get x k m : prog_step (Get x k) m (k m) m []
  | prog_put x f k m : prog_step (Put x f k) m k (f m) []
  | prog_log acts k m : prog_step (Log acts k) m k m [Logged acts].

(** ** The system *)

(** The handlers a request may start, and the goroutine an action starts. *)
Context (requests : prog → Prop) (spawns : RT → A → option prog).

Definition set_go (i : nat) (g : gstate) (gos : goroutines) : goroutines :=
  alter (λ p, (p.1, g)) i gos.

Definition spawned (rt : RT) (es : list event) : goroutines :=
  (λ q, (None, Running q)) <$> omap (spawns rt) (all_acts es).

Inductive sys_step : sys → sys → Prop :=
  | sys_worker c p p' pools gos m tr :
      pools !! c = Some p → worker_step cap p p' →
      sys_step (MkSys pools gos m tr) (MkSys (<[c := p']> pools) gos m tr)
  | sys_request h pools gos m tr :
      requests h →
      sys_step (MkSys pools gos m tr) (MkSys pools (gos ++ [(None, Running h)]) m tr)
  | sys_tick i l s rt now pools gos m tr :
      gos !! i = Some (Some l, Waiting s) → 0 < l_period l →
      sys_step (MkSys pools gos m tr)
        (MkSys pools (set_go i (Running (l_body l rt now s)) gos) m (tr ++ own i [Ticked now]))
  | sys_owner i l g g' p p' es pools gos m tr :
      gos !! i = Some (Some l, g) → pools !! l_pool l = Some p → owner_step g p g' p' es →
      sys_step (MkSys pools gos m tr)
        (MkSys (<[l_pool l := p']> pools) (set_go i g' gos) m (tr ++ own i es))
  | sys_local i o q q' m' es rt pools gos m tr :
      gos !! i = Some (o, Running q) → prog_step q m q' m' es →
      sys_step (MkSys pools gos m tr)
        (MkSys pools (set_go i (Running q') gos ++ spawned rt es) m' (tr ++ own i es))
  | sys_return i o s pools gos m tr :
      gos !! i = Some (o, Running (Return s)) →
      sys_step (MkSys pools gos m tr) (MkSys pools (set_go i (Waiting s) gos) m tr).

(** A panic in a worker ends the process. *)
Definition alive (y : sys) : Prop := ∀ p, p ∈ y_pools y → p_crash p = None.

Inductive sys_run (y0 : sys) : sys → Prop :=
  | sys_run_refl : sys_run y0 y0
  | sys_run_step y y' : sys_run y0 y → alive y → sys_step y y' → sys_run y0 y'.

(** ** Rounds as single steps *)

Record asys : Type := MkAsys {
  a_gos : goroutines;
  a_mem : M;
  a_trace : trace;
}.

Inductive abs_step : asys → asys → Prop :=
  | abs_request h gos m tr :
      requests h → abs_step (MkAsys gos m tr) (MkAsys (gos ++ [(None, Running h)]) m tr)
  | abs_tick i l s rt now gos m tr :
      gos !! i = Some (Some l, Waiting s) → 0 < l_period l →
      abs_step (MkAsys gos m tr)
        (MkAsys (set_go i (Running (l_body l rt now s)) gos) m (tr ++ own i [Ticked now]))
  | abs_round i l rpc js k ds gos m tr :
      (** every job of the round is answered *)
      gos !! i = Some (Some l, Running (Round rpc js k)) → served js ds →
      abs_step (MkAsys gos m tr)
        (MkAsys (set_go i (Running (k ds)) gos) m (tr ++ own i [Received rpc ds]))
  | abs_remake i l rpc k gos m tr :
      gos !! i = Some (Some l, Running (Remake rpc k)) →
      abs_step (MkAsys gos m tr) (MkAsys (set_go i (Running k) gos) m tr)
  | abs_local i o q q' m' es rt gos m tr :
      gos !! i = Some (o, Running q) → prog_step q m q' m' es →
      abs_step (MkAsys gos m tr)
        (MkAsys (set_go i (Running q') gos ++ spawned rt es) m' (tr ++ own i es))
  | abs_return i o s gos m tr :
      gos !! i = Some (o, Running (Return s)) →
      abs_step (MkAsys gos m tr) (MkAsys (set_go i (Waiting s) gos) m tr).

Inductive abs_run (a0 : asys) : asys → Prop :=
  | abs_run_refl : abs_run a0 a0
  | abs_run_step a a' : abs_run a0 a → abs_step a a' → abs_run a0 a'.

(** A goroutine in a round has not done it yet. *)
Definition abs_go (g : gstate) : gstate :=
  match g with
  | Waiting s => Waiting s
  | Running q => Running q
  | Sends rpc todo sent k | Adds rpc todo sent k => Running (Round rpc (sent ++ todo) k)
  | Drains rpc sent k => Running (Round rpc sent k)
  end.

Definition abs_gos (gos : goroutines) : goroutines := prod_map id abs_go <$> gos.

Definition abs (y : sys) : asys := MkAsys (abs_gos (y_gos y)) (y_mem y) (y_trace y).

(** ** Discipline

    A goroutine sends only on channels it owns and that are open, makes a fresh
    channel only for one it closed, and ends its tick with all of them open;
    [legal] are the jobs it may send. *)

Context (legal : string → list work → Prop).

Fixpoint prog_ok (owns closed : list string) (q : prog) : Prop :=
  match q with
  | Return _ => closed = []
  | Panics _ | Blocks => True
  | Round rpc js k =>
      rpc ∈ owns ∧ rpc ∉ closed ∧ legal rpc js
      ∧ ∀ ds, served js ds → prog_ok owns (rpc :: closed) (k ds)
  | Remake rpc k => rpc ∈ closed ∧ prog_ok owns (filter (λ r, r ≠ rpc) closed) k
  | Lock k | Unlock k | Put _ _ k | Log _ k => prog_ok owns closed k
  | Get _ k => ∀ m, prog_ok owns closed (k m)
  | Fetch url body k => ∀ client, prog_ok owns closed (k (request client url body))
  end.

Definition loop_ok (l : loop) : Prop := ∀ rt now s, prog_ok (l_owns l) [] (l_body l rt now s).

(** The owner of a channel that is in no round: between rounds, or after the
    close. *)
Definition settled (p : pool) (closed : list string) (r : string) : Prop :=
  (r ∈ closed → s_phase (p_sender p r) = Draining)
  ∧ (r ∉ closed → p_sender p r = MkSender Sending [] []).

(** The pool's view of a goroutine agrees with where it stands. *)
Definition in_round (p : pool) (l : loop) (closed : list string) (rpc : string) (s : sender)
    (js : list work) (k : list reply → prog) : Prop :=
  rpc ∈ l_owns l ∧ rpc ∉ closed ∧ p_sender p rpc = s
  ∧ (∀ ds, served js ds → prog_ok (l_owns l) (rpc :: closed) (k ds))
  ∧ ∀ r, r ∈ l_owns l → r ≠ rpc → settled p closed r.

Definition go_coherent (p : pool) (l : loop) (g : gstate) : Prop :=
  loop_ok l ∧ ∃ closed, (∀ r, r ∈ closed → r ∈ l_owns l) ∧
  match g with
  | Waiting _ => closed = [] ∧ ∀ r, r ∈ l_owns l → settled p closed r
  | Running q => prog_ok (l_owns l) closed q ∧ ∀ r, r ∈ l_owns l → settled p closed r
  | Sends rpc todo sent k =>
      in_round p l closed rpc (MkSender Sending todo sent) (sent ++ todo) k
  | Adds rpc todo sent k =>
      in_round p l closed rpc (MkSender Adding todo sent) (sent ++ todo) k
  | Drains rpc sent k =>
      in_round p l closed rpc (MkSender Draining [] sent) sent k
  end.

(** Only the owner's entries of the pool matter. *)
Lemma go_coherent_frame p p' l g :
  (∀ r, r ∈ l_owns l → p_sender p' r = p_sender p r) → go_coherent p l g → go_coherent p' l g.
Proof.
  intros Hs [Hl (closed & Hc & H)]. split; [done|]. exists closed. split; [done|].
  assert (∀ r, r ∈ l_owns l → settled p closed r → settled p' closed r) as Hset.
  { intros r Hr. unfold settled. by rewrite Hs. }
  assert (∀ rpc s js k, in_round p l closed rpc s js k → in_round p' l closed rpc s js k) as Hin.
  { intros rpc s js k (H1 & H2 & H3 & H4 & H5). split_and!; try done; [by rewrite Hs|].
    intros r Hr Hne. by apply Hset, H5. }
  destruct g; [destruct H as [? H]|destruct H as [? H]|by apply Hin..];
    (split; [done|]); intros r Hr; by apply Hset, H.
Qed.

(** Steps of the owner of a round. *)
Section owner.
Context (rpcs : list string) (l : loop) (p : pool).
Context (Hown : ∀ r, r ∈ l_owns l → r ∈ rpcs) (Hnil : ∀ r, legal r []).

(** The entries of the others are left alone. *)
Definition frames (p' : pool) : Prop := ∀ r, r ∉ l_owns l → p_sender p' r = p_sender p r.

Lemma set_sender_frames rpc s p' :
  rpc ∈ l_owns l → p_sender p' = upd rpc s (p_sender p) → frames p'.
Proof. intros Hr E r Hn. rewrite E, upd_ne; [done|]. by intros ->. Qed.

Lemma settled_upd p' closed rpc s r :
  p_sender p' = upd rpc s (p_sender p) → r ≠ rpc → settled p closed r → settled p' closed r.
Proof. intros E Hne. unfold settled. rewrite E, upd_ne by done. done. Qed.

(** From one sender state of the round to the next. *)
Lemma in_round_upd p' closed rpc s s' js k :
  p_sender p' = upd rpc s' (p_sender p) → in_round p l closed rpc s js k →
  in_round p' l closed rpc s' js k ∧ frames p'.
Proof.
  intros E (H1 & H2 & H3 & H4 & H5). split; [|by eapply set_sender_frames].
  split_and!; try done; [by rewrite E, upd_eq|]. intros r Hr Hne. by eapply settled_upd; auto.
Qed.

Lemma owner_round_ok closed rpc js k :
  prog_ok (l_owns l) closed (Round rpc js k) → (∀ r, r ∈ l_owns l → settled p closed r) →
  in_round (plan rpc js p) l closed rpc (MkSender Sending js []) js k
  ∧ (pool_step cap rpcs legal p (plan rpc js p) ∨ plan rpc js p = p) ∧ frames (plan rpc js p).
Proof.
  intros (H1 & H2 & H3 & H4) Hset. pose proof (proj2 (Hset rpc H1) H2) as Hs.
  assert (in_round p l closed rpc (MkSender Sending [] []) js k) as Hin by (split_and!; auto).
  destruct js as [|j js]; cbn [plan]; [by split_and!; auto|].
  destruct (in_round_upd (set_sender rpc (MkSender Sending (j :: js) []) p) closed rpc _
    (MkSender Sending (j :: js) []) _ k eq_refl Hin) as [H5 H6].
  split_and!; [done| |done]. left. by apply step_plan; auto.
Qed.

Lemma owner_drain_ok closed rpc sent k :
  in_round p l closed rpc (MkSender Draining [] sent) sent k → served sent (p_chan p rpc) →
  prog_ok (l_owns l) (rpc :: closed) (k (p_chan p rpc))
  ∧ ∀ r, r ∈ l_owns l → settled p (rpc :: closed) r.
Proof.
  clear Hown Hnil. intros (H1 & H2 & H3 & H4 & H5) Hs. split; [by apply H4|]. intros r Hr.
  destruct (decide (r = rpc)) as [->|Hne].
  - split; [by rewrite H3|]. set_solver.
  - destruct (H5 r Hr Hne) as [H6 H7]. split; set_solver.
Qed.

Lemma owner_remake_ok closed rpc k :
  let p' := set_open rpc true (set_chan rpc [] (set_sender rpc (MkSender Sending [] []) p)) in
  prog_ok (l_owns l) closed (Remake rpc k) → (∀ r, r ∈ closed → r ∈ l_owns l) →
  (∀ r, r ∈ l_owns l → settled p closed r) →
  (∀ r, r ∈ l_owns l → settled p' (filter (λ r, r ≠ rpc) closed) r)
  ∧ pool_step cap rpcs legal p p' ∧ frames p'.
Proof.
  intros p' [H1 H2] Hc Hset. assert (rpc ∈ l_owns l) as Hr by auto. split_and!.
  - intros r Hr'. destruct (decide (r = rpc)) as [->|Hne].
    + split; [by intros [? _]%list_elem_of_filter|]. intros _. cbn. by rewrite upd_eq.
    + destruct (Hset r Hr') as [H3 H4]. split; cbn; rewrite upd_ne by done.
      * by intros [_ ?]%list_elem_of_filter; auto.
      * intros Hn. apply H4. intros ?. by apply Hn, list_elem_of_filter.
  - apply step_renew; [by apply Hown|by apply Hset|done].
  - by eapply set_sender_frames.
Qed.
End owner.

(** A step of the goroutine keeps it, and is a step of the pool or none. *)
Lemma owner_step_coherent rpcs p p' l g g' es :
  (∀ r, r ∈ l_owns l → r ∈ rpcs) → (∀ r, legal r []) → go_coherent p l g →
  (∀ r, s_phase (p_sender p r) = Draining → served (s_sent (p_sender p r)) (p_chan p r)) →
  owner_step g p g' p' es →
  go_coherent p' l g' ∧ (pool_step cap rpcs legal p p' ∨ p' = p)
  ∧ (∀ r, r ∉ l_owns l → p_sender p' r = p_sender p r).
Proof.
  intros Hown Hnil [Hl (closed & Hc & H)] Hdrain Hstep. destruct Hstep as
    [rpc js k p|rpc j todo sent k p Hcap|rpc todo sent k p|rpc sent k p H0|rpc sent k p|rpc k p].
  - destruct H as [Hq Hset].
    destruct (owner_round_ok rpcs l p Hown closed rpc js k Hq Hset) as (H1 & H2 & H3).
    split_and!; [|done|done]. split; [done|]. by exists closed.
  - destruct (in_round_upd l p (set_jobs (p_jobs p ++ [j])
      (set_sender rpc (MkSender Adding todo (sent ++ [j])) p)) closed rpc _
      (MkSender Adding todo (sent ++ [j])) _ k eq_refl H) as [H1 H2].
    destruct H as (Hr & _ & Hs & _). split_and!; [|left|done].
    + split; [done|]. exists closed. by rewrite <-app_assoc.
    + pose proof (step_send cap rpcs legal rpc j todo p) as Hst. rewrite Hs in Hst. by apply Hst; auto.
  - destruct (in_round_upd l p (set_group rpc (p_group p rpc + 1)
      (set_sender rpc (MkSender Sending todo sent) p)) closed rpc _
      (MkSender Sending todo sent) _ k eq_refl H) as [H1 H2].
    destruct H as (Hr & _ & Hs & _). split_and!; [|left|done].
    + split; [done|]. by exists closed.
    + pose proof (step_add cap rpcs legal rpc p) as Hst. rewrite Hs in Hst. by apply Hst; auto.
  - rewrite app_nil_r in H. destruct (in_round_upd l p (set_open rpc false
      (set_sender rpc (MkSender Draining [] sent) p)) closed rpc _
      (MkSender Draining [] sent) _ k eq_refl H) as [H1 H2].
    destruct H as (Hr & _ & Hs & _). split_and!; [|left|done].
    + split; [done|]. by exists closed.
    + pose proof (step_close cap rpcs legal rpc p) as Hst. rewrite Hs in Hst. by apply Hst; auto.
  - pose proof H as (Hr & _ & Hs & _). specialize (Hdrain rpc). rewrite Hs in Hdrain.
    destruct (owner_drain_ok l p closed rpc sent k H (Hdrain eq_refl)) as [H1 H2].
    split_and!; [|by right|done]. split; [done|]. exists (rpc :: closed). split; [set_solver|done].
  - destruct H as [Hq Hset].
    destruct (owner_remake_ok rpcs l p Hown Hnil closed rpc k Hq Hc Hset) as (H1 & H2 & H3).
    split_and!; [|by left|done]. split; [done|]. exists (filter (λ r, r ≠ rpc) closed).
    split; [by intros r [_ ?]%list_elem_of_filter; auto|]. destruct Hq. done.
Qed.

(** ** Tables of goroutines *)

Lemma lookup_set_go i g gos j :
  set_go i g gos !! j
  = if decide (j = i) then (λ p, (p.1, g)) <$> gos !! i else gos !! j.
Proof.
  unfold set_go. destruct (decide (j = i)) as [->|Hne].
  - apply list_lookup_alter_eq.
  - by apply list_lookup_alter_ne.
Qed.

Lemma abs_gos_lookup gos i o g : gos !! i = Some (o, g) → abs_gos gos !! i = Some (o, abs_go g).
Proof. intros E. unfold abs_gos. by rewrite list_lookup_fmap, E. Qed.

Lemma abs_set_go i g gos : abs_gos (set_go i g gos) = set_go i (abs_go g) (abs_gos gos).
Proof.
  apply list_eq. intros j. rewrite lookup_set_go. unfold abs_gos. rewrite !list_lookup_fmap.
  rewrite lookup_set_go. case_decide; [|done]. by destruct (gos !! i) as [[]|].
Qed.

Lemma abs_set_go_same i g g' o gos :
  gos !! i = Some (o, g) → abs_go g' = abs_go g → abs_gos (set_go i g' gos) = abs_gos gos.
Proof.
  intros E Eg. rewrite abs_set_go. apply list_eq. intros j. rewrite lookup_set_go.
  case_decide as Hj; [|done]. subst j. by rewrite (abs_gos_lookup _ _ _ _ E), Eg.
Qed.

Lemma abs_spawned gos rt es : abs_gos (gos ++ spawned rt es) = abs_gos gos ++ spawned rt es.
Proof.
  unfold abs_gos. rewrite fmap_app. f_equal. unfold spawned. rewrite <-list_fmap_compose.
  by apply list_fmap_ext.
Qed.

(** ** Traces *)

Lemma logged_app tr tr' : logged (tr ++ tr') = logged tr ++ logged tr'.
Proof. unfold logged, all_acts. by rewrite fmap_app, bind_app. Qed.

Lemma logged_own i es : logged (own i es) = all_acts es.
Proof. unfold logged, own. rewrite <-list_fmap_compose. f_equal. apply list_fmap_id. Qed.

Lemma elem_of_logged x tr : x ∈ logged tr ↔ ∃ i acts, (i, Logged acts) ∈ tr ∧ x ∈ acts.
Proof.
  unfold logged, all_acts. rewrite list_elem_of_bind. split.
  - intros (e & Hx & ([i e'] & -> & Hi)%list_elem_of_fmap). cbn in Hx. destruct e'; set_solver.
  - intros (i & acts & Hi & Hx). exists (Logged acts). split; [done|].
    by apply (list_elem_of_fmap_2 snd _ (i, Logged acts)).
Qed.

(** A step adds to the trace, and every goroutine is still there. *)
Lemma set_go_keeps i g gos j o g' :
  gos !! j = Some (o, g') → ∃ g2, set_go i g gos !! j = Some (o, g2).
Proof.
  intros Hj. rewrite lookup_set_go. case_decide; [|by eauto]. subst. rewrite Hj. cbn. eauto.
Qed.

Lemma abs_step_extends a a' : abs_step a a' →
  (∃ es, a_trace a' = a_trace a ++ es)
  ∧ ∀ i o g, a_gos a !! i = Some (o, g) → ∃ g', a_gos a' !! i = Some (o, g').
Proof.
  intros Hstep. split.
  - destruct Hstep; cbn; eauto; exists []; by rewrite app_nil_r.
  - intros j o g Hj. destruct Hstep; cbn in *;
      [eexists; by apply lookup_app_l_Some|by eapply set_go_keeps..| |by eapply set_go_keeps].
    edestruct set_go_keeps as [g2 E]; [exact Hj|]. exists g2. apply lookup_app_l_Some, E.
Qed.

(** Loops are never added or lost. *)
Lemma set_go_has_loop i g gos j l :
  (∃ g', set_go i g gos !! j = Some (Some l, g')) ↔ ∃ g', gos !! j = Some (Some l, g').
Proof.
  rewrite lookup_set_go. case_decide as Hj; [|done]. subst j.
  destruct (gos !! i) as [[o g1]|]; cbn; naive_solver.
Qed.

Lemma app_has_loop gos hs j l :
  Forall (λ p : option loop * gstate, p.1 = None) hs →
  (∃ g', (gos ++ hs) !! j = Some (Some l, g')) ↔ ∃ g', gos !! j = Some (Some l, g').
Proof.
  intros Hh. split.
  - intros [g' [?|[_ Hj]]%lookup_app_Some]; [by eauto|].
    rewrite Forall_lookup in Hh. by specialize (Hh _ _ Hj).
  - intros [g' Hj]. exists g'. by apply lookup_app_l_Some.
Qed.

Lemma spawned_no_loop rt es : Forall (λ p : option loop * gstate, p.1 = None) (spawned rt es).
Proof. by apply Forall_fmap, Forall_true. Qed.

Lemma abs_run_has_loop a0 a i l :
  abs_run a0 a →
  (∃ g, a_gos a !! i = Some (Some l, g)) ↔ ∃ g, a_gos a0 !! i = Some (Some l, g).
Proof.
  induction 1 as [|a a' _ IH Hstep]; [done|]. rewrite <-IH.
  destruct Hstep; cbn; rewrite ?app_has_loop, ?set_go_has_loop; try done;
    [by repeat constructor|apply spawned_no_loop].
Qed.

(** ** Coherent systems *)

(** The RPCs of each pool. *)
Context (rpcs : nat → list string).

Record coherent (y : sys) : Prop := {
  co_pools c p : y_pools y !! c = Some p → pool_ok cap legal p;
  co_gos i l g : y_gos y !! i = Some (Some l, g) →
    (∀ r, r ∈ l_owns l → r ∈ rpcs (l_pool l))
    ∧ ∃ p, y_pools y !! l_pool l = Some p ∧ go_coherent p l g;
  co_owns i j l l' g g' : i ≠ j → y_gos y !! i = Some (Some l, g) →
    y_gos y !! j = Some (Some l', g') → l_pool l = l_pool l' → ∀ r, r ∈ l_owns l → r ∉ l_owns l';
}.

Hypothesis legal_ok : ∀ r js, legal r js →
  Forall (λ j, w_rpc j = r) js ∧ (length js ≤ cap)%nat.
Hypothesis legal_nil : ∀ r, legal r [].

(** Goroutines that come without a loop change nothing. *)
Lemma coherent_app pools gos hs m log m' log' :
  Forall (λ p : option loop * gstate, p.1 = None) hs →
  coherent (MkSys pools gos m log) → coherent (MkSys pools (gos ++ hs) m' log').
Proof.
  intros Hn [H1 H2 H3].
  assert (∀ i l g, (gos ++ hs) !! i = Some (Some l, g) → gos !! i = Some (Some l, g)) as Hl.
  { intros i l g [?|[_ Hi]]%lookup_app_Some; [done|].
    rewrite Forall_lookup in Hn. by specialize (Hn _ _ Hi). }
  split; cbn in *; eauto.
Qed.

(** A goroutine that does not use its pool. *)
Lemma coherent_set_go pools gos i o g g' m log m' log' :
  gos !! i = Some (o, g) →
  (∀ p l, o = Some l → go_coherent p l g → go_coherent p l g') →
  coherent (MkSys pools gos m log) → coherent (MkSys pools (set_go i g' gos) m' log').
Proof.
  intros Ei Hg [H1 H2 H3].
  assert (∀ j l g1, set_go i g' gos !! j = Some (Some l, g1) →
    (j ≠ i ∧ gos !! j = Some (Some l, g1)) ∨ (j = i ∧ o = Some l ∧ g1 = g')) as Hl.
  { intros j l g1. rewrite lookup_set_go. case_decide as Hj; [|by auto].
    rewrite Ei. cbn. intros [= -> ->]. auto. }
  assert (∀ j l g1, set_go i g' gos !! j = Some (Some l, g1) →
    ∃ g2, gos !! j = Some (Some l, g2)) as Hl'.
  { intros j l g1 [[_ ?]|(-> & -> & _)]%Hl; eauto. }
  split; cbn in *.
  - done.
  - intros j l g1 [[_ Hj]|(-> & -> & ->)]%Hl; [by eauto|].
    destruct (H2 i l g Ei) as (Ho & p & Hp & Hc). split; [done|]. exists p. split; [done|].
    by apply Hg.
  - intros j1 j2 l1 l2 g1 g2 Hne [g3 H4]%Hl' [g4 H5]%Hl'. by apply (H3 _ _ _ _ _ _ Hne H4 H5).
Qed.

Lemma worker_step_sender p p' : worker_step cap p p' → p_sender p' = p_sender p.
Proof. by destruct 1. Qed.

Lemma coherent_worker c p p' pools gos m log :
  pools !! c = Some p → p_crash p = None → worker_step cap p p' →
  coherent (MkSys pools gos m log) → coherent (MkSys (<[c := p']> pools) gos m log).
Proof.
  intros Hc Hcr Hstep [H1 H2 H3]. split; cbn in *; [| |done].
  - intros c' q. rewrite list_lookup_insert_Some. intros [(<- & <- & _)|[_ ?]]; [|by eauto].
    destruct (H1 c p Hc) as [Hok _]. by apply (worker_step_ok cap legal legal_ok p); auto.
  - intros i l g Hi. destruct (H2 i l g Hi) as (Ho & q & Hq & Hg). split; [done|].
    destruct (decide (l_pool l = c)) as [<-|Hne].
    + exists p'. split; [by eapply list_lookup_insert_eq, lookup_lt_Some|].
      assert (q = p) as -> by congruence. eapply go_coherent_frame; [|exact Hg].
      intros r _. by rewrite (worker_step_sender p p').
    + exists q. by rewrite list_lookup_insert_ne.
Qed.

Lemma coherent_owner i l g g' p p' es pools gos m log log' :
  gos !! i = Some (Some l, g) → pools !! l_pool l = Some p → p_crash p = None →
  owner_step g p g' p' es → coherent (MkSys pools gos m log) →
  coherent (MkSys (<[l_pool l := p']> pools) (set_go i g' gos) m log').
Proof.
  intros Hi Hp Hcr Hstep Hco. pose proof Hco as [H1 H2 H3]. cbn in *.
  destruct (H2 i l g Hi) as (Ho & q & Hq & Hg). assert (q = p) as -> by congruence.
  destruct (H1 _ _ Hp) as [Hok Hcl].
  destruct (owner_step_coherent (rpcs (l_pool l)) p p' l g g' es) as (Hg' & Hpool & Hfr); try done.
  { intros r Hph. by apply (draining_served cap legal r p (Hok Hcr r)). }
  assert (∀ j l1 g1, set_go i g' gos !! j = Some (Some l1, g1) →
    (j = i ∧ l1 = l ∧ g1 = g') ∨ (j ≠ i ∧ gos !! j = Some (Some l1, g1))) as Hl.
  { intros j l1 g1. rewrite lookup_set_go. case_decide as Hj; [|by auto].
    rewrite Hi. cbn. intros [= <- <-]. by left. }
  split; cbn.
  - intros c q. rewrite list_lookup_insert_Some. intros [(<- & <- & _)|[_ ?]]; [|by eauto].
    destruct Hpool as [Hst| ->]; [|by apply (H1 _ _ Hp)].
    eapply (pool_step_ok cap (rpcs (l_pool l)) legal); [apply legal_ok|by auto|done|exact Hst].
  - intros j l1 g1 [(-> & -> & ->)|[Hne Hj]]%Hl.
    + split; [done|]. exists p'. split; [by eapply list_lookup_insert_eq, lookup_lt_Some|done].
    + destruct (H2 j l1 g1 Hj) as (Ho1 & q & Hq1 & Hg1). split; [done|].
      destruct (decide (l_pool l1 = l_pool l)) as [E|Hnp].
      * exists p'. rewrite E. split; [by eapply list_lookup_insert_eq, lookup_lt_Some|].
        assert (q = p) as -> by congruence. eapply go_coherent_frame; [|exact Hg1].
        intros r Hr. apply Hfr. by eapply (H3 j i).
      * exists q. by rewrite list_lookup_insert_ne.
  - intros j1 j2 l1 l2 g1 g2 Hne E1 E2. destruct (Hl _ _ _ E1) as [(-> & -> & ->)|[_ Hj1]],
      (Hl _ _ _ E2) as [(-> & -> & ->)|[_ Hj2]]; [done|by eapply (H3 i j2)|by eapply (H3 j1 i)|
      by eapply (H3 j1 j2)].
Qed.

(** Every step keeps the system coherent and is at most one step with rounds as
    single steps. *)
Lemma go_coherent_running p l q q' :
  (∀ closed, prog_ok (l_owns l) closed q → prog_ok (l_owns l) closed q') →
  go_coherent p l (Running q) → go_coherent p l (Running q').
Proof. intros Hq [Hl (closed & Hc & H & Hs)]. split; [done|]. exists closed. auto. Qed.

Lemma owner_step_abs p p' l g g' es i gos m tr :
  gos !! i = Some (Some l, g) → owner_step g p g' p' es →
  (∀ rpc sent k, g = Drains rpc sent k → served sent (p_chan p rpc)) →
  abs_step (MkAsys (abs_gos gos) m tr) (MkAsys (abs_gos (set_go i g' gos)) m (tr ++ own i es))
  ∨ abs_gos (set_go i g' gos) = abs_gos gos ∧ es = [].
Proof.
  intros Hi Hstep Hd. pose proof (abs_gos_lookup _ _ _ _ Hi) as Ha. destruct Hstep.
  - right. split; [|done]. by eapply abs_set_go_same.
  - right. split; [|done]. eapply abs_set_go_same; [done|]. cbn. by rewrite <-app_assoc.
  - right. split; [|done]. by eapply abs_set_go_same.
  - right. split; [|done]. eapply abs_set_go_same; [done|]. cbn. by rewrite app_nil_r.
  - left. rewrite abs_set_go. eapply abs_round; [exact Ha|]. by eapply Hd.
  - left. rewrite abs_set_go, app_nil_r. by eapply abs_remake.
Qed.

Lemma sys_step_refines y y' :
  coherent y → alive y → sys_step y y' →
  coherent y' ∧ (abs_step (abs y) (abs y') ∨ abs y' = abs y).
Proof.
  intros Hco Hal Hstep. destruct Hstep as [c p p' pools gos m log Hc Hst|h pools gos m log Hh
    |i l s rt now pools gos m log Hi Hper|i l g g' p p' es pools gos m log Hi Hp Hst
    |i o q q' m' es rt pools gos m log Hi Hst|i o s pools gos m log Hi]; unfold abs in *; cbn in *.
  - split; [|by right]. eapply coherent_worker; try done. apply Hal. by eapply list_elem_of_lookup_2.
  - split; [by eapply coherent_app; [|exact Hco]; repeat constructor|]. left.
    unfold abs_gos. rewrite fmap_app. by apply abs_request.
  - split.
    + eapply coherent_set_go; [exact Hi| |exact Hco]. intros p l' [= <-] [Hl (closed & Hc & -> & Hs)].
      split; [done|]. exists []. split; [done|]. split; [apply Hl|done].
    + left. rewrite abs_set_go. apply (abs_tick i l s); [|done]. exact (abs_gos_lookup _ _ _ _ Hi).
  - assert (p_crash p = None) as Hcr by (apply Hal; by eapply list_elem_of_lookup_2).
    split; [by eapply coherent_owner|].
    destruct (owner_step_abs p p' l g g' es i gos m log Hi Hst) as [Ha|[Ha ->]];
      [|by left|right; f_equal; [exact Ha|apply app_nil_r]].
    intros rpc sent k ->. destruct (co_gos _ Hco i l _ Hi) as (_ & q & Hq & _ & closed & _ & _ & _ & Hs & _).
    cbn in Hq. assert (q = p) as -> by congruence.
    destruct (co_pools _ Hco _ _ Hp) as [Hok _].
    pose proof (draining_served cap legal rpc p (Hok Hcr rpc)) as Hd. rewrite Hs in Hd. by apply Hd.
  - split.
    + apply (coherent_app _ _ _ m log); [by apply Forall_fmap, Forall_true|].
      eapply coherent_set_go; [exact Hi| |exact Hco]. intros p l _. apply go_coherent_running.
      intros closed. by destruct Hst; cbn; auto.
    + left. rewrite abs_spawned, abs_set_go. eapply abs_local; [|exact Hst].
      exact (abs_gos_lookup _ _ _ _ Hi).
  - split.
    + eapply coherent_set_go; [exact Hi| |exact Hco]. intros p l _ [Hl (closed & Hc & -> & Hs)].
      split; [done|]. by exists [].
    + left. rewrite abs_set_go. eapply abs_return, (abs_gos_lookup _ _ _ _ Hi).
Qed.

Lemma rounds_refine y0 y :
  coherent y0 → sys_run y0 y → coherent y ∧ abs_run (abs y0) (abs y).
Proof.
  intros H0. induction 1 as [|y y' _ [IH1 IH2] Hal Hstep]; [split; [done|constructor]|].
  destruct (sys_step_refines y y' IH1 Hal Hstep) as [Hco [Hst|E]]; split; try done.
  - by eapply abs_run_step.
  - by rewrite E.
Qed.

(** A loop whose ticker has no positive period waits for ever and does nothing. *)
Definition idle (i : nat) (l : loop) (s : S) (y : sys) : Prop :=
  y_gos y !! i = Some (Some l, Waiting s) ∧ ∀ e, (i, e) ∉ y_trace y.

Lemma idle_set_go i l s j o g g' es hs pools pools' gos m m' tr :
  gos !! j = Some (o, g) → (i = j → g ≠ Waiting s) →
  idle i l s (MkSys pools gos m tr) →
  idle i l s (MkSys pools' (set_go j g' gos ++ hs) m' (tr ++ own j es)).
Proof.
  intros Hj Hg [Hi Htr]. cbn in *. assert (i ≠ j) as Hne.
  { intros ->. rewrite Hi in Hj. injection Hj as <- <-. by apply Hg. }
  split; cbn.
  - apply lookup_app_l_Some. by rewrite lookup_set_go, decide_False.
  - intros e [He|(x & [= ? _] & _)%list_elem_of_fmap]%elem_of_app; [by eapply Htr|done].
Qed.

Lemma dead_loop y0 y i l s :
  idle i l s y0 → l_period l ≤ 0 → sys_run y0 y → idle i l s y.
Proof.
  intros H0 Hl. induction 1 as [|y y' _ IH _ Hstep]; [done|].
  destruct Hstep as [c p p' pools gos m tr Hc Hst|h pools gos m tr Hh
    |j l' s' rt now pools gos m tr Hj Hper|j l' g g' p p' es pools gos m tr Hj Hp Hst
    |j o q q' m' es rt pools gos m tr Hj Hst|j o s' pools gos m tr Hj].
  - done.
  - destruct IH as [Hi Htr]. split; [by apply lookup_app_l_Some|done].
  - rewrite <-(app_nil_r (set_go _ _ _)). eapply idle_set_go; [exact Hj| |exact IH].
    intros -> _. destruct IH as [Hi _]. cbn in Hi. rewrite Hj in Hi. injection Hi as -> ->. lia.
  - rewrite <-(app_nil_r (set_go _ _ _)). eapply idle_set_go; [exact Hj| |exact IH].
    intros _ ->. inversion Hst.
  - eapply idle_set_go; [exact Hj|done|exact IH].
  - rewrite <-(app_nil_r (set_go _ _ _)), <-(app_nil_r tr).
    by eapply (idle_set_go _ _ _ _ _ _ _ []); [exact Hj| |exact IH].
Qed.

(** ** The map of reply channels

    [channels[rpc] = make(...)] writes the map that the workers of the pool read
    when they reply. *)

Definition map_race (c : nat) (y : sys) : Prop := ∃ i l rpc k p w j,
  alive y ∧ y_gos y !! i = Some (Some l, Running (Remake rpc k)) ∧ l_pool l = c
  ∧ y_pools y !! c = Some p ∧ p_workers p !! w = Some (Working j).

Definition has_loop (y : sys) (i : nat) (l : loop) : Prop := ∃ g, y_gos y !! i = Some (Some l, g).

Lemma sys_step_has_loop y y' i l : sys_step y y' → has_loop y' i l ↔ has_loop y i l.
Proof.
  unfold has_loop. intros []; cbn; rewrite ?app_has_loop, ?set_go_has_loop; try done.
  - by repeat constructor.
  - apply spawned_no_loop.
Qed.

(** The entries of a channel nobody owns stay as they were made. *)
Definition unowned (y : sys) (c : nat) (r : string) : Prop :=
  ∀ i l, has_loop y i l → l_pool l = c → r ∉ l_owns l.
Definition untouched (y : sys) : Prop := ∀ c p r,
  y_pools y !! c = Some p → unowned y c r → p_sender p r = MkSender Sending [] [].

Lemma sys_step_untouched y y' :
  coherent y → alive y → sys_step y y' → untouched y → untouched y'.
Proof.
  intros Hco Hal Hstep Hu c p' r Hp' Hun.
  assert (unowned y c r) as Hun'.
  { intros i l Hl. apply Hun with i. by apply (sys_step_has_loop y y'). }
  destruct Hstep as [c0 p p1 pools gos m log Hc Hst|h pools gos m log Hh
    |i l s rt now pools gos m log Hi Hper|i l g g' p p1 es pools gos m log Hi Hp Hst
    |i o q q' m' es rt pools gos m log Hi Hst|i o s pools gos m log Hi]; try exact (Hu c p' r Hp' Hun').
  - cbn in Hp'. apply list_lookup_insert_Some in Hp' as [(<- & <- & _)|[_ Hp']];
      [|exact (Hu c p' r Hp' Hun')].
    rewrite (worker_step_sender p p1) by done. exact (Hu c0 p r Hc Hun').
  - cbn in Hp'. apply list_lookup_insert_Some in Hp' as [(<- & <- & _)|[_ Hp']];
      [|exact (Hu c p' r Hp' Hun')].
    destruct (co_gos _ Hco i l g Hi) as (Ho & q & Hq & Hg). cbn in Hq.
    assert (q = p) as -> by congruence. destruct (co_pools _ Hco _ _ Hp) as [Hok _].
    assert (p_crash p = None) as Hcr by (apply Hal; by eapply list_elem_of_lookup_2).
    destruct (owner_step_coherent (rpcs (l_pool l)) p p1 l g g' es) as (_ & _ & Hfr); try done.
    { intros r' Hph. by apply (draining_served cap legal r' p (Hok Hcr r')). }
    rewrite Hfr; [exact (Hu _ p r Hp Hun')|]. apply (Hun' i l); [by exists g|done].
Qed.

Lemma sys_run_untouched y0 y :
  coherent y0 → untouched y0 → sys_run y0 y →
  untouched y ∧ ∀ i l, has_loop y i l ↔ has_loop y0 i l.
Proof.
  intros Hco Hu. induction 1 as [|y y' Hrun [IH1 IH2] Hal Hstep]; [done|].
  destruct (rounds_refine y0 y Hco Hrun) as [Hco' _]. split; [by eapply sys_step_untouched|].
  intros i l. by rewrite (sys_step_has_loop y y') by done.
Qed.

(** A channel whose owner is between rounds, or has closed it, is in no worker's
    hands. *)
Lemma settled_working p closed r :
  round_ok cap legal r p → settled p closed r → working r p = [].
Proof.
  intros [(_ & _ & _ & _ & Hdr) (fin & Hacc)] [H1 H2].
  destruct (decide (r ∈ closed)) as [Hc|Hc].
  - specialize (H1 Hc). by apply (accounted_zero r p fin Hacc); [congruence|apply Hdr].
  - destruct Hacc as (Hs & _). rewrite (H2 Hc) in Hs. cbn in Hs.
    apply Permutation_nil in Hs. by apply app_eq_nil in Hs as [_ [? _]%app_eq_nil].
Qed.

Lemma working_nil r p w j :
  working r p = [] → p_workers p !! w = Some (Working j) → w_rpc j ≠ r.
Proof.
  intros Hw Hj <-. assert (j ∈ working (w_rpc j) p) as Hin; [|rewrite Hw in Hin; set_solver].
  apply list_elem_of_omap. exists (Working j). split; [by eapply list_elem_of_lookup_2|].
  cbn. by rewrite decide_True.
Qed.

(** A pool with one goroutine has no such race. *)
Lemma single_owner_race_free y0 y c :
  coherent y0 → untouched y0 → sys_run y0 y →
  (∀ i j l l', has_loop y0 i l → has_loop y0 j l' → l_pool l = c → l_pool l' = c → i = j) →
  ¬ map_race c y.
Proof.
  intros Hco Hu Hrun Hone (i & l & rpc & k & p & w & j & Hal & Hi & Hc & Hp & Hw).
  destruct (sys_run_untouched y0 y Hco Hu Hrun) as [Hu' Hloops].
  destruct (rounds_refine y0 y Hco Hrun) as [Hco' _].
  destruct (co_gos _ Hco' i l _ Hi) as (_ & q & Hq & _ & closed & Hcl & Hok & Hset).
  assert (q = p) as -> by congruence. destruct (co_pools _ Hco' _ _ Hp) as [Hpool _].
  assert (p_crash p = None) as Hcr by (apply Hal; by eapply list_elem_of_lookup_2).
  specialize (Hpool Hcr (w_rpc j)). eapply working_nil; [|exact Hw|reflexivity].
  destruct (decide (w_rpc j ∈ l_owns l)) as [Hin|Hin]; [by eapply settled_working; eauto|].
  apply settled_working with []; [done|]. split; [set_solver|]. intros _.
  apply (Hu' c p); [done|]. intros i' l' Hl' Hc'.
  assert (i' = i) as ->.
  { apply (Hone i' i l' l); [by apply Hloops|apply Hloops; by eexists|done|done]. }
  destruct Hl' as [g' Hl']. congruence.
Qed.

(** ** The lock and data races

    [guarded] are the variables that are accessed under the lock only. *)

Context (guarded : F → Prop).
Hypothesis held_set : ∀ b m, held (set_held b m) = b.

(** [b]: the goroutine holds the lock. *)
Fixpoint lock_ok (b : bool) (q : prog) : Prop :=
  match q with
  | Return _ => b = false
  | Panics _ | Blocks => True
  | Round _ _ k => b = false ∧ ∀ ds, lock_ok false (k ds)
  | Remake _ k | Log _ k => lock_ok b k
  | Lock k => b = false ∧ lock_ok true k
  | Unlock k => b = true ∧ lock_ok false k
  | Get x k => (guarded x → b = true) ∧ ∀ m, lock_ok b (k m)
  | Fetch url body k => ∀ client, lock_ok b (k (request client url body))
  | Put x f k => (guarded x → b = true) ∧ (∀ m, held (f m) = held m) ∧ lock_ok b k
  end.

Definition go_lock (b : bool) (g : gstate) : Prop :=
  match g with
  | Waiting _ => b = false
  | Running q => lock_ok b q
  | _ => False
  end.

Definition loop_lock (o : option loop) : Prop :=
  match o with Some l => ∀ rt now s, lock_ok false (l_body l rt now s) | None => True end.

(** The lock is held exactly when a goroutine is in a critical section or
    panicked in one, and by one goroutine at most. *)
Definition exclusive (a : asys) : Prop := ∃ holder : option nat,
  (∀ i o g, a_gos a !! i = Some (o, g) →
     loop_lock o ∧ go_lock (bool_decide (holder = Some i)) g)
  ∧ held (a_mem a) = bool_decide (is_Some holder)
  ∧ ∀ i, holder = Some i → (i < length (a_gos a))%nat.

Definition accesses (x : F) (q : prog) : Prop :=
  match q with Get y _ | Put y _ _ => y = x | _ => False end.

(** Two goroutines are about to access [x], one of them to write it. *)
Definition races (x : F) (gos : goroutines) : Prop :=
  ∃ i j o o' f k q, i ≠ j ∧ gos !! i = Some (o, Running (Put x f k))
    ∧ gos !! j = Some (o', Running q) ∧ accesses x q.

Lemma exclusive_race_free a x : exclusive a → guarded x → ¬ races x (a_gos a).
Proof.
  intros (holder & Hg & _ & _) Hx (i & j & o & o' & f & k & q & Hne & Hi & Hj & Ha).
  destruct (Hg _ _ _ Hi) as [_ (H1 & _)]. specialize (H1 Hx). apply bool_decide_eq_true in H1.
  destruct (Hg _ _ _ Hj) as [_ H2]. cbn in H2. assert (holder = Some j) as Hj'; [|congruence].
  destruct q; try done; cbn in Ha; subst; destruct H2 as [H2 _]; specialize (H2 Hx);
    by apply bool_decide_eq_true in H2.
Qed.

Lemma abs_races x y : races x (y_gos y) → races x (a_gos (abs y)).
Proof.
  intros (i & j & o & o' & f & k & q & Hne & Hi & Hj & Ha).
  exists i, j, o, o', f, k, q. split_and!; [done| | |done].
  - exact (abs_gos_lookup _ _ _ _ Hi).
  - exact (abs_gos_lookup _ _ _ _ Hj).
Qed.

Lemma length_set_go i g gos : length (set_go i g gos) = length gos.
Proof. apply length_alter. Qed.

(** The table after one goroutine moved: the others are as before. *)
Lemma set_go_lock i o g g' gos (b b' : nat → bool) :
  gos !! i = Some (o, g) → (∀ j, j ≠ i → b' j = b j) → (go_lock (b i) g → go_lock (b' i) g') →
  (∀ j o g, gos !! j = Some (o, g) → loop_lock o ∧ go_lock (b j) g) →
  ∀ j o g, set_go i g' gos !! j = Some (o, g) → loop_lock o ∧ go_lock (b' j) g.
Proof.
  intros Hi Hb Hg H j o1 g1. rewrite lookup_set_go. case_decide as Hj.
  - subst j. rewrite Hi. cbn. intros [= <- <-]. destruct (H i o g Hi). auto.
  - rewrite Hb by done. apply H.
Qed.

Lemma exclusive_same i o g g' gos m m' log log' :
  gos !! i = Some (o, g) → (∀ c, go_lock c g → go_lock c g') → held m' = held m →
  exclusive (MkAsys gos m log) → exclusive (MkAsys (set_go i g' gos) m' log').
Proof.
  intros Hi Hg Hm (holder & H1 & H2 & H3). cbn in *. exists holder. cbn. rewrite length_set_go, Hm.
  split_and!; [|done|done].
  by eapply (set_go_lock _ _ _ _ _ (λ i, bool_decide (holder = Some i))); eauto.
Qed.

Lemma exclusive_lock i o k gos m log log' :
  gos !! i = Some (o, Running (Lock k)) → held m = false → exclusive (MkAsys gos m log) →
  exclusive (MkAsys (set_go i (Running k) gos) (set_held true m) log').
Proof.
  intros Hi Hm (holder & H1 & H2 & H3). cbn in *. rewrite Hm in H2.
  symmetry in H2. apply bool_decide_eq_false in H2. destruct holder as [n|]; [by destruct H2|].
  exists (Some i). cbn. rewrite length_set_go, held_set. split_and!; [|done|].
  - eapply (set_go_lock _ _ _ _ _ (λ i, bool_decide (None = Some i))); [exact Hi| | |exact H1].
    + intros j Hj. rewrite !bool_decide_eq_false_2; congruence.
    + rewrite (bool_decide_eq_true_2 (Some i = Some i)) by done. by intros [_ ?].
  - intros j [= <-]. by eapply lookup_lt_Some.
Qed.

Lemma exclusive_unlock i o k gos m log log' :
  gos !! i = Some (o, Running (Unlock k)) → exclusive (MkAsys gos m log) →
  exclusive (MkAsys (set_go i (Running k) gos) (set_held false m) log').
Proof.
  intros Hi (holder & H1 & H2 & H3). cbn in *.
  destruct (H1 _ _ _ Hi) as [_ [Hb _]]. apply bool_decide_eq_true in Hb. subst holder.
  exists None. cbn. rewrite length_set_go, held_set. split_and!; [|done|done].
  eapply (set_go_lock _ _ _ _ _ (λ j, bool_decide (Some i = Some j))); [exact Hi| | |exact H1].
  - intros j Hj. rewrite !bool_decide_eq_false_2; congruence.
  - rewrite (bool_decide_eq_false_2 (None = Some i)) by done. by intros [_ ?].
Qed.

Lemma exclusive_app gos hs m log log' :
  Forall (λ p : option loop * gstate, loop_lock p.1 ∧ go_lock false p.2) hs →
  exclusive (MkAsys gos m log) → exclusive (MkAsys (gos ++ hs) m log').
Proof.
  intros Hh (holder & H1 & H2 & H3). exists holder. cbn in *. split_and!; [|done|].
  - intros i o g [?|[Hl Hi]]%lookup_app_Some; [by apply H1|].
    rewrite bool_decide_eq_false_2 by (intros E; apply H3 in E; lia).
    rewrite Forall_lookup in Hh. exact (Hh _ _ Hi).
  - intros i Hi%H3. rewrite length_app. lia.
Qed.

Hypothesis requests_lock : ∀ h, requests h → lock_ok false h.
Hypothesis spawns_lock : ∀ rt a h, spawns rt a = Some h → lock_ok false h.

Lemma spawned_lock rt es :
  Forall (λ p : option loop * gstate, loop_lock p.1 ∧ go_lock false p.2) (spawned rt es).
Proof.
  apply Forall_fmap, Forall_forall. intros q (a & _ & Ha)%list_elem_of_omap. cbn. eauto.
Qed.

Lemma abs_step_exclusive a a' : exclusive a → abs_step a a' → exclusive a'.
Proof.
  intros He Hstep. destruct Hstep as [h gos m log Hh|i l s rt now gos m log Hi Hper|i l rpc js k ds gos m log Hi Hs
    |i l rpc k gos m log Hi|i o q q' m' es rt gos m log Hi Hst|i o s gos m log Hi].
  - eapply exclusive_app; [|exact He]. constructor; [|done]. cbn. auto.
  - pose proof He as (holder & H1 & _). destruct (H1 _ _ _ Hi) as [Hl _].
    eapply exclusive_same; [exact Hi| |done|exact He]. intros c ->. apply Hl.
  - eapply exclusive_same; [exact Hi| |done|exact He]. intros c [-> Hk]. apply Hk.
  - eapply exclusive_same; [exact Hi| |done|exact He]. by intros c Hk.
  - apply (exclusive_app _ _ _ log); [apply spawned_lock|]. destruct Hst.
    + by eapply exclusive_lock.
    + by eapply exclusive_unlock.
    + eapply exclusive_same; [exact Hi| |done|exact He]. intros c Hk. apply Hk.
    + eapply exclusive_same; [exact Hi| |done|exact He]. intros c [_ Hk]. apply Hk.
    + pose proof He as (holder & H1 & _). destruct (H1 _ _ _ Hi) as [_ (_ & Hf & _)].
      eapply exclusive_same; [exact Hi| |apply Hf|exact He]. by intros c (_ & _ & Hk).
    + eapply exclusive_same; [exact Hi| |done|exact He]. by intros c Hk.
  - eapply exclusive_same; [exact Hi| |done|exact He]. by intros c Hk.
Qed.

Lemma abs_run_exclusive a0 a : exclusive a0 → abs_run a0 a → exclusive a.
Proof. intros H0. induction 1; [done|]. by eapply abs_step_exclusive. Qed.

(** A variable that only one goroutine uses is not raced for either. *)
Fixpoint avoids (x : F) (q : prog) : Prop :=
  match q with
  | Return _ | Panics _ | Blocks => True
  | Round _ _ k => ∀ ds, avoids x (k ds)
  | Fetch url body k => ∀ client, avoids x (k (request client url body))
  | Remake _ k | Lock k | Unlock k | Log _ k => avoids x k
  | Get y k => y ≠ x ∧ ∀ m, avoids x (k m)
  | Put y _ k => y ≠ x ∧ avoids x k
  end.

Definition go_avoids (x : F) (o : option loop) (g : gstate) : Prop :=
  match o with Some l => ∀ rt now s, avoids x (l_body l rt now s) | None => True end
  ∧ match g with Running q => avoids x q | _ => True end.

Section private.
Context (x : F) (owner : option loop → Prop).
Hypothesis owner_loop : ¬ owner None.

Record private (a : asys) : Prop := {
  pr_gos i o g : a_gos a !! i = Some (o, g) → owner o ∨ go_avoids x o g;
  pr_one i j o o' g g' : i ≠ j → a_gos a !! i = Some (o, g) → a_gos a !! j = Some (o', g') →
    owner o → ¬ owner o';
}.

Lemma private_race_free a : private a → ¬ races x (a_gos a).
Proof.
  intros [H1 H2] (i & j & o & o' & f & k & q & Hne & Hi & Hj & Ha).
  destruct (H1 _ _ _ Hi) as [Ho|[_ Hav]]; [|by destruct Hav].
  destruct (H1 _ _ _ Hj) as [Ho'|[_ Hav]]; [by eapply (H2 i j)|].
  destruct q; try done; cbn in Ha, Hav; subst; by destruct Hav.
Qed.

Lemma private_set_go i o g g' gos m m' log log' :
  gos !! i = Some (o, g) → (go_avoids x o g → go_avoids x o g') →
  private (MkAsys gos m log) → private (MkAsys (set_go i g' gos) m' log').
Proof.
  intros Hi Hg [H1 H2]. cbn in *.
  assert (∀ j o1 g1, set_go i g' gos !! j = Some (o1, g1) →
    ∃ g2, gos !! j = Some (o1, g2) ∧ (j = i ∧ g1 = g' ∨ g1 = g2)) as Hl.
  { intros j o1 g1. rewrite lookup_set_go. case_decide as Hj; [|by eauto].
    subst j. rewrite Hi. cbn. intros [= <- <-]. eauto. }
  split; cbn.
  - intros j o1 g1 (g2 & Hj & [[-> ->]|E])%Hl; [|by subst; eapply H1].
    rewrite Hi in Hj. injection Hj as <- <-. destruct (H1 _ _ _ Hi); auto.
  - intros j1 j2 o1 o2 g1 g2 Hne (g3 & Hj1 & _)%Hl (g4 & Hj2 & _)%Hl. by eapply (H2 j1 j2).
Qed.

Lemma private_app gos hs m log m' log' :
  Forall (λ p : option loop * gstate, p.1 = None ∧ go_avoids x p.1 p.2) hs →
  private (MkAsys gos m log) → private (MkAsys (gos ++ hs) m' log').
Proof.
  intros Hh [H1 H2]. rewrite Forall_lookup in Hh. cbn in *.
  assert (∀ i o g, (gos ++ hs) !! i = Some (o, g) →
    gos !! i = Some (o, g) ∨ (o = None ∧ go_avoids x None g)) as Hl.
  { intros i o g [?|[_ Hi]]%lookup_app_Some; [by left|]. right.
    destruct (Hh _ _ Hi) as [E ?]. cbn in *. by subst. }
  split; cbn.
  - intros i o g [?|[-> ?]]%Hl; [by eapply H1|by right].
  - intros i j o o' g g' Hne [Hi|[-> _]]%Hl [Hj|[-> _]]%Hl Ho Ho'; try done. by eapply (H2 i j).
Qed.

Hypothesis requests_avoid : ∀ h, requests h → avoids x h.
Hypothesis spawns_avoid : ∀ rt a h, spawns rt a = Some h → avoids x h.

Lemma abs_step_private a a' : private a → abs_step a a' → private a'.
Proof.
  intros Hp Hstep. destruct Hstep as [h gos m log Hh|i l s rt now gos m log Hi Hper
    |i l rpc js k ds gos m log Hi Hds|i l rpc k gos m log Hi|i o q q' m' es rt gos m log Hi Hst
    |i o s gos m log Hi].
  - eapply private_app; [|exact Hp]. constructor; [|done]. split; [done|]. split; [done|]. cbn. auto.
  - eapply private_set_go; [exact Hi| |exact Hp]. intros [Hl _]. by split; [|apply Hl].
  - eapply private_set_go; [exact Hi| |exact Hp]. intros [Hl Hq]. by split; [|apply Hq].
  - eapply private_set_go; [exact Hi| |exact Hp]. by intros [Hl Hq].
  - eapply (private_app _ _ m log).
    + apply Forall_fmap, Forall_forall. intros h (a & _ & Ha)%list_elem_of_omap. split; [done|].
      split; [done|]. cbn. eauto.
    + eapply private_set_go; [exact Hi| |exact Hp]. intros [Hl Hq]. split; [done|].
      by destruct Hst; cbn in *; auto; apply Hq.
  - eapply private_set_go; [exact Hi| |exact Hp]. by intros [Hl Hq].
Qed.

Lemma abs_run_private a0 a : private a0 → abs_run a0 a → private a.
Proof. intros H0. induction 1; [done|]. by eapply abs_step_private. Qed.
End private.

(** ** Invariants of the memory

    [P] holds of the memory at all times, [Q] of what the goroutines keep between
    ticks and [R] of everything they log. A goroutine may own variables that only
    it writes ([mine]); its proof carries an assertion about them, [J] between
    ticks, which the steps of the others keep. [agree x] relates memories with
    the same value of [x]. [seen] are the events of the run in question: what a
    goroutine logs or keeps may refer to what it received. *)

Context (P : M → Prop) (Q : S → Prop) (R : A → Prop).
Context (agree : F → M → M → Prop) (mine : option loop → F → Prop) (J : option loop → M → Prop).
Context (seen : option loop → event → Prop).

Definition depends (o : option loop) (C : M → Prop) : Prop :=
  ∀ m m', (∀ x, mine o x → agree x m m') → C m → C m'.

Definition owned (x : F) : Prop := ∃ o, mine o x.

Fixpoint outline (o : option loop) (C : M → Prop) (q : prog) : Prop :=
  match q with
  | Return s => Q s ∧ ∀ m, P m → C m → J o m
  | Panics _ | Blocks => True
  | Round rpc js k =>
      ∀ ds, served js ds → seen o (Received rpc ds) → outline o C (k ds)
  | Remake _ k | Lock k | Unlock k => outline o C k
  | Get _ k => ∀ m, P m → C m → outline o C (k m)
  | Fetch url body k =>
      ∀ client, seen o (Fetched url body (request client url body)) →
        outline o C (k (request client url body))
  | Put _ f k =>
      (∀ y m, owned y → ¬ mine o y → agree y m (f m))
      ∧ ∃ C', depends o C' ∧ (∀ m, P m → C m → P (f m) ∧ C' (f m)) ∧ outline o C' k
  | Log acts k => Forall R acts ∧ outline o C k
  end.

Definition loop_sound (o : option loop) : Prop :=
  match o with
  | Some l => 0 < l_period l → ∀ rt now s, Q s → outline o (J o) (l_body l rt now s)
  | None => True
  end.

Definition go_sound (m : M) (o : option loop) (g : gstate) : Prop :=
  loop_sound o
  ∧ match g with
    | Waiting s => Q s ∧ J o m
    | Running q => ∃ C, depends o C ∧ C m ∧ outline o C q
    | _ => False
    end.

Record sound (a : asys) : Prop := {
  so_gos i o g : a_gos a !! i = Some (o, g) → go_sound (a_mem a) o g;
  so_mine i j o o' g g' : i ≠ j → a_gos a !! i = Some (o, g) → a_gos a !! j = Some (o', g') →
    ∀ x, mine o x → ¬ mine o' x;
  so_mem : P (a_mem a);
  so_log : Forall R (logged (a_trace a));
}.

Hypothesis agree_refl : ∀ x m, agree x m m.
Hypothesis agree_held : ∀ x b m, agree x m (set_held b m).
Hypothesis mine_None : ∀ x, ¬ mine None x.
Hypothesis J_depends : ∀ o, depends o (J o).
Hypothesis P_held : ∀ b m, P m → P (set_held b m).
Hypothesis requests_sound : ∀ h, requests h → outline None (λ _, True) h.
Hypothesis spawns_sound : ∀ rt a h, R a → spawns rt a = Some h → outline None (λ _, True) h.

(** What the others do keeps a goroutine's assertion. *)
Lemma go_sound_frame m m' o g :
  (∀ x, mine o x → agree x m m') → go_sound m o g → go_sound m' o g.
Proof.
  intros Hm [Hl Hg]. split; [done|]. destruct g as [s|q| | |]; try done.
  - destruct Hg as [HQ HJ]. split; [done|]. by eapply J_depends.
  - destruct Hg as (C & Hd & HC & Ho). exists C. split; [done|]. split; [|done]. by eapply Hd.
Qed.

(** One goroutine moves and changes the memory. *)
Lemma sound_set_go i o g g' gos m m' log log' :
  gos !! i = Some (o, g) → (go_sound m o g → go_sound m' o g') →
  (∀ x, ¬ mine o x → owned x → agree x m m') → P m' → Forall R (logged log') →
  sound (MkAsys gos m log) → sound (MkAsys (set_go i g' gos) m' log').
Proof.
  intros Hi Hg Hm HP HR [H1 H2 H3 H4]. cbn in *.
  assert (∀ j o1 g1, set_go i g' gos !! j = Some (o1, g1) →
    ∃ g2, gos !! j = Some (o1, g2) ∧ (j = i ∧ g1 = g' ∨ j ≠ i ∧ g1 = g2)) as Hl.
  { intros j o1 g1. rewrite lookup_set_go. case_decide as Hj; [|by eauto].
    subst j. rewrite Hi. cbn. intros [= <- <-]. eauto. }
  split; cbn; [| |done|done].
  - intros j o1 g1 (g2 & Hj & [[-> ->]|[Hne ->]])%Hl.
    + rewrite Hi in Hj. injection Hj as <- <-. apply Hg. by eapply H1.
    + eapply go_sound_frame; [|by eapply H1]. intros x Hx.
      apply Hm; [|by exists o1]. by eapply (H2 j i).
  - intros j1 j2 o1 o2 g1 g2 Hne (? & Hj1 & _)%Hl (? & Hj2 & _)%Hl. by eapply (H2 j1 j2).
Qed.

Lemma sound_app gos hs m log :
  Forall (λ p : option loop * gstate, p.1 = None ∧ go_sound m p.1 p.2) hs →
  sound (MkAsys gos m log) → sound (MkAsys (gos ++ hs) m log).
Proof.
  intros Hh [H1 H2 H3 H4]. rewrite Forall_lookup in Hh.
  assert (∀ i o g, (gos ++ hs) !! i = Some (o, g) →
    gos !! i = Some (o, g) ∨ (o = None ∧ go_sound m None g)) as Hl.
  { intros i o g [?|[_ Hi]]%lookup_app_Some; [by left|]. right.
    destruct (Hh _ _ Hi) as [E ?]. cbn in *. by subst. }
  split; cbn in *; [| |done|done].
  - intros i o g [?|[-> ?]]%Hl; [by eapply H1|done].
  - intros i j o o' g g' Hne [Hi|[-> _]]%Hl [Hj|[-> _]]%Hl; [by eapply (H2 i j)|..];
      intros x Hx; by try apply mine_None in Hx.
Qed.

Lemma go_sound_start m h : outline None (λ _, True) h → go_sound m None (Running h).
Proof. intros Hh. split; [done|]. exists (λ _, True). by split. Qed.

Lemma spawned_sound m rt es :
  Forall R (all_acts es) →
  Forall (λ p : option loop * gstate, p.1 = None ∧ go_sound m p.1 p.2) (spawned rt es).
Proof.
  intros HR. apply Forall_fmap, Forall_forall. intros q (a & Hin & Ha)%list_elem_of_omap.
  split; [done|]. rewrite Forall_forall in HR. apply go_sound_start. eauto.
Qed.

(** What one goroutine does to the memory. *)
Lemma prog_step_sound o q m q' m' es :
  prog_step q m q' m' es → (∀ e, e ∈ es → seen o e) → P m → go_sound m o (Running q) →
  P m' ∧ go_sound m' o (Running q') ∧ Forall R (all_acts es)
  ∧ (∀ x, ¬ mine o x → owned x → agree x m m').
Proof.
  intros Hst Hsn HP [Hl (C & Hd & HC & Hq)].
  assert (∀ b, C (set_held b m)) as Hheld by (intros b; eapply Hd; [|done]; auto).
  assert (∀ C' q1 m1, depends o C' → C' m1 → outline o C' q1 → go_sound m1 o (Running q1)) as Hgo
    by (intros C' ???; split; [done|]; by exists C').
  destruct Hst as [k m Hh|k m|client url body k m|x k m|x f k m|acts k m]; cbn in Hq.
  - split_and!; [by auto| |by constructor|by auto]. by eapply Hgo.
  - split_and!; [by auto| |by constructor|by auto]. by eapply Hgo.
  - split_and!; [done| |by constructor|by auto]. eapply Hgo; [done..|]. apply Hq, Hsn, list_elem_of_here.
  - split_and!; [done| |by constructor|by auto]. eapply Hgo; eauto.
  - destruct Hq as (Hf & C' & HdC & Hp & Ho). destruct (Hp m HP HC) as [HP' HC'].
    split_and!; [done| |by constructor|by auto]. by eapply Hgo.
  - destruct Hq as [HR Ho]. split_and!; [done|by eapply Hgo| |by auto].
    unfold all_acts. cbn. by rewrite app_nil_r.
Qed.

Lemma go_sound_step (m : M) o q q' :
  (∀ C, outline o C q → outline o C q') → go_sound m o (Running q) → go_sound m o (Running q').
Proof. intros H [Hl (C & Hd & HC & Hq)]. split; [done|]. exists C. auto. Qed.

(** The events of the run are those that were seen. *)
Definition witnessed (a : asys) : Prop := ∀ i o g e,
  a_gos a !! i = Some (o, g) → (i, e) ∈ a_trace a → seen o e.

Lemma abs_step_witnessed a a' : abs_step a a' → witnessed a' → witnessed a.
Proof.
  intros Hstep Hw i o g e Hi He. destruct (abs_step_extends a a' Hstep) as [[es Etr] Hgos].
  destruct (Hgos i o g Hi) as [g' Hi']. apply (Hw i o g'); [done|].
  rewrite Etr. apply elem_of_app. by left.
Qed.

Lemma abs_step_sound a a' : sound a → abs_step a a' → witnessed a' → sound a'.
Proof.
  intros Hs Hstep Hw. pose proof Hs as [H1 H2 H3 H4].
  assert (∀ i o g g' es hs gos tr m, witnessed (MkAsys (set_go i g' gos ++ hs) m (tr ++ own i es)) →
    gos !! i = Some (o, g) → ∀ e, e ∈ es → seen o e) as Hsn.
  { intros i o g g' es hs gos tr m Hwit Hi e He. apply (Hwit i o g').
    - apply lookup_app_l_Some. rewrite lookup_set_go, decide_True, Hi by done. done.
    - apply elem_of_app. right. by apply list_elem_of_fmap_2. }
  destruct Hstep as [h gos m log Hh|i l s rt now gos m log Hi Hper|i l rpc js k ds gos m log Hi Hds
    |i l rpc k gos m log Hi|i o q q' m' es rt gos m log Hi Hst|i o s gos m log Hi]; cbn in *.
  - apply sound_app; [|done]. constructor; [|done]. split; [done|]. by apply go_sound_start, requests_sound.
  - eapply sound_set_go; [exact Hi| |by auto|done| |done].
    + intros [Hl [HQ HJ]]. split; [done|]. exists (J (Some l)). auto.
    + rewrite logged_app. by apply Forall_app_2; [|constructor].
  - eapply sound_set_go; [exact Hi| |by auto|done| |done].
    + apply go_sound_step. intros C Hk. apply Hk; [done|].
      rewrite <-(app_nil_r (set_go _ _ _)) in Hw.
      apply (Hsn _ _ _ _ [Received rpc ds] _ _ _ _ Hw Hi), list_elem_of_here.
    + rewrite logged_app. by apply Forall_app_2; [|constructor].
  - eapply sound_set_go; [exact Hi| |by auto|done|done|done]. by apply go_sound_step.
  - destruct (prog_step_sound o _ _ _ _ _ Hst (Hsn _ _ _ _ _ _ _ _ _ Hw Hi) H3 (H1 _ _ _ Hi))
      as (HP & Hg & HR & Hm).
    apply sound_app; [by apply spawned_sound|].
    eapply sound_set_go; [exact Hi|done|done|done| |exact Hs].
    rewrite logged_app, logged_own. by apply Forall_app.
  - eapply sound_set_go; [exact Hi| |by auto|done|done|done].
    intros [Hl (C & Hd & HC & HQ & HJ)]. split; [done|]. split; [done|]. by apply HJ.
Qed.

Lemma abs_run_sound a0 a : sound a0 → abs_run a0 a → witnessed a → sound a.
Proof.
  intros H0. induction 1 as [|a a' _ IH Hstep]; [done|]. intros Hw.
  eapply abs_step_sound; [|exact Hstep|done]. by eapply IH, abs_step_witnessed.
Qed.
End programs.
