(* ===== verification/Histories.v ===== *)
(** * What each goroutine did

    The trace of a system is a merge of the histories of its goroutines, and the
    history of a goroutine is what its program does when the memory it reads, the
    replies it gets and the answers of the nodes are arbitrary: whole ticks of its
    loop, and a beginning of the next one ([abs_run_chronicle]). [may] is the
    effect of a whole program in that sense, and every beginning of a program that
    does not panic can be completed ([reaches_completes]). *)

From S2P Require Import Prelude GoTime Rpc Pool Goroutines.

Section histories.
Context {F S M A RT : Type}.
Notation prog := (@prog F S M A).
Notation loop := (@loop F S M A RT).
Notation gstate := (@gstate F S M A).
Notation event := (@event A).

(** ** One goroutine among others *)

(** A step of a goroutine, with its events. *)
Inductive moves : prog → list event → prog → Prop :=
  | move_round rpc js k ds : served js ds → moves (Round rpc js k) [Received rpc ds] (k ds)
  | move_fetch client url body k :
      moves (Fetch url body k) [Fetched url body (request client url body)]
        (k (request client url body))
  | move_remake rpc k : moves (Remake rpc k) [] k
  | move_lock k : moves (Lock k) [] k
  | move_unlock k : moves (Unlock k) [] k
  | move_get x k m : moves (Get x k) [] (k m)
  | move_put x f k : moves (Put x f k) [] k
  | move_log acts k : moves (Log acts k) [Logged acts] k.

Inductive reaches (q : prog) : list event → prog → Prop :=
  | reaches_refl : reaches q [] q
  | reaches_step es q1 es' q2 :
      reaches q es q1 → moves q1 es' q2 → reaches q (es ++ es') q2.

(** ** Whole programs *)

(** The program can do [es] and end with [s], or wait for ever. *)
Fixpoint may (q : prog) (es : list event) (s : S) : Prop :=
  match q with
  | Return s' => es = [] ∧ s' = s
  | Panics _ => False
  | Blocks => es = []
  | Round rpc js k => ∃ ds es', served js ds ∧ es = Received rpc ds :: es' ∧ may (k ds) es' s
  | Fetch url body k => ∃ client es',
      es = Fetched url body (request client url body) :: es' ∧ may (k (request client url body)) es' s
  | Remake _ k | Lock k | Unlock k | Put _ _ k => may k es s
  | Get _ k => ∃ m, may (k m) es s
  | Log acts k => ∃ es', es = Logged acts :: es' ∧ may k es' s
  end.

Lemma moves_may q es q' es' s : moves q es q' → may q' es' s → may q (es ++ es') s.
Proof. destruct 1; cbn; eauto 6. Qed.

Lemma reaches_may q es q' es' s : reaches q es q' → may q' es' s → may q (es ++ es') s.
Proof.
  intros H. revert es'. induction H as [|es q1 es1 q2 _ IH Hm]; intros es' H'; [done|].
  rewrite <-app_assoc. by eapply IH, moves_may.
Qed.

Lemma reaches_return q es s : reaches q es (Return s) → may q es s.
Proof. intros H. rewrite <-(app_nil_r es). by eapply reaches_may. Qed.

(** ** Histories *)

(** Whole ticks of a loop, each with its time and what was done in it. *)
Notation ticks := (list (Time * list event)).

Definition tick_events (t : Time * list event) : list event := Ticked t.1 :: t.2.

Inductive ticked (l : loop) (s0 : S) : ticks → S → Prop :=
  | ticked_nil : ticked l s0 [] s0
  | ticked_snoc h s rt now es s' :
      ticked l s0 h s → may (l_body l rt now s) es s' → ticked l s0 (h ++ [(now, es)]) s'.

(** What a goroutine did until it got where it is; [started] are the programs of
    goroutines without a loop. *)
Inductive told (s0 : S) (started : prog → Prop) : option loop → gstate → list event → Prop :=
  | told_waiting l h s :
      ticked l s0 h s → told s0 started (Some l) (Waiting s) (h ≫= tick_events)
  | told_running l h s rt now es q :
      ticked l s0 h s → reaches (l_body l rt now s) es q →
      told s0 started (Some l) (Running q) ((h ≫= tick_events) ++ Ticked now :: es)
  | told_once p es q :
      started p → reaches p es q → told s0 started None (Running q) es
  | told_done p es s :
      started p → reaches p es (Return s) → told s0 started None (Waiting s) es.

Lemma told_mono s0 (P Q : prog → Prop) o g es :
  (∀ p, P p → Q p) → told s0 P o g es → told s0 Q o g es.
Proof. intros HPQ. destruct 1; econstructor; eauto. Qed.

Lemma told_ticks s0 P l s rt now es :
  told s0 P (Some l) (Waiting s) es →
  told s0 P (Some l) (Running (l_body l rt now s)) (es ++ [Ticked now]).
Proof. intros Ht. inversion Ht; subst. eapply told_running; [done|constructor]. Qed.

Lemma told_moves s0 P o q es es' q' :
  told s0 P o (Running q) es → moves q es' q' → told s0 P o (Running q') (es ++ es').
Proof.
  intros Ht Hm. inversion Ht; subst.
  - rewrite <-app_assoc. cbn. eapply told_running; [done|]. by eapply reaches_step.
  - eapply told_once; [done|]. by eapply reaches_step.
Qed.

Lemma told_returns s0 P o s es :
  told s0 P o (Running (Return s)) es → told s0 P o (Waiting s) es.
Proof.
  intros Ht. inversion Ht; subst; [|by eapply told_done].
  replace ((h ≫= tick_events) ++ Ticked now :: es0) with ((h ++ [(now, es0)]) ≫= tick_events)
    by (rewrite bind_app; cbn; by rewrite app_nil_r).
  apply told_waiting. by eapply ticked_snoc, reaches_return.
Qed.

(** ** The parts of a trace *)

(** The events of goroutine [i]. *)
Definition of_go (i : nat) (tr : list (nat * event)) : list event :=
  (filter (λ p, p.1 = i) tr).*2.

Lemma of_go_app i tr tr' : of_go i (tr ++ tr') = of_go i tr ++ of_go i tr'.
Proof. unfold of_go. by rewrite filter_app, fmap_app. Qed.

Lemma of_go_own i es : of_go i (own i es) = es.
Proof.
  unfold of_go, own. induction es as [|a es IH]; [done|]. cbn [fmap list_fmap].
  rewrite filter_cons_True by done. cbn. by f_equal.
Qed.

Lemma of_go_other i j es : i ≠ j → of_go j (own i es) = [].
Proof.
  intros Hne. unfold of_go, own. induction es as [|a es IH]; [done|]. cbn [fmap list_fmap].
  by rewrite filter_cons_False by done.
Qed.

Lemma elem_of_go i e tr : e ∈ of_go i tr ↔ (i, e) ∈ tr.
Proof.
  unfold of_go. rewrite list_elem_of_fmap. split.
  - by intros ([j e'] & -> & [? ?]%list_elem_of_filter); simplify_eq/=.
  - intros H. exists (i, e). split; [done|]. by apply list_elem_of_filter.
Qed.

Lemma of_go_none i tr : (∀ j e, (j, e) ∈ tr → j ≠ i) → of_go i tr = [].
Proof.
  intros H. destruct (of_go i tr) as [|e es] eqn:E; [done|]. exfalso.
  apply (H i e); [|done]. apply elem_of_go. rewrite E. set_solver.
Qed.

(** ** Programs that cannot panic *)

(** The program never panics. *)
Fixpoint total (q : prog) : Prop :=
  match q with
  | Return _ | Blocks => True
  | Panics _ => False
  | Round _ js k => ∀ ds, served js ds → total (k ds)
  | Fetch url body k => ∀ client, total (k (request client url body))
  | Remake _ k | Lock k | Unlock k | Put _ _ k | Log _ k => total k
  | Get _ k => ∀ m, total (k m)
  end.

Lemma moves_total q es q' : moves q es q' → total q → total q'.
Proof. destruct 1; cbn; eauto. Qed.

Lemma reaches_total q es q' : reaches q es q' → total q → total q'.
Proof. induction 1; [done|]. intros Hq. eapply moves_total; eauto. Qed.

(** Requests can always fail. *)
Definition refused : http_client := λ _ _, inl "connection refused"%string.

Lemma served_refused js : served js (do_work refused <$> js).
Proof.
  exists (do_work refused <$> js). split; [|done]. apply Forall2_fmap_r, Forall_Forall2_diag.
  apply Forall_forall. intros j _. by exists refused.
Qed.

Lemma total_may (s0 : S) (m : M) q : total q → ∃ es s, may q es s.
Proof.
  induction q as [s|w| |rpc js k IH|url body k IH|rpc k IH|k IH|k IH|x k IH|x f k IH|acts k IH];
    cbn; [by eauto|done|by exists [], s0| | |done|done|done| |done|].
  - intros Hk. destruct (IH (do_work refused <$> js)) as (es & s & H); [apply Hk, served_refused|].
    eexists (_ :: es), s, _, es. split_and!; [apply served_refused|done|done].
  - intros Hk. destruct (IH (request refused url body)) as (es & s & H); [apply Hk|].
    by eexists (_ :: es), s, refused, es.
  - intros Hk. destruct (IH m) as (es & s & H); [apply Hk|]. by exists es, s, m.
  - intros Hk. destruct (IH Hk) as (es & s & H). by eexists (_ :: es), s, es.
Qed.

(** A beginning of a program that never panics is one of a whole execution. *)
Lemma reaches_completes (s0 : S) (m : M) q es q' :
  total q → reaches q es q' → ∃ rest s, may q (es ++ rest) s.
Proof.
  intros Hq Hr. destruct (total_may s0 m q') as (rest & s & H); [by eapply reaches_total|].
  exists rest, s. by eapply reaches_may.
Qed.

(** The program does nothing that others can tell. *)
Fixpoint mute (q : prog) : Prop :=
  match q with
  | Return _ | Panics _ | Blocks => True
  | Round _ _ _ | Fetch _ _ _ | Log _ _ => False
  | Remake _ k | Lock k | Unlock k | Put _ _ k => mute k
  | Get _ k => ∀ m, mute (k m)
  end.

Lemma reaches_mute q es q' : mute q → reaches q es q' → es = [] ∧ mute q'.
Proof.
  intros Hq. induction 1 as [|es q1 es1 q2 _ [-> Hs] Hm]; [done|].
  by destruct Hm; cbn in Hs.
Qed.

Lemma may_mute q es s : mute q → may q es s → es = [].
Proof.
  revert es. induction q as [s'|w| |rpc js k IH|url body k IH|rpc k IH|k IH|k IH|x k IH|x f k IH|acts k IH];
    intros es; cbn; eauto; try done.
  - by intros _ [-> _].
  - intros Hq [m H]. by eapply IH.
Qed.

(** A program does not wait for a tick. *)
Definition unticked (e : event) : Prop := match e with Ticked _ => False | _ => True end.

Lemma may_unticked q es s : may q es s → Forall unticked es.
Proof.
  revert es. induction q as [s'|w| |rpc js k IH|url body k IH|rpc k IH|k IH|k IH|x k IH|x f k IH|acts k IH];
    intros es; cbn; try done.
  - by intros [-> _].
  - by intros ->.
  - intros (ds & es' & _ & -> & H). constructor; [done|by eapply IH].
  - intros (client & es' & -> & H). constructor; [done|by eapply IH].
  - apply IH.
  - apply IH.
  - apply IH.
  - intros [m H]. by eapply IH.
  - apply IH.
  - intros (es' & -> & H). constructor; [done|by apply IH].
Qed.

(** *** The last line *)

Lemma tick_events_snoc (h : ticks) (now : Time) (es : list event) :
  (h ++ [(now, es)]) ≫= tick_events = (h ≫= tick_events) ++ Ticked now :: es.
Proof. rewrite bind_app. cbn. by rewrite app_nil_r. Qed.

(** A tick ends with a line. *)
Lemma tick_ends (h : ticks) (now : Time) (es es0 : list event) acts :
  (h ≫= tick_events) ++ Ticked now :: es = es0 ++ [Logged acts] →
  ∃ es', es = es' ++ [Logged acts] ∧ es0 = (h ≫= tick_events) ++ Ticked now :: es'.
Proof.
  destruct es as [|e es _] using rev_ind; intros E.
  - apply app_inj_2 in E as [_ E]; [done|done].
  - rewrite app_comm_cons, app_assoc in E. apply app_inj_2 in E as [<- [= ->]]; [|done]. by exists es.
Qed.

(** The tick in which a loop logged its last line. *)
Lemma told_tick (m : M) s0 P l g es acts :
  (∀ rt now s, total (l_body l rt now s)) → told s0 P (Some l) g (es ++ [Logged acts]) →
  ∃ h s rt now es' rest s', ticked l s0 h s
    ∧ may (l_body l rt now s) (es' ++ Logged acts :: rest) s'
    ∧ es = (h ≫= tick_events) ++ Ticked now :: es'.
Proof.
  intros Htot Ht. inversion Ht as [l' h s Hh E1 E2 E|l' h s rt now es1 q Hh Hr E1 E2 E| |]; subst.
  - destruct Hh as [|h s' rt now es1 s Hh Hm]; [by destruct es|]. rewrite tick_events_snoc in E.
    apply tick_ends in E as (es' & -> & ->). exists h, s', rt, now, es', [], s. done.
  - apply tick_ends in E as (es' & -> & ->).
    destruct (reaches_completes s0 m _ _ _ (Htot rt now s) Hr) as (rest & s' & Hm).
    rewrite <-app_assoc in Hm. by exists h, s, rt, now, es', rest, s'.
Qed.

Lemma told_check (m : M) s0 (P : prog → Prop) g es acts :
  (∀ p, P p → total p ∨ mute p) → told s0 P None g (es ++ [Logged acts]) →
  ∃ p rest s, P p ∧ may p (es ++ Logged acts :: rest) s.
Proof.
  intros HP Ht. assert (∃ p q, P p ∧ reaches p (es ++ [Logged acts]) q) as (p & q & Hp & Hr)
    by (inversion Ht; subst; eauto).
  exists p. destruct (HP p Hp) as [Htot|Hm].
  - destruct (reaches_completes s0 m _ _ _ Htot Hr) as (rest & s & H). rewrite <-app_assoc in H. eauto.
  - apply reaches_mute in Hr as [E _]; [|done]. by destruct es.
Qed.
End histories.

Section chronicles.
Context {F S M A RT : Type}.
Notation prog := (@prog F S M A).
Notation loop := (@loop F S M A RT).
Notation gstate := (@gstate F S M A).
Notation event := (@event A).
Notation asys := (@asys F S M A RT).
Context (held : M → bool) (set_held : bool → M → M).
Context (requests : prog → Prop) (spawns : RT → A → option prog).
Notation step := (abs_step held set_held requests spawns).
Notation run := (abs_run held set_held requests spawns).

(** ** The trace *)

Lemma prog_step_moves (q : prog) m q' m' es :
  prog_step held set_held q m q' m' es → moves q es q'.
Proof. destruct 1; constructor. Qed.

(** The program of goroutine [i]: one that was there at the start, a handler of a
    request, or what an action starts that another goroutine logged before [i]
    did anything. *)
Inductive origin (initial : prog → Prop) (tr : list (nat * event)) (i : nat) (p : prog) : Prop :=
  | origin_initial : initial p → origin initial tr i p
  | origin_request : requests p → origin initial tr i p
  | origin_action rt a j acts tr1 tr2 :
      tr = tr1 ++ (j, Logged acts) :: tr2 → a ∈ acts → spawns rt a = Some p →
      i ≠ j → of_go i tr1 = [] → origin initial tr i p.

Definition chronicle (s0 : S) (initial : prog → Prop) (a : asys) : Prop :=
  (∀ i e, (i, e) ∈ a_trace a → (i < length (a_gos a))%nat)
  ∧ ∀ i o g, a_gos a !! i = Some (o, g) →
      told s0 (origin initial (a_trace a) i) o g (of_go i (a_trace a)).

Lemma origin_app initial tr tr' i p : origin initial tr i p → origin initial (tr ++ tr') i p.
Proof.
  intros [?|?|rt a j acts tr1 tr2 -> Ha Hs Hne Hi]; [by apply origin_initial|by apply origin_request|].
  apply (origin_action _ _ _ _ rt a j acts tr1 (tr2 ++ tr')); try done. by rewrite <-app_assoc.
Qed.

(** A goroutine that [i] starts. *)
Lemma origin_spawned initial tr i k es rt q :
  k ≠ i → of_go k tr = [] → q ∈ omap (spawns rt) (all_acts es) →
  origin initial (tr ++ own i es) k q.
Proof.
  intros Hne Hk (a & Ha & Hs)%list_elem_of_omap. apply list_elem_of_bind in Ha as (e & Ha & He).
  destruct e as [| | |acts]; cbn in Ha; try by apply elem_of_nil in Ha.
  apply list_elem_of_split in He as (es1 & es2 & ->).
  apply (origin_action _ _ _ _ rt a i acts (tr ++ own i es1) (own i es2)); try done.
  - unfold own. rewrite fmap_app. cbn. by rewrite <-app_assoc.
  - rewrite of_go_app, Hk. by apply of_go_other.
Qed.

(** One goroutine moves, does [es], and others may start. *)
Lemma chronicle_moves s0 initial i o g g' es hs gos m m' tr :
  gos !! i = Some (o, g) →
  (∀ h P, told s0 P o g h → told s0 P o g' (h ++ es)) →
  (∀ p, p ∈ hs → ∃ q rt, p = (None, Running q) ∧ q ∈ omap (spawns rt) (all_acts es)) →
  chronicle s0 initial (MkAsys gos m tr) →
  chronicle s0 initial (MkAsys (set_go i g' gos ++ hs) m' (tr ++ own i es)).
Proof.
  intros Hi Hg Hhs (Hlt & Ht). cbn in *. pose proof (lookup_lt_Some _ _ _ Hi) as Hil. split.
  - cbn. rewrite length_app, length_set_go.
    intros j x [?%Hlt|(a & [= -> ->] & _)%list_elem_of_fmap]%elem_of_app; lia.
  - intros j o1 g1 [Hj|[Hge Hj]]%lookup_app_Some; cbn [a_trace]; rewrite of_go_app.
    + rewrite lookup_set_go in Hj. case_decide as E.
      * subst j. rewrite Hi in Hj. cbn in Hj. injection Hj as <- <-. rewrite of_go_own. apply Hg.
        eapply told_mono; [|by apply Ht]. intros p. apply origin_app.
      * rewrite of_go_other, app_nil_r by done. eapply told_mono; [|by apply Ht].
        intros p. apply origin_app.
    + rewrite length_set_go in Hge.
      apply list_elem_of_lookup_2, Hhs in Hj as (q & rt & [= -> ->] & Hq).
      assert (of_go j tr = []) as Hno by (apply of_go_none; intros k e Hk%Hlt; lia).
      rewrite Hno, of_go_other by lia.
      eapply told_once; [|constructor]. eapply origin_spawned; [lia|done|exact Hq].
Qed.

(** One goroutine moves, and no other starts. *)
Lemma chronicle_moves_alone s0 initial i o g g' es gos m m' tr :
  gos !! i = Some (o, g) →
  (∀ h P, told s0 P o g h → told s0 P o g' (h ++ es)) →
  chronicle s0 initial (MkAsys gos m tr) →
  chronicle s0 initial (MkAsys (set_go i g' gos) m' (tr ++ own i es)).
Proof.
  intros Hi Hg Hc. rewrite <-(app_nil_r (set_go _ _ _)).
  eapply chronicle_moves; [exact Hi|exact Hg|set_solver|exact Hc].
Qed.

Lemma abs_step_chronicle s0 initial a a' :
  chronicle s0 initial a → step a a' → chronicle s0 initial a'.
Proof.
  intros Hc Hstep. destruct Hstep as [h gos m tr Hh|i l s rt now gos m tr Hi Hper
    |i l rpc js k ds gos m tr Hi Hds|i l rpc k gos m tr Hi|i o q q' m' es rt gos m tr Hi Hst
    |i o s gos m tr Hi].
  - destruct Hc as (Hlt & Ht). cbn [a_gos a_trace] in *. split; cbn [a_gos a_trace].
    + intros i e Hx%Hlt. rewrite length_app. lia.
    + intros i o g [Hi|[Hge Hi]]%lookup_app_Some; [by apply Ht|].
      apply list_elem_of_lookup_2, list_elem_of_singleton in Hi as [= -> ->]. rewrite of_go_none.
      * eapply told_once; [by apply origin_request|constructor].
      * intros j x Hx%Hlt. lia.
  - eapply chronicle_moves_alone; [exact Hi| |exact Hc]. intros h P. apply told_ticks.
  - eapply chronicle_moves_alone; [exact Hi| |exact Hc].
    intros h P Ht. eapply told_moves; [exact Ht|by constructor].
  - rewrite <-(app_nil_r tr). eapply (chronicle_moves_alone _ _ _ _ _ _ []); [exact Hi| |exact Hc].
    intros h P Ht. eapply told_moves; [exact Ht|by constructor].
  - eapply chronicle_moves; [exact Hi| | |exact Hc].
    + intros h P Ht. eapply told_moves; [exact Ht|by eapply prog_step_moves].
    + intros p (q1 & -> & Hq)%list_elem_of_fmap. by exists q1, rt.
  - rewrite <-(app_nil_r tr). eapply (chronicle_moves_alone _ _ _ _ _ _ []); [exact Hi| |exact Hc].
    intros h P Ht. rewrite app_nil_r. by apply told_returns.
Qed.

Lemma abs_run_chronicle s0 initial a0 a :
  chronicle s0 initial a0 → run a0 a → chronicle s0 initial a.
Proof. intros H0. induction 1; [done|]. by eapply abs_step_chronicle. Qed.

(** The start: nothing done, loops waiting, the other goroutines at their
    beginning. *)
Lemma chronicle_start s0 (initial : prog → Prop) gos m :
  (∀ i o g, gos !! i = Some (o, g) →
     (∃ l, o = Some l ∧ g = Waiting s0) ∨ (∃ p, o = None ∧ g = Running p ∧ initial p)) →
  chronicle s0 initial (MkAsys gos m []).
Proof.
  intros H. split; [set_solver|]. cbn. intros i o g Hi.
  destruct (H i o g Hi) as [(l & -> & ->)|(p & -> & -> & Hp)].
  - apply (told_waiting _ _ l [] s0). constructor.
  - eapply told_once; [by apply origin_initial|constructor].
Qed.

(** ** Beginnings of a run *)

(** Every step has at most one event. *)
Lemma abs_step_event a a' :
  step a a' → a_trace a' = a_trace a ∨ ∃ x, a_trace a' = a_trace a ++ [x].
Proof.
  intros Hstep. destruct Hstep as [| | | |i o q q' m' es rt gos m tr Hi Hst|]; cbn; eauto.
  destruct Hst; cbn; rewrite ?app_nil_r; eauto.
Qed.

(** The run got to each event of its trace. *)
Lemma abs_run_prefix a0 a pre x post :
  run a0 a → a_trace a0 = [] → a_trace a = pre ++ x :: post →
  ∃ a1, run a0 a1 ∧ a_trace a1 = pre ++ [x].
Proof.
  intros Hrun H0. revert post. induction Hrun as [|a a' Hrun IH Hstep]; intros post E.
  { rewrite H0 in E. by destruct pre. }
  destruct (abs_step_event a a' Hstep) as [E'|[y E']].
  { apply (IH post). by rewrite <-E'. }
  destruct post as [|z post _] using rev_ind.
  { exists a'. split; [by eapply abs_run_step|done]. }
  rewrite E', app_comm_cons, app_assoc in E. apply app_inj_2 in E as [E _]; [|done].
  by apply (IH post).
Qed.
End chronicles.
