(* ===== verification/Schedules.v ===== *)
(** * Runs of the goroutines that can be computed

    [exec] is a step of the system for a choice of who moves, so that a schedule
    can be evaluated and its result shown to be reachable. *)

From S2P Require Import Prelude GoTime Rpc Pool Goroutines.

Section schedules.
Context {F S M A RT : Type}.
Notation prog := (@prog F S M A).
Notation loop := (@loop F S M A RT).
Notation gstate := (@gstate F S M A).
Notation sys := (@sys F S M A RT).
Notation event := (@event A).

Context (cap : nat) (held : M → bool) (set_held : bool → M → M).
Context (requests : prog → Prop) (spawns : RT → A → option prog).

(** Who moves next: worker [i] of pool [c], a request, the ticker of goroutine
    [i], or goroutine [i] itself, with the choices of the runtime. *)
Inductive choice : Type :=
  | MoveWorker (c i : nat) (client : http_client)
  | MoveRequest (h : prog)
  | MoveTick (i : nat) (rt : RT) (now : Time)
  | MoveGo (i : nat) (rt : RT) (client : http_client).

Definition exec_worker (client : http_client) (i : nat) (p : pool) : option pool :=
  w ← p_workers p !! i;
  match w with
  | Idle =>
      match p_jobs p with
      | j :: js => Some (set_jobs js (set_worker i (Working j) p))
      | [] => None
      end
  | Working j =>
      if p_open p (w_rpc j) then
        if bool_decide (length (p_chan p (w_rpc j)) < cap)%nat then
          Some (set_chan (w_rpc j) (p_chan p (w_rpc j) ++ [do_work client j])
                  (set_worker i (Replied j) p))
        else None
      else Some (set_crash ClosedChannel p)
  | Replied j =>
      if 0 <? p_group p (w_rpc j) then
        Some (set_group (w_rpc j) (p_group p (w_rpc j) - 1) (set_worker i Idle p))
      else Some (set_crash NegativeCounter p)
  end.

Definition exec_owner (g : gstate) (p : pool) : option (gstate * pool * list event) :=
  match g with
  | Running (Round rpc js k) => Some (Sends rpc js [] k, plan rpc js p, [])
  | Sends rpc (j :: todo) sent k =>
      if bool_decide (length (p_jobs p) < cap)%nat then
        Some (Adds rpc todo (sent ++ [j]) k,
          set_jobs (p_jobs p ++ [j]) (set_sender rpc (MkSender Adding todo (sent ++ [j])) p), [])
      else None
  | Sends rpc [] sent k =>
      if p_group p rpc =? 0 then
        Some (Drains rpc sent k, set_open rpc false (set_sender rpc (MkSender Draining [] sent) p), [])
      else None
  | Adds rpc todo sent k =>
      Some (Sends rpc todo sent k,
        set_group rpc (p_group p rpc + 1) (set_sender rpc (MkSender Sending todo sent) p), [])
  | Drains rpc sent k => Some (Running (k (p_chan p rpc)), p, [Received rpc (p_chan p rpc)])
  | Running (Remake rpc k) =>
      Some (Running k,
        set_open rpc true (set_chan rpc [] (set_sender rpc (MkSender Sending [] []) p)), [])
  | _ => None
  end.

Definition exec_prog (client : http_client) (q : prog) (m : M) : option (prog * M * list event) :=
  match q with
  | Lock k => if held m then None else Some (k, set_held true m, [])
  | Unlock k => Some (k, set_held false m, [])
  | Fetch url body k => 
      Some (k (request client url body), m, [Fetched url body (request client url body)])
  | Get x k => Some (k m, m, [])
  | Put x f k => Some (k, f m, [])
  | Log acts k => Some (k, m, [Logged acts])
  | _ => None
  end.

Definition exec (ch : choice) (y : sys) : option sys :=
  let '(MkSys pools gos m tr) := y in
  match ch with
  | MoveWorker c i client =>
      p ← pools !! c; p' ← exec_worker client i p; Some (MkSys (<[c := p']> pools) gos m tr)
  | MoveRequest h => Some (MkSys pools (gos ++ [(None, Running h)]) m tr)
  | MoveTick i rt now =>
      match gos !! i with
      | Some (Some l, Waiting s) =>
          if 0 <? l_period l then
            Some (MkSys pools (set_go i (Running (l_body l rt now s)) gos) m
              (tr ++ own i [Ticked now]))
          else None
      | _ => None
      end
  | MoveGo i rt client =>
      '(o, g) ← gos !! i;
      match g with
      | Running (Return s) => Some (MkSys pools (set_go i (Waiting s) gos) m tr)
      | _ =>
          match (match g with Running q => exec_prog client q m | _ => None end) with
          | Some (q', m', es) =>
              Some (MkSys pools (set_go i (Running q') gos ++ spawned spawns rt es) m'
                (tr ++ own i es))
          | None =>
              l ← o; p ← pools !! l_pool l; '(g', p', es) ← exec_owner g p;
              Some (MkSys (<[l_pool l := p']> pools) (set_go i g' gos) m (tr ++ own i es))
          end
      end
  end.

Definition choice_ok (ch : choice) : Prop :=
  match ch with MoveRequest h => requests h | _ => True end.

Lemma exec_worker_step client i p p' : exec_worker client i p = Some p' → worker_step cap p p'.
Proof.
  unfold exec_worker. destruct (p_workers p !! i) as [w|] eqn:Ew; [|done]. cbn.
  destruct w as [|j|j].
  - destruct (p_jobs p) as [|j js] eqn:Ej; [done|]. intros [= <-]. by apply step_take.
  - destruct (p_open p (w_rpc j)) eqn:Eo.
    + case_bool_decide; [|done]. intros [= <-]. apply step_post; [done| |done|done]. by exists client.
    + intros [= <-]. by eapply step_post_closed.
  - destruct (Z.ltb_spec 0 (p_group p (w_rpc j))); intros [= <-].
    + by apply step_done.
    + by eapply step_done_negative.
Qed.

Lemma exec_owner_step g p g' p' es :
  exec_owner g p = Some (g', p', es) → owner_step cap g p g' p' es.
Proof.
  destruct g as [s|[]|rpc [|j todo] sent k|rpc todo sent k|rpc sent k]; cbn; try done;
    repeat case_match; try done; intros [= <- <- <-]; constructor.
  - by apply Z.eqb_eq.
  - by eapply bool_decide_eq_true.
Qed.

Lemma exec_prog_step client q m q' m' es :
  exec_prog client q m = Some (q', m', es) → prog_step held set_held q m q' m' es.
Proof. destruct q; cbn; try done; repeat case_match; try done; intros [= <- <- <-]; by constructor. Qed.

Lemma exec_step ch y y' :
  choice_ok ch → exec ch y = Some y' → sys_step cap held set_held requests spawns y y'.
Proof.
  destruct y as [pools gos m tr]. destruct ch as [c i client|h|i rt now|i rt client]; cbn; intros Hok.
  - destruct (pools !! c) as [p|] eqn:Ep; [|done]. cbn.
    destruct (exec_worker client i p) as [p'|] eqn:E; [|done]. intros [= <-].
    eapply sys_worker; [done|]. by eapply exec_worker_step.
  - intros [= <-]. by constructor.
  - destruct (gos !! i) as [[[l|] [s| | | |]]|] eqn:Ei; try done.
    destruct (Z.ltb_spec 0 (l_period l)); [|done]. intros [= <-]. by eapply sys_tick.
  - destruct (gos !! i) as [[o g]|] eqn:Ei; [|done]. cbn.
    assert (∀ s, g = Running (Return s) → Some (MkSys pools (set_go i (Waiting s) gos) m tr) = Some y'
      → sys_step cap held set_held requests spawns (MkSys pools gos m tr) y') as Hret.
    { intros s -> [= <-]. by eapply sys_return. }
    destruct (match g with Running q => exec_prog client q m | _ => None end)
      as [[[q' m'] es]|] eqn:Eq.
    + destruct g as [|q| | |]; try done. intros H.
      assert (y' = MkSys pools (set_go i (Running q') gos ++ spawned spawns rt es) m'
        (tr ++ own i es)) as -> by (destruct q; try done; congruence).
      eapply sys_local; [done|]. by eapply exec_prog_step.
    + intros H. assert ((l ← o; p ← pools !! l_pool l; '(g', p', es) ← exec_owner g p;
        Some (MkSys (<[l_pool l := p']> pools) (set_go i g' gos) m (tr ++ own i es))) = Some y'
        ∨ ∃ s, g = Running (Return s)) as [H'|[s ->]]; [| |by eapply Hret].
      { destruct g as [|[]| | |]; eauto. }
      destruct o as [l|]; [|done]. cbn in H'. destruct (pools !! l_pool l) as [p|] eqn:Ep; [|done].
      cbn in H'. destruct (exec_owner g p) as [[[g' p'] es]|] eqn:E; [|done]. injection H' as <-.
      eapply sys_owner; [done|done|]. by apply exec_owner_step.
Qed.

Definition aliveb (y : sys) : bool :=
  forallb (λ p, match p_crash p with None => true | Some _ => false end) (y_pools y).

Lemma aliveb_alive y : aliveb y = true → alive y.
Proof.
  unfold aliveb. intros H p Hp. rewrite forallb_forall in H. specialize (H p).
  rewrite <-list_elem_of_In in H. specialize (H Hp). by destruct (p_crash p).
Qed.

Fixpoint exec_all (chs : list choice) (y : sys) : option sys :=
  match chs with
  | [] => Some y
  | ch :: chs => if aliveb y then y' ← exec ch y; exec_all chs y' else None
  end.

Lemma exec_all_run chs y0 y y' :
  Forall choice_ok chs → sys_run cap held set_held requests spawns y0 y →
  exec_all chs y = Some y' → sys_run cap held set_held requests spawns y0 y'.
Proof.
  intros Hok. revert y. induction Hok as [|ch chs Hch _ IH]; intros y Hr; cbn.
  - by intros [= <-].
  - destruct (aliveb y) eqn:Ea; [|done]. destruct (exec ch y) as [y1|] eqn:E; [|done]. cbn.
    apply IH. eapply sys_run_step; [done|by apply aliveb_alive|]. by apply exec_step in E.
Qed.
End schedules.
