(* ===== verification/Linq.v ===== *)
(** * go-linq

    The watchdog groups and aggregates its samples with the third-party
    library go-linq. Its operations are a parameter of the development, with
    what the library documents as laws: the order of groups and of the elements
    inside a group is left open. [linq_ref] is one implementation. *)

From S2P Require Import Prelude.

Class Linq : Type := {
  (** The groups of the elements by key. *)
  GroupBy {A K : Type} `{EqDecision K} : (A → K) → list A → list (K * list A);
  (** The distinct elements, in no particular order. *)
  Distinct {A : Type} `{EqDecision A} : list A → list A;
  (** Least and greatest element of a collection of numbers, nil when empty. *)
  Min : list Z → option Z;
  Max : list Z → option Z;
  (** First element that satisfies a condition, nil when there is none. *)
  FirstWith {A : Type} : (A → bool) → list A → option A;

  GroupBy_keys {A K : Type} `{EqDecision K} (key : A → K) (l : list A) :
    NoDup ((GroupBy key l).*1);
  GroupBy_dom {A K : Type} `{EqDecision K} (key : A → K) (l : list A) k :
    k ∈ (GroupBy key l).*1 ↔ ∃ x, x ∈ l ∧ key x = k;
  GroupBy_group {A K : Type} `{EqDecision K} (key : A → K) (l : list A) k g :
    (k, g) ∈ GroupBy key l → g ≡ₚ filter (λ x, key x = k) l;
  Distinct_NoDup {A : Type} `{EqDecision A} (l : list A) : NoDup (Distinct l);
  Distinct_elem {A : Type} `{EqDecision A} (l : list A) x : x ∈ Distinct l ↔ x ∈ l;
  Min_spec (l : list Z) m : Min l = Some m ↔ m ∈ l ∧ ∀ x, x ∈ l → m ≤ x;
  Max_spec (l : list Z) m : Max l = Some m ↔ m ∈ l ∧ ∀ x, x ∈ l → x ≤ m;
  FirstWith_spec {A : Type} (p : A → bool) (l : list A) :
    FirstWith p l = snd <$> list_find (λ x, p x = true) l;
}.

(** ** A reference implementation *)

Definition pick (better : Z → Z → bool) (acc : option Z) (x : Z) : option Z :=
  match acc with None => Some x | Some m => if better x m then Some x else acc end.

Definition extremum (better : Z → Z → bool) (l : list Z) : option Z :=
  fold_left (pick better) l None.

Lemma extremum_max l m :
  extremum (λ x m, m <? x) l = Some m ↔ m ∈ l ∧ ∀ x, x ∈ l → x ≤ m.
Proof.
  unfold extremum. set (f := pick _).
  assert (∀ l a, ∃ m, fold_left f l (Some a) = Some m
    ∧ m ∈ a :: l ∧ ∀ x, x ∈ a :: l → x ≤ m) as Hacc.
  { clear l m. induction l as [|x l IH]; intros a; cbn.
    - exists a. set_solver by lia.
    - destruct (Z.ltb_spec a x).
      + destruct (IH x) as (m & -> & Hm & Hle). exists m. split; [done|].
        split; [set_solver|]. intros y [->|Hy]%elem_of_cons; [|auto].
        specialize (Hle x ltac:(set_solver)). lia.
      + destruct (IH a) as (m & -> & Hm & Hle). exists m. split; [done|].
        split; [set_solver|]. intros y [->|[->|Hy]%elem_of_cons]%elem_of_cons.
        * apply Hle. set_solver.
        * specialize (Hle a ltac:(set_solver)). lia.
        * apply Hle. set_solver. }
  destruct l as [|a l]; cbn; [set_solver|].
  destruct (Hacc l a) as (m' & -> & Hm & Hle). split.
  - by intros [= <-].
  - intros [Hin Hub]. f_equal. specialize (Hle m Hin). specialize (Hub m' Hm). lia.
Qed.

Lemma extremum_opp l :
  extremum (λ x m, x <? m) l = Z.opp <$> extremum (λ x m, m <? x) (Z.opp <$> l).
Proof.
  unfold extremum.
  assert (∀ a, fold_left (pick (λ x m, x <? m)) l a
    = Z.opp <$> fold_left (pick (λ x m, m <? x)) (Z.opp <$> l) (Z.opp <$> a)) as Hacc.
  { induction l as [|x l IH]; intros a.
    - destruct a; cbn; by rewrite ?Z.opp_involutive.
    - cbn [fold_left fmap list_fmap]. rewrite IH. do 2 f_equal.
      destruct a as [a|]; [|done]. cbn.
      destruct (Z.ltb_spec x a), (Z.ltb_spec (- a) (- x)); (lia || done). }
  apply (Hacc None).
Qed.

Lemma extremum_min l m :
  extremum (λ x m, x <? m) l = Some m ↔ m ∈ l ∧ ∀ x, x ∈ l → m ≤ x.
Proof.
  rewrite extremum_opp, fmap_Some. split.
  - intros (y & [Hy Hle]%extremum_max & ->). apply list_elem_of_fmap in Hy as (z & -> & Hz).
    rewrite Z.opp_involutive. split; [done|]. intros x Hx.
    specialize (Hle (- x) (list_elem_of_fmap_2 _ _ _ Hx)). lia.
  - intros [Hm Hle]. exists (- m). rewrite Z.opp_involutive. split; [|done].
    apply extremum_max. split; [by apply list_elem_of_fmap_2|].
    intros x (z & -> & Hz)%list_elem_of_fmap. specialize (Hle z Hz). lia.
Qed.

#[local] Obligation Tactic := idtac.

Program Definition linq_ref : Linq := {|
  GroupBy A K _ key l := (λ k, (k, filter (λ x, key x = k) l)) <$> remove_dups (key <$> l);
  Distinct A _ l := remove_dups l;
  Min := extremum (λ x m, x <? m);
  Max := extremum (λ x m, m <? x);
  FirstWith A p l := snd <$> list_find (λ x, p x = true) l;
  Min_spec := extremum_min;
  Max_spec := extremum_max;
|}.
Next Obligation.
  intros A K ? key l. cbn. rewrite <-list_fmap_compose. cbn.
  rewrite list_fmap_id. apply NoDup_remove_dups.
Qed.
Next Obligation.
  intros A K ? key l k. cbn. rewrite <-list_fmap_compose. cbn.
  rewrite list_fmap_id, elem_of_remove_dups, list_elem_of_fmap. naive_solver.
Qed.
Next Obligation.
  intros A K ? key l k g. cbn. rewrite list_elem_of_fmap. by intros (k' & [= -> ->] & _).
Qed.
Next Obligation. intros A ? l. apply NoDup_remove_dups. Qed.
Next Obligation. intros A ? l x. apply elem_of_remove_dups. Qed.
Next Obligation. intros A p l. done. Qed.

(** ** Consequences of the laws *)

Section linq.
Context `{L : Linq}.

Lemma Max_None l : Max l = None ↔ l = [].
Proof.
  split; [|intros ->].
  - destruct l as [|x l]; [done|]. intros E.
    destruct (extremum (λ x m, m <? x) (x :: l)) as [m|] eqn:E'.
    + apply extremum_max, Max_spec in E'. congruence.
    + exfalso. cbn in E'. clear E. revert x E'.
      unfold extremum. cbn. induction l as [|y l IH]; intros x; cbn; [done|].
      destruct (x <? y); apply IH.
  - destruct (Max []) as [m|] eqn:E; [|done]. apply Max_spec in E. set_solver.
Qed.

Lemma Max_Some l : l ≠ [] → ∃ m, Max l = Some m.
Proof. intros Hl. destruct (Max l) as [m|] eqn:E; [eauto|]. by apply Max_None in E. Qed.

Lemma Min_Some l : l ≠ [] → ∃ m, Min l = Some m.
Proof.
  intros Hl. destruct (Max_Some (Z.opp <$> l)) as [m Hm]; [by destruct l|].
  apply Max_spec in Hm as [Hin Hub]. apply list_elem_of_fmap in Hin as (x & -> & Hx).
  exists x. apply Min_spec. split; [done|]. intros y Hy.
  specialize (Hub (- y) (list_elem_of_fmap_2 _ _ _ Hy)). lia.
Qed.

Lemma GroupBy_nonempty {A K : Type} `{EqDecision K} (key : A → K) l k g :
  (k, g) ∈ GroupBy key l → g ≠ [].
Proof.
  intros Hin Hg. pose proof (GroupBy_group key l k g Hin) as Hperm.
  assert (k ∈ (GroupBy key l).*1) as Hk by (by apply (list_elem_of_fmap_2 fst) in Hin).
  apply GroupBy_dom in Hk as (x & Hx & Hkx). subst g.
  apply Permutation_nil_l in Hperm.
  assert (x ∈ filter (λ x, key x = k) l) as Hf by (by apply list_elem_of_filter).
  rewrite <-Hperm in Hf. set_solver.
Qed.

Lemma FirstWith_Some {A} (p : A → bool) l x :
  FirstWith p l = Some x → x ∈ l ∧ p x = true.
Proof.
  rewrite FirstWith_spec, fmap_Some. intros ([i y] & E & ->).
  apply list_find_Some in E as (E & Hp & _). split; [|done].
  by eapply list_elem_of_lookup_2.
Qed.

Lemma FirstWith_exists {A} (p : A → bool) l x :
  x ∈ l → p x = true → ∃ y, FirstWith p l = Some y.
Proof.
  intros Hx Hp. rewrite FirstWith_spec.
  destruct (list_find_elem_of (λ x, p x = true) l x Hx Hp) as [[i y] ->]. by exists y.
Qed.
End linq.
