(* ===== verification/Alerts.v ===== *)
(** * Alerts

    The message templates of alerts.go, the PagerDuty event of pager.go and the
    observable actions of the monitors. The PagerDuty client is a parameter: it
    accepts an event or returns an error. *)

From S2P Require Import Prelude GoFmt GoTime Rpc.

(** ** Message templates (alerts.go) *)

Definition consensusMessage : string := "
Consensus stuck on shard %s!

Block height stuck at %d starting at %s

Block Hash: %s

Leader: %s

ViewID: %d

Epoch: %d

Block Timestamp: %s

LastCommitSig: %s

LastCommitBitmap: %s

Time since last new block: %d seconds (%f minutes)

See: http://watchdog.hmny.io/report-%s
".

Definition crossShardTransactionMessage : string := "
Cx Transaction Pool too large on shard %d!

Count: %d
".

Definition crossLinkMessage : string := "
Haven't processed a cross link for shard %d in a while!

Cross Link Hash: %s

Shard %d Block: %d

Shard %d Epoch: %d

Signature: %s

Signature Bitmap: %s

Time since last processed cross link: %f seconds (%f minutes)
".

Definition blockHeightMessage : string := "
%s at block height %d, but shard height %d.

Shard: %d

Chain: %s
".

Definition p2pMessage : string := "
Shard: %s

Avg Connectivity: %d
".

Definition beaconSyncMessage : string := "
%s beacon at block height %d, but beacon height %d.

Shard: %d

Chain: %s
".

(** ** PagerDuty events (pager.go) *)

Record V2Payload : Type := MkV2Payload {
  pd_Summary : string;
  pd_Source : string;
  pd_Severity : string;
  pd_Details : string;
}.

Record V2Event : Type := MkV2Event {
  pd_RoutingKey : string;
  pd_Action : string;
  pd_DedupKey : string;
  pd_Payload : V2Payload;
}.

(** [pd.ManageEvent]: the error it returns, if any. *)
Definition pager : Type := V2Event → option string.

(** ** Actions

    What a monitor does besides updating its own state: it writes log lines,
    triggers pages, sleeps, and starts goroutines. *)
Inductive action : Type :=
  | Stdlog (format : string) (args : list operand)
  | Errlog (err : string)
  | StdlogCrossLink (format : string) (shard : Z) (blockNum : Z) (link : CrossLink)
      (ts : Time)  (** a line with a whole record printed by %v *)
  | ManageEvent (ev : V2Event)
  | Sleep (duration : Z)
  | GoCheckShardHeight (nodes : list BlockHeader) (syncTimer tolerance : Z)
      (pdServiceKey chain : string)
  | GoCheckSync (IP pdServiceKey chain : string) (blockNumber shardHeight syncTimer : Z)
  | GoBeaconSyncMonitor (beaconBlock interval threshold poolSize : Z)
      (pdServiceKey chain : string)
  | GoCheckBeaconSync (blockNum beaconHeight threshold syncTimer : Z)
      (IP pdServiceKey chain : string)
  | GoP2pMonitor (tolerance : Z) (pdServiceKey chain : string) (nodes : list NodeMetadata)
  | GoStakingCommitteeUpdate (beaconChainNode : string).

(** The pages among the actions. *)
Definition page_of (a : action) : option V2Event :=
  match a with ManageEvent ev => Some ev | _ => None end.
Definition pages (l : list action) : list V2Event := omap page_of l.

Lemma elem_of_pages l ev : ev ∈ pages l ↔ ManageEvent ev ∈ l.
Proof.
  unfold pages. rewrite list_elem_of_omap. split; [|intros H; by exists (ManageEvent ev)].
  intros (x & Hin & E). destruct x; try done. by injection E as ->.
Qed.

Lemma pages_app l1 l2 : pages (l1 ++ l2) = pages l1 ++ pages l2.
Proof. apply omap_app. Qed.

Lemma pages_log_cons format args l : pages (Stdlog format args :: l) = pages l.
Proof. done. Qed.

(** [notify]: the event it sends and the error it gets back. *)
Definition notify (pd : pager) (serviceKey incidentKey chain msg : string) :
    V2Event * option string :=
  let ev := MkV2Event serviceKey "trigger" incidentKey
              (MkV2Payload incidentKey chain "critical" msg) in
  (ev, pd ev).

(** The code around every call of [notify]: log the error, or [sent] with the
    incident key. *)
Definition alert (pd : pager) (sent serviceKey incidentKey chain msg : string) : list action :=
  let '(ev, err) := notify pd serviceKey incidentKey chain msg in
  [ManageEvent ev;
   match err with Some e => Errlog e | None => Stdlog sent [OStr incidentKey] end].

(** An alert triggers exactly one page, whatever PagerDuty answers. *)
Lemma pages_alert pd sent key incident chain msg :
  pages (alert pd sent key incident chain msg)
  = [MkV2Event key "trigger" incident (MkV2Payload incident chain "critical" msg)].
Proof. unfold alert, notify, pages. cbn. by destruct (pd _). Qed.
