(* ===== verification/Summary.v ===== *)
(** * Summaries of the collected samples

    [blockHeaderSummary] and [summaryMaps] of reporting-server.go. Go keeps the
    summaries in maps with interface values: [leaf] is a value stored in an
    inner map, [iface] an inner map under one of the two map types the code
    asserts ([any] and [map[string]interface{}]). A failed type assertion and
    an out-of-range slice panic. *)

From S2P Require Import Prelude GoFmt Rpc Linq.

(** ** Interface values *)

Inductive leaf : Type :=
  | LNil
  | LU64 (z : Z)
  | LInt (z : Z)
  | LBool (b : bool)
  | LStr (s : string)
  | LStrs (l : list string)
  | LU64s (l : list Z)
  | LHeader (h : BlockHeader)
  | LHeaders (l : list BlockHeader)
  | LMetas (l : list NodeMetadata).

Inductive iface : Type :=
  | IAny (m : gmap string leaf)
  | IMap (m : gmap string leaf).

(** The type assertions of the code; a missing entry is a nil interface. *)
Definition as_any (v : option iface) : outcome (gmap string leaf) :=
  match v with Some (IAny m) => Done m | _ => Panic "interface conversion: not main.any" end.
Definition as_map (v : option iface) : outcome (gmap string leaf) :=
  match v with
  | Some (IMap m) => Done m
  | _ => Panic "interface conversion: not map[string]interface {}"
  end.
Definition as_u64 (v : option leaf) : outcome Z :=
  match v with Some (LU64 z) => Done z | _ => Panic "interface conversion: not uint64" end.
Definition as_header (v : option leaf) : outcome BlockHeader :=
  match v with
  | Some (LHeader h) => Done h | _ => Panic "interface conversion: not main.BlockHeader"
  end.
Definition as_headers (v : option leaf) : outcome (list BlockHeader) :=
  match v with
  | Some (LHeaders l) => Done l | _ => Panic "interface conversion: not []interface {}"
  end.
Definition as_metas (v : option leaf) : outcome (list NodeMetadata) :=
  match v with
  | Some (LMetas l) => Done l | _ => Panic "interface conversion: not []interface {}"
  end.

(** ** Keys *)

Definition metaSumry : string := "node-metadata".
Definition headerSumry : string := "block-header".
Definition chainSumry : string := "chain-config".
Definition committeeSumry : string := "staking-committee".
Definition blockMax : string := "block-max".

Definition header_shard (h : BlockHeader) : Z := bh_ShardID (bhd_Payload h).
Definition header_block (h : BlockHeader) : Z := bh_BlockNumber (bhd_Payload h).
Definition header_epoch (h : BlockHeader) : Z := bh_Epoch (bhd_Payload h).
Definition meta_shard (n : NodeMetadata) : Z := nm_ShardID (nmd_Payload n).
Definition meta_version (n : NodeMetadata) : string := nm_Version (nmd_Payload n).

Section summary.
Context `{L : Linq}.

Definition u64_leaf (o : option Z) : leaf :=
  match o with Some z => LU64 z | None => LNil end.
Definition header_leaf (o : option BlockHeader) : leaf :=
  match o with Some h => LHeader h | None => LNil end.

(** The summary of one shard's group of headers. *)
Definition shard_summary (includeRecords : bool) (g : list BlockHeader) : gmap string leaf :=
  let block := header_block <$> g in
  let epoch := header_epoch <$> g in
  let uniqEpochs := sort_desc (Distinct epoch) in
  let uniqBlockNums := sort_desc (Distinct block) in
  let m : gmap string leaf :=
    <["block-min" := u64_leaf (Min block)]>
    (<[blockMax := u64_leaf (Max block)]>
    (<["epoch-min" := u64_leaf (Min epoch)]>
    (<["epoch-max" := u64_leaf (Max epoch)]>
    (<["uniq-epochs" := LU64s uniqEpochs]>
    {["uniq-blocks" := LU64s uniqBlockNums]})))) in
  if includeRecords then
    <["latest-block" := header_leaf (FirstWith (λ c,
         bool_decide (Some (header_block c) = Max block)) g)]>
    (<["records" := LHeaders g]> m)
  else m.

(** [blockHeaderSummary]: one entry per shard, in the caller's map. *)
Definition blockHeaderSummary (headers : list BlockHeader) (includeRecords : bool)
    (sum : gmap string iface) : gmap string iface :=
  fold_left (λ sum '(shard, g), <[Itoa shard := IAny (shard_summary includeRecords g)]> sum)
    (GroupBy header_shard headers) sum.

(** [sum[chainSumry]] of one shard, from a sample node of it. *)
Definition chain_summary (p : NodeMetadataReply) : gmap string leaf :=
  <["chain-id" := LInt (cc_ChainID (nm_Chain p))]>
  (<["cross-link-epoch" := LInt (cc_CrossLinkEpoch (nm_Chain p))]>
  (<["cross-tx-epoch" := LInt (cc_CrossTxEpoch (nm_Chain p))]>
  (<["eip155-epoch" := LInt (cc_Eip155Epoch (nm_Chain p))]>
  (<["s3-epoch" := LInt (cc_S3Epoch (nm_Chain p))]>
  (<["pre-staking-epoch" := LInt (cc_PreStakingEpoch (nm_Chain p))]>
  (<["staking-epoch" := LInt (cc_StakingEpoch (nm_Chain p))]>
  (<["blocks-per-epoch" := LInt (nm_BlocksPerEpoch p)]>
  {["dns-zone" := LStr (nm_DNSZone p)]}))))))).

(** [s[:5] + "..." + s[len(s)-5:]], which panics below five bytes: the upper
    bound of the first slice and the (wrapped) lower bound of the second. *)
Definition shorten (s : string) : outcome string :=
  if (String.length s =? 0)%nat then Done s
  else
    a ← slice s 0 5;
    b ← slice s (String.length s - 5) (String.length s);
    Done (a +:+ "..." +:+ b).

Definition set_sig (h : BlockHeader) (sig : string) : BlockHeader :=
  let p := bhd_Payload h in
  MkBlockHeader
    (MkBlockHeaderReply (bh_BlockHash p) (bh_BlockNumber p) (bh_ShardID p) (bh_Leader p)
       (bh_ViewID p) (bh_Epoch p) (bh_Timestamp p) (bh_UnixTime p) sig
       (bh_LastCommitBitmap p))
    (bhd_IP h).

(** The loop that shortens the signatures in place. *)
Definition shorten_sigs (headers : list BlockHeader) : outcome (list BlockHeader) :=
  for_each (λ h acc, sig ← shorten (bh_LastCommitSig (bhd_Payload h));
              Done (acc ++ [set_sig h sig])) headers [].

(** The slice after that loop: as the loop leaves it, or with the signatures
    before the one it panicked at shortened. *)
Fixpoint shortened (headers : list BlockHeader) : list BlockHeader :=
  match headers with
  | [] => []
  | h :: headers =>
      match shorten (bh_LastCommitSig (bhd_Payload h)) with
      | Done sig => set_sig h sig :: shortened headers
      | Panic _ => h :: headers
      end
  end.

(** [sum[metaSumry]]: the nodes grouped by version. *)
Definition version_summary (metas : list NodeMetadata) : gmap string iface :=
  fold_left (λ (s : gmap string iface) '(vrs, g), <[vrs := IMap {["records" := LMetas g]}]> s)
    (GroupBy meta_version metas) ∅.

(** [sum[chainSumry]]: the chain configuration of each shard. *)
Definition chain_summaries (metas : list NodeMetadata) : outcome (gmap string iface) :=
  for_each (λ '(shardID, g) (s : gmap string iface),
      match FirstWith (λ c, bool_decide (meta_shard c = shardID)) g with
      | Some sample => Done (<[Itoa (int64 shardID) := IAny (chain_summary (nmd_Payload sample))]> s)
      | None => Panic "interface conversion: interface {} is nil, not main.NodeMetadata"
      end) (GroupBy meta_shard metas) ∅.

(** [summaryMaps]: the summary, and the caller's slice of headers after the
    in-place update. *)
Definition summaryMaps (metas : list NodeMetadata) (headers : list BlockHeader) :
    outcome (gmap string (gmap string iface) * list BlockHeader) :=
  headers' ← shorten_sigs headers;
  chain ← chain_summaries metas;
  Done (<[metaSumry := version_summary metas]>
         (<[headerSumry := blockHeaderSummary headers' true ∅]>
         (<[chainSumry := chain]> {[committeeSumry := ∅]})), headers').
End summary.

(** ** What the block-header summary holds *)

Section summary_facts.
Context `{L : Linq}.

Lemma shard_summary_records g :
  shard_summary true g !! "records" = Some (LHeaders g).
Proof. unfold shard_summary. by simplify_map_eq. Qed.

Lemma shard_summary_max b g :
  shard_summary b g !! blockMax = Some (u64_leaf (Max (header_block <$> g))).
Proof. unfold shard_summary, blockMax. destruct b; by simplify_map_eq. Qed.

Lemma shard_summary_latest g :
  shard_summary true g !! "latest-block" = Some (header_leaf (FirstWith (λ c,
    bool_decide (Some (header_block c) = Max (header_block <$> g))) g)).
Proof. unfold shard_summary. by simplify_map_eq. Qed.

Lemma shard_summary_epoch_max b g :
  shard_summary b g !! "epoch-max" = Some (u64_leaf (Max (header_epoch <$> g))).
Proof. unfold shard_summary, blockMax. destruct b; by simplify_map_eq. Qed.

Lemma shard_summary_uniq b g :
  shard_summary b g !! "uniq-blocks" = Some (LU64s (sort_desc (Distinct (header_block <$> g)))).
Proof. unfold shard_summary, blockMax. destruct b; by simplify_map_eq. Qed.

(** A header of greatest block number in a non-empty group: what
    "latest-block" and "block-max" hold. *)
Lemma latest_block g :
  g ≠ [] →
  ∃ h, h ∈ g
    ∧ Max (header_block <$> g) = Some (header_block h)
    ∧ FirstWith (λ c, bool_decide (Some (header_block c) = Max (header_block <$> g))) g = Some h
    ∧ ∀ x, x ∈ g → header_block x ≤ header_block h.
Proof.
  intros Hg. destruct (Max_Some (header_block <$> g)) as [m Hm]; [by destruct g|].
  pose proof Hm as [(x & -> & Hx)%list_elem_of_fmap Hub]%Max_spec. rewrite Hm.
  destruct (FirstWith_exists (λ c, bool_decide (Some (header_block c) = Some (header_block x))) g x)
    as [h Hh]; [done|by apply bool_decide_eq_true|].
  pose proof Hh as [Hin [= E]%bool_decide_eq_true]%FirstWith_Some.
  exists h. rewrite E. split; [done|]. split; [done|]. split; [done|].
  intros y Hy. apply Hub. by apply list_elem_of_fmap_2.
Qed.

(** The entries of the summary are those of the groups. *)
Lemma blockHeaderSummary_Some hs b key v :
  blockHeaderSummary hs b ∅ !! key = Some v
  ↔ ∃ shard g, (shard, g) ∈ GroupBy header_shard hs
      ∧ key = Itoa shard ∧ v = IAny (shard_summary b g).
Proof.
  unfold blockHeaderSummary.
  rewrite (fold_insert_Some Itoa (λ g, IAny (shard_summary b g))) by apply GroupBy_keys.
  rewrite lookup_empty. naive_solver.
Qed.

Lemma elem_of_group hs shard g h :
  (shard, g) ∈ GroupBy header_shard hs → h ∈ g ↔ h ∈ hs ∧ header_shard h = shard.
Proof.
  intros Hg. rewrite (GroupBy_group _ _ _ _ Hg), list_elem_of_filter. naive_solver.
Qed.

(** A shard has an entry exactly when a header names it. *)
Lemma blockHeaderSummary_dom hs b shard :
  is_Some (blockHeaderSummary hs b ∅ !! Itoa shard)
  ↔ ∃ h, h ∈ hs ∧ header_shard h = shard.
Proof.
  rewrite <-(GroupBy_dom header_shard hs shard), list_elem_of_fmap. split.
  - intros [v (s & g & Hin & <-%(inj Itoa) & _)%blockHeaderSummary_Some]. by exists (shard, g).
  - intros ([s g] & -> & Hin). eexists. apply blockHeaderSummary_Some. eauto.
Qed.

(** What a reader of an entry finds: the greatest block number of the shard
    and a header of the shard that has it. *)
Lemma blockHeaderSummary_entry hs key v :
  blockHeaderSummary hs true ∅ !! key = Some v →
  ∃ a h, v = IAny a
    ∧ key = Itoa (header_shard h)
    ∧ a !! blockMax = Some (LU64 (header_block h))
    ∧ a !! "latest-block" = Some (LHeader h)
    ∧ h ∈ hs
    ∧ ∀ x, x ∈ hs → header_shard x = header_shard h → header_block x ≤ header_block h.
Proof.
  intros (shard & g & Hg & -> & ->)%blockHeaderSummary_Some.
  destruct (latest_block g) as (h & Hh & HM & HF & Hub); [by eapply GroupBy_nonempty|].
  pose proof Hh as [Hin <-]%(elem_of_group hs _ _ _ Hg).
  exists (shard_summary true g), h.
  rewrite shard_summary_max, shard_summary_latest, HF, HM.
  repeat (split; [done|]). intros x Hx Ex. apply Hub. by apply (elem_of_group hs _ _ _ Hg).
Qed.
End summary_facts.

(** ** Shortened signatures *)

Lemma slice_ok s i j : (i ≤ j ≤ String.length s)%nat → slice s i j = Done (String.substring i (j - i) s).
Proof. intros. unfold slice. by rewrite decide_True. Qed.

Lemma slice_bad s i j :
  (String.length s < j)%nat → slice s i j = Panic "slice bounds out of range".
Proof. intros. unfold slice. rewrite decide_False; [done|lia]. Qed.

(** [shorten] panics exactly on the signatures of one to four bytes. *)
Lemma shorten_panics s :
  panics (shorten s) = true ↔ (0 < String.length s < 5)%nat.
Proof.
  unfold shorten. destruct (Nat.eqb_spec (String.length s) 0); cbn; [split; [done|lia]|].
  destruct (decide (String.length s < 5)%nat).
  - rewrite (slice_bad s 0 5) by lia. cbn. split; [lia|done].
  - rewrite !slice_ok by lia. cbn. split; [done|lia].
Qed.

Lemma length_substring s i n :
  (i + n ≤ String.length s)%nat → String.length (String.substring i n s) = n.
Proof.
  revert i n; induction s as [|c s IH]; intros [|i] [|n]; cbn; try lia; intros Hle.
  - f_equal. apply (IH 0%nat n). lia.
  - apply (IH i 0%nat). lia.
  - apply (IH i (S n)). lia.
Qed.

Lemma shorten_Done s t :
  shorten s = Done t →
  s = EmptyString ∧ t = EmptyString
  ∨ (∃ a b, String.length a = 5%nat ∧ String.length b = 5%nat ∧ t = a +:+ "..." +:+ b).
Proof.
  unfold shorten. destruct (Nat.eqb_spec (String.length s) 0) as [E|E].
  - intros [= <-]. left. by destruct s.
  - destruct (decide (String.length s < 5)%nat).
    + by rewrite (slice_bad s 0 5) by lia.
    + rewrite !slice_ok by lia. cbn [mbind outcome_bind]. intros [= <-]. right.
      eexists _, _. split; [|split; [|reflexivity]]; rewrite length_substring; lia.
Qed.

(** Shortening is idempotent: reports shorten the stored headers in place, and
    the next report shortens them again. *)
Lemma shorten_idem s t : shorten s = Done t → shorten t = Done t.
Proof.
  intros [[-> ->]|(a & b & Ha & Hb & ->)]%shorten_Done; [done|].
  do 5 (destruct a as [|? a]; [done|]); destruct a; [|done].
  do 5 (destruct b as [|? b]; [done|]); destruct b; [|done]. reflexivity.
Qed.

(** *** The loop over the headers *)

Lemma for_each_append {E B} (f : E → outcome B) l acc :
  for_each (λ x acc, y ← f x; Done (acc ++ [y])) l acc
  = (ys ← mapM f l; Done (acc ++ ys)).
Proof.
  revert acc; induction l as [|x l IH]; intros acc; cbn; [by rewrite app_nil_r|].
  destruct (f x) as [y|w]; cbn; [|done]. rewrite IH.
  destruct (mapM f l); cbn; [|done]. by rewrite <-app_assoc.
Qed.

Lemma mapM_Done {E B} (f : E → outcome B) l ys :
  mapM f l = Done ys ↔ Forall2 (λ x y, f x = Done y) l ys.
Proof.
  revert ys; induction l as [|x l IH]; intros ys; cbn.
  - split; [by intros [= <-]|by inversion 1].
  - split.
    + destruct (f x) eqn:Ef; [|done]. cbn. destruct (mapM f l) eqn:El; [|done].
      intros [= <-]. constructor; [done|by apply IH].
    + inversion 1 as [|? y ? ys' Hy Hys]; subst. apply IH in Hys. by rewrite Hy; cbn; rewrite Hys.
Qed.

Lemma mapM_panics {E B} (f : E → outcome B) l :
  panics (mapM f l) = true ↔ ∃ x, x ∈ l ∧ panics (f x) = true.
Proof.
  induction l as [|x l IH]; cbn.
  - split; [done|]. intros (x & Hx & _). set_solver.
  - setoid_rewrite elem_of_cons. destruct (f x) as [y|w] eqn:Ef; cbn.
    + destruct (mapM f l); cbn in *.
      * split; [done|]. intros (z & [->|Hz] & Hp); [by rewrite Ef in Hp|]. apply IH. eauto.
      * split; [|done]. intros _. destruct IH as [IH _]. destruct IH as (z & ? & ?); [done|]. eauto.
    + split; [|done]. intros _. exists x. rewrite Ef. auto.
Qed.

Definition shorten_header (h : BlockHeader) : outcome BlockHeader :=
  sig ← shorten (bh_LastCommitSig (bhd_Payload h)); Done (set_sig h sig).

Lemma shorten_sigs_mapM hs : shorten_sigs hs = mapM shorten_header hs.
Proof.
  unfold shorten_sigs.
  rewrite (for_each_ext _ (λ h acc, y ← shorten_header h; Done (acc ++ [y]))).
  - rewrite for_each_append. by destruct (mapM _ _).
  - intros h acc. unfold shorten_header. by destruct (shorten _).
Qed.

Lemma shortened_Done hs hs' : shorten_sigs hs = Done hs' → shortened hs = hs'.
Proof.
  rewrite shorten_sigs_mapM, mapM_Done. induction 1 as [|h h' hs hs' Hh _ IH]; [done|].
  cbn. unfold shorten_header in Hh. destruct (shorten _); [|done]. injection Hh as <-. by rewrite IH.
Qed.

Lemma shortened_idem hs : shortened (shortened hs) = shortened hs.
Proof.
  induction hs as [|h hs IH]; [done|]. cbn. destruct (shorten _) as [sig|w] eqn:E; cbn.
  - rewrite (shorten_idem _ _ E). by rewrite IH.
  - by rewrite E.
Qed.

(** Only the signatures change. *)
Lemma shortened_IP hs : bhd_IP <$> shortened hs = bhd_IP <$> hs.
Proof.
  induction hs as [|h hs IH]; [done|]. cbn. destruct (shorten _); [|done]. cbn in *. by rewrite IH.
Qed.

Lemma shorten_header_fields h h' :
  shorten_header h = Done h' →
  bhd_IP h' = bhd_IP h ∧ header_shard h' = header_shard h
  ∧ header_block h' = header_block h ∧ header_epoch h' = header_epoch h.
Proof. unfold shorten_header. destruct (shorten _); cbn; [|done]. by intros [= <-]. Qed.

Lemma shorten_header_panics h :
  panics (shorten_header h) = panics (shorten (bh_LastCommitSig (bhd_Payload h))).
Proof. unfold shorten_header. by destruct (shorten _). Qed.

Lemma shorten_header_idem h h' : shorten_header h = Done h' → shorten_header h' = Done h'.
Proof.
  unfold shorten_header. destruct (shorten _) as [s|] eqn:E; cbn; [|done].
  intros [= <-]. cbn. rewrite (shorten_idem _ _ E). done.
Qed.

Lemma shorten_sigs_idem hs hs' : shorten_sigs hs = Done hs' → shorten_sigs hs' = Done hs'.
Proof.
  rewrite !shorten_sigs_mapM, !mapM_Done. induction 1 as [|h h' hs hs' Hh Hhs IH]; [constructor|].
  constructor; [by eapply shorten_header_idem|done].
Qed.

(** *** The other summaries never panic *)

Section summary_total.
Context `{L : Linq}.

Lemma chain_summaries_total metas : ∃ s, chain_summaries metas = Done s.
Proof.
  unfold chain_summaries.
  eexists. apply (for_each_fold _ (λ s '(shardID, g),
    match FirstWith (λ c, bool_decide (meta_shard c = shardID)) g with
    | Some sample => <[Itoa (int64 shardID) := IAny (chain_summary (nmd_Payload sample))]> s
    | None => s
    end)).
  intros [shard g] s Hin.
  destruct g as [|x g'] eqn:Eg; [by apply GroupBy_nonempty in Hin|]. rewrite <-Eg in *.
  assert (x ∈ filter (λ x, meta_shard x = shard) metas) as Hx.
  { rewrite <-(GroupBy_group _ _ _ _ Hin), Eg. set_solver. }
  apply list_elem_of_filter in Hx as [Hx _].
  destruct (FirstWith_exists (λ c, bool_decide (meta_shard c = shard)) g x) as [y ->];
    [set_solver|by apply bool_decide_eq_true|done].
Qed.

(** A shard has a chain configuration exactly when a node reports it. *)
Lemma chain_summaries_dom metas chain k :
  chain_summaries metas = Done chain →
  is_Some (chain !! k) ↔ ∃ n, n ∈ metas ∧ k = Itoa (int64 (meta_shard n)).
Proof.
  unfold chain_summaries. set (body := λ '(shardID, g) s, _).
  assert (∀ l s s', for_each body l s = Done s' →
    is_Some (s' !! k) ↔ is_Some (s !! k) ∨ ∃ shard, shard ∈ l.*1 ∧ k = Itoa (int64 shard)) as Hl.
  { induction l as [|[shard g] l IH]; intros s s'; cbn [for_each]; [intros [= <-]; set_solver|].
    cbn. destruct (FirstWith _ g) as [x|]; [|done]. intros E. rewrite (IH _ _ E).
    setoid_rewrite elem_of_cons. destruct (decide (k = Itoa (int64 shard))) as [->|Hne].
    - rewrite lookup_insert_eq. naive_solver.
    - rewrite lookup_insert_ne by done. naive_solver. }
  intros E. rewrite (Hl _ _ _ E), lookup_empty. setoid_rewrite GroupBy_dom. split.
  - intros [[? ?]|(shard & (n & Hn & <-) & ->)]; [done|]. eauto.
  - intros (n & Hn & ->). right. eauto.
Qed.

Lemma summaryMaps_Done metas hs hs' :
  shorten_sigs hs = Done hs' →
  ∃ chain, chain_summaries metas = Done chain ∧
    summaryMaps metas hs = Done (<[metaSumry := version_summary metas]>
         (<[headerSumry := blockHeaderSummary hs' true ∅]>
         (<[chainSumry := chain]> {[committeeSumry := ∅]})), hs').
Proof.
  intros E. destruct (chain_summaries_total metas) as [chain Hc]. exists chain.
  split; [done|]. unfold summaryMaps. rewrite E. cbn [mbind outcome_bind]. by rewrite Hc.
Qed.

Lemma summaryMaps_panics metas hs :
  panics (summaryMaps metas hs) = true
  ↔ ∃ h, h ∈ hs ∧ (0 < String.length (bh_LastCommitSig (bhd_Payload h)) < 5)%nat.
Proof.
  transitivity (panics (shorten_sigs hs) = true).
  - destruct (shorten_sigs hs) as [hs'|w] eqn:E.
    + destruct (summaryMaps_Done metas hs hs' E) as (c & _ & ->). done.
    + unfold summaryMaps. by rewrite E.
  - rewrite shorten_sigs_mapM, mapM_panics. setoid_rewrite shorten_header_panics.
    by setoid_rewrite shorten_panics.
Qed.
End summary_total.
