(* ===== verification/Monitor.v ===== *)
(** * The monitor's state

    The record [monitor] of reporting-server.go with its containers, the copy
    helpers, and how replies are appended to the working containers. *)

From S2P Require Import Prelude GoFmt GoTime GoJson Rpc Linq Alerts Summary.

Record noReply : Type := MkNoReply {
  nr_IP : string;
  nr_FailureReason : string;
  nr_RPCPayload : string;
  nr_ShardID : Z;
}.

#[global] Instance noReply_eq_dec : EqDecision noReply.
Proof. solve_decision. Defined.

Record MetadataContainer : Type := MkMetadataContainer {
  mc_TS : Time;
  mc_Nodes : list NodeMetadata;
  mc_Down : list noReply;
}.

Record BlockHeaderContainer : Type := MkBlockHeaderContainer {
  bc_TS : Time;
  bc_Nodes : list BlockHeader;
  bc_Down : list noReply;
}.

(** The array behind a slice: how many arrays the slice had before, and its
    capacity. *)
Record array : Type := MkArray { ar_id : nat; ar_cap : nat }.

(** [append] to a slice of [n] elements takes a new array when the old one is
    full. *)
Definition append_array `{MR : GoRuntime} (n : nat) (a : array) : array :=
  if (n <? ar_cap a)%nat then a else MkArray (S (ar_id a)) (grow n).

(** [k] elements appended to a slice of [n]. *)
Fixpoint append_arrays `{MR : GoRuntime} (n k : nat) (a : array) : array :=
  match k with 0%nat => a | S k => append_arrays (S n) k (append_array n a) end.

Lemma append_arrays_id `{MR : GoRuntime} n k a : (ar_id a ≤ ar_id (append_arrays n k a))%nat.
Proof.
  revert n a. induction k as [|k IH]; intros n a; cbn; [done|]. etrans; [|apply IH].
  unfold append_array. case_match; cbn; lia.
Qed.

(** A slice literal without elements. *)
Definition empty_array (a : array) : array := MkArray (S (ar_id a)) 0.

(** [monitor]; [m_inUse] tells whether the mutex is held. A list says nothing of
    the array behind it, which matters for [WorkingBlockHeader.Down] only: the
    consensus monitor appends to that slice of the header manager.
    [m_DownArray] is its array. *)
Record monitor : Type := MkMonitor {
  m_chain : string;
  m_inUse : bool;
  m_WorkingMetadata : MetadataContainer;
  m_WorkingBlockHeader : BlockHeaderContainer;
  m_MetadataSnapshot : MetadataContainer;
  m_BlockHeaderSnapshot : BlockHeaderContainer;
  m_SuperCommittee : SuperCommitteeReply;
  m_LastCrossLinks : LastCrossLinkReply;
  m_SummarySnapshot : gmap string (gmap string iface);
  m_NoReplySnapshot : list noReply;
  m_consensusProgress : gmap string bool;
  m_DownArray : array;
}.

Definition zero_time : Time := MkTime 0 0.

(** [&monitor{chain: ..., consensusProgress: map[string]bool{}}] of [doMonitor]. *)
Definition new_monitor (chain : string) : monitor := {|
  m_chain := chain;
  m_inUse := false;
  m_WorkingMetadata := MkMetadataContainer zero_time [] [];
  m_WorkingBlockHeader := MkBlockHeaderContainer zero_time [] [];
  m_MetadataSnapshot := MkMetadataContainer zero_time [] [];
  m_BlockHeaderSnapshot := MkBlockHeaderContainer zero_time [] [];
  m_SuperCommittee := zero_SuperCommitteeReply;
  m_LastCrossLinks := zero_LastCrossLinkReply;
  m_SummarySnapshot := ∅;
  m_NoReplySnapshot := [];
  m_consensusProgress := ∅;
  m_DownArray := MkArray 0 0;
|}.

(** ** Field updates *)

Definition set_inUse (b : bool) (m : monitor) : monitor :=
  MkMonitor (m_chain m) b (m_WorkingMetadata m) (m_WorkingBlockHeader m)
    (m_MetadataSnapshot m) (m_BlockHeaderSnapshot m) (m_SuperCommittee m) (m_LastCrossLinks m)
    (m_SummarySnapshot m) (m_NoReplySnapshot m) (m_consensusProgress m) (m_DownArray m).
Definition set_WorkingMetadata (c : MetadataContainer) (m : monitor) : monitor :=
  MkMonitor (m_chain m) (m_inUse m) c (m_WorkingBlockHeader m)
    (m_MetadataSnapshot m) (m_BlockHeaderSnapshot m) (m_SuperCommittee m) (m_LastCrossLinks m)
    (m_SummarySnapshot m) (m_NoReplySnapshot m) (m_consensusProgress m) (m_DownArray m).
Definition set_WorkingBlockHeader (c : BlockHeaderContainer) (m : monitor) : monitor :=
  MkMonitor (m_chain m) (m_inUse m) (m_WorkingMetadata m) c
    (m_MetadataSnapshot m) (m_BlockHeaderSnapshot m) (m_SuperCommittee m) (m_LastCrossLinks m)
    (m_SummarySnapshot m) (m_NoReplySnapshot m) (m_consensusProgress m) (m_DownArray m).
Definition set_MetadataSnapshot (c : MetadataContainer) (m : monitor) : monitor :=
  MkMonitor (m_chain m) (m_inUse m) (m_WorkingMetadata m) (m_WorkingBlockHeader m)
    c (m_BlockHeaderSnapshot m) (m_SuperCommittee m) (m_LastCrossLinks m)
    (m_SummarySnapshot m) (m_NoReplySnapshot m) (m_consensusProgress m) (m_DownArray m).
Definition set_BlockHeaderSnapshot (c : BlockHeaderContainer) (m : monitor) : monitor :=
  MkMonitor (m_chain m) (m_inUse m) (m_WorkingMetadata m) (m_WorkingBlockHeader m)
    (m_MetadataSnapshot m) c (m_SuperCommittee m) (m_LastCrossLinks m)
    (m_SummarySnapshot m) (m_NoReplySnapshot m) (m_consensusProgress m) (m_DownArray m).
Definition set_SuperCommittee (c : SuperCommitteeReply) (m : monitor) : monitor :=
  MkMonitor (m_chain m) (m_inUse m) (m_WorkingMetadata m) (m_WorkingBlockHeader m)
    (m_MetadataSnapshot m) (m_BlockHeaderSnapshot m) c (m_LastCrossLinks m)
    (m_SummarySnapshot m) (m_NoReplySnapshot m) (m_consensusProgress m) (m_DownArray m).
Definition set_LastCrossLinks (c : LastCrossLinkReply) (m : monitor) : monitor :=
  MkMonitor (m_chain m) (m_inUse m) (m_WorkingMetadata m) (m_WorkingBlockHeader m)
    (m_MetadataSnapshot m) (m_BlockHeaderSnapshot m) (m_SuperCommittee m) c
    (m_SummarySnapshot m) (m_NoReplySnapshot m) (m_consensusProgress m) (m_DownArray m).
Definition set_consensusProgress (p : gmap string bool) (m : monitor) : monitor :=
  MkMonitor (m_chain m) (m_inUse m) (m_WorkingMetadata m) (m_WorkingBlockHeader m)
    (m_MetadataSnapshot m) (m_BlockHeaderSnapshot m) (m_SuperCommittee m) (m_LastCrossLinks m)
    (m_SummarySnapshot m) (m_NoReplySnapshot m) p (m_DownArray m).
Definition set_report (s : gmap string (gmap string iface)) (down : list noReply)
    (m : monitor) : monitor :=
  MkMonitor (m_chain m) (m_inUse m) (m_WorkingMetadata m) (m_WorkingBlockHeader m)
    (m_MetadataSnapshot m) (m_BlockHeaderSnapshot m) (m_SuperCommittee m) (m_LastCrossLinks m)
    s down (m_consensusProgress m) (m_DownArray m).
Definition set_DownArray (a : array) (m : monitor) : monitor :=
  MkMonitor (m_chain m) (m_inUse m) (m_WorkingMetadata m) (m_WorkingBlockHeader m)
    (m_MetadataSnapshot m) (m_BlockHeaderSnapshot m) (m_SuperCommittee m) (m_LastCrossLinks m)
    (m_SummarySnapshot m) (m_NoReplySnapshot m) (m_consensusProgress m) a.

(** ** Copies (the slices are copied, so plain values) *)

Definition metadataCopy (newData : MetadataContainer) (m : monitor) : monitor :=
  set_MetadataSnapshot
    (MkMetadataContainer (mc_TS newData) (mc_Nodes newData) (mc_Down newData)) m.

Definition blockHeaderCopy (newData : BlockHeaderContainer) (m : monitor) : monitor :=
  set_BlockHeaderSnapshot
    (MkBlockHeaderContainer (bc_TS newData) (bc_Nodes newData) (bc_Down newData)) m.

(** ** Replies *)

(** The entry for a node that did not answer. *)
Definition no_reply (shardMap : gmap string Z) (d : reply) (oops : string) : noReply :=
  MkNoReply (r_address d) oops (r_payload d) (default 0 (shardMap !! r_address d)).

(** [bytesToNodeMetadata]. *)
Definition bytesToNodeMetadata (rpc addr payload : string) (m : monitor) : monitor :=
  if decide (rpc = NodeMetadataRPC) then
    let c := m_WorkingMetadata m in
    set_WorkingMetadata (MkMetadataContainer (mc_TS c)
      (mc_Nodes c ++ [MkNodeMetadata (decode_metadata payload) addr]) (mc_Down c)) m
  else if decide (rpc = BlockHeaderRPC) then
    let c := m_WorkingBlockHeader m in
    set_WorkingBlockHeader (MkBlockHeaderContainer (bc_TS c)
      (bc_Nodes c ++ [MkBlockHeader (decode_header payload) addr]) (bc_Down c)) m
  else m.

(** What a reply adds to a container: a record, or a silent node. *)
Definition metadata_of_reply (d : reply) : option NodeMetadata :=
  match r_oops d with
  | None => Some (MkNodeMetadata (decode_metadata (r_result d)) (r_address d))
  | Some _ => None
  end.
Definition header_of_reply (d : reply) : option BlockHeader :=
  match r_oops d with
  | None => Some (MkBlockHeader (decode_header (r_result d)) (r_address d))
  | Some _ => None
  end.
Definition silence_of_reply (shardMap : gmap string Z) (d : reply) : option noReply :=
  match r_oops d with
  | Some e => Some (no_reply shardMap d e)
  | None => None
  end.
