(* ===== verification/Consensus.v ===== *)
(** * The consensus monitor (consensus-monitor.go)

    [consensus_tick] is one iteration of [consensusMonitor] after the workers
    have answered; its state is the last successful block and the status of
    each shard, which the goroutine keeps between ticks. [checkShardHeight] and
    [checkSync] are the goroutines it starts. *)

From S2P Require Import Prelude GoFloat GoFmt GoTime GoJson Rpc Linq Alerts Summary Monitor.

Record lastSuccessfulBlock : Type := MkLastBlock { lb_Height : Z; lb_TS : Time }.

Record consensus_state : Type := MkConsensusState {
  lastShardData : gmap string lastSuccessfulBlock;
  consensusStatus : gmap string bool;
}.

Definition initial_consensus : consensus_state := MkConsensusState ∅ ∅.

(** The arguments of [consensusMonitor] the tick uses. *)
Record consensus_config : Type := MkConsensusConfig {
  cf_warning : Z;
  cf_tolerance : Z;
  cf_poolSize : Z;
  cf_pdServiceKey : string;
  cf_chain : string;
  cf_shardMap : gmap string Z;
}.

(** ** Collecting the replies *)

(** The loop over the reply channel. The list of silent nodes is rebuilt from
    the monitor's working list at every failure, as in the code. *)
Definition collect_headers (shardMap : gmap string Z) (workingDown : list noReply)
    (replies : list reply) : list BlockHeader * list noReply :=
  fold_left (λ '(nodes, down) d,
    match r_oops d with
    | Some e => (nodes, workingDown ++ [no_reply shardMap d e])
    | None => (nodes ++ [MkBlockHeader (decode_header (r_result d)) (r_address d)], down)
    end) replies ([], []).

(** ** One shard *)

Definition consensus_incident (shard chain : string) : string :=
  Sprintf "Shard %s consensus stuck! - %s" [OStr shard; OStr chain].

Definition consensus_text (shard chain : string) (height : Z) (lb : lastSuccessfulBlock)
    (h : BlockHeader) (elapsed : Z) : string :=
  let p := bhd_Payload h in
  Sprintf consensusMessage
    [OStr shard; OInt TUint64 height; OStr (Format (lb_TS lb));
     OStr (bh_BlockHash p); OStr (bh_Leader p); OInt TUint64 (bh_ViewID p);
     OInt TUint64 (bh_Epoch p); OStr (bh_Timestamp p); OStr (bh_LastCommitSig p);
     OStr (bh_LastCommitBitmap p); OInt TInt64 (int_of_float (Seconds elapsed));
     OFloat (Minutes elapsed); OStr chain].

(** [timeSinceLastSuccess.Seconds() > 0 && uint64(timeSinceLastSuccess.Seconds()) > warning]. *)
Definition overdue (warning elapsed : Z) : bool :=
  fpos (Seconds elapsed) && (warning <? whole_seconds elapsed).

Section tick.
Context `{L : Linq} `{MR : GoRuntime}.
Context (pd : pager) (cfg : consensus_config).

(** The body of [for shard, summary := range blockHeaderData]. *)
Definition shard_step (now : Time) (entry : string * iface)
    (acc : consensus_state * list action) : outcome (consensus_state * list action) :=
  let '(shard, summary) := entry in
  let '(st, acts) := acc in
  a ← as_any (Some summary);
  currentBlockHeight ← as_u64 (a !! blockMax);
  currentBlockHeader ← as_header (a !! "latest-block");
  let acts :=
    if decide (shard = "0"%string) then
      acts ++ [GoBeaconSyncMonitor currentBlockHeight (cf_warning cfg) (cf_tolerance cfg)
                 (cf_poolSize cfg) (cf_pdServiceKey cfg) (cf_chain cfg)]
    else acts in
  let record :=
    (MkConsensusState
      (<[shard := MkLastBlock currentBlockHeight
           (Unix (bh_UnixTime (bhd_Payload currentBlockHeader)))]> (lastShardData st))
      (<[shard := true]> (consensusStatus st)), acts) in
  match lastShardData st !! shard with
  | Some lastBlock =>
      if currentBlockHeight <=? lb_Height lastBlock then
        let timeSinceLastSuccess := Sub now (lb_TS lastBlock) in
        if overdue (cf_warning cfg) timeSinceLastSuccess then
          Done (MkConsensusState (lastShardData st) (<[shard := false]> (consensusStatus st)),
                acts ++ alert pd "[consensusMonitor] Sent PagerDuty alert! %s"
                  (cf_pdServiceKey cfg) (consensus_incident shard (cf_chain cfg)) (cf_chain cfg)
                  (consensus_text shard (cf_chain cfg) currentBlockHeight lastBlock
                     currentBlockHeader timeSinceLastSuccess))
        else Done record
      else Done record
  | None => Done record
  end.

(** One tick: the new state of the goroutine and its actions. The last step
    of the tick publishes the status, [m.consensusProgress = consensusStatus]
    (see [publish_progress]). *)
Definition consensus_tick (now : Time) (workingDown : list noReply) (replies : list reply)
    (st : consensus_state) : outcome (consensus_state * list action) :=
  let '(nodes, down) := collect_headers (cf_shardMap cfg) workingDown replies in
  let blockHeaderData := blockHeaderSummary nodes true ∅ in
  let acts :=
    [Stdlog "[consensusMonitor] Starting consensus check" [];
     GoCheckShardHeight nodes (cf_warning cfg) (cf_tolerance cfg) (cf_pdServiceKey cfg)
       (cf_chain cfg)] in
  '(st', acts') ← for_each (shard_step now) (range blockHeaderData) (st, acts);
  Done (st', acts'
    ++ [Stdlog "[consensusMonitor] Total no reply machines: %d" [OInt TInt (Z.of_nat (length down))]]
    ++ ((λ '(s, b), Stdlog "[consensusMonitor] Shard %s, Consensus: %v" [OStr s; OBool b])
          <$> range (consensusStatus st'))).

Definition publish_progress (st : consensus_state) (m : monitor) : monitor :=
  set_consensusProgress (consensusStatus st) m.
End tick.

(** ** Heights within a shard *)

Section heights.
Context `{MR : GoRuntime}.

(** [shardHeightMap]: the headers by shard and block number. *)
Definition height_map (nodes : list BlockHeader) : gmap Z (gmap Z (list BlockHeader)) :=
  fold_left (λ m v,
    let shard := header_shard v in
    <[shard := map_append (header_block v) v (default ∅ (m !! shard))]> m) nodes ∅.

(** The loops over one shard's heights. *)
Definition check_heights (syncTimer tolerance : Z) (pdServiceKey chain : string)
    (i : Z) (s : gmap Z (list BlockHeader)) : list action :=
  let uniqueHeights := (λ p, int64 p.1) <$> range s in
  let maxHeight :=
    fold_left (λ mx h, if mx <? uint64 h then uint64 h else mx) uniqueHeights 0 in
  (uniqueHeights ≫= λ h,
    if tolerance <? sub64 maxHeight (uint64 h) then
      (λ v, GoCheckSync (bhd_IP v) pdServiceKey chain (header_block v) maxHeight syncTimer)
        <$> default [] (s !! uint64 h)
    else [])
  ++ [Stdlog "[checkShardHeight] Shard %d, Max height: %d, Number of unique heights: %d, Unique heights: %v"
        [OInt TUint32 i; OInt TUint64 maxHeight; OInt TInt (Z.of_nat (length uniqueHeights));
         OInts TInt uniqueHeights]].

Definition checkShardHeight (nodes : list BlockHeader) (syncTimer tolerance : Z)
    (pdServiceKey chain : string) : list action :=
  Stdlog "[checkShardHeight] Running shard height check" []
  :: (range (height_map nodes) ≫= λ '(i, s),
        check_heights syncTimer tolerance pdServiceKey chain i s).
End heights.

(** ** Progress of one node *)

Definition sync_sleep (IP : string) (syncTimer : Z) : list action :=
  [Stdlog "[checkSync] Sleeping %d to check IP %s progress" [OInt TUint64 syncTimer; OStr IP];
   Sleep (int64 (Second * int64 syncTimer))].

(** What follows on the answer of the node. *)
Definition sync_reply (pd : pager) (IP pdServiceKey chain : string) (blockNumber shardHeight : Z)
    (r : string * string * option string) : list action :=
  let '(result, _, err) := r in
  match err with
  | Some _ => []
  | None =>
      let reply := decode_header result in
      if negb (blockNumber <? bh_BlockNumber reply) then
        alert pd "[checkSync] Sent PagerDuty alert! %s" pdServiceKey
          (Sprintf "%s out of sync! - %s" [OStr IP; OStr chain]) chain
          (Sprintf blockHeightMessage
             [OStr IP; OInt TUint64 (bh_BlockNumber reply); OInt TUint64 shardHeight;
              OInt TUint32 (bh_ShardID reply); OStr chain])
        ++ [Stdlog "[checkSync] IP %s is not syncing..." [OStr IP]]
      else [Stdlog "[checkSync] IP %s is syncing..." [OStr IP]]
  end.

Definition checkSync (pd : pager) (client : http_client) (IP pdServiceKey chain : string)
    (blockNumber shardHeight syncTimer : Z) : list action :=
  sync_sleep IP syncTimer
  ++ sync_reply pd IP pdServiceKey chain blockNumber shardHeight
       (request client ("http://" +:+ IP) (request_body BlockHeaderRPC)).

(** The actions of a shard come after those before it. *)
Lemma shard_step_acts pd cfg now e st acts :
  shard_step pd cfg now e (st, acts)
  = '(st', acts') ← shard_step pd cfg now e (st, []); Done (st', acts ++ acts').
Proof.
  destruct e as [shard v]. unfold shard_step.
  destruct (as_any _) as [a|]; [|done]. cbn [mbind outcome_bind].
  destruct (as_u64 _) as [h|]; [|done]. cbn [mbind outcome_bind].
  destruct (as_header _) as [b|]; [|done]. cbn [mbind outcome_bind].
  case_decide; repeat case_match; cbn [mbind outcome_bind];
    rewrite ?app_nil_r, ?app_nil_l, <-?app_assoc; done.
Qed.

Lemma shard_steps_acts pd cfg now entries st acts :
  for_each (shard_step pd cfg now) entries (st, acts)
  = '(st', acts') ← for_each (shard_step pd cfg now) entries (st, []); Done (st', acts ++ acts').
Proof.
  revert st acts. induction entries as [|e entries IH]; intros st acts; cbn [for_each].
  { cbn. by rewrite app_nil_r. }
  rewrite shard_step_acts. destruct (shard_step pd cfg now e (st, [])) as [[st1 acts1]|]; [|done].
  cbn [mbind outcome_bind]. rewrite IH, (IH st1 acts1).
  destruct (for_each _ entries (st1, [])) as [[st2 acts2]|]; [|done]. cbn. by rewrite app_assoc.
Qed.

(** ** Specification of a tick

    What a tick is meant to do, shard by shard: [stuck] is the alarm
    condition, [latest nodes shard h] says that [h] is a header of greatest
    block number the shard's nodes reported. *)

Definition stuck (warning : Z) (now : Time) (lb : option lastSuccessfulBlock)
    (h : BlockHeader) : bool :=
  match lb with
  | Some lb => (header_block h <=? lb_Height lb) && overdue warning (Sub now (lb_TS lb))
  | None => false
  end.

Definition latest (nodes : list BlockHeader) (shard : string) (h : BlockHeader) : Prop :=
  h ∈ nodes ∧ Itoa (header_shard h) = shard
  ∧ ∀ x, x ∈ nodes → Itoa (header_shard x) = shard → header_block x ≤ header_block h.

(** The block a tick without alarm records. *)
Definition recorded (h : BlockHeader) : lastSuccessfulBlock :=
  MkLastBlock (header_block h) (Unix (bh_UnixTime (bhd_Payload h))).

Definition consensus_page (cfg : consensus_config) (now : Time) (shard : string)
    (lb : lastSuccessfulBlock) (h : BlockHeader) : V2Event :=
  MkV2Event (cf_pdServiceKey cfg) "trigger" (consensus_incident shard (cf_chain cfg))
    (MkV2Payload (consensus_incident shard (cf_chain cfg)) (cf_chain cfg) "critical"
       (consensus_text shard (cf_chain cfg) (header_block h) lb h (Sub now (lb_TS lb)))).

(** The pages due for a shard whose nodes reported [h]. *)
Definition due (cfg : consensus_config) (now : Time) (last : gmap string lastSuccessfulBlock)
    (shard : string) (h : BlockHeader) : list V2Event :=
  match last !! shard with
  | Some lb =>
      if stuck (cf_warning cfg) now (Some lb) h then [consensus_page cfg now shard lb h] else []
  | None => []
  end.

(** The state after the tick at one shard. *)
Definition shard_after (cfg : consensus_config) (now : Time) (st st' : consensus_state)
    (shard : string) (o : option BlockHeader) : Prop :=
  match o with
  | None =>
      lastShardData st' !! shard = lastShardData st !! shard
      ∧ consensusStatus st' !! shard = consensusStatus st !! shard
  | Some h =>
      if stuck (cf_warning cfg) now (lastShardData st !! shard) h then
        lastShardData st' !! shard = lastShardData st !! shard
        ∧ consensusStatus st' !! shard = Some false
      else
        lastShardData st' !! shard = Some (recorded h)
        ∧ consensusStatus st' !! shard = Some true
  end.

Section tick_facts.
Context `{L : Linq} `{MR : GoRuntime}.
Context (pd : pager) (cfg : consensus_config) (now : Time).

Definition beacon_action (shard : string) (h : BlockHeader) : list action :=
  if decide (shard = "0"%string) then
    [GoBeaconSyncMonitor (header_block h) (cf_warning cfg) (cf_tolerance cfg)
       (cf_poolSize cfg) (cf_pdServiceKey cfg) (cf_chain cfg)]
  else [].

(** [shard_step] on an entry whose latest header is [h]. *)
Definition record_step (acc : consensus_state * list action) (e : string * BlockHeader) :
    consensus_state * list action :=
  let '(shard, h) := e in
  let '(st, acts) := acc in
  if stuck (cf_warning cfg) now (lastShardData st !! shard) h then
    (MkConsensusState (lastShardData st) (<[shard := false]> (consensusStatus st)),
     acts ++ beacon_action shard h ++
     match lastShardData st !! shard with
     | Some lb => alert pd "[consensusMonitor] Sent PagerDuty alert! %s"
         (cf_pdServiceKey cfg) (consensus_incident shard (cf_chain cfg)) (cf_chain cfg)
         (consensus_text shard (cf_chain cfg) (header_block h) lb h (Sub now (lb_TS lb)))
     | None => []
     end)
  else
    (MkConsensusState (<[shard := recorded h]> (lastShardData st))
       (<[shard := true]> (consensusStatus st)),
     acts ++ beacon_action shard h).

Lemma shard_step_record shard a h acc :
  a !! blockMax = Some (LU64 (header_block h)) →
  a !! "latest-block" = Some (LHeader h) →
  shard_step pd cfg now (shard, IAny a) acc = Done (record_step acc (shard, h)).
Proof.
  intros E1 E2. destruct acc as [st acts]. unfold shard_step, record_step, beacon_action.
  cbn [as_any mbind outcome_bind]. rewrite E1. cbn [as_u64 mbind outcome_bind]. rewrite E2.
  cbn [as_header mbind outcome_bind]. unfold stuck.
  destruct (lastShardData st !! shard) as [lb|].
  - destruct (header_block h <=? lb_Height lb); cbn [andb].
    + destruct (overdue _ _); case_decide; rewrite ?app_nil_r, ?app_nil_l, <-?app_assoc; done.
    + case_decide; rewrite ?app_nil_r; done.
  - case_decide; rewrite ?app_nil_r; done.
Qed.

Definition latest_of (v : iface) : option BlockHeader :=
  match v with
  | IAny a => match a !! "latest-block" with Some (LHeader h) => Some h | _ => None end
  | IMap _ => None
  end.

(** The latest header of each shard, read from the summary. *)
Definition view (nodes : list BlockHeader) : gmap string BlockHeader :=
  omap latest_of (blockHeaderSummary nodes true ∅).

Lemma view_entry nodes shard v :
  blockHeaderSummary nodes true ∅ !! shard = Some v →
  ∃ a h, v = IAny a ∧ a !! blockMax = Some (LU64 (header_block h))
    ∧ a !! "latest-block" = Some (LHeader h) ∧ view nodes !! shard = Some h
    ∧ latest nodes shard h.
Proof.
  intros Hv. destruct (blockHeaderSummary_entry _ _ _ Hv) as (a & h & -> & -> & E1 & E2 & Hin & Hub).
  exists a, h. unfold view. rewrite lookup_omap, Hv. cbn. rewrite E2.
  repeat (split; [done|]). intros x Hx Ex%(inj Itoa). by apply Hub.
Qed.

Lemma view_latest nodes shard h : view nodes !! shard = Some h → latest nodes shard h.
Proof.
  unfold view. rewrite lookup_omap. intros Hv.
  destruct (blockHeaderSummary nodes true ∅ !! shard) as [v|] eqn:E; [|done].
  destruct (view_entry _ _ _ E) as (a & h' & -> & _ & E2 & _ & Hl).
  cbn in Hv. rewrite E2 in Hv. by simplify_eq.
Qed.

(** A shard is viewed exactly when some node reported a header of it. *)
Lemma view_dom nodes shard :
  is_Some (view nodes !! shard) ↔ ∃ h, h ∈ nodes ∧ Itoa (header_shard h) = shard.
Proof.
  split.
  - intros [h (Hin & E & _)%view_latest]. eauto.
  - intros (h & Hin & <-).
    destruct (proj2 (blockHeaderSummary_dom nodes true (header_shard h))) as [v Hv]; [eauto|].
    destruct (view_entry _ _ _ Hv) as (a & h' & _ & _ & _ & -> & _). eauto.
Qed.

(** The loop over the summary, as a fold over the viewed headers. *)
Lemma loop_fold nodes l acc :
  (∀ k v, (k, v) ∈ l → blockHeaderSummary nodes true ∅ !! k = Some v) →
  for_each (shard_step pd cfg now) l acc = Done (fold_left record_step (omap_snd latest_of l) acc).
Proof.
  revert acc; induction l as [|[k v] l IH]; intros acc Hl; [done|].
  destruct (view_entry nodes k v) as (a & h & -> & E1 & E2 & _); [apply Hl; set_solver|].
  cbn [for_each]. rewrite (shard_step_record k a h) by done.
  cbn -[for_each record_step]. rewrite E2. cbn -[for_each record_step].
  apply IH. intros k' v' Hin. apply Hl. set_solver.
Qed.

Lemma pages_beacon shard h : pages (beacon_action shard h) = [].
Proof. unfold beacon_action. by case_decide. Qed.

(** One entry: its own shard follows the specification, the others keep
    their state, and the pages due are sent. *)
Lemma record_step_spec st acts shard h st1 acts1 :
  record_step (st, acts) (shard, h) = (st1, acts1) →
  shard_after cfg now st st1 shard (Some h)
  ∧ (∀ s, s ≠ shard → shard_after cfg now st st1 s None)
  ∧ pages acts1 = pages acts ++ due cfg now (lastShardData st) shard h.
Proof.
  unfold record_step, shard_after, due.
  destruct (stuck _ _ (lastShardData st !! shard) h) eqn:Es; intros [= <- <-];
    cbn [lastShardData consensusStatus].
  - split; [split; [done|apply lookup_insert_eq]|].
    split; [intros s Hs; by rewrite lookup_insert_ne by done|].
    rewrite !pages_app, pages_beacon, app_nil_l.
    destruct (lastShardData st !! shard) as [lb|] eqn:El; [|done].
    by rewrite Es, pages_alert.
  - split; [split; apply lookup_insert_eq|].
    split; [intros s Hs; by rewrite !lookup_insert_ne by done|].
    rewrite pages_app, pages_beacon.
    destruct (lastShardData st !! shard) as [lb|]; [|done]. by rewrite Es.
Qed.

(** The fold treats every shard once, from the state before the tick. *)
Lemma fold_record l acc st' acts' :
  NoDup (l.*1) → fold_left record_step l acc = (st', acts') →
  (∀ shard h, (shard, h) ∈ l → shard_after cfg now acc.1 st' shard (Some h))
  ∧ (∀ shard, shard ∉ l.*1 → shard_after cfg now acc.1 st' shard None)
  ∧ pages acts' = pages acc.2 ++ (l ≫= λ '(shard, h), due cfg now (lastShardData acc.1) shard h).
Proof.
  revert acc; induction l as [|[shard h] l IH]; intros [st acts] Hnd; cbn [fold_left].
  { intros [= <- <-]. cbn. rewrite app_nil_r. repeat split; set_solver. }
  apply NoDup_cons in Hnd as [Hni Hnd]. intros Hf.
  destruct (record_step (st, acts) (shard, h)) as [st1 acts1] eqn:E.
  apply record_step_spec in E as (Hhere & Hothers & Hp1).
  destruct (IH _ Hnd Hf) as (Hin & Hout & Hpages). clear IH Hf. cbn [fst snd] in *.
  split; [|split].
  - intros s x [[= -> ->]|Hsx]%elem_of_cons.
    + destruct (Hout shard Hni) as [E1 E2]. unfold shard_after in *.
      destruct (stuck _ _ _ h); by rewrite E1, E2.
    + assert (s ≠ shard) as Hs by (intros ->; apply Hni; by apply (list_elem_of_fmap_2 fst) in Hsx).
      specialize (Hin s x Hsx). destruct (Hothers s Hs) as [E1 E2].
      unfold shard_after in *. by rewrite E1 in Hin.
  - intros s [Hs Hsl]%not_elem_of_cons. destruct (Hothers s Hs) as [E1 E2].
    destruct (Hout s Hsl) as [E3 E4]. split; congruence.
  - rewrite Hpages, Hp1, <-app_assoc. cbn [mbind list_bind]. do 2 f_equal.
    apply Forall_bind_ext, Forall_forall. intros [s x] Hsx.
    assert (s ≠ shard) as Hs by (intros ->; apply Hni; by apply (list_elem_of_fmap_2 fst) in Hsx).
    destruct (Hothers s Hs) as [E1 _]. unfold due. by rewrite E1.
Qed.

Lemma pages_logs (l : list (string * bool)) :
  pages ((λ '(s, b), Stdlog "[consensusMonitor] Shard %s, Consensus: %v" [OStr s; OBool b]) <$> l)
  = [].
Proof. induction l as [|[s b] l IH]; [done|]. apply IH. Qed.

(** A tick returns, and what it does to every shard. *)
Lemma consensus_tick_run wd replies st :
  let nodes := (collect_headers (cf_shardMap cfg) wd replies).1 in
  ∃ st' acts, consensus_tick pd cfg now wd replies st = Done (st', acts)
    ∧ (∀ shard, shard_after cfg now st st' shard (view nodes !! shard))
    ∧ pages acts ≡ₚ (map_to_list (view nodes)
        ≫= λ '(shard, h), due cfg now (lastShardData st) shard h).
Proof.
  intros nodes. unfold consensus_tick. subst nodes.
  destruct (collect_headers _ _ _) as [nodes down]. cbn [fst].
  rewrite (loop_fold nodes) by (intros k v; apply elem_of_range).
  destruct (fold_left record_step _ _) as [st' acts'] eqn:Ef.
  apply fold_record in Ef as (Hin & Hout & Hp); [|apply NoDup_omap_snd, NoDup_range_keys].
  eexists _, _. split; [reflexivity|]. split.
  - intros shard. destruct (view nodes !! shard) as [h|] eqn:Ev.
    + apply (Hin shard h). rewrite (omap_snd_range _ _). by apply elem_of_map_to_list.
    + apply (Hout shard). intros ([k h] & -> & Hkh)%list_elem_of_fmap.
      rewrite (omap_snd_range _ _) in Hkh. apply elem_of_map_to_list in Hkh.
      unfold view in Ev. cbn in Ev. congruence.
  - rewrite !pages_app, ?pages_log_cons, pages_logs, app_nil_r, Hp. cbn [snd fst app].
    rewrite ?pages_log_cons.
    by rewrite (omap_snd_range _ _).
Qed.
End tick_facts.

(** ** Which nodes are checked for height *)

(** The height of a shard: the greatest block number its nodes reported. *)
Definition shard_height (nodes : list BlockHeader) (shard : Z) : Z :=
  list_max (header_block <$> filter (λ v, header_shard v = shard) nodes).

Definition lagging (tolerance : Z) (nodes : list BlockHeader) (v : BlockHeader) : Prop :=
  tolerance < shard_height nodes (header_shard v) - header_block v.

#[global] Instance lagging_dec tolerance nodes v : Decision (lagging tolerance nodes v) :=
  decide (_ < _).

Definition sync_check (a : action) : option action :=
  match a with GoCheckSync _ _ _ _ _ _ => Some a | _ => None end.

Section height_facts.
Context `{MR : GoRuntime}.

Lemma height_map_lookup nodes i :
  height_map nodes !! i =
    match filter (λ v, header_shard v = i) nodes with
    | [] => None
    | g => Some (group_append header_block id g)
    end.
Proof.
  induction nodes as [|v nodes IH] using rev_ind; [done|].
  unfold height_map in *. rewrite fold_left_app. cbn [fold_left].
  rewrite filter_app, filter_cons, filter_nil.
  destruct (decide (header_shard v = i)) as [<-|Hne].
  - rewrite lookup_insert_eq, IH.
    destruct (filter _ nodes) as [|x g]; [done|].
    by rewrite <-app_comm_cons, app_comm_cons, group_append_snoc.
  - rewrite lookup_insert_ne, IH by done. by rewrite app_nil_r.
Qed.

Lemma fold_max_uint64 l a :
  fold_left (λ mx h, if mx <? uint64 h then uint64 h else mx) l a
  = fold_left Z.max (uint64 <$> l) a.
Proof.
  revert a; induction l as [|h l IH]; intros a; cbn; [done|]. rewrite IH. f_equal.
  destruct (Z.ltb_spec a (uint64 h)); lia.
Qed.

Lemma check_heights_nodes syncTimer tolerance key chain i g :
  (∀ v, v ∈ g → is_uint64 (header_block v)) →
  let mx := list_max (header_block <$> g) in
  omap sync_check (check_heights syncTimer tolerance key chain i (group_append header_block id g))
  ≡ₚ (λ v, GoCheckSync (bhd_IP v) key chain (header_block v) mx syncTimer)
       <$> filter (λ v, tolerance < mx - header_block v) g.
Proof.
  intros Hwf mx. unfold check_heights. set (s := group_append header_block id g).
  rewrite omap_app. cbn [omap list_omap sync_check]. rewrite app_nil_r.
  assert (∀ h, h ∈ (range s).*1 ↔ ∃ v, v ∈ g ∧ header_block v = h) as Hkeys.
  { intros h. rewrite elem_of_range_keys. apply group_append_dom. }
  (* the heights are those of the map, as unsigned numbers *)
  assert (uint64 <$> ((λ p, int64 p.1) <$> range s) = (range s).*1) as Hround.
  { rewrite <-list_fmap_compose. apply list_fmap_ext. intros j [h vs] Hj. cbn.
    apply uint64_int64. destruct (proj1 (Hkeys h)) as (v & Hv & <-); [|by apply Hwf].
    apply list_elem_of_fmap. exists (h, vs). split; [done|]. by eapply list_elem_of_lookup_2. }
  assert (list_max ((range s).*1) = mx) as Hmax.
  { apply list_max_ext. intros h. rewrite Hkeys, list_elem_of_fmap. naive_solver. }
  rewrite fold_max_uint64, Hround. fold (list_max ((range s).*1)). rewrite Hmax.
  set (mk := λ v, GoCheckSync (bhd_IP v) key chain (header_block v) mx syncTimer).
  rewrite <-(bind_fmap_in uint64 (λ h, if tolerance <? sub64 mx h
    then mk <$> default [] (s !! h) else [])), Hround.
  rewrite omap_bind_list.
  transitivity ((range s).*1 ≫= λ h, mk <$>
    filter (λ v, header_block v = h) (filter (λ v, tolerance < mx - header_block v) g)).
  - apply eq_Permutation, Forall_bind_ext, Forall_forall. intros h Hh.
    apply Hkeys in Hh as (v & Hv & Eh).
    assert (sub64 mx h = mx - h) as ->.
    { pose proof (Hwf v Hv) as Hu. rewrite Eh in Hu.
      assert (h ≤ mx) by (apply list_max_ge, list_elem_of_fmap; eauto).
      apply sub64_no_wrap; [|done|done]. unfold mx.
      destruct (list_max_in (header_block <$> g)) as [->|(w & -> & Hw)%list_elem_of_fmap];
        [by split|by apply Hwf]. }
    rewrite filter_commute. unfold s. rewrite group_append_lookup, list_fmap_id.
    destruct (Z.ltb_spec tolerance (mx - h)).
    + rewrite omap_id by (by intros x (w & -> & _)%list_elem_of_fmap). f_equal.
      symmetry. apply filter_keep_all. intros w [Ew _]%list_elem_of_filter. lia.
    + rewrite filter_drop_all; [done|]. intros w [Ew _]%list_elem_of_filter. lia.
  - rewrite bind_fmap_out. apply fmap_Permutation, bind_partition.
    + apply NoDup_range_keys.
    + intros w [_ Hw]%list_elem_of_filter. apply Hkeys. eauto.
Qed.

Lemma checkShardHeight_run nodes syncTimer tolerance key chain :
  (∀ v, v ∈ nodes → is_uint64 (header_block v)) →
  omap sync_check (checkShardHeight nodes syncTimer tolerance key chain)
  ≡ₚ (λ v, GoCheckSync (bhd_IP v) key chain (header_block v)
             (shard_height nodes (header_shard v)) syncTimer)
       <$> filter (lagging tolerance nodes) nodes.
Proof.
  intros Hwf. unfold checkShardHeight. cbn [omap list_omap sync_check].
  rewrite omap_bind_list.
  transitivity ((range (height_map nodes)).*1 ≫= λ i,
    (λ v, GoCheckSync (bhd_IP v) key chain (header_block v)
       (shard_height nodes (header_shard v)) syncTimer)
    <$> filter (λ v, header_shard v = i) (filter (lagging tolerance nodes) nodes)).
  - etransitivity; [|apply bind_perm_ext].
    { apply eq_Permutation. etransitivity; [|apply (range_bind_keys (height_map nodes)
        (λ i s, omap sync_check (check_heights syncTimer tolerance key chain i s)))].
      apply Forall_bind_ext, Forall_forall. by intros [i s] _. }
    intros i [s Hs]%elem_of_range_keys. rewrite Hs. rewrite height_map_lookup in Hs.
    destruct (filter (λ v, header_shard v = i) nodes) as [|x g'] eqn:Eg; [done|].
    injection Hs as <-. rewrite <-Eg.
    rewrite check_heights_nodes by (intros v [_ Hv]%list_elem_of_filter; auto).
    fold (shard_height nodes i). rewrite (filter_commute (λ v, header_shard v = i)).
    apply eq_Permutation.
    assert (filter (lagging tolerance nodes) (filter (λ v, header_shard v = i) nodes)
      = filter (λ v, tolerance < shard_height nodes i - header_block v)
          (filter (λ v, header_shard v = i) nodes)) as ->.
    { rewrite !list_filter_filter. apply list_filter_iff. intros v. unfold lagging.
      split; intros [? <-]; done. }
    apply list_fmap_ext. intros j v Hv%list_elem_of_lookup_2.
    by apply list_elem_of_filter in Hv as [_ [<- _]%list_elem_of_filter].
  - rewrite bind_fmap_out. apply fmap_Permutation, bind_partition; [apply NoDup_range_keys|].
    intros v [_ Hv]%list_elem_of_filter. apply elem_of_range_keys.
    rewrite height_map_lookup.
    destruct (filter _ nodes) as [|x g] eqn:Eg; [|eauto].
    assert (v ∈ filter (λ w, header_shard w = header_shard v) nodes) as Hin
      by (by apply list_elem_of_filter). rewrite Eg in Hin. set_solver.
Qed.
End height_facts.

(** ** Sequences of ticks *)

(** What one tick sees: its time, the working list of silent nodes and the
    replies of the workers. *)
Record tick_input : Type := MkTickInput {
  ti_now : Time;
  ti_down : list noReply;
  ti_replies : list reply;
}.

Definition ti_nodes (cfg : consensus_config) (i : tick_input) : list BlockHeader :=
  (collect_headers (cf_shardMap cfg) (ti_down i) (ti_replies i)).1.

(** One tick with some grouping library, iteration order and pager answers. *)
Inductive tick_step (cfg : consensus_config) (i : tick_input) (st st' : consensus_state)
    (acts : list action) : Prop :=
  | tick_step_intro (L : Linq) (MR : GoRuntime) (pd : pager) :
      consensus_tick pd cfg (ti_now i) (ti_down i) (ti_replies i) st = Done (st', acts) →
      tick_step cfg i st st' acts.

(** Consecutive ticks, each with its actions. *)
Inductive run (cfg : consensus_config) :
    consensus_state → list (tick_input * list action) → consensus_state → Prop :=
  | run_nil st : run cfg st [] st
  | run_cons st i acts st1 tr st' :
      tick_step cfg i st st1 acts → run cfg st1 tr st' → run cfg st ((i, acts) :: tr) st'.

Section run_facts.
Context (cfg : consensus_config).

(** The effect of a tick, free of the library and of the order. *)
Lemma tick_step_spec i st st' acts :
  tick_step cfg i st st' acts →
  ∃ v : gmap string BlockHeader,
    (∀ shard, is_Some (v !! shard) ↔ ∃ h, h ∈ ti_nodes cfg i ∧ Itoa (header_shard h) = shard)
    ∧ (∀ shard h, v !! shard = Some h → latest (ti_nodes cfg i) shard h)
    ∧ (∀ shard, shard_after cfg (ti_now i) st st' shard (v !! shard))
    ∧ pages acts ≡ₚ (map_to_list v ≫= λ '(shard, h), due cfg (ti_now i) (lastShardData st) shard h).
Proof.
  intros [L MR pd E].
  destruct (consensus_tick_run pd cfg (ti_now i) (ti_down i) (ti_replies i) st)
    as (st1 & acts1 & E1 & Hafter & Hp).
  rewrite E in E1. injection E1 as <- <-. exists (view (ti_nodes cfg i)).
  split; [apply view_dom|]. split; [apply view_latest|]. done.
Qed.

(** The alert key determines the shard. *)
Lemma incident_inj shard shard' :
  consensus_incident shard (cf_chain cfg) = consensus_incident shard' (cf_chain cfg) →
  shard = shard'.
Proof.
  intros E.
  assert (∀ s, consensus_incident s (cf_chain cfg)
    = "Shard " +:+ s +:+ (" consensus stuck! - " +:+ cf_chain cfg +:+ EmptyString)) as Hs.
  { intros s. reflexivity. }
  rewrite !Hs in E. apply (inj (String.append "Shard ")) in E.
  by apply string_app_inj_r in E.
Qed.

(** Below 97 days the alarm condition compares whole elapsed seconds. *)
Lemma overdue_exact warning d :
  0 ≤ warning → 0 ≤ d < 8388608 * Second → overdue warning d = (warning <? d / Second).
Proof.
  intros Hw Hd. unfold overdue. rewrite whole_seconds_exact by done.
  destruct (Z.ltb_spec warning (d / Second)); [|by rewrite andb_false_r].
  rewrite fpos_trunc; [done|]. rewrite Seconds_trunc by done. lia.
Qed.

(** The pages of a tick are those due for the shards it saw. *)
Lemma page_due i st st' acts ev :
  tick_step cfg i st st' acts → ev ∈ pages acts →
  ∃ shard lb h, lastShardData st !! shard = Some lb ∧ latest (ti_nodes cfg i) shard h
    ∧ stuck (cf_warning cfg) (ti_now i) (Some lb) h = true
    ∧ ev = consensus_page cfg (ti_now i) shard lb h.
Proof.
  intros (v & _ & Hlat & _ & Hp)%tick_step_spec. rewrite Hp, list_elem_of_bind.
  intros ([shard h] & Hev & Hin%elem_of_map_to_list). unfold due in Hev.
  destruct (lastShardData st !! shard) as [lb|] eqn:El; [|set_solver].
  destruct (stuck _ _ (Some lb) h) eqn:Es; [|set_solver].
  apply list_elem_of_singleton in Hev. exists shard, lb, h. auto.
Qed.

(** A shard that reports and is stuck is paged for. *)
Lemma stuck_paged i st st' acts shard lb :
  tick_step cfg i st st' acts →
  lastShardData st !! shard = Some lb →
  (∃ h, h ∈ ti_nodes cfg i ∧ Itoa (header_shard h) = shard) →
  (∀ h, latest (ti_nodes cfg i) shard h → stuck (cf_warning cfg) (ti_now i) (Some lb) h = true) →
  (∃ ev, ev ∈ pages acts ∧ pd_DedupKey ev = consensus_incident shard (cf_chain cfg))
  ∧ lastShardData st' !! shard = Some lb ∧ consensusStatus st' !! shard = Some false.
Proof.
  intros (v & Hdom & Hlat & Hafter & Hp)%tick_step_spec El [h Hv]%Hdom Hst.
  specialize (Hst h (Hlat _ _ Hv)). specialize (Hafter shard). rewrite Hv in Hafter.
  unfold shard_after in Hafter. rewrite El, Hst in Hafter. split; [|done].
  exists (consensus_page cfg (ti_now i) shard lb h). split; [|done].
  rewrite Hp, list_elem_of_bind. exists (shard, h).
  split; [|by apply elem_of_map_to_list]. unfold due. rewrite El, Hst. set_solver.
Qed.

(** A shard that is not stuck is recorded and not paged for. *)
Lemma not_stuck_recorded i st st' acts shard :
  tick_step cfg i st st' acts →
  (∃ h, h ∈ ti_nodes cfg i ∧ Itoa (header_shard h) = shard) →
  (∀ h, latest (ti_nodes cfg i) shard h →
     stuck (cf_warning cfg) (ti_now i) (lastShardData st !! shard) h = false) →
  (∀ ev, ev ∈ pages acts → pd_DedupKey ev ≠ consensus_incident shard (cf_chain cfg))
  ∧ consensusStatus st' !! shard = Some true
  ∧ ∃ h, latest (ti_nodes cfg i) shard h ∧ lastShardData st' !! shard = Some (recorded h).
Proof.
  intros Hstep Hrep Hst. split.
  - intros ev Hev Hk. destruct (page_due _ _ _ _ _ Hstep Hev) as (s & lb & h & El & Hl & Hs & ->).
    apply incident_inj in Hk as ->. rewrite El in Hst. by rewrite (Hst h Hl) in Hs.
  - apply tick_step_spec in Hstep as (v & Hdom & Hlat & Hafter & _).
    apply Hdom in Hrep as [h Hv]. specialize (Hafter shard). rewrite Hv in Hafter.
    unfold shard_after in Hafter. rewrite (Hst h (Hlat _ _ Hv)) in Hafter.
    split; [apply Hafter|]. exists h. split; [auto|apply Hafter].
Qed.

(** Every recorded block was reported as the latest of its shard at a tick
    of the run, or was recorded before it. *)
Lemma run_provenance st tr st' shard lb :
  run cfg st tr st' → lastShardData st' !! shard = Some lb →
  lastShardData st !! shard = Some lb
  ∨ ∃ i acts h, (i, acts) ∈ tr ∧ latest (ti_nodes cfg i) shard h ∧ lb = recorded h.
Proof.
  induction 1 as [|st i acts st1 tr st' Hstep Hrun IH]; [by left|].
  intros [Hlb|(j & a & h & Hin & Hrest)]%IH; [|right; exists j, a, h; set_solver].
  apply tick_step_spec in Hstep as (v & _ & Hlat & Hafter & _).
  specialize (Hafter shard). unfold shard_after in Hafter.
  destruct (v !! shard) as [h|] eqn:Ev; [|left; destruct Hafter as [E1 _]; congruence].
  destruct (stuck _ _ _ h); destruct Hafter as [E1 _]; rewrite E1 in Hlb; [by left|].
  right. exists i, acts, h. simplify_eq. split; [set_solver|auto].
Qed.
End run_facts.

(** ** Collected headers *)

Definition failed (d : reply) : Prop := r_oops d ≠ None.
#[global] Instance failed_dec d : Decision (failed d).
Proof. unfold failed. apply _. Defined.

Lemma collect_headers_nodes shardMap wd replies :
  (collect_headers shardMap wd replies).1 = omap header_of_reply replies.
Proof.
  unfold collect_headers. set (f := λ _, _).
  assert (∀ acc, (fold_left f replies acc).1 = acc.1 ++ omap header_of_reply replies) as H;
    [|by rewrite H].
  induction replies as [|d replies IH]; intros [nodes down]; cbn [fold_left omap list_omap].
  { by rewrite app_nil_r. }
  rewrite IH. unfold f, header_of_reply. destruct (r_oops d); cbn; [done|].
  by rewrite <-app_assoc.
Qed.

(** Every collected header has integers of the declared widths. *)
Lemma collected_wf cfg i v : v ∈ ti_nodes cfg i → wf_BlockHeaderReply (bhd_Payload v).
Proof.
  unfold ti_nodes. rewrite collect_headers_nodes. intros (d & _ & E)%list_elem_of_omap.
  unfold header_of_reply in E. destruct (r_oops d); simplify_eq. apply decode_header_wf.
Qed.

(** ** Theorems *)

(** C1: one iteration of the consensus loop never panics, and does to every
    shard exactly what the monitor promises. Some header [h] of greatest block
    number among the shard's answering nodes is chosen; if the shard has a
    recorded block that [h] does not pass and that is overdue, the status
    becomes false, the record stays and one page is sent; otherwise [h] is
    recorded and the status becomes true. Shards without an answer keep their
    state, and no other page is sent, whatever the order in which Go iterates
    over its maps. *)
Theorem consensus_tick_spec (L : Linq) (MR : GoRuntime) pd cfg now wd replies st :
  let nodes := (collect_headers (cf_shardMap cfg) wd replies).1 in
  ∃ st' acts (v : gmap string BlockHeader),
    consensus_tick pd cfg now wd replies st = Done (st', acts)
    ∧ (∀ shard, is_Some (v !! shard) ↔ ∃ h, h ∈ nodes ∧ Itoa (header_shard h) = shard)
    ∧ (∀ shard h, v !! shard = Some h → latest nodes shard h)
    ∧ (∀ shard, shard_after cfg now st st' shard (v !! shard))
    ∧ pages acts ≡ₚ (map_to_list v ≫= λ '(shard, h), due cfg now (lastShardData st) shard h).
Proof.
  intros nodes. destruct (consensus_tick_run pd cfg now wd replies st) as (st' & acts & E & Ha & Hp).
  exists st', acts, (view nodes). split; [done|].
  split; [apply view_dom|]. split; [apply view_latest|]. done.
Qed.

(** C2: no false alarm. In every run from the initial state, a page of the
    consensus monitor names a shard whose recorded block was really reported,
    as the latest of that shard, at an earlier tick, that no node has passed at
    this tick, and whose timestamp is overdue. *)
Theorem alarm_justified cfg tr st i st' acts ev :
  run cfg initial_consensus tr st → tick_step cfg i st st' acts → ev ∈ pages acts →
  ∃ shard j a h0 h,
    pd_DedupKey ev = consensus_incident shard (cf_chain cfg)
    ∧ (j, a) ∈ tr ∧ latest (ti_nodes cfg j) shard h0
    ∧ latest (ti_nodes cfg i) shard h ∧ header_block h ≤ header_block h0
    ∧ overdue (cf_warning cfg) (Sub (ti_now i) (Unix (bh_UnixTime (bhd_Payload h0)))) = true.
Proof.
  intros Hrun Hstep Hev.
  destruct (page_due _ _ _ _ _ _ Hstep Hev) as (shard & lb & h & El & Hl & Hs & ->).
  destruct (run_provenance _ _ _ _ _ _ Hrun El) as [Hinit|(j & a & h0 & Hin & Hl0 & ->)];
    [done|].
  apply andb_prop in Hs as [Hle Hov]. apply Z.leb_le in Hle.
  exists shard, j, a, h0, h. auto 10.
Qed.

(** The replies of one tick that name only block [H] of time [T] for a shard,
    with at least one node answering. *)
Definition reports_block (cfg : consensus_config) (s H T : Z) (i : tick_input) : Prop :=
  (∃ h, h ∈ ti_nodes cfg i ∧ header_shard h = s)
  ∧ ∀ h, h ∈ ti_nodes cfg i → header_shard h = s →
      header_block h = H ∧ bh_UnixTime (bhd_Payload h) = T.

Lemma reports_latest cfg s H T i h :
  reports_block cfg s H T i → latest (ti_nodes cfg i) (Itoa s) h →
  recorded h = MkLastBlock H (Unix T) ∧ header_block h = H.
Proof.
  intros [_ Hall] (Hin & E%(inj Itoa) & _). destruct (Hall h Hin E) as [<- <-]. done.
Qed.

Lemma reports_some cfg s H T i :
  reports_block cfg s H T i → ∃ h, h ∈ ti_nodes cfg i ∧ Itoa (header_shard h) = Itoa s.
Proof. intros [(h & Hin & <-) _]. eauto. Qed.

(** After a tick on which the shard reports block [H], that block is recorded. *)
Lemma stalled_recorded cfg s H T i st st' acts :
  reports_block cfg s H T i → tick_step cfg i st st' acts →
  lastShardData st !! Itoa s = None ∨ lastShardData st !! Itoa s = Some (MkLastBlock H (Unix T)) →
  lastShardData st' !! Itoa s = Some (MkLastBlock H (Unix T)).
Proof.
  intros Hrep Hstep Hst. apply tick_step_spec in Hstep as (v & Hdom & Hlat & Hafter & _).
  destruct (proj2 (Hdom (Itoa s)) (reports_some _ _ _ _ _ Hrep)) as [h Hv].
  specialize (Hafter (Itoa s)). rewrite Hv in Hafter. unfold shard_after in Hafter.
  destruct (reports_latest _ _ _ _ _ _ Hrep (Hlat _ _ Hv)) as [Er _]. rewrite <-Er in *.
  destruct (stuck _ _ _ h) eqn:Es; [|apply Hafter].
  destruct Hafter as [E1 _], Hst as [E|E]; [by rewrite E in Es|by rewrite E1, E].
Qed.

Lemma stalled_run cfg s H T st tr st' :
  run cfg st tr st' → Forall (λ p, reports_block cfg s H T p.1) tr → tr ≠ [] →
  lastShardData st !! Itoa s = None ∨ lastShardData st !! Itoa s = Some (MkLastBlock H (Unix T)) →
  lastShardData st' !! Itoa s = Some (MkLastBlock H (Unix T)).
Proof.
  induction 1 as [|st i acts st1 tr st' Hstep Hrun IH]; [done|].
  intros [Hrep HF]%Forall_cons _ Hst.
  pose proof (stalled_recorded _ _ _ _ _ _ _ _ Hrep Hstep Hst) as Hst1.
  destruct tr as [|p tr]; [by inversion Hrun; subst|]. apply IH; auto.
Qed.

(** C3: a stalled shard is detected on time. If, since the start, the nodes of
    a shard have reported nothing but one block, at two ticks or more, then the
    current tick pages for the shard exactly when more than [warning] whole
    seconds have passed since the block's timestamp, and the published status
    is the negation. The timestamp is at most 2^23 seconds (97 days) ago, and not in
    the future: so long the float seconds are exact. *)
Theorem stalled_shard_alarm cfg s H T tr st i st' acts :
  run cfg initial_consensus tr st → tr ≠ [] →
  Forall (λ p, reports_block cfg s H T p.1) tr → reports_block cfg s H T i →
  tick_step cfg i st st' acts →
  0 ≤ cf_warning cfg →
  0 ≤ instant (ti_now i) - instant (Unix T) < 8388608 * Second →
  let late := cf_warning cfg <? (instant (ti_now i) - instant (Unix T)) / Second in
  consensusStatus st' !! Itoa s = Some (negb late)
  ∧ ((∃ ev, ev ∈ pages acts ∧ pd_DedupKey ev = consensus_incident (Itoa s) (cf_chain cfg))
     ↔ late = true).
Proof.
  intros Hrun Hne HF Hrep Hstep Hw Hel late.
  pose proof (stalled_run _ _ _ _ _ _ _ Hrun HF Hne (or_introl (lookup_empty _))) as El.
  assert (∀ h, latest (ti_nodes cfg i) (Itoa s) h →
    stuck (cf_warning cfg) (ti_now i) (lastShardData st !! Itoa s) h = late) as Hst.
  { intros h [_ Hb]%(reports_latest _ _ _ _ _ _ Hrep). rewrite El. unfold stuck. cbn.
    rewrite Hb, Z.leb_refl, Sub_exact by (unfold is_int64, two63, Second in *; lia).
    by apply overdue_exact. }
  destruct late eqn:Elate.
  - rewrite El in Hst.
    destruct (stuck_paged _ _ _ _ _ _ _ Hstep El (reports_some _ _ _ _ _ Hrep) Hst) as (Hp & _ & ->).
    done.
  - destruct (not_stuck_recorded _ _ _ _ _ _ Hstep (reports_some _ _ _ _ _ Hrep) Hst) as (Hp & -> & _).
    split; [done|]. split; [|done]. intros (ev & Hev & Hk). by destruct (Hp ev Hev).
Qed.

(** C4: an alarm stays on until the shard moves. From any state with a recorded
    block that is overdue at every following tick and that no node passes, the
    record never changes, and every tick at which a node of the shard answers
    pages again. *)
Theorem alarm_persists cfg shard lb st tr st' :
  run cfg st tr st' → lastShardData st !! shard = Some lb →
  Forall (λ p, overdue (cf_warning cfg) (Sub (ti_now p.1) (lb_TS lb)) = true
     ∧ ∀ h, h ∈ ti_nodes cfg p.1 → Itoa (header_shard h) = shard → header_block h ≤ lb_Height lb) tr →
  lastShardData st' !! shard = Some lb
  ∧ ∀ i acts, (i, acts) ∈ tr →
      (∃ h, h ∈ ti_nodes cfg i ∧ Itoa (header_shard h) = shard) →
      ∃ ev, ev ∈ pages acts ∧ pd_DedupKey ev = consensus_incident shard (cf_chain cfg).
Proof.
  induction 1 as [|st i acts st1 tr st' Hstep Hrun IH]; intros El HF; [set_solver|].
  apply Forall_cons in HF as [[Hov Hle] HF]. cbn [fst] in *.
  assert (∀ h, latest (ti_nodes cfg i) shard h → stuck (cf_warning cfg) (ti_now i) (Some lb) h = true) as Hst.
  { intros h (Hin & E & _). unfold stuck. rewrite Hov, (proj2 (Z.leb_le _ _) (Hle h Hin E)). done. }
  assert (lastShardData st1 !! shard = Some lb) as El1.
  { pose proof Hstep as (v & _ & Hlat & Hafter & _)%tick_step_spec. specialize (Hafter shard).
    destruct (v !! shard) as [h|] eqn:Ev; unfold shard_after in Hafter; [|by rewrite <-El; apply Hafter].
    rewrite El, (Hst h (Hlat _ _ Ev)) in Hafter. apply Hafter. }
  destruct (IH El1 HF) as [IH1 IH2]. split; [done|].
  intros j a [[= -> ->]|Hin]%elem_of_cons Hrep; [|by eapply IH2].
  by apply (stuck_paged _ _ _ _ _ _ _ Hstep El Hrep Hst).
Qed.

(** C28: the height check starts a progress check for exactly the nodes that lag
    more than [tolerance] blocks behind the greatest height reported for their
    shard, each once, with that height; the detour of the heights through [int]
    and the unsigned subtraction lose nothing. *)
Theorem checkShardHeight_spec (MR : GoRuntime) cfg i syncTimer tolerance key chain :
  let nodes := ti_nodes cfg i in
  omap sync_check (checkShardHeight nodes syncTimer tolerance key chain)
  ≡ₚ (λ v, GoCheckSync (bhd_IP v) key chain (header_block v)
             (shard_height nodes (header_shard v)) syncTimer)
       <$> filter (lagging tolerance nodes) nodes.
Proof.
  intros nodes. apply checkShardHeight_run. intros v Hv. apply (collected_wf cfg i v Hv).
Qed.

(** After its sleep, the progress check of a lagging node pages exactly when
    the node answers and its new block number is not above the old one; a node
    that does not answer is not paged for. *)
Theorem checkSync_spec pd client IP key chain blockNumber shardHeight syncTimer :
  pages (checkSync pd client IP key chain blockNumber shardHeight syncTimer) ≠ []
  ↔ ∃ res, http_ok client ("http://" +:+ IP) (request_body BlockHeaderRPC) res
      ∧ bh_BlockNumber (decode_header res) ≤ blockNumber.
Proof.
  unfold checkSync, sync_sleep, sync_reply.
  destruct (request client ("http://" +:+ IP) (request_body BlockHeaderRPC))
    as [[result payload] [e|]] eqn:E.
  - split; [done|]. intros (res & Hok & _).
    rewrite (proj2 (request_ok_iff _ _ _ res EmptyString) (conj Hok eq_refl)) in E. congruence.
  - apply request_ok_iff in E as [Hok ->]. rewrite pages_app. cbn [pages omap list_omap page_of app].
    destruct (Z.ltb_spec blockNumber (bh_BlockNumber (decode_header result))); cbn [negb].
    + split; [done|]. intros (res & [E1 _] & Hle). destruct Hok as [E2 _].
      rewrite E1 in E2. simplify_eq. lia.
    + rewrite pages_app, pages_alert. split; [|done]. intros _. eauto.
Qed.

(** The monitor's count of silent machines is wrong. Whatever the number of
    failed replies of a tick, the list it counts holds the silent machines the
    header manager's working list had plus one (the last failure), because
    every failure rebuilds it from that list. *)
Theorem down_count shardMap wd replies :
  length (collect_headers shardMap wd replies).2
  = if decide (filter failed replies = []) then 0%nat else S (length wd).
Proof.
  unfold collect_headers. set (f := λ _, _).
  assert (∀ acc, length (fold_left f replies acc).2
    = if decide (filter failed replies = []) then length acc.2 else S (length wd)) as H;
    [|by rewrite H].
  induction replies as [|d replies IH]; intros [nodes down]; [done|].
  cbn [fold_left]. rewrite IH. destruct (r_oops d) as [e|] eqn:E.
  - rewrite filter_cons_True by (unfold failed; congruence).
    rewrite (decide_False (P := _ :: _ = [])) by done.
    case_decide; [|done]. unfold f. rewrite E. cbn. rewrite length_app. cbn. lia.
  - rewrite filter_cons_False by (unfold failed; intros []; done).
    unfold f. by rewrite E.
Qed.

(** ** Concrete runs *)

Module ConsensusWitness.
(** The body of a header reply. *)
Definition body (block shard time : string) : string :=
  print (JObj [("result", JObj [("blockNumber", JNum block); ("shardID", JNum shard);
                                ("unixtime", JNum time)])])%string.

Definition cfg : consensus_config :=
  MkConsensusConfig 30 100 4 "key" "testnet" {["10.0.0.1:9500"%string := 0]}.
Definition pd0 : pager := λ _, None.
Definition answer (block time : string) : reply :=
  MkReply "10.0.0.1:9500" BlockHeaderRPC EmptyString (body block "0" time) None.
Definition input (sec : Z) (block : string) : tick_input :=
  MkTickInput (Unix sec) [] [answer block "1000"].

Definition tick (i : tick_input) (st : consensus_state) : consensus_state * list action :=
  match consensus_tick (L := linq_ref) (MR := range_ref) pd0 cfg (ti_now i) (ti_down i)
          (ti_replies i) st with
  | Done r => r
  | Panic _ => (st, [])
  end.

Definition st1 : consensus_state := (tick (input 1010 "7") initial_consensus).1.
Definition acts1 : list action := (tick (input 1010 "7") initial_consensus).2.
Definition st2 : consensus_state := (tick (input 1040 "7") st1).1.
Definition acts2 : list action := (tick (input 1040 "7") st1).2.

Lemma step1 : tick_step cfg (input 1010 "7") initial_consensus st1 acts1.
Proof. apply (tick_step_intro _ _ _ _ _ linq_ref range_ref pd0). vm_compute. reflexivity. Defined.
Lemma step2 : tick_step cfg (input 1040 "7") st1 st2 acts2.
Proof. apply (tick_step_intro _ _ _ _ _ linq_ref range_ref pd0). vm_compute. reflexivity. Defined.
Lemma run1 : run cfg initial_consensus [(input 1010 "7", acts1)] st1.
Proof. eapply run_cons; [exact step1|apply run_nil]. Defined.

Lemma reports sec : reports_block cfg 0 7 1000 (input sec "7").
Proof.
  assert (ti_nodes cfg (input sec "7")
    = [MkBlockHeader (decode_header (body "7" "0" "1000")) "10.0.0.1:9500"]) as E
    by (vm_compute; reflexivity).
  unfold reports_block. rewrite E. split.
  - eexists. split; [apply list_elem_of_singleton; reflexivity|]. vm_compute. reflexivity.
  - intros h ->%list_elem_of_singleton _. split; vm_compute; reflexivity.
Qed.
End ConsensusWitness.

Lemma alarm_justified_witness :
  ∃ ev, ev ∈ pages ConsensusWitness.acts2 ∧ ∃ shard j a h0 h,
    pd_DedupKey ev = consensus_incident shard (cf_chain ConsensusWitness.cfg)
    ∧ (j, a) ∈ [(ConsensusWitness.input 1010 "7", ConsensusWitness.acts1)]
    ∧ latest (ti_nodes ConsensusWitness.cfg j) shard h0
    ∧ latest (ti_nodes ConsensusWitness.cfg (ConsensusWitness.input 1040 "7")) shard h
    ∧ header_block h ≤ header_block h0
    ∧ overdue (cf_warning ConsensusWitness.cfg)
        (Sub (ti_now (ConsensusWitness.input 1040 "7")) (Unix (bh_UnixTime (bhd_Payload h0))))
      = true.
Proof.
  destruct (pages ConsensusWitness.acts2) as [|ev l] eqn:E; [by vm_compute in E|].
  assert (ev ∈ pages ConsensusWitness.acts2) as Hin by (rewrite E; apply list_elem_of_here).
  exists ev. split; [apply list_elem_of_here|].
  exact (alarm_justified ConsensusWitness.cfg _ _ _ _ _ ev
    ConsensusWitness.run1 ConsensusWitness.step2 Hin).
Defined.

Lemma stalled_shard_alarm_witness :
  ∃ ev, ev ∈ pages ConsensusWitness.acts2
    ∧ pd_DedupKey ev = consensus_incident (Itoa 0) (cf_chain ConsensusWitness.cfg).
Proof.
  assert (cf_warning ConsensusWitness.cfg <?
    (instant (ti_now (ConsensusWitness.input 1040 "7")) - instant (Unix 1000)) / Second = true)
    as Hlate by (vm_compute; reflexivity).
  refine (proj2 (proj2 (stalled_shard_alarm ConsensusWitness.cfg 0 7 1000 _ _ _ _ _
    ConsensusWitness.run1 _ _ (ConsensusWitness.reports 1040) ConsensusWitness.step2 _ _))
    Hlate).
  - done.
  - apply Forall_singleton. apply ConsensusWitness.reports.
  - by vm_compute.
  - by vm_compute.
Defined.

Lemma alarm_persists_witness :
  lastShardData ConsensusWitness.st2 !! Itoa 0 = Some (MkLastBlock 7 (Unix 1000))
  ∧ ∀ i acts, (i, acts) ∈ [(ConsensusWitness.input 1040 "7", ConsensusWitness.acts2)] →
      (∃ h, h ∈ ti_nodes ConsensusWitness.cfg i ∧ Itoa (header_shard h) = Itoa 0) →
      ∃ ev, ev ∈ pages acts
        ∧ pd_DedupKey ev = consensus_incident (Itoa 0) (cf_chain ConsensusWitness.cfg).
Proof.
  refine (alarm_persists ConsensusWitness.cfg (Itoa 0) (MkLastBlock 7 (Unix 1000))
    ConsensusWitness.st1 _ _
    (run_cons _ _ _ _ _ _ _ ConsensusWitness.step2 (run_nil _ _)) _ _).
  - vm_compute. reflexivity.
  - apply Forall_singleton. split; [vm_compute; reflexivity|].
    intros h Hin E. destruct (ConsensusWitness.reports 1040) as [_ Hall].
    destruct (Hall h Hin ltac:(apply (inj Itoa); exact E)) as [-> _]. done.
Defined.
