(* ===== verification/CrossLink.v ===== *)
(** * The cross link monitor (crosslink-monitor.go)

    In a tick [crossLinkMonitor] asks the nodes of shard 0 for their metadata,
    asks those that lead shard 0 for the last cross links, and takes the first
    good answer: a shard whose cross link has not advanced for [warning] seconds
    is paged for. [lastProcessed] is what it keeps between ticks. *)

From S2P Require Import Prelude GoFloat GoFmt GoTime GoJson Rpc Pool Linq Alerts Summary Monitor.

Record processedCrossLink : Type := MkProcessed {
  pc_BlockNum : Z;
  pc_CrossLink : CrossLink;
  pc_TS : Time;
}.

(** The arguments of [crossLinkMonitor] the tick uses. *)
Record crosslink_config : Type := MkCrossLinkConfig {
  xf_warning : Z;
  xf_pdServiceKey : string;
  xf_chain : string;
}.

(** The first loop: metadata requests to the nodes of shard 0. *)
Definition beacon_jobs `{MR : GoRuntime} (shardMap : gmap string Z) : list work :=
  range shardMap ≫= λ '(k, v), if v =? 0 then [job NodeMetadataRPC k] else [].

(** The second loop: the nodes that claim to lead shard 0. *)
Definition find_leaders (replies : list reply) : list string :=
  fold_left (λ leader d,
    match r_oops d with
    | None =>
        let result := decode_metadata (r_result d) in
        if nm_IsLeader result && (nm_ShardID result =? 0) then leader ++ [r_address d] else leader
    | Some _ => leader
    end) replies [].

(** The third loop: requests to all potential leaders. *)
Definition leader_jobs (leader : list string) : list work := job LastCrossLinkRPC <$> leader.

Definition crosslink_incident (chain : string) (shard : Z) : string :=
  Sprintf "Chain: %s, Shard %d, CrossLinkMonitor" [OStr chain; OInt TInt shard].

Definition crosslink_text (result : CrossLink) (elapsed : Z) : string :=
  Sprintf crossLinkMessage
    [OInt TInt (cl_ShardID result); OStr (cl_Hash result); OInt TInt (cl_ShardID result);
     OInt TInt (cl_BlockNumber result); OInt TInt (cl_ShardID result);
     OInt TInt (cl_EpochNumber result); OStr (cl_Signature result);
     OStr (cl_SignatureBitmap result); OFloat (Seconds elapsed); OFloat (Minutes elapsed)].

Section tick.
Context (pd : pager) (cfg : crosslink_config).

(** The body of [for _, result := range crossLinks.CrossLinks]. *)
Definition process_link (now : Time) (acc : gmap Z processedCrossLink * list action)
    (result : CrossLink) : gmap Z processedCrossLink * list action :=
  let '(lastProcessed, acts) := acc in
  let record :=
    (<[cl_ShardID result := MkProcessed (cl_BlockNumber result) result now]> lastProcessed,
     acts) in
  match lastProcessed !! cl_ShardID result with
  | Some entry =>
      let elapsedTime := Sub now (pc_TS entry) in
      if cl_BlockNumber result <=? pc_BlockNum entry then
        (lastProcessed,
         if xf_warning cfg <=? whole_seconds elapsedTime then
           acts ++ alert pd "[crossLinkMonitor] Sent PagerDuty alert! %s" (xf_pdServiceKey cfg)
             (crosslink_incident (xf_chain cfg) (cl_ShardID result)) (xf_chain cfg)
             (crosslink_text result elapsedTime)
         else acts)
      else record
  | None => record
  end.

(** The loop over the replies, left at the first one without an error. The
    target [crossLinks] is declared outside the loop. *)
Fixpoint process_replies (now : Time) (replies : list reply) (crossLinks : LastCrossLinkReply)
    (acc : gmap Z processedCrossLink * list action) :
    LastCrossLinkReply * (gmap Z processedCrossLink * list action) :=
  match replies with
  | [] => (crossLinks, acc)
  | i :: replies =>
      match r_oops i with
      | None =>
          let crossLinks := decode_crosslinks (r_result i) crossLinks in
          (crossLinks, fold_left (process_link now) (lc_CrossLinks crossLinks) acc)
      | Some _ => process_replies now replies crossLinks acc
      end
  end.

(** The line about a shard. *)
Definition crosslink_line (e : Z * processedCrossLink) : action :=
  StdlogCrossLink "[crossLinkMonitor] Shard: %d, Last Crosslink: %v" e.1
    (pc_BlockNum e.2) (pc_CrossLink e.2) (pc_TS e.2).

(** One tick, from the replies to the cross link requests: the new state, the
    cross links to publish and the actions. *)
Definition crosslink_tick `{MR : GoRuntime} (now : Time) (replies : list reply)
    (lastProcessed : gmap Z processedCrossLink) :
    gmap Z processedCrossLink * LastCrossLinkReply * list action :=
  let '(crossLinks, (lastProcessed, acts)) :=
    process_replies now replies zero_LastCrossLinkReply
      (lastProcessed, [Stdlog "[crossLinkMonitor] Starting crosslink check" []]) in
  (lastProcessed, crossLinks,
   acts ++ (crosslink_line <$> range lastProcessed)).
End tick.

(** [m.LastCrossLinks.CrossLinks = append([]CrossLink{}, crossLinks.CrossLinks...)]. *)
Definition publish_crosslinks (crossLinks : LastCrossLinkReply) (m : monitor) : monitor :=
  set_LastCrossLinks (MkLastCrossLinkReply (lc_CrossLinks crossLinks)) m.

(** The actions of a link come after those before it. *)
Lemma process_link_acts pd cfg now last acts l :
  process_link pd cfg now (last, acts) l
  = let '(last', acts') := process_link pd cfg now (last, []) l in (last', acts ++ acts').
Proof.
  unfold process_link. destruct (last !! _); [|by rewrite app_nil_r].
  destruct (_ <=? _); [|by rewrite app_nil_r]. destruct (_ <=? _); by rewrite ?app_nil_r.
Qed.

(** ** Specification: the first observation of the greatest block *)

(** The cross links a tick looks at: those of the first reply without an error. *)
Definition tick_links (replies : list reply) : list CrossLink :=
  match list_find (λ d, r_oops d = None) replies with
  | Some (_, d) => lc_CrossLinks (decode_crosslinks (r_result d) zero_LastCrossLinkReply)
  | None => []
  end.

(** An observation: a cross link and the time of the tick that saw it. *)
Definition observe (now : Time) (links : list CrossLink) : list (Time * CrossLink) :=
  pair now <$> links.

Definition of_shard (s : Z) (obs : list (Time * CrossLink)) : list (Time * CrossLink) :=
  filter (λ o, cl_ShardID o.2 = s) obs.

(** [o] is the first of the observations [obs] with the greatest block number. *)
Definition first_max (obs : list (Time * CrossLink)) (o : Time * CrossLink) : Prop :=
  ∃ pre post, obs = pre ++ o :: post
    ∧ Forall (λ o', cl_BlockNumber o'.2 < cl_BlockNumber o.2) pre
    ∧ Forall (λ o', cl_BlockNumber o'.2 ≤ cl_BlockNumber o.2) post.

(** [lastProcessed] remembers, per shard, that observation. *)
Definition remembers (lastProcessed : gmap Z processedCrossLink)
    (obs : list (Time * CrossLink)) : Prop :=
  ∀ s, match lastProcessed !! s with
       | Some e => pc_BlockNum e = cl_BlockNumber (pc_CrossLink e)
           ∧ first_max (of_shard s obs) (pc_TS e, pc_CrossLink e)
       | None => of_shard s obs = []
       end.

Definition crosslink_page (cfg : crosslink_config) (l : CrossLink) (elapsed : Z) : V2Event :=
  let incident := crosslink_incident (xf_chain cfg) (cl_ShardID l) in
  MkV2Event (xf_pdServiceKey cfg) "trigger" incident
    (MkV2Payload incident (xf_chain cfg) "critical" (crosslink_text l elapsed)).

Lemma of_shard_snoc s obs now l :
  of_shard s (obs ++ [(now, l)])
  = of_shard s obs ++ (if decide (cl_ShardID l = s) then [(now, l)] else []).
Proof. unfold of_shard. by rewrite filter_app. Qed.

Lemma first_max_snoc_le obs o o' :
  first_max obs o → cl_BlockNumber o'.2 ≤ cl_BlockNumber o.2 → first_max (obs ++ [o']) o.
Proof.
  intros (pre & post & -> & Hpre & Hpost) Hle. exists pre, (post ++ [o']).
  rewrite <-app_assoc. split_and!; [done|done|]. apply Forall_app. split; [done|].
  by apply Forall_singleton.
Qed.

Lemma first_max_snoc_gt obs o o' :
  first_max obs o → cl_BlockNumber o.2 < cl_BlockNumber o'.2 → first_max (obs ++ [o']) o'.
Proof.
  intros (pre & post & -> & Hpre & Hpost) Hlt. exists (pre ++ o :: post), [].
  split_and!; [done| |done]. apply Forall_app. split.
  - eapply Forall_impl; [exact Hpre|]. cbn. lia.
  - apply Forall_cons. split; [done|]. eapply Forall_impl; [exact Hpost|]. cbn. lia.
Qed.

Lemma first_max_unique obs o o' : first_max obs o → first_max obs o' → o = o'.
Proof.
  intros (pre & post & -> & Hpre & Hpost) (pre' & post' & E & Hpre' & Hpost').
  rewrite Forall_forall in Hpre, Hpost, Hpre', Hpost'.
  apply app_eq_inv in E as [([|o1 k] & -> & E)|([|o1 k] & -> & E)]; cbn in E;
    injection E as E1 E2; [done| |done|]; subst o1; exfalso.
  - specialize (Hpre o' ltac:(set_solver)). specialize (Hpost' o ltac:(set_solver)). lia.
  - specialize (Hpre' o ltac:(set_solver)). specialize (Hpost o' ltac:(set_solver)). lia.
Qed.

Section facts.
Context (pd : pager) (cfg : crosslink_config).

Lemma process_link_remembers now last acts l obs :
  remembers last obs →
  remembers (process_link pd cfg now (last, acts) l).1 (obs ++ [(now, l)]).
Proof.
  intros Hr s. specialize (Hr s) as Hs. rewrite of_shard_snoc.
  destruct (decide (cl_ShardID l = s)) as [<-|Hne].
  - unfold process_link. destruct (last !! cl_ShardID l) as [e|] eqn:E.
    + destruct Hs as [Eb Hmax]. destruct (Z.leb_spec (cl_BlockNumber l) (pc_BlockNum e)); cbn.
      * rewrite E. split; [done|]. apply first_max_snoc_le; [done|]. cbn. lia.
      * rewrite lookup_insert_eq. cbn. split; [done|].
        eapply first_max_snoc_gt; [done|]. cbn. lia.
    + cbn. rewrite lookup_insert_eq, Hs. cbn. split; [done|]. by exists [], [].
  - rewrite app_nil_r.
    assert ((process_link pd cfg now (last, acts) l).1 !! s = last !! s) as ->; [|done].
    unfold process_link. repeat case_match; cbn; by rewrite ?lookup_insert_ne by done.
Qed.

Lemma process_links_remembers now links acc obs :
  remembers acc.1 obs →
  remembers (fold_left (process_link pd cfg now) links acc).1 (obs ++ observe now links).
Proof.
  revert acc obs. induction links as [|l links IH]; intros [last acts] obs Hr; cbn [fold_left].
  { by rewrite app_nil_r. }
  change (observe now (l :: links)) with ([(now, l)] ++ observe now links).
  rewrite app_assoc. apply IH. by apply process_link_remembers.
Qed.

(** A link is paged for when the entry it meets is not older in blocks and old
    enough in time. *)
Definition paged (now : Time) (last : gmap Z processedCrossLink) (l : CrossLink)
    (ev : V2Event) : Prop :=
  ∃ e, last !! cl_ShardID l = Some e ∧ cl_BlockNumber l ≤ pc_BlockNum e
    ∧ xf_warning cfg ≤ whole_seconds (Sub now (pc_TS e))
    ∧ ev = crosslink_page cfg l (Sub now (pc_TS e)).

Lemma process_link_pages now last acts l ev :
  ev ∈ pages (process_link pd cfg now (last, acts) l).2
  ↔ ev ∈ pages acts ∨ paged now last l ev.
Proof.
  unfold process_link, paged. destruct (last !! cl_ShardID l) as [e|]; [|naive_solver].
  destruct (Z.leb_spec (cl_BlockNumber l) (pc_BlockNum e)); cbn [snd]; [|naive_solver lia].
  destruct (Z.leb_spec (xf_warning cfg) (whole_seconds (Sub now (pc_TS e)))); [|naive_solver lia].
  rewrite pages_app, pages_alert, elem_of_app, list_elem_of_singleton.
  unfold crosslink_page. naive_solver.
Qed.

Lemma process_links_pages now links last acts ev :
  ev ∈ pages (fold_left (process_link pd cfg now) links (last, acts)).2
  ↔ ev ∈ pages acts ∨ ∃ pre l post, links = pre ++ l :: post
      ∧ paged now (fold_left (process_link pd cfg now) pre (last, acts)).1 l ev.
Proof.
  revert last acts. induction links as [|l links IH]; intros last acts; cbn [fold_left].
  { split; [by left|]. intros [|(pre & l & post & E & _)]; [done|]. by destruct pre. }
  destruct (process_link pd cfg now (last, acts) l) as [last1 acts1] eqn:E1.
  rewrite IH. change acts1 with (last1, acts1).2. rewrite <-E1 at 1. rewrite process_link_pages.
  split.
  - intros [[H|H]|(pre & l' & post & -> & H)]; [by left|right|right].
    + by exists [], l, links.
    + exists (l :: pre), l', post. split; [done|]. cbn [fold_left]. by rewrite E1.
  - intros [H|([|l0 pre] & l' & post & [= -> ->] & H)]; [by left; left|by left; right|right].
    exists pre, l', post. split; [done|]. cbn [fold_left] in H. by rewrite E1 in H.
Qed.

Lemma process_replies_first now replies acc :
  process_replies pd cfg now replies zero_LastCrossLinkReply acc
  = (MkLastCrossLinkReply (tick_links replies),
     fold_left (process_link pd cfg now) (tick_links replies) acc).
Proof.
  unfold tick_links. induction replies as [|d replies IH]; [done|]. cbn.
  destruct (r_oops d) as [e|] eqn:E.
  - rewrite decide_False by done. rewrite IH. by destruct (list_find _ replies) as [[]|].
  - rewrite decide_True by done. by destruct (decode_crosslinks _ _).
Qed.
End facts.

Lemma pages_crosslink_log (l : list (Z * processedCrossLink)) : pages (crosslink_line <$> l) = [].
Proof. by induction l. Qed.

(** What [lastProcessed] remembers decides the pages. *)
Lemma paged_remembers cfg now last obs l ev :
  remembers last obs →
  paged cfg now last l ev ↔ ∃ t l0,
    first_max (of_shard (cl_ShardID l) obs) (t, l0)
    ∧ cl_BlockNumber l ≤ cl_BlockNumber l0
    ∧ xf_warning cfg ≤ whole_seconds (Sub now t) ∧ ev = crosslink_page cfg l (Sub now t).
Proof.
  intros Hr. specialize (Hr (cl_ShardID l)). unfold paged.
  destruct (last !! cl_ShardID l) as [e|].
  - destruct Hr as [Eb Hmax]. split.
    + intros (e' & [= <-] & Hle & Hw & ->). exists (pc_TS e), (pc_CrossLink e).
      split_and!; [done|lia|done|done].
    + intros (t & l0 & Hmax' & Hle & Hw & ->).
      pose proof (first_max_unique _ _ _ Hmax Hmax') as [= <- <-].
      exists e. split_and!; [done|lia|done|done].
  - rewrite Hr. split; [naive_solver|]. intros (t & l0 & (pre & post & E & _) & _).
    by destruct pre.
Qed.

(** ** Runs *)

Record crosslink_input : Type := MkCrossLinkInput { xi_now : Time; xi_replies : list reply }.

Inductive crosslink_step (cfg : crosslink_config) (i : crosslink_input)
    (last last' : gmap Z processedCrossLink) (links : LastCrossLinkReply) (acts : list action) :
    Prop :=
  | crosslink_step_intro (MR : GoRuntime) (pd : pager) :
      crosslink_tick pd cfg (xi_now i) (xi_replies i) last = (last', links, acts) →
      crosslink_step cfg i last last' links acts.

(** The state after a sequence of ticks, starting from the empty map. *)
Inductive crosslink_run (cfg : crosslink_config) :
    list crosslink_input → gmap Z processedCrossLink → Prop :=
  | crosslink_run_nil : crosslink_run cfg [] ∅
  | crosslink_run_snoc tr i last last' links acts :
      crosslink_run cfg tr last → crosslink_step cfg i last last' links acts →
      crosslink_run cfg (tr ++ [i]) last'.

(** Everything the monitor has observed so far. *)
Definition history (tr : list crosslink_input) : list (Time * CrossLink) :=
  tr ≫= λ i, observe (xi_now i) (tick_links (xi_replies i)).

Lemma crosslink_step_remembers cfg i last last' links acts obs :
  crosslink_step cfg i last last' links acts → remembers last obs →
  remembers last' (obs ++ observe (xi_now i) (tick_links (xi_replies i))).
Proof.
  intros [MR pd E] Hr. unfold crosslink_tick in E. rewrite process_replies_first in E.
  destruct (fold_left _ _ _) as [last1 acts1] eqn:E1. simplify_eq.
  change last' with (last', acts1).1. rewrite <-E1. by apply process_links_remembers.
Qed.

Lemma crosslink_run_remembers cfg tr last : crosslink_run cfg tr last → remembers last (history tr).
Proof.
  induction 1 as [|tr i last last' links acts _ IH Hstep]; [by intros s|].
  unfold history. rewrite bind_app, bind_singleton. by eapply crosslink_step_remembers.
Qed.

(** C18: the monitor remembers exactly what it should. After any sequence of
    ticks, a shard has an entry iff some tick observed a cross link of it, and
    the entry is the first observation of the greatest block number ever
    observed for the shard, with the time of that tick; so the recorded block
    never goes back and the recorded time is when the shard last advanced. *)
Theorem crosslink_record cfg tr last s :
  crosslink_run cfg tr last →
  match last !! s with
  | Some e => pc_BlockNum e = cl_BlockNumber (pc_CrossLink e)
      ∧ first_max (of_shard s (history tr)) (pc_TS e, pc_CrossLink e)
  | None => of_shard s (history tr) = []
  end.
Proof. intros Hrun. apply (crosslink_run_remembers _ _ _ Hrun s). Qed.

(** The pages of a tick, from what was observed before. *)
Lemma crosslink_step_pages cfg i last last' links acts obs ev :
  remembers last obs → crosslink_step cfg i last last' links acts →
  ev ∈ pages acts ↔ ∃ pre l post t l0,
    tick_links (xi_replies i) = pre ++ l :: post
    ∧ first_max (of_shard (cl_ShardID l) (obs ++ observe (xi_now i) pre)) (t, l0)
    ∧ cl_BlockNumber l ≤ cl_BlockNumber l0
    ∧ xf_warning cfg ≤ whole_seconds (Sub (xi_now i) t)
    ∧ ev = crosslink_page cfg l (Sub (xi_now i) t).
Proof.
  intros Hrun [MR pd E]. unfold crosslink_tick in E.
  rewrite process_replies_first in E.
  destruct (fold_left _ _ _) as [last1 acts1] eqn:E1. simplify_eq.
  rewrite pages_app, pages_crosslink_log, app_nil_r.
  change acts1 with (last', acts1).2. rewrite <-E1, process_links_pages.
  rewrite pages_log_cons. split.
  - intros [?|(pre & l & post & El & Hp)]; [set_solver|].
    eapply paged_remembers in Hp as (t & l0 & Hp); [|apply process_links_remembers; exact Hrun].
    exists pre, l, post, t, l0. by split.
  - intros (pre & l & post & t & l0 & El & Hp). right. exists pre, l, post. split; [done|].
    eapply paged_remembers; [apply process_links_remembers; exact Hrun|]. by exists t, l0.
Qed.

(** C19: pages are exact. At a tick, a page is sent for exactly the cross links
    of the answer whose shard has not advanced: the block is not above the
    greatest block observed before, and at least [warning] whole seconds have
    passed since that block was first observed. *)
Theorem crosslink_alarm cfg tr last i last' links acts ev :
  crosslink_run cfg tr last → crosslink_step cfg i last last' links acts →
  ev ∈ pages acts ↔ ∃ pre l post t l0,
    tick_links (xi_replies i) = pre ++ l :: post
    ∧ first_max (of_shard (cl_ShardID l) (history tr ++ observe (xi_now i) pre)) (t, l0)
    ∧ cl_BlockNumber l ≤ cl_BlockNumber l0
    ∧ xf_warning cfg ≤ whole_seconds (Sub (xi_now i) t)
    ∧ ev = crosslink_page cfg l (Sub (xi_now i) t).
Proof. intros Hrun%crosslink_run_remembers. by apply crosslink_step_pages. Qed.

(** ** Who is asked *)

(** A metadata reply of a node that leads shard 0. *)
Definition leads_beacon (d : reply) : Prop :=
  r_oops d = None ∧ nm_IsLeader (decode_metadata (r_result d)) = true
  ∧ nm_ShardID (decode_metadata (r_result d)) = 0.
#[global] Instance leads_beacon_dec d : Decision (leads_beacon d).
Proof. unfold leads_beacon. apply _. Defined.

Lemma find_leaders_filter replies :
  find_leaders replies = r_address <$> filter leads_beacon replies.
Proof.
  unfold find_leaders. set (f := λ _, _).
  assert (∀ acc, fold_left f replies acc = acc ++ (r_address <$> filter leads_beacon replies)) as H;
    [|by rewrite H].
  induction replies as [|d replies IH]; intros acc; cbn [fold_left]; [by rewrite app_nil_r|].
  rewrite IH, filter_cons. unfold f. destruct (r_oops d) as [e|] eqn:E.
  - rewrite decide_False; [done|]. intros [E' _]. congruence.
  - destruct (nm_IsLeader _) eqn:El, (Z.eqb_spec (nm_ShardID (decode_metadata (r_result d))) 0)
      as [Es|Es]; cbn [andb].
    1: rewrite decide_True by done; cbn; by rewrite <-app_assoc.
    all: rewrite decide_False; [done|]; intros (_ & ? & ?); congruence.
Qed.

Lemma beacon_jobs_nodes `{MR : GoRuntime} shardMap :
  beacon_jobs shardMap
  = job NodeMetadataRPC <$> (filter (λ p, p.2 = 0) (range shardMap)).*1.
Proof.
  unfold beacon_jobs. induction (range shardMap) as [|[k v] l IH]; [done|].
  cbn [mbind list_bind]. rewrite filter_cons. cbn [snd].
  destruct (Z.eqb_spec v 0); [rewrite decide_True by done|rewrite decide_False by done];
    cbn; by rewrite <-IH.
Qed.

Lemma beacon_jobs_round (MR : GoRuntime) shardMap :
  round_jobs shardMap NodeMetadataRPC (beacon_jobs shardMap).
Proof.
  rewrite beacon_jobs_nodes. eexists. split; [done|]. split.
  - apply NoDup_fmap_filter, NoDup_range_keys.
  - intros n ([k v] & -> & [_ Hin]%list_elem_of_filter)%list_elem_of_fmap.
    apply elem_of_range in Hin. by exists v.
Qed.

(** C20: the cross links come from a leader of the beacon chain. Both rounds of
    a tick ask distinct nodes of the shard map, as the worker pool requires; and
    every cross link the tick looks at is in a reply of the second round, the answer
    of a node of shard 0 whose reply in the first round says that it leads shard
    0. *)
Theorem crosslink_source (MR : GoRuntime) shardMap metas replies :
  served (beacon_jobs shardMap) metas →
  served (leader_jobs (find_leaders metas)) replies →
  round_jobs shardMap NodeMetadataRPC (beacon_jobs shardMap)
  ∧ round_jobs shardMap LastCrossLinkRPC (leader_jobs (find_leaders metas))
  ∧ ∀ l, l ∈ tick_links replies → ∃ node d r client,
      shardMap !! node = Some 0 ∧ d ∈ metas ∧ r_address d = node ∧ leads_beacon d
      ∧ r ∈ replies ∧ r = do_work client (job LastCrossLinkRPC node)
      ∧ http_ok client ("http://" +:+ node) (request_body LastCrossLinkRPC) (r_result r)
      ∧ l ∈ lc_CrossLinks (decode_crosslinks (r_result r) zero_LastCrossLinkReply).
Proof.
  intros Hm Hr. pose proof (beacon_jobs_round MR shardMap) as Hb.
  split; [done|]. split.
  { unfold leader_jobs. rewrite find_leaders_filter. by eapply leaders_round. }
  intros l. unfold tick_links. destruct (list_find _ replies) as [[i d']|] eqn:E; [|set_solver].
  apply list_find_Some in E as (Ei%list_elem_of_lookup_2 & Hok & _). intros Hl.
  destruct (served_elem _ _ _ Hr Ei) as (j & Hj & client & ->).
  unfold leader_jobs in Hj. rewrite find_leaders_filter in Hj.
  apply list_elem_of_fmap in Hj as (n & -> & Hn).
  apply list_elem_of_fmap in Hn as (d & -> & [Hlead Hd]%list_elem_of_filter).
  destruct (served_elem _ _ _ Hm Hd) as (j0 & Hj0 & Ha).
  rewrite beacon_jobs_nodes in Hj0. apply list_elem_of_fmap in Hj0 as (n & -> & Hn).
  apply list_elem_of_fmap in Hn as ([k v] & -> & [Hv Hin]%list_elem_of_filter).
  cbn in Hv. subst v. apply elem_of_range in Hin.
  destruct (answers_address _ _ Ha) as [Eaddr _]. cbn in Eaddr. rewrite Eaddr in *.
  destruct (do_work_ok _ _ Hok) as [Hhttp _].
  exists k, d, (do_work client (job LastCrossLinkRPC k)), client. by split_and!.
Qed.

(** ** A concrete run *)

Module CrossLinkWitness.
Definition body (block : string) : string :=
  print (JObj [("result", JArr [JObj [("block-number", JNum block); ("shard-id", JNum "1")]])])%string.
Definition leader_body : string :=
  print (JObj [("result", JObj [("is-leader", JBool true); ("shard-id", JNum "0")])])%string.
Definition cfg : crosslink_config := MkCrossLinkConfig 600 "key" "testnet".
Definition shardMap : gmap string Z := {["n"%string := 0]}.
Definition client (block : string) : http_client := λ _ body',
  inr (200, if decide (body' = request_body NodeMetadataRPC) then leader_body else body block).

Definition metas : list reply := [do_work (client "5") (job NodeMetadataRPC "n")].
Definition replies (block : string) : list reply :=
  [do_work (client block) (job LastCrossLinkRPC "n")].
Definition i1 : crosslink_input := MkCrossLinkInput (Unix 1000) (replies "5").
Definition i2 : crosslink_input := MkCrossLinkInput (Unix 2000) (replies "5").
Definition pd0 : pager := λ _, None.
Definition tick (i : crosslink_input) (last : gmap Z processedCrossLink) :=
  crosslink_tick (MR := range_ref) pd0 cfg (xi_now i) (xi_replies i) last.
Definition last1 : gmap Z processedCrossLink := (tick i1 ∅).1.1.
Definition last2 : gmap Z processedCrossLink := (tick i2 last1).1.1.
Definition acts2 : list action := (tick i2 last1).2.

Lemma links_run1 : crosslink_run cfg [i1] last1.
Proof.
  apply (crosslink_run_snoc cfg [] i1 ∅ last1 (tick i1 ∅).1.2 (tick i1 ∅).2);
    [apply crosslink_run_nil|].
  apply (crosslink_step_intro _ _ _ _ _ _ range_ref pd0). vm_compute. reflexivity.
Qed.

Lemma links_step2 : crosslink_step cfg i2 last1 last2 (tick i2 last1).1.2 acts2.
Proof. apply (crosslink_step_intro _ _ _ _ _ _ range_ref pd0). vm_compute. reflexivity. Qed.
End CrossLinkWitness.

Lemma crosslink_record_witness :
  ∃ e, CrossLinkWitness.last1 !! 1 = Some e
    ∧ pc_BlockNum e = cl_BlockNumber (pc_CrossLink e)
    ∧ first_max (of_shard 1 (history [CrossLinkWitness.i1])) (pc_TS e, pc_CrossLink e).
Proof.
  pose proof (crosslink_record _ _ _ 1 CrossLinkWitness.links_run1) as H.
  destruct (CrossLinkWitness.last1 !! 1) as [e|] eqn:E;
    [exact (ex_intro _ e (conj eq_refl H))|vm_compute in E; discriminate E].
Defined.

Lemma crosslink_alarm_witness :
  ∃ ev pre l post t l0, ev ∈ pages CrossLinkWitness.acts2
    ∧ tick_links (xi_replies CrossLinkWitness.i2) = pre ++ l :: post
    ∧ first_max (of_shard (cl_ShardID l) (history [CrossLinkWitness.i1]
        ++ observe (xi_now CrossLinkWitness.i2) pre)) (t, l0)
    ∧ xf_warning CrossLinkWitness.cfg ≤ whole_seconds (Sub (xi_now CrossLinkWitness.i2) t).
Proof.
  destruct (pages CrossLinkWitness.acts2) as [|ev evs] eqn:E;
    [vm_compute in E; discriminate E|].
  assert (ev ∈ pages CrossLinkWitness.acts2) as Hev by (rewrite E; apply list_elem_of_here).
  destruct (proj1 (crosslink_alarm _ _ _ _ _ _ _ ev CrossLinkWitness.links_run1 CrossLinkWitness.links_step2)
    Hev) as (pre & l & post & t & l0 & H1 & H2 & _ & H3 & _).
  exists ev, pre, l, post, t, l0. split; [apply list_elem_of_here|].
  exact (conj H1 (conj H2 H3)).
Defined.

Lemma crosslink_source_witness :
  ∃ node d r client,
    CrossLinkWitness.shardMap !! node = Some 0 ∧ d ∈ CrossLinkWitness.metas
    ∧ r_address d = node ∧ leads_beacon d
    ∧ r ∈ CrossLinkWitness.replies "5" ∧ r = do_work client (job LastCrossLinkRPC node)
    ∧ http_ok client ("http://" +:+ node) (request_body LastCrossLinkRPC) (r_result r)
    ∧ MkCrossLink EmptyString 5 EmptyString EmptyString 1 0
      ∈ lc_CrossLinks (decode_crosslinks (r_result r) zero_LastCrossLinkReply).
Proof.
  refine (proj2 (proj2 (crosslink_source range_ref CrossLinkWitness.shardMap
    CrossLinkWitness.metas (CrossLinkWitness.replies "5") _ _)) _ _).
  - replace (beacon_jobs (MR := range_ref) CrossLinkWitness.shardMap)
      with [job NodeMetadataRPC "n"] by (vm_compute; reflexivity).
    exists CrossLinkWitness.metas. split; [|reflexivity].
    constructor; [exists (CrossLinkWitness.client "5"); reflexivity|constructor].
  - replace (find_leaders CrossLinkWitness.metas) with ["n"%string] by (vm_compute; reflexivity).
    exists (CrossLinkWitness.replies "5"). split; [|reflexivity].
    constructor; [exists (CrossLinkWitness.client "5"); reflexivity|constructor].
  - replace (tick_links (CrossLinkWitness.replies "5"))
      with [MkCrossLink EmptyString 5 EmptyString EmptyString 1 0] by (vm_compute; reflexivity).
    apply list_elem_of_here.
Defined.
