(* ===== verification/Cx.v ===== *)
(** * The cross-shard transaction monitor (cx-monitor.go)

    In a tick [cxMonitor] asks every node for its metadata, asks the leaders for
    the size of their pool of pending cross-shard receipts, and pages when a
    pool is above [limit]. It keeps nothing between ticks. *)

From S2P Require Import Prelude GoFloat GoFmt GoTime GoJson Rpc Pool Linq Alerts Summary Monitor.

(** The arguments of [cxMonitor] the tick uses. *)
Record cx_config : Type := MkCxConfig {
  xc_limit : Z;
  xc_pdServiceKey : string;
  xc_chain : string;
}.

(** The leaders of each shard, from the replies of all nodes. *)
Definition cx_leaders (replies : list reply) : gmap Z (list string) :=
  fold_left (λ (leaders : gmap Z (list string)) d,
    match r_oops d with
    | None =>
        let result := decode_metadata (r_result d) in
        if nm_IsLeader result then map_append (int64 (nm_ShardID result)) (r_address d) leaders
        else leaders
    | Some _ => leaders
    end) replies ∅.

Section tick.
Context `{MR : GoRuntime}.

(** The requests to the leaders. *)
Definition cx_jobs (leaders : gmap Z (list string)) : list work :=
  range leaders ≫= λ '(_, node), job PendingCXRPC <$> node.

(** [shard := 0] and the loops that look for the shard of an address. *)
Definition shard_of_leader (leaders : gmap Z (list string)) (address : string) : Z :=
  fold_left (λ shard '(s, v), if decide (address ∈ v) then s else shard) (range leaders) 0.

Definition cx_incident (chain : string) (shard : Z) : string :=
  Sprintf "Shard %d cx pool size greater than pending limit! - %s" [OInt TInt shard; OStr chain].

Definition cx_text (shard result : Z) : string :=
  Sprintf crossShardTransactionMessage [OInt TInt shard; OInt TUint64 result].

Context (pd : pager) (cfg : cx_config).

(** The body of the loop over the replies of the leaders. *)
Definition cx_reply (leaders : gmap Z (list string))
    (acc : gmap Z (list Z) * list action) (i : reply) : gmap Z (list Z) * list action :=
  let '(cxPoolSize, acts) := acc in
  match r_oops i with
  | None =>
      let result := decode_cx (r_result i) in
      let shard := shard_of_leader leaders (r_address i) in
      (map_append shard result cxPoolSize,
       if xc_limit cfg <? result then
         acts ++ alert pd "[cxMonitor] Sent PagerDuty alert: %s" (xc_pdServiceKey cfg)
           (cx_incident (xc_chain cfg) shard) (xc_chain cfg) (cx_text shard result)
       else acts)
  | Some _ => (cxPoolSize, acts)
  end.

(** The line about a shard. *)
Definition cx_line (e : Z * list Z) : action :=
  Stdlog "[cxMonitor] Shard: %d, Pending cross shard transaction pool size: %d"
    [OInt TInt e.1; OInts TUint64 e.2].

(** One tick, from the replies to both rounds of requests. *)
Definition cx_tick (metas replies : list reply) : list action :=
  let leaders := cx_leaders metas in
  let '(cxPoolSize, acts) :=
    fold_left (cx_reply leaders) replies
      (∅, [Stdlog "[cxMonitor] Starting cross shard transaction check" []]) in
  acts ++ (cx_line <$> range cxPoolSize).
End tick.

(** The actions of a reply come after those before it. *)
Lemma cx_reply_acts `{MR : GoRuntime} pd cfg leaders sizes acts d :
  cx_reply pd cfg leaders (sizes, acts) d
  = let '(sizes', acts') := cx_reply pd cfg leaders (sizes, []) d in (sizes', acts ++ acts').
Proof. unfold cx_reply. destruct (r_oops d); [|destruct (_ <? _)]; by rewrite ?app_nil_r. Qed.

(** ** Leaders *)

(** A metadata reply of a leader, and the shard it leads. *)
Definition leads (d : reply) : Prop :=
  r_oops d = None ∧ nm_IsLeader (decode_metadata (r_result d)) = true.
#[global] Instance leads_dec d : Decision (leads d).
Proof. unfold leads. apply _. Defined.

Definition led_shard (d : reply) : Z := nm_ShardID (decode_metadata (r_result d)).

Lemma cx_leaders_group metas :
  cx_leaders metas = group_append led_shard r_address (filter leads metas).
Proof.
  unfold cx_leaders, group_append. generalize (∅ : gmap Z (list string)) as acc.
  induction metas as [|d metas IH]; intros acc; [done|]. cbn [fold_left]. rewrite IH, filter_cons.
  destruct (r_oops d) as [e|] eqn:E.
  - rewrite decide_False; [done|]. intros [E' _]. congruence.
  - destruct (nm_IsLeader (decode_metadata (r_result d))) eqn:El.
    + rewrite decide_True by done. cbn [fold_left]. do 2 f_equal. unfold led_shard.
      apply int64_uint32. destruct (decode_metadata_wf (r_result d)) as [Hs _]. exact Hs.
    + rewrite decide_False; [done|]. intros [_ E']. congruence.
Qed.

Lemma cx_leaders_elem metas s v n :
  cx_leaders metas !! s = Some v → n ∈ v ↔ ∃ d, d ∈ metas ∧ leads d ∧ led_shard d = s ∧ r_address d = n.
Proof.
  rewrite cx_leaders_group. intros ->%group_append_Some.
  rewrite list_elem_of_fmap. setoid_rewrite list_elem_of_filter. setoid_rewrite list_elem_of_filter.
  naive_solver.
Qed.

Lemma cx_leaders_some metas d :
  d ∈ metas → leads d → ∃ v, cx_leaders metas !! led_shard d = Some v ∧ r_address d ∈ v.
Proof.
  intros Hd Hl.
  destruct (proj2 (group_append_dom led_shard r_address (filter leads metas) (led_shard d)))
    as [v Hv]; [exists d; by rewrite list_elem_of_filter|].
  rewrite <-cx_leaders_group in Hv. exists v. split; [done|]. eapply cx_leaders_elem; eauto.
Qed.

(** The nodes the second round asks. *)
Lemma cx_jobs_nodes (MR : GoRuntime) metas :
  cx_jobs (cx_leaders metas) ≡ₚ job PendingCXRPC <$> (r_address <$> filter leads metas).
Proof.
  unfold cx_jobs. rewrite cx_leaders_group, range_bind_keys.
  set (g := group_append _ _ _).
  transitivity ((range g).*1 ≫= λ k, job PendingCXRPC
    <$> (r_address <$> filter (λ d, led_shard d = k) (filter leads metas))).
  - apply bind_perm_ext. intros k [v Hv]%elem_of_range_keys. rewrite Hv.
    by rewrite (group_append_Some _ _ _ _ _ Hv).
  - rewrite bind_fmap_out, bind_fmap_out. do 2 apply fmap_Permutation.
    apply bind_partition; [apply NoDup_range_keys|].
    intros d Hd. apply elem_of_range_keys, group_append_dom. eauto.
Qed.

(** ** Attribution *)

Lemma attribute_fold (address : string) (l : list (Z * list string)) s acc :
  (∀ s' v, (s', v) ∈ l → address ∈ v → s' = s) →
  acc = s ∨ (∃ s' v, (s', v) ∈ l ∧ address ∈ v) →
  fold_left (λ shard '(s, v), if decide (address ∈ v) then s else shard) l acc = s.
Proof.
  revert acc. induction l as [|[s' v] l IH]; intros acc Hu Hex; cbn [fold_left].
  { destruct Hex as [|(s' & v & Hin & _)]; [done|set_solver]. }
  apply IH; [set_solver|]. destruct (decide (address ∈ v)) as [Hv|Hv].
  - left. eapply Hu; [|done]. set_solver.
  - destruct Hex as [|(s1 & v1 & [[= -> ->]|Hin]%elem_of_cons & Ha)]; [by left|done|right; eauto].
Qed.

(** A leader is found under the shard it said it leads. *)
Lemma shard_of_leader_spec (MR : GoRuntime) metas d :
  NoDup (r_address <$> metas) → d ∈ metas → leads d →
  shard_of_leader (cx_leaders metas) (r_address d) = led_shard d.
Proof.
  intros Hnd Hd Hl. apply attribute_fold.
  - intros s v Hv%elem_of_range Ha. eapply cx_leaders_elem in Ha as (d' & Hd' & _ & <- & E); [|done].
    by rewrite (NoDup_fmap_eq r_address metas d' d).
  - right. destruct (cx_leaders_some metas d Hd Hl) as (v & Hv & Ha).
    exists (led_shard d), v. by rewrite elem_of_range.
Qed.

Definition cx_page (cfg : cx_config) (shard result : Z) : V2Event :=
  let incident := cx_incident (xc_chain cfg) shard in
  MkV2Event (xc_pdServiceKey cfg) "trigger" incident
    (MkV2Payload incident (xc_chain cfg) "critical" (cx_text shard result)).

(** The page a reply of a leader causes. *)
Definition cx_alarm `{MR : GoRuntime} (cfg : cx_config) (metas : list reply) (i : reply) :
    option V2Event :=
  match r_oops i with
  | None =>
      if xc_limit cfg <? decode_cx (r_result i) then
        Some (cx_page cfg (shard_of_leader (cx_leaders metas) (r_address i))
                (decode_cx (r_result i)))
      else None
  | Some _ => None
  end.

Lemma pages_cx_log (l : list (Z * list Z)) : pages (cx_line <$> l) = [].
Proof. by induction l. Qed.

Lemma cx_tick_pages (MR : GoRuntime) pd cfg metas replies :
  pages (cx_tick pd cfg metas replies) = omap (cx_alarm cfg metas) replies.
Proof.
  unfold cx_tick.
  assert (∀ acc, pages (fold_left (cx_reply pd cfg (cx_leaders metas)) replies acc).2
    = pages acc.2 ++ omap (cx_alarm cfg metas) replies) as H.
  { induction replies as [|i replies IH]; intros [pool acts]; [by rewrite app_nil_r|].
    cbn [fold_left]. rewrite IH. unfold cx_reply, cx_alarm at 2. cbn [omap list_omap].
    destruct (r_oops i); [done|]. destruct (xc_limit cfg <? decode_cx (r_result i)); [|done].
    cbn [snd]. rewrite pages_app, pages_alert, <-app_assoc. done. }
  specialize (H (∅, [Stdlog "[cxMonitor] Starting cross shard transaction check" []])).
  destruct (fold_left _ _ _) as [pool acts]. cbn [snd] in H.
  by rewrite pages_app, pages_cx_log, app_nil_r, H.
Qed.

(** The alarm of a reply names the shard its node said it leads. *)
Lemma cx_alarm_iff (MR MR1 MR2 : GoRuntime) cfg shardMap metas replies i ev :
  served (node_jobs (MR := MR1) shardMap NodeMetadataRPC) metas →
  served (cx_jobs (MR := MR2) (cx_leaders metas)) replies → i ∈ replies →
  cx_alarm (MR := MR) cfg metas i = Some ev ↔
  ∃ d, d ∈ metas ∧ leads d ∧ r_address d = r_address i ∧ r_oops i = None
    ∧ xc_limit cfg < decode_cx (r_result i)
    ∧ ev = cx_page cfg (led_shard d) (decode_cx (r_result i)).
Proof.
  intros Hm Hr Hi.
  assert (NoDup (r_address <$> metas)) as Hnd.
  { rewrite (served_addresses _ _ Hm), node_jobs_addresses. apply NoDup_range_keys. }
  destruct (served_elem _ _ _ Hr Hi) as (j & Hj & Ha).
  rewrite (cx_jobs_nodes MR2) in Hj. apply list_elem_of_fmap in Hj as (n & -> & Hn).
  apply list_elem_of_fmap in Hn as (d & -> & [Hl Hd]%list_elem_of_filter).
  destruct (answers_address _ _ Ha) as [Eaddr _]. cbn in Eaddr.
  unfold cx_alarm. rewrite Eaddr, (shard_of_leader_spec MR) by done.
  destruct (r_oops i); [naive_solver|].
  destruct (Z.ltb_spec (xc_limit cfg) (decode_cx (r_result i))); [|naive_solver lia].
  split; [naive_solver|]. intros (d' & Hd' & _ & E & _ & _ & ->).
  by rewrite (NoDup_fmap_eq r_address metas d' d).
Qed.

(** C27: pages of the cross-shard monitor are exact. In a tick whose requests
    were served, the leaders asked are distinct nodes of the shard map, and a
    page is sent for exactly the replies of leaders whose pool is above the
    limit, each naming the shard that very node said it leads. *)
Theorem cx_tick_spec (MR MR1 MR2 : GoRuntime) pd cfg shardMap metas replies :
  served (node_jobs (MR := MR1) shardMap NodeMetadataRPC) metas →
  served (cx_jobs (MR := MR2) (cx_leaders metas)) replies →
  round_jobs shardMap PendingCXRPC (cx_jobs (MR := MR2) (cx_leaders metas))
  ∧ pages (cx_tick (MR := MR) pd cfg metas replies) = omap (cx_alarm (MR := MR) cfg metas) replies
  ∧ ∀ i ev, i ∈ replies → cx_alarm (MR := MR) cfg metas i = Some ev ↔
      ∃ d, d ∈ metas ∧ leads d ∧ r_address d = r_address i ∧ r_oops i = None
        ∧ xc_limit cfg < decode_cx (r_result i)
        ∧ ev = cx_page cfg (led_shard d) (decode_cx (r_result i)).
Proof.
  intros Hm Hr. split; [|split; [apply cx_tick_pages|]].
  - eapply round_jobs_perm; [symmetry; apply cx_jobs_nodes|].
    eapply leaders_round; [apply (node_jobs_round MR1)|exact Hm].
  - intros i ev Hi. by apply (cx_alarm_iff MR MR1 MR2 cfg shardMap metas replies).
Qed.

(** ** A concrete tick *)

Module CxWitness.
Definition leader_body : string :=
  print (JObj [("result", JObj [("is-leader", JBool true); ("shard-id", JNum "3")])])%string.
Definition client : http_client := λ _ body,
  inr (200, if decide (body = request_body NodeMetadataRPC) then leader_body
            else print (JObj [("result"%string, JNum "1500")])).
Definition cfg : cx_config := MkCxConfig 1000 "key" "testnet".
Definition shardMap : gmap string Z := {["n"%string := 0]}.
Definition metas : list reply := [do_work client (job NodeMetadataRPC "n")].
Definition replies : list reply := [do_work client (job PendingCXRPC "n")].
Definition pd0 : pager := λ _, None.
End CxWitness.

Lemma cx_tick_spec_witness :
  pages (cx_tick (MR := range_ref) CxWitness.pd0 CxWitness.cfg CxWitness.metas CxWitness.replies)
  = omap (cx_alarm (MR := range_ref) CxWitness.cfg CxWitness.metas) CxWitness.replies
  ∧ omap (cx_alarm (MR := range_ref) CxWitness.cfg CxWitness.metas) CxWitness.replies
    = [cx_page CxWitness.cfg 3 1500].
Proof.
  split; [|vm_compute; reflexivity].
  refine (proj1 (proj2 (cx_tick_spec range_ref range_ref range_ref CxWitness.pd0 CxWitness.cfg
    CxWitness.shardMap CxWitness.metas CxWitness.replies _ _))).
  - replace (node_jobs (MR := range_ref) CxWitness.shardMap NodeMetadataRPC)
      with [job NodeMetadataRPC "n"] by (vm_compute; reflexivity).
    exists CxWitness.metas. split; [|reflexivity].
    constructor; [exists CxWitness.client; reflexivity|constructor].
  - replace (cx_jobs (MR := range_ref) (cx_leaders CxWitness.metas))
      with [job PendingCXRPC "n"] by (vm_compute; reflexivity).
    exists CxWitness.replies. split; [|reflexivity].
    constructor; [exists CxWitness.client; reflexivity|constructor].
Defined.
