(* ===== verification/Mock.v ===== *)
(** * The mock node (node-mock-rpc)

    The server in JavaScript that stands in for a node while the watchdog is
    tried out: app.js with the replies of RPC-calls. [serve] is its handler; the
    modules keep their reply objects between requests and change them. Against
    it, the monitors of the watchdog see what their requests bring back. *)

From S2P Require Import Prelude GoFmt GoTime GoJson JsonText Rpc Pool Linq Alerts Summary Monitor.
From S2P Require Import Consensus Cx.

(** ** JavaScript values *)

(** Objects keep the order of their properties; [None] is undefined. *)
Notation js_object := (list (string * option json)).

Definition js_quote_char (c : ascii) : string :=
  if (ord c =? 34) || (ord c =? 92) then String "\"%char (str1 c)
  else if ord c =? 8 then "\b"
  else if ord c =? 9 then "\t"
  else if ord c =? 10 then "\n"
  else if ord c =? 12 then "\f"
  else if ord c =? 13 then "\r"
  else if ord c <? 32 then u00 c
  else str1 c.

Fixpoint js_quote_chars (s : string) : string :=
  match s with EmptyString => EmptyString | String c r => js_quote_char c +:+ js_quote_chars r end.

Definition js_quote (s : string) : string := str1 dquote +:+ js_quote_chars s +:+ str1 dquote.

(** [JSON.stringify] of a value. A number is printed by the digits of its
    literal, as JavaScript prints the integers here. *)
Fixpoint stringify (j : json) : string :=
  match j with
  | JNull => "null"
  | JBool b => show_bool b
  | JNum lit => lit
  | JStr s => js_quote s
  | JArr l => "[" +:+ join "," (stringify <$> l) +:+ "]"
  | JObj l => "{" +:+ join "," ((λ p, js_quote p.1 +:+ ":" +:+ stringify p.2) <$> l) +:+ "}"
  end.

(** Properties that are undefined are left out. *)
Definition stringify_object (o : js_object) : string :=
  stringify (JObj (omap (λ p, v ← p.2; Some (p.1, v)) o)).

(** [o.k = v] for a property [o] has. *)
Definition set_property (k : string) (v : option json) (o : js_object) : js_object :=
  (λ p, if decide (p.1 = k) then (k, v) else p) <$> o.

(** [a[i] = v]: an array grows, and the elements it skips print as null. *)
Definition set_element (i : nat) (v : json) (a : list json) : list json :=
  if (i <? length a)%nat then <[i := v]> a else a ++ replicate (i - length a) JNull ++ [v].

(** A property of a parsed body: the last one of that name. *)
Definition property (k : string) (j : json) : option json :=
  match j with
  | JObj l => snd <$> last (filter (λ p, p.1 = k) l)
  | _ => None
  end.

(** The text of a value in a template literal. *)
Fixpoint to_string (j : json) : string :=
  match j with
  | JNull => "null"
  | JBool b => show_bool b
  | JNum lit => lit
  | JStr s => s
  | JArr l => join "," ((λ x, match x with JNull => EmptyString | _ => to_string x end) <$> l)
  | JObj _ => "[object Object]"
  end.

Definition show_method (method : option json) : string :=
  match method with Some j => to_string j | None => "undefined" end.

(** ** Replies *)

Definition zeros (n : nat) : string := pad_left "0"%char n EmptyString.

Definition header_result : json := JObj [
  ("blockHash", JStr "0xfbb722f572d2b2e8a0e292aa6f91acc73023dde5f281f32b6c5447b5b3102d59");
  ("blockNumber", JNum "165597");
  ("shardID", JNum "1");
  ("leader", JStr "one1wh4p0kuc7unxez2z8f82zfnhsg4ty6dupqyjt2");
  ("viewID", JNum "165594");
  ("epoch", JNum "367");
  ("timestamp", JStr "2020-02-07 18:37:54 +0000 UTC");
  ("unixtime", JNum "1581100674");
  ("lastCommitSig", JStr "d10f5af3e55ccbfea9e336733ffa9dcf4d12594f9b9a825c92e1611ef654cd0cc70966d243f2338a1970243ae9e49c0f8fa15fa138e7bea92a12d10b43af254624751f603f7dd8f0415099854da3678a90d8185076ca904fbbbb9cab63aa0c96");
  ("lastCommitBitmap", JStr "ff03")]%string.

Definition metadata_result : json := JObj [
  ("blskey", JStr EmptyString);
  ("version", JStr "Harmony (C) 2019. harmony, version v4983-v1.2.1-22-g1cea6c62 (ec2-user@ 2020-01-28T00:17:21+0000)");
  ("network", JStr "testnet");
  ("chainid", JStr "2");
  ("is-leader", JBool true);
  ("shard-id", JNum "0");
  ("role", JStr "Unknown")]%string.

Definition receipt1 : json := JObj [
  ("receipts", JArr [JObj [
      ("txHash", JStr "0x8da0bb84419030a118c510f0f8b2729842f4d00e01dd9e8a532e1513514151ee");
      ("from", JStr "one1d0kw95t6kkljmkk9vu0zv25jraut8ngv5vrs5g");
      ("to", JStr "one1d0kw95t6kkljmkk9vu0zv25jraut8ngv5vrs5g");
      ("shardID", JNum "1");
      ("toShardID", JNum "0");
      ("amount", JNum "1")]]);
  ("merkleProof", JObj [
    ("blockNum", JNum "151632");
    ("blockHash", JStr "0xcdc4c2e55e0b945150c0325afbf436b9013b370b9fe829bd468a48fb08ddbdf8");
    ("shardID", JNum "1");
    ("receiptHash", JStr "0x8c6e20f05d6245e82d933b1870b110a8e5e793b39b5e7f30691b858295415f92");
    ("shardIDs", JArr [JNum "0"]);
    ("shardHashes", JArr [JStr "0x965373de9dc075d85472c83b8e986c8ff8783f856795d9a24ca41c45bb7e98d7"])]);
  ("header", JObj [
    ("Header", JObj [
      ("parentHash", JStr "0x95d0443f9d49c7fa71860e2f98b8d8abf7f5f96a024928d84af3eb9d9acb3c41");
      ("miner", JStr "0x75ea17db98f7266c89423a4ea12677822ab269bc");
      ("stateRoot", JStr "0x9cecdf6fff98ff5a7b2efa3fc0f5780452cb08f4826ff239f1f976c3a503e4ab");
      ("transactionsRoot", JStr "0x8e6abd7021ce075c9c92195a0eb7f6c2c4ed1697c7c359fb5edd45d8ae9b4f1f");
      ("receiptsRoot", JStr "0x056b23fbba480696b65fe5a59b8f2148a1299103c4f57df839233af2cf4ca2d2");
      ("logsBloom", JStr ("0x" +:+ zeros 512));
      ("number", JStr "0x25050");
      ("gasLimit", JStr "0x4c4b400");
      ("gasUsed", JStr "0x5208");
      ("timestamp", JStr "0x5e3bf530");
      ("extraData", JStr "0x");
      ("mixHash", JStr "0x0000000000000000000000000000000000000000000000000000000000000000");
      ("hash", JStr "0x1e6c29665ecb1d4a28bb60e2d0e218efe50e2be7a1845486d7d6719be99813af")])]);
  ("commitSig", JStr "cspSydmNTCUn/5oovqKoK6omtoMAcaVGopGKptObhGeyierZV4hC9BkJexhXnecBAzDyuOl2/NLPVZXLABgn7HVPugtsGJGjvMSwCEUOdTllln9Bj7TEF3vVXHM22GcK");
  ("commitBitmap", JStr "/wM=")]%string.

Definition receipt2 : json := JObj [
  ("receipts", JArr [JObj [
      ("txHash", JStr "0x8fcdae782c0b94698d65be2278b2588e4c0c876d3056c2c862f08761345519f9");
      ("from", JStr "one1d0kw95t6kkljmkk9vu0zv25jraut8ngv5vrs5g");
      ("to", JStr "one1d0kw95t6kkljmkk9vu0zv25jraut8ngv5vrs5g");
      ("shardID", JNum "1");
      ("toShardID", JNum "0");
      ("amount", JNum "1000000000000000000")]]);
  ("merkleProof", JObj [
    ("blockNum", JNum "152301");
    ("blockHash", JStr "0x09012f72f3062dd793edb5bd6259bdcd2d982a982d7b2cd062191e94608d0acf");
    ("shardID", JNum "1");
    ("receiptHash", JStr "0xb6ea8a9eb647bd74b60a5f79573685f262c3e4d5bc071c8bb19198d3f549375c");
    ("shardIDs", JArr [JNum "0"]);
    ("shardHashes", JArr [JStr "0xa9839e617e088258adb272bae28d513b3d773225908843777b1f9e35e109d398"])]);
  ("header", JObj [
    ("Header", JObj [
      ("parentHash", JStr "0x04d5d95e9f06a9e8c8b150fe2355311ecd251476a0180a34f402bd0156fd686b");
      ("miner", JStr "0x75ea17db98f7266c89423a4ea12677822ab269bc");
      ("stateRoot", JStr "0xef084f54330ae9f890a257608706e0a13ae26fd8d7d488eb59ca97bbab9f5638");
      ("transactionsRoot", JStr "0x76b4275cd0eb6275ec984e64bb61320f2d3cd4b25ae3e07da9aafa375e5c9e03");
      ("receiptsRoot", JStr "0xb92798cd0a0f5b4f1b14822b8d6a9ae3c221157ccf93ad5104adecc315f9db53");
      ("logsBloom", JStr ("0x" +:+ zeros 512));
      ("number", JStr "0x252ed");
      ("gasLimit", JStr "0x4c4b400");
      ("gasUsed", JStr "0x223228");
      ("timestamp", JStr "0x5e3c0a54");
      ("extraData", JStr "0x");
      ("mixHash", JStr "0x0000000000000000000000000000000000000000000000000000000000000000");
      ("hash", JStr "0xc151860dcee64832ae2688cc68ca284c26faa8e4f52f5a57069d74d544ecda68")])]);
  ("commitSig", JStr "6AsuRyUQJ9JHJFR7owtgnARD8F5ygwF/u1WXpQQ+eua0rAZOq79gMxfpsew/S8YC3UslMe8EoJ4NP7gaw2s6YXfEIXgwsaKK++GLpIi14QU1190Y6Qva3eAiArrCMCgS");
  ("commitBitmap", JStr "/wM=")]%string.

Definition resultSample : json := JObj [
  ("receipts", JArr [JObj [
      ("txHash", JStr "0x8da0bb84419030a118c510f0f8b2729842f4d00e01dd9e8a532e1513514151ee");
      ("from", JStr "one1d0kw95t6kkljmkk9vu0zv25jraut8ngv5vrs5g");
      ("to", JStr "one1d0kw95t6kkljmkk9vu0zv25jraut8ngv5vrs5g");
      ("shardID", JNum "1");
      ("toShardID", JNum "0");
      ("amount", JNum "1")]]);
  ("merkleProof", JObj [
    ("blockNum", JNum "151632");
    ("blockHash", JStr "0xcdc4c2e55e0b945150c0325afbf436b9013b370b9fe829bd468a48fb08ddbdf8");
    ("shardID", JNum "1");
    ("receiptHash", JStr "0x8c6e20f05d6245e82d933b1870b110a8e5e793b39b5e7f30691b858295415f92");
    ("shardIDs", JArr [JNum "0"]);
    ("shardHashes", JArr [JStr "0x965373de9dc075d85472c83b8e986c8ff8783f856795d9a24ca41c45bb7e98d7"])])]%string.

(** The objects the modules start with. *)
Definition reply_object (result : json) : js_object :=
  [("jsonrpc", Some (JStr "2.0")); ("id", Some (JNum "1")); ("result", Some result)]%string.

(** The [json] of the three modules. *)
Record mock : Type := MkMock {
  k_header : js_object;
  k_metadata : js_object;
  k_cx_head : js_object;         (** [json] of the receipts without its result *)
  k_cx_result : list json;
}.

Definition initial_mock : mock :=
  MkMock (reply_object header_result) (reply_object metadata_result)
    [("jsonrpc", Some (JStr "2.0")); ("id", Some (JNum "1"))]%string [receipt1; receipt2].

Definition hmy_latestHeader (id : option json) (st : mock) : mock * string :=
  let json := set_property "id" id (k_header st) in
  (MkMock json (k_metadata st) (k_cx_head st) (k_cx_result st), stringify_object json).

Definition hmy_getNodeMetadata (id : option json) (st : mock) : mock * string :=
  let json := set_property "id" id (k_metadata st) in
  (MkMock (k_header st) json (k_cx_head st) (k_cx_result st), stringify_object json).

(** [while (size++ <= 1001) json.result[size] = resultSample]; at most 1001
    steps from size 1. *)
Fixpoint fill (fuel size : nat) (result : list json) : list json :=
  match fuel with
  | O => result
  | S fuel =>
      if (size <=? 1001)%nat then fill fuel (S size) (set_element (S size) resultSample result)
      else result
  end.

Definition hmy_getPendingCxReceipts (id : option json) (st : mock) : mock * string :=
  let json := set_property "id" id (k_cx_head st) in
  let result := fill 1001 1 (k_cx_result st) in
  (MkMock (k_header st) (k_metadata st) json result,
   stringify_object (json ++ [("result"%string, Some (JArr result))])).

(** The reply to any other method; its id is always 1. *)
Definition no_method (method : option json) : string :=
  stringify (JObj [("jsonrpc", JStr "2.0"); ("id", JNum "1");
    ("error", JObj [("code", JNum "-32601");
      ("message", JStr ("The method " +:+ show_method method
                          +:+ " does not exist/is not available"))])]%string).

(** The handler of POST requests, on the parsed body. *)
Definition serve (body : json) (st : mock) : mock * string :=
  let id := property "id" body in
  let is_method name :=
    match property "method" body with Some (JStr m) => bool_decide (m = name) | _ => false end in
  if is_method "hmy_latestHeader"%string then hmy_latestHeader id st
  else if is_method "hmy_getNodeMetadata"%string then hmy_getNodeMetadata id st
  else if is_method "hmy_getPendingCxReceipts"%string then hmy_getPendingCxReceipts id st
  else (st, no_method (property "method" body)).

(** The state after a sequence of requests. *)
Definition served_all (bodies : list json) : mock :=
  fold_left (λ st body, (serve body st).1) bodies initial_mock.

(** The mock as the watchdog's HTTP client sees it, after some requests; a body
    that is not JSON is left to the library. *)
Definition mock_client (rejects : string → Z * string) (st : mock) : http_client := λ _ body,
  inr (match parse body with Some j => (200, (serve j st).2) | None => rejects body end).

(** ** Facts *)

Lemma fill_S fuel size result :
  fill (S fuel) size result
  = if (size <=? 1001)%nat then fill fuel (S size) (set_element (S size) resultSample result)
    else result.
Proof. done. Qed.

(** More fuel changes nothing. *)
Lemma fill_enough fuel size result :
  (1002 ≤ fuel + size)%nat → fill (S fuel) size result = fill fuel size result.
Proof.
  revert size result. induction fuel as [|fuel IH]; intros size result Hf; rewrite (fill_S _ size).
  - destruct (Nat.leb_spec size 1001); [lia|done].
  - rewrite (fill_S fuel size). destruct (size <=? 1001)%nat; [apply IH; lia|done].
Qed.

(** The loop leaves the elements before the current one, and the sample from
    there on; what was there before does not matter. *)
Lemma fill_result n size p k :
  (n + size = 1002)%nat → length p = S size → (k ≤ n)%nat →
  fill n size (p ++ replicate k resultSample) = p ++ replicate n resultSample.
Proof.
  revert size p k. induction n as [|n IH]; intros size p k Hn Hp Hk.
  { by replace k with 0%nat by lia. }
  rewrite fill_S. destruct (Nat.leb_spec size 1001); [|lia].
  assert (set_element (S size) resultSample (p ++ replicate k resultSample)
    = (p ++ [resultSample]) ++ replicate (pred k) resultSample) as ->.
  { unfold set_element. rewrite length_app, length_replicate, Hp. destruct k as [|k].
    - destruct (Nat.ltb_spec (S size) (S size + 0)); [lia|].
      replace (S size - (S size + 0))%nat with 0%nat by lia. by rewrite !app_nil_r.
    - destruct (Nat.ltb_spec (S size) (S size + S k)); [|lia].
      rewrite insert_app_r_alt by lia. replace (S size - length p)%nat with 0%nat by lia.
      cbn. by rewrite <-app_assoc. }
  rewrite IH by (rewrite ?length_app; cbn; lia). by rewrite <-app_assoc.
Qed.

Definition full_result : list json := [receipt1; receipt2] ++ replicate 1001 resultSample.

Lemma fill_start : fill 1001 1 [receipt1; receipt2] = full_result.
Proof. apply (fill_result 1001 1 [receipt1; receipt2] 0); (done || lia). Qed.

Lemma fill_full : fill 1001 1 full_result = full_result.
Proof. apply (fill_result 1001 1 [receipt1; receipt2] 1001); (done || lia). Qed.

#[local] Opaque fill full_result.

(** What requests can change: the ids, and the length of the receipts. *)
Definition reachable (st : mock) : Prop :=
  ∃ x y z r, st = MkMock (set_property "id" x (reply_object header_result))
      (set_property "id" y (reply_object metadata_result))
      (set_property "id" z [("jsonrpc", Some (JStr "2.0")); ("id", Some (JNum "1"))]%string) r
    ∧ (r = [receipt1; receipt2] ∨ r = full_result).

Lemma served_all_reachable bodies : reachable (served_all bodies).
Proof.
  unfold served_all. apply fold_left_inv.
  - intros body st _ (x & y & z & r & -> & Hr). unfold serve.
    set (id := property "id" body).
    destruct (match property "method" body with Some (JStr m) => _ | _ => false end).
    { by exists id, y, z, r. }
    destruct (match property "method" body with Some (JStr m) => _ | _ => false end).
    { by exists x, id, z, r. }
    destruct (match property "method" body with Some (JStr m) => _ | _ => false end).
    { exists x, y, id, full_result. split; [|by right]. unfold hmy_getPendingCxReceipts. cbn [fst].
      f_equal. destruct Hr as [->| ->]; [apply fill_start|apply fill_full]. }
    by exists x, y, z, r.
  - exists (Some (JNum "1")), (Some (JNum "1")), (Some (JNum "1")), [receipt1; receipt2].
    split; [reflexivity|by left].
Qed.

Lemma set_property_twice k v w o : set_property k v (set_property k w o) = set_property k v o.
Proof.
  unfold set_property. rewrite <-list_fmap_compose. apply list_fmap_ext. intros _ [k' x] _. cbn.
  repeat case_decide; naive_solver.
Qed.

(** The mock has no memory: it answers a request as if it were the first. *)
Lemma serve_stateless bodies body : (serve body (served_all bodies)).2 = (serve body initial_mock).2.
Proof.
  destruct (served_all_reachable bodies) as (x & y & z & r & -> & Hr). unfold serve.
  repeat (destruct (match property "method" body with Some (JStr m) => _ | _ => false end));
    [| | |reflexivity];
    unfold hmy_latestHeader, hmy_getNodeMetadata, hmy_getPendingCxReceipts;
    cbn [k_header k_metadata k_cx_head k_cx_result snd initial_mock]; rewrite set_property_twice;
    [reflexivity|reflexivity|].
  rewrite fill_start. by destruct Hr as [->| ->]; [rewrite fill_start|rewrite fill_full].
Qed.

(** *** What the watchdog makes of the replies *)

Definition mock_header : BlockHeaderReply :=
  MkBlockHeaderReply "0xfbb722f572d2b2e8a0e292aa6f91acc73023dde5f281f32b6c5447b5b3102d59" 165597 1
    "one1wh4p0kuc7unxez2z8f82zfnhsg4ty6dupqyjt2" 165594 367 "2020-02-07 18:37:54 +0000 UTC" 1581100674
    "d10f5af3e55ccbfea9e336733ffa9dcf4d12594f9b9a825c92e1611ef654cd0cc70966d243f2338a1970243ae9e49c0f8fa15fa138e7bea92a12d10b43af254624751f603f7dd8f0415099854da3678a90d8185076ca904fbbbb9cab63aa0c96"
    "ff03".

(** The key is a string, not a list: it is not stored. *)
Definition mock_metadata : NodeMetadataReply :=
  MkNodeMetadataReply None
    "Harmony (C) 2019. harmony, version v4983-v1.2.1-22-g1cea6c62 (ec2-user@ 2020-01-28T00:17:21+0000)"
    "testnet" true 0 "Unknown" 0 EmptyString false 0 zero_ChainConfig zero_P2PConnectivity.

(** A watchdog request, parsed. *)
Definition call (rpc : string) : json := JObj
  [("id", JStr "1"); ("jsonrpc", JStr JSONVersion); ("method", JStr rpc); ("params", JArr [])]%string.

Lemma request_body_parses rpc : utf8 rpc = true → parse (request_body rpc) = Some (call rpc).
Proof.
  intros Hr. unfold request_body, Marshal_map. rewrite <-request_id, request_members.
  apply parse_print. cbn -[utf8]. by rewrite Hr.
Qed.

(** The reply of the mock to a job of the watchdog. *)
Definition answer_to (rpc : string) : string := (serve (call rpc) initial_mock).2.

Lemma mock_work rejects bodies rpc node :
  utf8 rpc = true → answer_to rpc ≠ EmptyString →
  do_work (mock_client rejects (served_all bodies)) (job rpc node)
  = MkReply node rpc EmptyString (answer_to rpc) None.
Proof.
  intros Hr Ha. unfold do_work, request, mock_client. cbn [w_address w_body w_rpc job].
  rewrite request_body_parses, serve_stateless by done. fold (answer_to rpc). cbn [negb Z.eqb].
  by destruct (answer_to rpc).
Qed.

Lemma answer_header : decode_header (answer_to BlockHeaderRPC) = mock_header.
Proof. vm_compute. reflexivity. Qed.

Lemma answer_metadata : decode_metadata (answer_to NodeMetadataRPC) = mock_metadata.
Proof. vm_compute. reflexivity. Qed.

(** The mock spells the method for receipts differently. *)
Lemma answer_cx :
  answer_to PendingCXRPC = no_method (Some (JStr PendingCXRPC)) ∧ decode_cx (answer_to PendingCXRPC) = 0.
Proof. vm_compute. done. Qed.

(** ** Scenarios *)

(** The replies of mock nodes to the jobs of a round. *)
Definition mock_round (rejects : string → Z * string) (bodies : list json) (js : list work) : list reply :=
  do_work (mock_client rejects (served_all bodies)) <$> js.

Lemma collect_mock shardMap wd rejects bodies nodes :
  (collect_headers shardMap wd (mock_round rejects bodies (job BlockHeaderRPC <$> nodes))).1
  = MkBlockHeader mock_header <$> nodes.
Proof.
  unfold collect_headers, mock_round.
  assert (∀ acc down, (fold_left (λ '(nodes, down) d,
      match r_oops d with
      | Some e => (nodes, wd ++ [no_reply shardMap d e])
      | None => (nodes ++ [MkBlockHeader (decode_header (r_result d)) (r_address d)], down)
      end) (do_work (mock_client rejects (served_all bodies)) <$> (job BlockHeaderRPC <$> nodes))
      (acc, down)).1 = acc ++ (MkBlockHeader mock_header <$> nodes)) as H; [|apply H].
  induction nodes as [|n nodes IH]; intros acc down; cbn [fmap list_fmap fold_left].
  { by rewrite app_nil_r. }
  rewrite mock_work by done. cbn [r_oops r_result r_address]. rewrite answer_header, IH, <-app_assoc.
  done.
Qed.

(** A tick of the consensus monitor that has asked mock nodes only. *)
Definition mock_tick (cfg : consensus_config) (i : tick_input) : Prop :=
  ∃ rejects bodies ns, ns ≠ [] ∧ ti_replies i = mock_round rejects bodies (job BlockHeaderRPC <$> ns).

Definition mock_block : lastSuccessfulBlock := MkLastBlock 165597 (Unix 1581100674).

Lemma mock_tick_nodes cfg i :
  mock_tick cfg i →
  (∃ h, h ∈ ti_nodes cfg i ∧ Itoa (header_shard h) = "1"%string)
  ∧ ∀ h, h ∈ ti_nodes cfg i → Itoa (header_shard h) = "1"%string ∧ recorded h = mock_block.
Proof.
  intros (rejects & bodies & ns & Hne & E). unfold ti_nodes. rewrite E, collect_mock. split.
  - destruct ns as [|n ns]; [done|]. eexists. split; [by left|]. reflexivity.
  - intros h (n & -> & _)%list_elem_of_fmap. split; reflexivity.
Qed.

(** One tick: the alarm depends on the clock only, and the record stays. *)
Lemma mock_tick_step cfg i st st' acts :
  mock_tick cfg i → tick_step cfg i st st' acts →
  lastShardData st !! "1"%string = Some mock_block →
  lastShardData st' !! "1"%string = Some mock_block
  ∧ ((∃ ev, ev ∈ pages acts ∧ pd_DedupKey ev = consensus_incident "1" (cf_chain cfg))
     ↔ overdue (cf_warning cfg) (Sub (ti_now i) (Unix 1581100674)) = true).
Proof.
  intros Hm Hstep Hl. destruct (mock_tick_nodes cfg i Hm) as [Hrep Hall].
  assert (∀ h, latest (ti_nodes cfg i) "1" h →
    stuck (cf_warning cfg) (ti_now i) (Some mock_block) h
    = overdue (cf_warning cfg) (Sub (ti_now i) (Unix 1581100674))) as Hst.
  { intros h (Hin & _). destruct (Hall h Hin) as [_ [= E _]]. unfold stuck. cbn [lb_Height mock_block].
    by rewrite E. }
  destruct (overdue _ _) eqn:Eo.
  - destruct (stuck_paged cfg i st st' acts "1" mock_block Hstep Hl Hrep Hst) as (Hp & H1 & _). done.
  - destruct (not_stuck_recorded cfg i st st' acts "1" Hstep Hrep) as (Hp & _ & h & (Hin & _) & E).
    { intros h Hh. rewrite Hl. by apply Hst. }
    rewrite E. destruct (Hall h Hin) as [_ ->]. split; [done|]. split; [|done].
    intros (ev & Hev & Hk). by destruct (Hp ev Hev).
Qed.

(** *** The cross-shard monitor *)

Lemma cx_jobs_rpc (MR : GoRuntime) leaders j : j ∈ cx_jobs leaders → ∃ n, j = job PendingCXRPC n.
Proof.
  unfold cx_jobs. intros ([s v] & Hj & _)%list_elem_of_bind.
  apply list_elem_of_fmap in Hj as (n & -> & _). eauto.
Qed.

(** Every mock node says that it leads shard 0, and is asked. *)
Lemma mock_leaders (MR : GoRuntime) shardMap rejects bodies :
  cx_jobs (cx_leaders (mock_round rejects bodies (node_jobs shardMap NodeMetadataRPC)))
  ≡ₚ node_jobs shardMap PendingCXRPC.
Proof.
  rewrite cx_jobs_nodes. unfold mock_round, node_jobs. apply eq_Permutation.
  induction (range shardMap) as [|[n s] l IH]; [done|]. cbn [fmap list_fmap].
  rewrite mock_work by done. rewrite filter_cons_True.
  - cbn [fmap list_fmap r_address]. by f_equal.
  - split; [done|]. cbn [r_result]. by rewrite answer_metadata.
Qed.

Lemma mock_cx_pages (MR : GoRuntime) pd cfg metas rejects bodies js :
  0 ≤ xc_limit cfg → (∀ j, j ∈ js → ∃ n, j = job PendingCXRPC n) →
  pages (cx_tick pd cfg metas (mock_round rejects bodies js)) = [].
Proof.
  intros Hl Hj. rewrite cx_tick_pages. unfold mock_round.
  induction js as [|j js IH]; [done|]. destruct (Hj j) as [n ->]; [by left|].
  cbn [fmap list_fmap omap list_omap]. rewrite mock_work by done. unfold cx_alarm at 1.
  cbn [r_oops r_result]. rewrite (proj2 answer_cx).
  destruct (Z.ltb_spec (xc_limit cfg) 0); [lia|]. apply IH. intros j' Hj'. apply Hj. by right.
Qed.

(** C38: what the mock node can be used for. It answers every request as if it were the
    first. A watchdog that watches mock nodes sees a shard that does not
    progress: its first tick records the block, and from the second on the
    consensus monitor pages for shard 1 exactly when the block is overdue. Too
    many pending cross-shard transactions, which the mock is meant to simulate,
    are never seen: every node is asked for its pool, but the mock knows the method by another spelling, the reply to the
    watchdog's is an error, which decodes to an empty pool, and no tick of the
    cross-shard monitor pages. *)
Theorem mock_scenarios cfg i1 a1 tr st (MR : GoRuntime) pd xcfg shardMap rejects bodies :
  run cfg initial_consensus ((i1, a1) :: tr) st → mock_tick cfg i1 →
  (∀ i a, (i, a) ∈ tr → mock_tick cfg i) → 0 ≤ xc_limit xcfg →
  (∀ body, (serve body (served_all bodies)).2 = (serve body initial_mock).2)
  ∧ pages a1 = []
  ∧ (∀ i a, (i, a) ∈ tr →
       (∃ ev, ev ∈ pages a ∧ pd_DedupKey ev = consensus_incident "1" (cf_chain cfg))
       ↔ overdue (cf_warning cfg) (Sub (ti_now i) (Unix 1581100674)) = true)
  ∧ let metas := mock_round rejects bodies (node_jobs shardMap NodeMetadataRPC) in
    cx_jobs (cx_leaders metas) ≡ₚ node_jobs shardMap PendingCXRPC
    ∧ pages (cx_tick pd xcfg metas (mock_round rejects bodies (cx_jobs (cx_leaders metas)))) = [].
Proof.
  intros Hrun Hm1 Hm Hlim. split; [apply serve_stateless|].
  inversion Hrun as [|? ? ? st1 ? ? Hstep Htr]; subst.
  destruct (mock_tick_nodes cfg i1 Hm1) as [Hrep Hall].
  destruct (not_stuck_recorded cfg i1 initial_consensus st1 a1 "1" Hstep Hrep)
    as (_ & _ & h & (Hin & _) & El); [done|].
  rewrite (proj2 (Hall h Hin)) in El. split.
  { apply elem_of_nil_inv. intros ev Hev.
    by destruct (page_due _ _ _ _ _ _ Hstep Hev) as (s & lb & x & E & _). }
  split; [|split; [apply mock_leaders|apply mock_cx_pages; [done|apply cx_jobs_rpc]]].
  clear Hstep Hrun Hin. induction Htr as [st2|st2 i a st3 tr st Hstep _ IH]; [set_solver|].
  destruct (mock_tick_step cfg i st2 st3 a) as [El' Hiff]; [by eapply Hm; left|done|done|].
  intros j b [[= -> ->]|Hin]%elem_of_cons; [done|]. apply IH; [|done|done].
  intros i' a' Hi. eapply Hm. by right.
Qed.

Module MockWitness.
Definition cfg : consensus_config :=
  MkConsensusConfig 70 1000 32 "key" "testnet" {["localhost:9500"%string := 0]}.
Definition replies : list reply :=
  mock_round (λ _, (400, EmptyString)) [call BlockHeaderRPC]
    (job BlockHeaderRPC <$> ["localhost:9500"%string]).
Definition input (s : Z) : tick_input := MkTickInput (Unix s) [] replies.
Definition tick (s : Z) (st : consensus_state) : consensus_state * list action :=
  match consensus_tick (L := linq_ref) (MR := range_ref) (λ _, None) cfg (Unix s) [] replies st with
  | Done r => r
  | Panic _ => (st, [])
  end.
Definition first : consensus_state * list action := tick 1581100680 initial_consensus.
Definition second : consensus_state * list action := tick 1581100745 first.1.
Lemma ticks :
  run cfg initial_consensus
    [(input 1581100680, first.2); (input 1581100745, second.2)] second.1.
Proof.
  eapply run_cons; [|eapply run_cons; [|apply run_nil]].
  - apply (tick_step_intro _ _ _ first.1 _ linq_ref range_ref (λ _, None)). vm_compute. reflexivity.
  - apply (tick_step_intro _ _ _ second.1 _ linq_ref range_ref (λ _, None)). vm_compute. reflexivity.
Qed.
End MockWitness.

Lemma mock_scenarios_witness :
  pages MockWitness.first.2 = []
  ∧ ∃ ev, ev ∈ pages MockWitness.second.2 ∧ pd_DedupKey ev = "Shard 1 consensus stuck! - testnet"%string.
Proof.
  destruct (mock_scenarios MockWitness.cfg (MockWitness.input 1581100680) MockWitness.first.2
    [(MockWitness.input 1581100745, MockWitness.second.2)] MockWitness.second.1 range_ref (λ _, None)
    (MkCxConfig 1000 "key" "testnet") ∅ (λ _, (400, EmptyString)) []) as (_ & H1 & H2 & _).
  - exact MockWitness.ticks.
  - exists (λ _, (400, EmptyString)), [call BlockHeaderRPC], ["localhost:9500"%string].
    split; [discriminate|reflexivity].
  - intros i a Hin%list_elem_of_singleton. apply (f_equal fst) in Hin. cbn [fst] in Hin. rewrite Hin.
    exists (λ _, (400, EmptyString)), [call BlockHeaderRPC], ["localhost:9500"%string].
    split; [discriminate|reflexivity].
  - done.
  - split; [exact H1|]. apply (H2 (MockWitness.input 1581100745) MockWitness.second.2); [by left|].
    vm_compute. reflexivity.
Defined.
