(* ===== verification/P2p.v ===== *)
(** * The connectivity monitor (p2p-monitor.go)

    [p2pMonitor] averages, per shard, the percentage of known peers each node is
    connected to, and pages when a non-zero average is below the tolerance. *)

From S2P Require Import Prelude GoFloat GoFmt GoTime GoJson Rpc Linq Alerts Summary Monitor.

(** The percentage of one node. *)
Definition connection (n : NodeMetadata) : Z :=
  let c := nm_P2P (nmd_Payload n) in
  if negb (p2p_TotalKnown c =? 0) then
    int_of_float (fmul (fdiv (float_of_int (p2p_Connected c)) (float_of_int (p2p_TotalKnown c)))
                    (float_of_int 100))
  else 0.

(** [percent]: the percentages by shard. *)
Definition percent_map (nodes : list NodeMetadata) : gmap Z (list Z) :=
  fold_left (λ percent n, map_append (int64 (meta_shard n)) (connection n) percent) nodes ∅.

(** [avg] of a non-empty list of percentages. *)
Definition average (values : list Z) : Z :=
  let sum := fold_left (λ sum v, int64 (sum + v)) values 0 in
  int_of_float (fdiv (float_of_int sum) (float_of_int (Z.of_nat (length values)))).

Definition p2p_incident (shard : Z) (chain : string) : string :=
  Sprintf "Shard %d connectivity lower than threshold - %s" [OInt TInt shard; OStr chain].

Definition p2p_text (shard avg : Z) : string :=
  Sprintf p2pMessage [OInt TInt shard; OInt TInt avg].

(** The body of the loop over [percent]. *)
Definition p2p_shard (pd : pager) (tolerance : Z) (pdServiceKey chain : string)
    (shard : Z) (values : list Z) : list action :=
  let '(avg, acts) :=
    if 0 <? Z.of_nat (length values) then
      let avg := average values in
      (avg, if negb (avg =? 0) && (avg <? tolerance) then
              alert pd "[p2pMonitor] Send PagerDuty alert! %s" pdServiceKey
                (p2p_incident shard chain) chain (p2p_text shard avg)
            else [])
    else (0, []) in
  acts ++ [Stdlog "[p2pMonitor] Shard: %d, Avg Connectivity: %d%%" [OInt TInt shard; OInt TInt avg]].

Definition p2pMonitor `{MR : GoRuntime} (pd : pager) (tolerance : Z) (pdServiceKey chain : string)
    (nodes : list NodeMetadata) : list action :=
  Stdlog "[p2pMonitor] Running p2p connectivity check" []
  :: (range (percent_map nodes) ≫= λ '(shard, values),
        p2p_shard pd tolerance pdServiceKey chain shard values).

(** ** Specification *)

(** What a node reports is plausible: not more connections than known peers. *)
Definition plausible (n : NodeMetadata) : Prop :=
  let c := nm_P2P (nmd_Payload n) in
  0 ≤ p2p_Connected c ≤ p2p_TotalKnown c ∧ p2p_TotalKnown c < 17592186044416
  ∧ is_uint32 (meta_shard n).

Definition shard_values (nodes : list NodeMetadata) (shard : Z) : list Z :=
  connection <$> filter (λ n, meta_shard n = shard) nodes.

(** The integer mean. *)
Definition mean (l : list Z) : Z := foldr Z.add 0 l / Z.of_nat (length l).

Definition p2p_page (pdServiceKey chain : string) (shard avg : Z) : V2Event :=
  MkV2Event pdServiceKey "trigger" (p2p_incident shard chain)
    (MkV2Payload (p2p_incident shard chain) chain "critical" (p2p_text shard avg)).

Lemma connection_range n : plausible n → 0 ≤ connection n ≤ 100.
Proof.
  intros (Hc & Hk & _). unfold connection.
  destruct (Z.eqb_spec (p2p_TotalKnown (nm_P2P (nmd_Payload n))) 0); cbn [negb]; [lia|].
  apply (percent_bounds _ _ Hc). lia.
Qed.

Lemma percent_map_group nodes :
  (∀ n, n ∈ nodes → plausible n) → percent_map nodes = group_append meta_shard connection nodes.
Proof.
  unfold percent_map, group_append. generalize (∅ : gmap Z (list Z)) as acc.
  induction nodes as [|n nodes IH]; intros acc Hn; [done|]. cbn [fold_left].
  rewrite int64_uint32 by (apply Hn; set_solver). apply IH. set_solver.
Qed.

Lemma sum_no_overflow l acc :
  (∀ v, v ∈ l → 0 ≤ v ≤ 100) → 0 ≤ acc → acc + 100 * Z.of_nat (length l) < two53 →
  fold_left (λ sum v, int64 (sum + v)) l acc = acc + foldr Z.add 0 l.
Proof.
  revert acc. induction l as [|v l IH]; intros acc Hv Ha Hb; cbn [fold_left foldr]; [lia|].
  cbn [length] in Hb. specialize (Hv v ltac:(set_solver)) as Hv0.
  rewrite int64_id by (unfold is_int64, two63, two53 in *; lia).
  rewrite IH; [lia|set_solver|lia|lia].
Qed.

Lemma sum_bounds l : (∀ v, v ∈ l → 0 ≤ v ≤ 100) → 0 ≤ foldr Z.add 0 l ≤ 100 * Z.of_nat (length l).
Proof.
  induction l as [|v l IH]; intros Hv; cbn [foldr length]; [lia|].
  specialize (Hv v ltac:(set_solver)) as Hv0. specialize (IH ltac:(set_solver)). lia.
Qed.

Lemma average_mean l :
  (∀ v, v ∈ l → 0 ≤ v ≤ 100) → l ≠ [] → 100 * Z.of_nat (length l) < two53 →
  average l = mean l ∧ 0 ≤ mean l ≤ 100.
Proof.
  intros Hv Hl Hb. pose proof (sum_bounds l Hv).
  assert (0 < Z.of_nat (length l)) by (destruct l; [done|cbn; lia]).
  unfold average. cbv zeta. rewrite sum_no_overflow by (done || lia). cbn [Z.add].
  rewrite int_of_quotient by lia. split; [done|]. unfold mean. split.
  - apply Z.div_pos; lia.
  - apply Z.div_le_upper_bound; lia.
Qed.

Lemma p2p_shard_pages pd tolerance key chain shard values ev :
  ev ∈ pages (p2p_shard pd tolerance key chain shard values) ↔
  values ≠ [] ∧ average values ≠ 0 ∧ average values < tolerance
  ∧ ev = p2p_page key chain shard (average values).
Proof.
  unfold p2p_shard. destruct values as [|v values].
  { cbn. set_solver. }
  rewrite (proj2 (Z.ltb_lt 0 (Z.of_nat (length (v :: values))))) by (cbn; lia).
  destruct (Z.eqb_spec (average (v :: values)) 0), (Z.ltb_spec (average (v :: values)) tolerance);
    cbn [negb andb]; rewrite pages_app, ?pages_alert, ?pages_log_cons, elem_of_app;
    rewrite ?list_elem_of_singleton; unfold p2p_page; set_solver by lia.
Qed.


(** The percentage of a node is the integer percentage of its connected
    peers or, because of the rounding of the float quotient, one less; it is
    never outside 0 to 100. *)
Theorem connection_accuracy n :
  plausible n → 0 < p2p_TotalKnown (nm_P2P (nmd_Payload n)) →
  let exact := 100 * p2p_Connected (nm_P2P (nmd_Payload n))
                 / p2p_TotalKnown (nm_P2P (nmd_Payload n)) in
  (connection n = exact ∨ connection n = exact - 1) ∧ 0 ≤ connection n ≤ 100.
Proof.
  intros (Hc & Hk & _) Hpos. unfold connection.
  rewrite (proj2 (Z.eqb_neq _ 0)) by lia. cbn [negb].
  destruct (percent_bounds _ _ Hc ltac:(lia)) as [H1 H2]. split; [|done]. lia.
Qed.

(** The page text does not name the shard. The template prints an integer
    with %s, so the shard appears inside a formatting error. *)
Theorem p2p_text_bad_verb shard avg :
  p2p_text shard avg
  = "
Shard: %!s(int=" +:+ Itoa shard +:+ ")

Avg Connectivity: " +:+ Itoa avg +:+ "
".
Proof.
  unfold p2p_text, p2pMessage. cbn.
  change (format_verb "s" (OInt TInt shard)) with ("%!" +:+ "s" +:+ "(" +:+ "int" +:+ "=" +:+ Itoa shard +:+ ")").
  change (format_verb "d" (OInt TInt avg)) with (Itoa avg).
  rewrite !string_app_assoc, !app_cons_string, !app_nil_string. done.
Qed.

(** ** A concrete shard *)

Module P2pWitness.
Definition node (connected known : Z) : NodeMetadata :=
  MkNodeMetadata (MkNodeMetadataReply None EmptyString EmptyString false 2 EmptyString 0 EmptyString
    false 0 zero_ChainConfig (MkP2PConnectivity connected 0 known)) "n".
Definition nodes : list NodeMetadata := [node 29 100; node 0 0; node 50 75].
Definition pd0 : pager := λ _, None.

Lemma plausible_nodes n : n ∈ nodes → plausible n.
Proof.
  intros Hn. repeat (apply elem_of_cons in Hn as [->|Hn]; [unfold plausible; cbn; unfold is_uint32, two32; lia|]).
  set_solver.
Qed.
End P2pWitness.


Lemma connection_accuracy_witness :
  0 ≤ connection (P2pWitness.node 29 100) ≤ 100 ∧ connection (P2pWitness.node 29 100) = 28.
Proof.
  split; [|vm_compute; reflexivity].
  refine (proj2 (connection_accuracy (P2pWitness.node 29 100) _ _)).
  - apply P2pWitness.plausible_nodes, list_elem_of_here.
  - reflexivity.
Defined.
