(* ===== verification/Beacon.v ===== *)
(** * The beacon sync monitor (beacon-monitor.go)

    [beaconSyncMonitor] is started by the consensus monitor with the height of
    the beacon chain. [getBeaconHeaders] asks every node outside shard 0 for its
    view of the beacon chain over a pool of its own; a node that is [threshold]
    blocks or more behind is looked at again by [checkBeaconSync] after a sleep. *)

From Stdlib Require Import Wf_nat Inclusion.
From S2P Require Import Prelude GoFloat GoFmt GoTime GoJson Rpc Pool Linq Alerts Summary Monitor.

(** ** Fetching the headers *)

(** The requests of the producer goroutine. *)
Definition beacon_requests `{MR : GoRuntime} (shardMap : gmap string Z) : list work :=
  range shardMap ≫= λ '(n, s), if negb (s =? 0) then [job LatestHeadersRPC n] else [].

(** The loop over [data]: [ret] and [success]. A nil pointer is [None]. *)
Definition collect_beacon (data : list reply) : gmap string (option Header) * Z :=
  fold_left (λ '(ret, success) d,
    let ret := <[r_address d := None]> ret in
    match r_oops d with
    | None =>
        (<[r_address d := Some (hp_Beacon (decode_pair (r_result d)))]> ret, success + 1)
    | Some _ => (ret, success)
    end) data (∅, 0).

(** The line at the end of [getBeaconHeaders]. *)
Definition fetched_line (ret : gmap string (option Header)) (success : Z) : action :=
  Stdlog "[getBeaconHeaders] Successfully fetched %d headers, Failed: %d"
    [OInt TInt success; OInt TInt (Z.of_nat (size ret) - success)].

(** [getBeaconHeaders], from the replies received on [data]. *)
Definition getBeaconHeaders (data : list reply) : gmap string (option Header) * list action :=
  let '(ret, success) := collect_beacon data in
  (ret,
   [Stdlog "[getBeaconHeaders] Fetching latest header data" []; fetched_line ret success]).

(** ** Looking for lagging nodes *)

Section monitor.
Context `{MR : GoRuntime}.
Context (beaconBlock interval threshold : Z) (pdServiceKey chain : string).
Context (shardMap : gmap string Z).

(** [beaconBlock > header.Number && beaconBlock-header.Number >= threshold]. *)
Definition behind (h : Header) : bool :=
  (hd_Number h <? beaconBlock) && (threshold <=? sub64 beaconBlock (hd_Number h)).

(** The body of the loop over the headers. *)
Definition beacon_header (acc : gmap Z (gmap Z bool) * list action)
    (e : string * option Header) : gmap Z (gmap Z bool) * list action :=
  let '(shardBeaconMap, acts) := acc in
  let '(ip, header) := e in
  match header with
  | None => (shardBeaconMap, acts)
  | Some h =>
      let shard := default 0 (shardMap !! ip) in
      let blocks := default ∅ (shardBeaconMap !! shard) in
      (<[shard := <[hd_Number h := true]> blocks]> shardBeaconMap,
       if behind h then
         acts ++ [GoCheckBeaconSync (hd_Number h) beaconBlock threshold interval ip
                    pdServiceKey chain]
       else acts)
  end.

(** The log line of a shard. *)
Definition beacon_log (e : Z * gmap Z bool) : list action :=
  let '(shard, blocks) := e in
  if negb (shard =? 0) then
    [Stdlog "[beaconSyncMonitor] Shard %d, Beacon height: %d, Unique beacon heights: %v"
       [OInt TInt shard; OInt TUint64 beaconBlock; OInts TUint64 (sort_desc (range blocks).*1)]]
  else [].

Definition beaconSyncMonitor (data : list reply) : list action :=
  let '(currentBeaconHeaders, acts) := getBeaconHeaders data in
  let '(shardBeaconMap, acts') :=
    fold_left beacon_header (range currentBeaconHeaders)
      (∅, Stdlog "[beaconSyncMonitor] Starting beacon sync check, Beacon Block: %v"
            [OInt TUint64 beaconBlock] :: acts) in
  acts' ++ (range shardBeaconMap ≫= beacon_log).
End monitor.

(** The actions of a header come after those before it. *)
Lemma beacon_header_acts beaconBlock interval threshold key chain shardMap blocks acts e :
  beacon_header beaconBlock interval threshold key chain shardMap (blocks, acts) e
  = let '(blocks', acts') :=
      beacon_header beaconBlock interval threshold key chain shardMap (blocks, []) e in
    (blocks', acts ++ acts').
Proof. destruct e as [ip [h|]]; cbn; [destruct (behind _ _ h)|]; by rewrite ?app_nil_r. Qed.

(** ** The second look *)

Definition beacon_incident (IP chain : string) : string :=
  Sprintf "%s beacon out of sync! - %s" [OStr IP; OStr chain].

Definition beacon_text (IP chain : string) (beaconHeight : Z) (p : HeaderPair) : string :=
  Sprintf beaconSyncMessage
    [OStr IP; OInt TUint64 (hd_Number (hp_Beacon p)); OInt TUint64 beaconHeight;
     OInt TUint32 (hd_ShardID (hp_AuxShard p)); OStr chain].

Definition beacon_sleep (IP : string) (syncTimer : Z) : list action :=
  [Stdlog "[checkBeaconSync] Sleeping %d to check IP %s beacon progress"
     [OInt TUint64 syncTimer; OStr IP];
   Sleep (int64 (Second * int64 syncTimer))].

(** What follows on the answer of the node. *)
Definition beacon_reply (pd : pager) (blockNum beaconHeight threshold : Z)
    (IP pdServiceKey chain : string) (r : string * string * option string) : list action :=
  match r with
  | (_, _, Some _) => [Stdlog "[checkBeaconSync] Error getting Beacon header: %s" [OStr IP]]
  | (result, _, None) =>
      let p := decode_pair result in
      let number := hd_Number (hp_Beacon p) in
      if negb (blockNum <? number) && (threshold <? sub64 beaconHeight number) then
        alert pd "[checkBeaconSync] Sent PagerDuty alert! %s" pdServiceKey
          (beacon_incident IP chain) chain (beacon_text IP chain beaconHeight p)
        ++ [Stdlog "[checkBeaconSync] %s beacon not syncing" [OStr IP]]
      else [Stdlog "[checkBeaconSync] %s beacon sync" [OStr IP]]
  end.

Definition checkBeaconSync (pd : pager) (client : http_client)
    (blockNum beaconHeight threshold syncTimer : Z) (IP pdServiceKey chain : string) :
    list action :=
  beacon_sleep IP syncTimer
  ++ beacon_reply pd blockNum beaconHeight threshold IP pdServiceKey chain
       (request client ("http://" +:+ IP) (request_body LatestHeadersRPC)).

(** ** Which nodes are checked *)

(** What a reply on [data] says of the beacon chain. *)
Definition beacon_view (d : reply) : option Header :=
  match r_oops d with
  | None => Some (hp_Beacon (decode_pair (r_result d)))
  | Some _ => None
  end.

Lemma collect_beacon_fold data :
  (collect_beacon data).1
  = fold_left (λ m '(a, d), <[a := beacon_view d]> m) ((λ d, (r_address d, d)) <$> data)
      (∅ : gmap string (option Header)).
Proof.
  unfold collect_beacon. set (f := λ _, _).
  assert (∀ acc, (fold_left f data acc).1
    = fold_left (λ m '(a, d), <[a := beacon_view d]> m) ((λ d, (r_address d, d)) <$> data) acc.1)
    as H; [|by rewrite H].
  induction data as [|d data IH]; intros [ret success]; [done|].
  cbn [fold_left fmap list_fmap]. rewrite IH.
  replace (f (ret, success) d).1 with (<[r_address d := beacon_view d]> ret); [done|].
  unfold f, beacon_view. destruct (r_oops d); cbn; [done|]. by rewrite insert_insert_eq.
Qed.

Lemma collect_beacon_entries (MR : GoRuntime) data :
  NoDup (r_address <$> data) →
  range (collect_beacon data).1 ≡ₚ (λ d, (r_address d, beacon_view d)) <$> data.
Proof.
  intros Hnd.
  assert ((((λ d, (r_address d, d)) <$> data).*1) = r_address <$> data) as E1
    by (rewrite <-list_fmap_compose; by apply list_fmap_ext).
  apply NoDup_Permutation.
  - apply NoDup_range.
  - apply (NoDup_fmap_1 fst). rewrite <-list_fmap_compose. exact Hnd.
  - intros [a v]. rewrite elem_of_range, collect_beacon_fold.
    rewrite (fold_insert_Some id beacon_view) by (by rewrite E1).
    rewrite lookup_empty, list_elem_of_fmap. split.
    + intros [(a' & d & Hin & -> & ->)|[? _]]; [|done].
      apply list_elem_of_fmap in Hin as (d' & [= -> ->] & Hin). by exists d'.
    + intros (d & [= -> ->] & Hin). left. exists (r_address d), d.
      split; [|done]. apply list_elem_of_fmap. by exists d.
Qed.

(** The order of the replies does not matter. *)
Lemma collect_beacon_eq data :
  collect_beacon data
  = ((collect_beacon data).1, Z.of_nat (length (filter (λ d, r_oops d = None) data))).
Proof.
  unfold collect_beacon. set (f := λ _, _).
  assert (∀ acc, (fold_left f data acc).2
    = acc.2 + Z.of_nat (length (filter (λ d, r_oops d = None) data))) as H.
  { induction data as [|d data IH]; intros [ret success]; [cbn; lia|]. cbn [fold_left].
    rewrite IH, filter_cons. unfold f. destruct (r_oops d); cbn [snd].
    - by rewrite decide_False.
    - rewrite decide_True by done. cbn [length]. lia. }
  specialize (H (∅, 0)). destruct (fold_left _ _ _) as [ret success]. cbn in *. by f_equal.
Qed.

Lemma collect_beacon_lookup data a v :
  NoDup (r_address <$> data) →
  (collect_beacon data).1 !! a = Some v ↔ ∃ d, d ∈ data ∧ r_address d = a ∧ beacon_view d = v.
Proof.
  intros Hnd. rewrite <-(elem_of_range (MR := range_ref)), (collect_beacon_entries range_ref _ Hnd).
  rewrite list_elem_of_fmap. naive_solver.
Qed.

Lemma beaconSyncMonitor_perm `{MR : GoRuntime} beaconBlock interval threshold key chain shardMap data data' :
  NoDup (r_address <$> data) → data ≡ₚ data' →
  beaconSyncMonitor beaconBlock interval threshold key chain shardMap data
  = beaconSyncMonitor beaconBlock interval threshold key chain shardMap data'.
Proof.
  intros Hnd Hp. assert (collect_beacon data = collect_beacon data') as E;
    [|unfold beaconSyncMonitor, getBeaconHeaders; by rewrite E].
  rewrite (collect_beacon_eq data), (collect_beacon_eq data'). f_equal; [|by rewrite Hp].
  apply map_eq. intros a. apply option_eq. intros v. rewrite !collect_beacon_lookup by (by rewrite <-?Hp).
  by setoid_rewrite Hp.
Qed.

Definition beacon_check (a : action) : option action :=
  match a with GoCheckBeaconSync _ _ _ _ _ _ _ => Some a | _ => None end.

Section checks.
Context `{MR : GoRuntime}.
Context (beaconBlock interval threshold : Z) (key chain : string) (shardMap : gmap string Z).

(** The check a reply leads to, in unbounded arithmetic. *)
Definition lag_check (d : reply) : option action :=
  match beacon_view d with
  | Some h =>
      if decide (hd_Number h < beaconBlock ∧ threshold ≤ beaconBlock - hd_Number h) then
        Some (GoCheckBeaconSync (hd_Number h) beaconBlock threshold interval (r_address d) key chain)
      else None
  | None => None
  end.

Definition entry_check (e : string * option Header) : option action :=
  h ← e.2;
  if behind beaconBlock threshold h then
    Some (GoCheckBeaconSync (hd_Number h) beaconBlock threshold interval e.1 key chain)
  else None.

Lemma beacon_header_checks l acc :
  omap beacon_check (fold_left (beacon_header beaconBlock interval threshold key chain shardMap)
    l acc).2 = omap beacon_check acc.2 ++ omap entry_check l.
Proof.
  revert acc. induction l as [|[ip [h|]] l IH]; intros [m acts]; cbn [fold_left].
  - by rewrite app_nil_r.
  - rewrite IH. unfold beacon_header. cbn [snd omap list_omap entry_check].
    unfold entry_check at 2. cbn. destruct (behind beaconBlock threshold h); [|done].
    by rewrite omap_app, <-app_assoc.
  - rewrite IH. done.
Qed.

Lemma beacon_log_checks l : omap beacon_check (l ≫= beacon_log beaconBlock) = [].
Proof.
  rewrite omap_bind_list. induction l as [|[shard blocks] l IH]; [done|]. cbn [mbind list_bind].
  rewrite IH, app_nil_r. unfold beacon_log. by destruct (negb (shard =? 0)).
Qed.

Lemma behind_lag h :
  is_uint64 beaconBlock → is_uint64 (hd_Number h) →
  behind beaconBlock threshold h = true ↔
  hd_Number h < beaconBlock ∧ threshold ≤ beaconBlock - hd_Number h.
Proof.
  intros Hb Hh. unfold behind. rewrite andb_true_iff, Z.ltb_lt, Z.leb_le. split.
  - intros [H1 H2]. rewrite sub64_no_wrap in H2 by (done || lia). done.
  - intros [H1 H2]. rewrite sub64_no_wrap by (done || lia). done.
Qed.

Lemma beaconSyncMonitor_checks data :
  is_uint64 beaconBlock → NoDup (r_address <$> data) →
  omap beacon_check (beaconSyncMonitor beaconBlock interval threshold key chain shardMap data)
  ≡ₚ omap lag_check data.
Proof.
  intros Hb Hnd. unfold beaconSyncMonitor, getBeaconHeaders.
  pose proof (collect_beacon_entries MR data Hnd) as Hent.
  destruct (collect_beacon data) as [ret success]. cbn [fst] in Hent.
  set (acc := (∅, _ :: _)). pose proof (beacon_header_checks (range ret) acc) as Hf.
  destruct (fold_left _ (range ret) acc) as [m acts]. cbn [snd] in Hf.
  rewrite omap_app, Hf, beacon_log_checks, app_nil_r. cbn [omap list_omap acc snd beacon_check fetched_line app].
  rewrite Hent. apply eq_Permutation. clear -Hb. induction data as [|d data IH]; [done|].
  cbn [fmap list_fmap omap list_omap].
  assert (entry_check (r_address d, beacon_view d) = lag_check d) as ->.
  { unfold entry_check, lag_check, beacon_view. cbn. destruct (r_oops d); [done|]. cbn.
    set (h := hp_Beacon _).
    assert (is_uint64 (hd_Number h)) as Hh by (apply (decode_pair_wf (r_result d))).
    pose proof (behind_lag h Hb Hh). case_decide; destruct (behind _ _ h); naive_solver. }
  by destruct (lag_check d); rewrite IH.
Qed.
End checks.

(** ** The pool of [getBeaconHeaders]

    The channels [requests] and [data] are unbuffered, so a send happens together
    with its receive. The producer closes [requests] after its last send; each
    worker that finds [requests] closed decrements the counter [workers], and
    the one that reaches zero closes [data], which ends the caller's loop. *)

Definition int32 (z : Z) : Z := (z + 2147483648) mod two32 - 2147483648.

Inductive fetcher : Type :=
  | Receiving                        (** in [range requests] *)
  | Holding (j : work) (d : reply)   (** in [data <- result] *)
  | Returned.

Record fetch : Type := MkFetch {
  f_todo : list work;           (** what the producer has not sent *)
  f_requests_open : bool;
  f_fetchers : list fetcher;
  f_workers : Z;                (** the atomic counter *)
  f_data_open : bool;
  f_received : list reply;      (** what the caller's loop has received *)
}.

Inductive fetch_step : fetch → fetch → Prop :=
  | fetch_request i j d todo fs c rs :
      (** [requests <- work] to worker [i], which performs the request *)
      fs !! i = Some Receiving → answers j d →
      fetch_step (MkFetch (j :: todo) true fs c true rs)
                 (MkFetch todo true (<[i := Holding j d]> fs) c true rs)
  | fetch_close fs c b rs :
      (** [defer close(requests)] *)
      fetch_step (MkFetch [] true fs c b rs) (MkFetch [] false fs c b rs)
  | fetch_data i j d todo o fs c rs :
      (** [data <- result] to the caller *)
      fs !! i = Some (Holding j d) →
      fetch_step (MkFetch todo o fs c true rs)
                 (MkFetch todo o (<[i := Receiving]> fs) c true (rs ++ [d]))
  | fetch_return i todo fs c b rs :
      (** [atomic.AddInt32(&workers, -1) == 0] and [close(data)] *)
      fs !! i = Some Receiving →
      fetch_step (MkFetch todo false fs c b rs)
                 (MkFetch todo false (<[i := Returned]> fs) (int32 (c - 1))
                    (b && negb (int32 (c - 1) =? 0)) rs).

Inductive fetch_run (s : fetch) : fetch → Prop :=
  | fetch_run_refl : fetch_run s s
  | fetch_run_step s1 s2 : fetch_run s s1 → fetch_step s1 s2 → fetch_run s s2.

Definition initial_fetch (js : list work) (poolSize : Z) : fetch :=
  MkFetch js true (replicate (Z.to_nat poolSize) Receiving) (int32 poolSize) true [].

Definition held_job (f : fetcher) : option work :=
  match f with Holding j _ => Some j | _ => None end.
Definition active (f : fetcher) : bool :=
  match f with Returned => false | _ => true end.
Definition actives (fs : list fetcher) : nat := sum_list_with (λ f, if active f then 1 else 0)%nat fs.

(** Every job is to be sent, held or answered; the counter is the number of
    workers that have not returned; [data] is open while there is one. *)
Definition fetch_ok (js : list work) (s : fetch) : Prop :=
  (∃ fin, js ≡ₚ f_todo s ++ omap held_job (f_fetchers s) ++ fin ∧ served fin (f_received s))
  ∧ (∀ j d, Holding j d ∈ f_fetchers s → answers j d)
  ∧ f_workers s = Z.of_nat (actives (f_fetchers s))
  ∧ f_workers s < 2147483648
  ∧ f_data_open s = negb (f_workers s =? 0)
  ∧ (0 < length (f_fetchers s))%nat
  ∧ (f_requests_open s = false → f_todo s = [])
  ∧ (Returned ∈ f_fetchers s → f_requests_open s = false).

Lemma int32_id z : -2147483648 ≤ z < 2147483648 → int32 z = z.
Proof. unfold int32, two32. intros. zmod. Qed.

Lemma actives_insert fs i f f' :
  fs !! i = Some f →
  (actives (<[i := f']> fs) + (if active f then 1 else 0)
   = actives fs + (if active f' then 1 else 0))%nat.
Proof.
  intros Hi. exact (sum_insert (λ f, if active f then 1 else 0)%nat fs i f f' Hi).
Qed.

Lemma fetch_step_ok js s s' : fetch_ok js s → fetch_step s s' → fetch_ok js s'.
Proof.
  intros ((fin & Hjs & Hs) & Hh & Hc & Hlt & Hd & Hn & Ho & Hr) Hstep.
  destruct Hstep as [i j d todo fs c rs Hi Ha|fs c b rs|i j d todo o fs c rs Hi|i todo fs c b rs Hi];
    unfold fetch_ok in *; cbn [f_todo f_requests_open f_fetchers f_workers f_data_open f_received] in *.
  - destruct (omap_insert_lookup held_job fs i Receiving Hi) as (rest & H1 & H2). cbn in H1.
    pose proof (actives_insert fs i Receiving (Holding j d) Hi) as Hact. cbn [active] in Hact.
    split_and!; rewrite ?length_insert; try done; [| |lia|].
    + exists fin. split; [|done]. rewrite H2, Hjs, H1. cbn. solve_Permutation.
    + intros j' d' [[= -> ->]|Hin]%elem_of_list_insert; auto.
    + intros [?|Hin]%elem_of_list_insert; [done|]. by apply Hr.
  - split_and!; try done. by exists fin.
  - destruct (omap_insert_lookup held_job fs i _ Hi) as (rest & H1 & H2). cbn in H1.
    pose proof (actives_insert fs i _ Receiving Hi) as Hact. cbn [active] in Hact.
    split_and!; rewrite ?length_insert; try done; [| |lia|].
    + exists (j :: fin). split; [rewrite H2, Hjs, H1; cbn; solve_Permutation|].
      apply served_cons; [|done]. apply Hh. by eapply list_elem_of_lookup_2.
    + intros j' d' [?|Hin]%elem_of_list_insert; [done|auto].
    + intros [?|Hin]%elem_of_list_insert; [done|]. by apply Hr.
  - destruct (omap_insert_lookup held_job fs i _ Hi) as (rest & H1 & H2). cbn in H1.
    pose proof (actives_insert fs i _ Returned Hi) as Hact. cbn [active] in Hact.
    assert (int32 (c - 1) = c - 1) as Ei by (apply int32_id; lia).
    split_and!; rewrite ?length_insert; try done; rewrite ?Ei; [| |lia|lia|].
    + exists fin. split; [|done]. rewrite H2, Hjs, H1. cbn. done.
    + intros j' d' [?|Hin]%elem_of_list_insert; [done|auto].
    + rewrite Hd. destruct (Z.eqb_spec c 0); [lia|done].
Qed.

Lemma actives_replicate n : actives (replicate n Receiving) = n.
Proof. unfold actives. induction n as [|n IH]; [done|]. cbn. by rewrite IH. Qed.

Lemma initial_fetch_ok js poolSize :
  0 < poolSize < 2147483648 → fetch_ok js (initial_fetch js poolSize).
Proof.
  intros Hp. unfold fetch_ok, initial_fetch. cbn [f_todo f_requests_open f_fetchers f_workers
    f_data_open f_received]. rewrite int32_id, actives_replicate by lia.
  split_and!; try done; try lia.
  - exists []. split; [|apply served_nil]. rewrite app_nil_r.
    assert (omap held_job (replicate (Z.to_nat poolSize) Receiving) = []) as ->
      by (induction (Z.to_nat poolSize) as [|n IH]; [done|exact IH]). by rewrite app_nil_r.
  - intros j d [? _]%elem_of_replicate. done.
  - rewrite length_replicate. lia.
  - intros [? _]%elem_of_replicate. done.
Qed.

Lemma fetch_run_ok js s s' : fetch_ok js s → fetch_run s s' → fetch_ok js s'.
Proof. intros Hs. induction 1; [done|]. by eapply fetch_step_ok. Qed.

Lemma fetch_closed js s : fetch_ok js s → f_data_open s = false → served js (f_received s).
Proof.
  intros ((fin & Hjs & Hs) & _ & Hc & _ & Hd & Hn & Ho & Hr) Hcl. rewrite Hcl in Hd.
  destruct (Z.eqb_spec (f_workers s) 0) as [H0|]; [|done]. rewrite H0 in Hc.
  assert (Forall (λ f, f = Returned) (f_fetchers s)) as Hall.
  { apply Forall_forall. intros f [i Hi]%list_elem_of_lookup.
    pose proof (actives_insert _ _ _ Returned Hi) as Hact. destruct f; [| |done]; cbn in Hact; lia. }
  assert (f_todo s = [] ∧ omap held_job (f_fetchers s) = []) as [E1 E2].
  { split; [|clear -Hall; induction Hall as [|? fs -> _ IH]; [done|exact IH]]. apply Ho, Hr.
    destruct (f_fetchers s) as [|f fs]; [cbn in Hn; lia|].
    apply Forall_cons in Hall as [-> _]. set_solver. }
  rewrite E1, E2 in Hjs. by eapply served_perm.
Qed.

Lemma fetch_progress js s : fetch_ok js s → f_data_open s = true → ∃ s', fetch_step s s'.
Proof.
  intros ((fin & Hjs & Hs) & _ & Hc & _ & Hd & Hn & Ho & Hr) Hopen. rewrite Hopen in Hd.
  destruct s as [todo o fs c b rs]. cbn [f_todo f_requests_open f_fetchers f_workers f_data_open
    f_received] in *. subst b.
  destruct (Z.eqb_spec c 0) as [|Hc0]; [done|].
  assert (∃ i f, fs !! i = Some f ∧ active f = true) as (i & f & Hi & Hf).
  { clear -Hc Hc0. subst c. induction fs as [|f fs IH]; [done|].
    destruct (active f) eqn:Hf; [by exists 0%nat, f|].
    destruct IH as (i & f' & Hi & Hf'); [|by exists (S i), f'].
    unfold actives in *. cbn in Hc0. by rewrite Hf in Hc0. }
  destruct f as [|j d|]; [|eexists; by eapply fetch_data|done].
  destruct o; [|eexists; by eapply fetch_return].
  destruct todo as [|j todo]; [eexists; apply fetch_close|].
  eexists. eapply (fetch_request i j (do_work (λ _ _, inl EmptyString) j)); [done|by eexists].
Qed.

Definition fetcher_work (f : fetcher) : nat :=
  match f with Receiving => 1 | Holding _ _ => 2 | Returned => 0 end.
Definition fetch_work (s : fetch) : nat :=
  3 * length (f_todo s) + (if f_requests_open s then 1 else 0)
  + sum_list_with fetcher_work (f_fetchers s).

Lemma fetch_step_work s s' : fetch_step s s' → (fetch_work s' < fetch_work s)%nat.
Proof.
  destruct 1 as [i j d todo fs c rs Hi _|fs c b rs|i j d todo o fs c rs Hi|i todo fs c b rs Hi];
    unfold fetch_work; cbn [f_todo f_requests_open f_fetchers length]; [|lia| |].
  - pose proof (sum_insert fetcher_work fs i _ (Holding j d) Hi) as H. cbn [fetcher_work] in H. lia.
  - pose proof (sum_insert fetcher_work fs i _ Receiving Hi) as H. cbn [fetcher_work] in H. lia.
  - pose proof (sum_insert fetcher_work fs i _ Returned Hi) as H. cbn [fetcher_work] in H. lia.
Qed.

(** *** The requests are a round over the nodes outside shard 0 *)

Lemma beacon_requests_nodes `{MR : GoRuntime} shardMap :
  beacon_requests shardMap
  = job LatestHeadersRPC <$> (filter (λ p, p.2 ≠ 0) (range shardMap)).*1.
Proof.
  unfold beacon_requests. induction (range shardMap) as [|[k v] l IH]; [done|].
  cbn [mbind list_bind]. rewrite filter_cons. cbn [snd].
  destruct (Z.eqb_spec v 0) as [Hv|Hv]; cbn [negb].
  - rewrite decide_False by auto. exact IH.
  - rewrite decide_True by done. cbn. by rewrite <-IH.
Qed.

Lemma beacon_requests_addresses (MR : GoRuntime) shardMap :
  NoDup (w_address <$> beacon_requests shardMap).
Proof.
  rewrite beacon_requests_nodes, <-list_fmap_compose. cbn. rewrite list_fmap_id.
  apply NoDup_fmap_filter, NoDup_range_keys.
Qed.

(** Without workers the fetch never ends: nothing is received and the channel is
    never closed. *)
Lemma fetch_stuck js poolSize s :
  poolSize ≤ 0 → fetch_run (initial_fetch js poolSize) s →
  f_data_open s = true ∧ f_received s = [].
Proof.
  intros Hp Hrun.
  assert (f_fetchers s = [] ∧ f_data_open s = true ∧ f_received s = []) as (_ & ? & ?); [|done].
  induction Hrun as [|s1 s2 _ (E1 & E2 & E3) Hstep].
  - cbn. by rewrite Z2Nat.nonpos.
  - by destruct Hstep; cbn in *; subst.
Qed.

(** C29: when fetching the beacon headers ends. For fewer than 2^31 workers,
    whatever the schedule, [getBeaconHeaders] cannot run for ever. With at least
    one worker it never gets stuck before its reply channel is closed, and once the
    channel is closed it has received exactly one reply per request. With a pool
    size of zero or less, it waits for ever with no reply received; the sanity
    check refuses zero only. *)
Theorem beacon_fetch js poolSize s :
  poolSize < 2147483648 → fetch_run (initial_fetch js poolSize) s →
  Acc (λ s2 s1, fetch_step s1 s2) s
  ∧ (0 < poolSize → (f_data_open s = false → served js (f_received s))
                    ∧ (f_data_open s = true → ∃ s', fetch_step s s'))
  ∧ (poolSize ≤ 0 → f_data_open s = true ∧ f_received s = []).
Proof.
  intros Hp Hrun. split; [|split].
  - refine (wf_incl _ _ _ _ (well_founded_ltof _ fetch_work) s). intros s2 s1. apply fetch_step_work.
  - intros H0. pose proof (fetch_run_ok _ _ _ (initial_fetch_ok js poolSize ltac:(lia)) Hrun) as Hok.
    split; [by apply fetch_closed|by eapply fetch_progress].
  - intros H0. by eapply fetch_stuck.
Qed.

(** C30: the right nodes are looked at again. When the replies of all nodes
    outside shard 0 are in, [beaconSyncMonitor] starts one check for each node
    whose beacon chain is behind and at least [threshold] blocks behind the
    beacon height, and for no other; the unsigned subtraction does not wrap. *)
Theorem beacon_checks (MR MR1 : GoRuntime) beaconBlock interval threshold key chain shardMap data :
  is_uint64 beaconBlock → served (beacon_requests (MR := MR1) shardMap) data →
  omap beacon_check
    (beaconSyncMonitor (MR := MR) beaconBlock interval threshold key chain shardMap data)
  ≡ₚ omap (lag_check beaconBlock interval threshold key chain) data.
Proof.
  intros Hb Hs. apply beaconSyncMonitor_checks; [done|].
  rewrite (served_addresses _ _ Hs). apply beacon_requests_addresses.
Qed.

(** The second look pages for a node that is behind, did not advance, and
    is more than [threshold] blocks behind; a node that does not answer is not
    paged for. The subtraction does not wrap, because the check is only started
    for a node behind the beacon height. *)
Theorem checkBeaconSync_spec pd client blockNum beaconHeight threshold syncTimer IP key chain :
  is_uint64 beaconHeight → blockNum < beaconHeight →
  pages (checkBeaconSync pd client blockNum beaconHeight threshold syncTimer IP key chain) ≠ []
  ↔ ∃ res, http_ok client ("http://" +:+ IP) (request_body LatestHeadersRPC) res
      ∧ hd_Number (hp_Beacon (decode_pair res)) ≤ blockNum
      ∧ threshold < beaconHeight - hd_Number (hp_Beacon (decode_pair res)).
Proof.
  intros Hb Hlt. unfold checkBeaconSync, beacon_sleep, beacon_reply. rewrite pages_app. cbn [pages omap list_omap page_of app].
  destruct (request client ("http://" +:+ IP) (request_body LatestHeadersRPC))
    as [[result payload] [e|]] eqn:E.
  - split; [done|]. intros (res & Hok & _).
    rewrite (proj2 (request_ok_iff _ _ _ res EmptyString) (conj Hok eq_refl)) in E. congruence.
  - apply request_ok_iff in E as [Hok ->].
    set (n := hd_Number (hp_Beacon (decode_pair result))).
    assert (is_uint64 n) as Hn by (apply (decode_pair_wf result)).
    assert (∀ res, http_ok client ("http://" +:+ IP) (request_body LatestHeadersRPC) res →
      res = result) as Huniq.
    { intros res [E1 _]. destruct Hok as [E2 _]. rewrite E1 in E2. by simplify_eq. }
    destruct (Z.ltb_spec blockNum n); cbn [negb andb].
    { split; [done|]. intros (res & ->%Huniq & Hle & _). lia. }
    rewrite sub64_no_wrap by (done || lia).
    destruct (Z.ltb_spec threshold (beaconHeight - n)).
    + rewrite pages_app, pages_alert. split; [|done]. intros _. by exists result.
    + split; [done|]. intros (res & ->%Huniq & _ & Hth). lia.
Qed.

(** The two looks disagree at the threshold. A node that is exactly
    [threshold] blocks behind and does not advance is looked at again every time,
    and never paged for: the first test is [>=], the second [>]. *)
Theorem beacon_threshold_gap pd client h threshold syncTimer IP key chain :
  let beaconHeight := hd_Number h + threshold in
  0 < threshold → is_uint64 (hd_Number h) → is_uint64 beaconHeight →
  (∀ res, http_ok client ("http://" +:+ IP) (request_body LatestHeadersRPC) res →
     hd_Number (hp_Beacon (decode_pair res)) = hd_Number h) →
  behind beaconHeight threshold h = true
  ∧ pages (checkBeaconSync pd client (hd_Number h) beaconHeight threshold syncTimer IP key chain)
    = [].
Proof.
  intros beaconHeight Ht Hn Hb Hsame. split; [apply behind_lag; [done|done|lia]|].
  unfold checkBeaconSync, beacon_sleep, beacon_reply. rewrite pages_app. cbn [pages omap list_omap page_of app].
  destruct (request client ("http://" +:+ IP) (request_body LatestHeadersRPC))
    as [[result payload] [e|]] eqn:E; [done|].
  apply request_ok_iff in E as [Hok ->]. rewrite (Hsame result Hok).
  rewrite sub64_no_wrap by (done || lia).
  destruct (Z.ltb_spec (hd_Number h) (hd_Number h)); [lia|].
  destruct (Z.ltb_spec threshold (beaconHeight - hd_Number h)); [lia|done].
Qed.

(** ** Concrete runs *)

Module BeaconWitness.
Definition body (number : string) : string :=
  print (JObj [("result", JObj [("beacon-chain-header",
    JObj [("block-number", JNum number)])])])%string.
Definition client (number : string) : http_client := λ _ _, inr (200, body number).
Definition shardMap : gmap string Z := {["n"%string := 1]}.
Definition j : work := job LatestHeadersRPC "n".
Definition d : reply := do_work (client "50") j.
Definition pd0 : pager := λ _, None.

Definition s0 : fetch := initial_fetch [j] 1.
Definition s1 : fetch := MkFetch [] true [Holding j d] 1 true [].
Definition s2 : fetch := MkFetch [] false [Holding j d] 1 true [].
Definition s3 : fetch := MkFetch [] false [Receiving] 1 true [d].
Definition s4 : fetch := MkFetch [] false [Returned] 0 false [d].

Lemma run4 : fetch_run s0 s4.
Proof.
  apply (fetch_run_step _ s3); [|exact (fetch_return 0 [] [Receiving] 1 true [d] eq_refl)].
  apply (fetch_run_step _ s2); [|exact (fetch_data 0 j d [] false [Holding j d] 1 [] eq_refl)].
  apply (fetch_run_step _ s1); [|exact (fetch_close [Holding j d] 1 true [])].
  apply (fetch_run_step _ s0); [apply fetch_run_refl|].
  apply (fetch_request 0 j d [] [Receiving] 1 []); [reflexivity|].
  exists (client "50"). reflexivity.
Qed.

Lemma served_d : served [j] [d].
Proof.
  exists [d]. split; [|reflexivity]. constructor; [exists (client "50"); reflexivity|constructor].
Qed.
End BeaconWitness.

Lemma beacon_fetch_witness :
  served [BeaconWitness.j] (f_received BeaconWitness.s4)
  ∧ f_data_open (initial_fetch [BeaconWitness.j] (-1)) = true.
Proof.
  split.
  - refine (proj1 (proj1 (proj2 (beacon_fetch [BeaconWitness.j] 1 BeaconWitness.s4 _
      BeaconWitness.run4)) _) eq_refl); lia.
  - refine (proj1 (proj2 (proj2 (beacon_fetch [BeaconWitness.j] (-1) _ _ (fetch_run_refl _))) _)); lia.
Defined.

Lemma beacon_checks_witness :
  omap beacon_check (beaconSyncMonitor (MR := range_ref) 90 30 40 "key" "testnet"
    BeaconWitness.shardMap [BeaconWitness.d])
  ≡ₚ omap (lag_check 90 30 40 "key" "testnet") [BeaconWitness.d].
Proof.
  refine (beacon_checks range_ref range_ref 90 30 40 "key" "testnet" BeaconWitness.shardMap
    [BeaconWitness.d] _ _).
  - split; [lia|reflexivity].
  - replace (beacon_requests (MR := range_ref) BeaconWitness.shardMap) with [BeaconWitness.j]
      by (vm_compute; reflexivity).
    exact BeaconWitness.served_d.
Defined.

Lemma checkBeaconSync_spec_witness :
  pages (checkBeaconSync BeaconWitness.pd0 (BeaconWitness.client "50") 50 100 40 30 "n" "key"
    "testnet") ≠ [].
Proof.
  refine (proj2 (checkBeaconSync_spec BeaconWitness.pd0 (BeaconWitness.client "50") 50 100 40 30
    "n" "key" "testnet" _ _) _).
  - split; [lia|reflexivity].
  - lia.
  - exists (BeaconWitness.body "50"). split; [split; [reflexivity|vm_compute; discriminate]|].
    replace (hd_Number (hp_Beacon (decode_pair (BeaconWitness.body "50")))) with 50
      by (vm_compute; reflexivity).
    split; lia.
Defined.

Lemma beacon_threshold_gap_witness :
  pages (checkBeaconSync BeaconWitness.pd0 (BeaconWitness.client "50") 50 (50 + 40) 40 30 "n" "key"
    "testnet") = [].
Proof.
  refine (proj2 (beacon_threshold_gap BeaconWitness.pd0 (BeaconWitness.client "50")
    (MkHeader EmptyString 50 0 0 0) 40 30 "n" "key" "testnet" _ _ _ _)).
  - lia.
  - split; [cbn; lia|reflexivity].
  - split; [cbn; lia|reflexivity].
  - intros res [E _]. injection E as <-. vm_compute. reflexivity.
Defined.
