(* ===== verification/Config.v ===== *)
(** * Configuration (root.go)

    The YAML parameters [watchParams], their [sanityCheck], and
    [newInstructions], which reads the node lists of the shards. The file system
    and the YAML library are parameters. *)

From S2P Require Import Prelude GoFmt GoJson.

(** ** Strings and paths of the standard library *)

Definition slash : ascii := "/"%char.
Definition dot : ascii := "."%char.

Fixpoint has_slash (s : string) : bool :=
  match s with
  | EmptyString => false
  | String c r => bool_decide (c = slash) || has_slash r
  end.

(** The suffix of [s] that starts at its last dot, when no slash follows. *)
Fixpoint ext_from (s : string) : option string :=
  match s with
  | EmptyString => None
  | String c r =>
      match ext_from r with
      | Some e => Some e
      | None => if bool_decide (c = dot) && negb (has_slash r) then Some s else None
      end
  end.

(** [path.Ext]. *)
Definition Ext (s : string) : string := default EmptyString (ext_from s).

(** [strings.TrimSuffix]. *)
Definition TrimSuffix (s suffix : string) : string :=
  let n := String.length s in
  let k := String.length suffix in
  if (k <=? n)%nat && bool_decide (String.substring (n - k) k s = suffix)
  then String.substring 0 (n - k) s else s.

Fixpoint strip_slashes (s : string) : string :=
  match s with
  | EmptyString => EmptyString
  | String c r =>
      match strip_slashes r with
      | EmptyString => if bool_decide (c = slash) then EmptyString else String c EmptyString
      | r' => String c r'
      end
  end.

Fixpoint after_slash (s : string) : string :=
  match s with
  | EmptyString => EmptyString
  | String c r =>
      if has_slash r then after_slash r else if bool_decide (c = slash) then r else s
  end.

(** [path.Base]. *)
Definition Base (s : string) : string :=
  if bool_decide (s = EmptyString) then "."
  else
    let b := after_slash (strip_slashes s) in
    if bool_decide (b = EmptyString) then "/" else b.

Fixpoint last_byte (s : string) : option ascii :=
  match s with
  | EmptyString => None
  | String c EmptyString => Some c
  | String _ r => last_byte r
  end.

(** [strconv.Atoi(string(b))] of one byte. *)
Definition Atoi_byte (c : ascii) : option Z := if is_digit c then Some (ord c - 48) else None.

(** The lines [bufio.Scanner] yields: cut at newlines, one trailing carriage
    return dropped, no line after a final newline. *)
Definition newline : ascii := chr 10.
Definition carriage : ascii := chr 13.

Fixpoint raw_lines (s : string) : list string :=
  match s with
  | EmptyString => []
  | String c r =>
      if bool_decide (c = newline) then EmptyString :: raw_lines r
      else match raw_lines r with
           | [] => [String c EmptyString]
           | l :: ls =>
               (** [r] starts a line of its own only after a newline *)
               String c l :: ls
           end
  end.

Fixpoint drop_cr (s : string) : string :=
  match s with
  | EmptyString => EmptyString
  | String c EmptyString => if bool_decide (c = carriage) then EmptyString else s
  | String c r => String c (drop_cr r)
  end.

(** The tokens of a scanner and its error: a line of 64 KiB or more stops it, as
    does a read error, here after the content read so far. *)
Definition MaxScanTokenSize : Z := 65536.

Fixpoint scan_lines (ls : list string) (read_err : option string) : list string * option string :=
  match ls with
  | [] => ([], read_err)
  | l :: ls =>
      if MaxScanTokenSize <=? Z.of_nat (String.length l) then
        ([], Some "bufio.Scanner: token too long"%string)
      else let '(ts, err) := scan_lines ls read_err in (drop_cr l :: ts, err)
  end.

(** ** Parameters (the nested structs flattened) *)

Record watchParams : Type := MkWatchParams {
  wp_EventServiceKey : string;
  wp_TargetChain : string;
  wp_RPCPort : Z;
  wp_Inspect_BlockHeader : Z;
  wp_Inspect_NodeMetadata : Z;
  wp_Inspect_CxPending : Z;
  wp_Inspect_CrossLink : Z;
  wp_WorkerPoolSize : Z;
  wp_HTTPTimeout : Z;
  wp_Port : Z;
  wp_Consensus_Interval : Z;
  wp_Consensus_Warning : Z;
  wp_CxPending_Warning : Z;
  wp_CrossLink_Warning : Z;
  wp_ShardHeight_Warning : Z;
  wp_Connectivity_Warning : Z;
  wp_MachineIPList : list string;
}.

Record committee : Type := MkCommittee { c_file : string; c_members : list string }.

Record instruction : Type := MkInstruction {
  i_params : watchParams;
  i_superCommittee : gmap Z committee;
}.

(** The file system and the YAML library as the code uses them: [os.Stat] says
    whether a path does not exist, [os.Open] gives the content and the read
    error, if any, at its end. *)
Record system : Type := MkSystem {
  ReadFile : string → string + string;
  UnmarshalStrict : string → string + watchParams;
  NotExist : string → bool;
  Open : string → option (string * option string);
}.

(** The fields [sanityCheck] wants to be non-zero, with the message for each. *)
Definition required (w : watchParams) : list (Z * string) :=
  [(wp_RPCPort w, "Missing public-rpc under network-config in yaml config");
   (wp_Inspect_BlockHeader w, "Missing block-header under inspect-schedule in yaml config");
   (wp_Inspect_NodeMetadata w, "Missing node-metadata under inspect-schedule in yaml config");
   (wp_Inspect_CxPending w, "Missing cx-pending under inspect-schedule in yaml config");
   (wp_Inspect_CrossLink w, "Missing cross-link under inspect-schedule in yaml config");
   (wp_WorkerPoolSize w, "Missing num-workers under performance in yaml config");
   (wp_HTTPTimeout w, "Missing http-timeout under performance in yaml config");
   (wp_Port w, "Missing port under http-reporter in yaml config");
   (wp_Consensus_Interval w,
    "Missing warning under shard-health-reporting, interval in yaml config");
   (wp_Consensus_Warning w,
    "Missing warning under shard-health-reporting, consensus in yaml config");
   (wp_CxPending_Warning w,
    "Missing pending-limit under shard-health-reporting, cx-pending in yaml config");
   (wp_CrossLink_Warning w,
    "Missing warning under shard-health-reporting, cross-link in yaml config");
   (wp_ShardHeight_Warning w,
    "Missing tolerance under shard-health-reporting, shard-height in yaml config");
   (wp_Connectivity_Warning w,
    "Missing tolerance under shard-health-reporting, connectivity in yaml config")]%string.

Definition sanity_errors (sys : system) (w : watchParams) : list string :=
  (required w ≫= λ '(v, msg), if v =? 0 then [msg] else [])
  ++ (wp_MachineIPList w ≫= λ f,
        if NotExist sys f then [Sprintf "File not found: %s" [OStr f]] else []).

Definition sanityCheck (sys : system) (w : watchParams) : option string :=
  match sanity_errors sys w with
  | [] => None
  | errList => Some (join (String newline EmptyString) errList)
  end.

(** ** Instructions *)

Inductive config_error : Type :=
  | ReadError (e : string)
  | YamlError (e : string)
  | SanityError (e : string)
  | BadShard (file : string)     (** [strconv.Atoi] fails *)
  | ScanError (e : string)
  | EmptyNodeList
  | DuplicateIPs (msg : string).

(** The shard of a file: the last byte of its base name without extension. *)
Definition file_shard (file : string) : option Z :=
  c ← last_byte (Base (TrimSuffix file (Ext file)));
  Atoi_byte c.

(** The loop over the files: the committees, or how the function returns early.
    A file that cannot be opened gives the pair [nil, nil]. *)
Fixpoint read_committees (sys : system) (port : Z) (files : list string)
    (byShard : gmap Z committee) : gmap Z committee + option config_error :=
  match files with
  | [] => inl byShard
  | file :: files =>
      match file_shard file with
      | None => inr (Some (BadShard file))
      | Some id =>
          match Open sys file with
          | None => inr None
          | Some (content, read_err) =>
              match scan_lines (raw_lines content) read_err with
              | (_, Some e) => inr (Some (ScanError e))
              | (lines, None) =>
                  let ipList := (λ l, l +:+ ":" +:+ Itoa port) <$> lines in
                  read_committees sys port files (<[id := MkCommittee file ipList]> byShard)
              end
          end
      end
  end.

(** The loops that look for duplicates: [dups] and [nodeList]. *)
Definition node_step (i : Z) (acc : list string * gmap string string) (m : string) :
    list string * gmap string string :=
  let '(dups, nodeList) := acc in
  match nodeList !! m with
  | Some other => (dups ++ [Itoa i +:+ ": " +:+ m; other +:+ ": " +:+ m], nodeList)
  | None => (dups, <[m := Itoa i]> nodeList)
  end.

Definition find_dups `{MR : GoRuntime} (byShard : gmap Z committee) :
    list string * gmap string string :=
  fold_left (λ acc '(i, s), fold_left (node_step i) (c_members s) acc) (range byShard) ([], ∅).

(** [newInstructions]: the pointer and the error it returns. *)
Definition newInstructions `{MR : GoRuntime} (sys : system) (yamlPath : string) :
    option instruction * option config_error :=
  match ReadFile sys yamlPath with
  | inl e => (None, Some (ReadError e))
  | inr rawYAML =>
      match UnmarshalStrict sys rawYAML with
      | inl e => (None, Some (YamlError e))
      | inr t =>
          match sanityCheck sys t with
          | Some e => (None, Some (SanityError e))
          | None =>
              match read_committees sys (wp_RPCPort t) (wp_MachineIPList t) ∅ with
              | inr e => (None, e)
              | inl byShard =>
                  let '(dups, nodeList) := find_dups byShard in
                  if (size nodeList =? 0)%nat then (None, Some EmptyNodeList)
                  else match dups with
                  | [] => (Some (MkInstruction t byShard), None)
                  | _ => (None, Some (DuplicateIPs
                           ("Duplicate IPs detected." +:+ String newline
                              (join (String newline EmptyString) dups))))
                  end
              end
          end
      end
  end.

(** ** The sanity check *)

Lemma bind_nil_iff {A B} (f : A → list B) (l : list A) :
  (l ≫= f) = [] ↔ ∀ x, x ∈ l → f x = [].
Proof.
  induction l as [|x l IH]; [set_solver|]. cbn. split.
  - intros [H1 H2]%app_eq_nil y [->|Hy]%elem_of_cons; [done|]. by apply IH.
  - intros H. rewrite (H x) by set_solver. apply IH. set_solver.
Qed.

(** The sanity check accepts exactly the parameters whose required numbers
    are all non-zero and whose node lists all exist; it does not look at signs,
    so a negative number of workers or interval is accepted. *)
Theorem sanityCheck_spec sys w :
  sanityCheck sys w = None ↔
  Forall (λ p, p.1 ≠ 0) (required w)
  ∧ Forall (λ f, NotExist sys f = false) (wp_MachineIPList w).
Proof.
  unfold sanityCheck. rewrite !Forall_forall.
  assert (sanity_errors sys w = [] ↔ (∀ p, p ∈ required w → p.1 ≠ 0)
    ∧ (∀ f, f ∈ wp_MachineIPList w → NotExist sys f = false)) as H.
  { unfold sanity_errors. rewrite app_nil, !bind_nil_iff. f_equiv.
    - split; intros H.
      + intros [v msg] Hin Hv. cbn in Hv. subst v. by specialize (H _ Hin).
      + intros [v msg] Hin. specialize (H _ Hin). cbn in H. by rewrite (proj2 (Z.eqb_neq v 0)).
    - split; intros H f Hin; specialize (H _ Hin); by destruct (NotExist sys f). }
  rewrite <-H. by destruct (sanity_errors sys w).
Qed.

(** ** Duplicates *)

(** All nodes of the committees, with their shard. *)
Definition all_nodes `{MR : GoRuntime} (byShard : gmap Z committee) : list (Z * string) :=
  range byShard ≫= λ '(i, s), pair i <$> c_members s.

Lemma find_dups_flat `{MR : GoRuntime} byShard :
  find_dups byShard
  = fold_left (λ acc '(i, m), node_step i acc m) (all_nodes byShard) ([], ∅).
Proof.
  unfold find_dups, all_nodes. generalize (([], ∅) : list string * gmap string string) as acc.
  induction (range byShard) as [|[i s] l IH]; intros acc; [done|].
  cbn [mbind list_bind fold_left]. rewrite fold_left_app, IH. f_equal. clear.
  revert acc. induction (c_members s) as [|m ms IH]; intros acc; [done|]. cbn. apply IH.
Qed.

Lemma node_steps_spec l dups nodeList :
  let r := fold_left (λ acc '(i, m), node_step i acc m) l (dups, nodeList) in
  (r.1 = [] ↔ dups = [] ∧ NoDup l.*2 ∧ ∀ m, m ∈ l.*2 → nodeList !! m = None)
  ∧ (∀ m, is_Some (r.2 !! m) ↔ is_Some (nodeList !! m) ∨ m ∈ l.*2).
Proof.
  revert dups nodeList. induction l as [|[i m] l IH]; intros dups nodeList.
  { cbn. split; [|set_solver]. split; [|by intros [? _]].
    intros ->. split_and!; [done|constructor|set_solver]. }
  cbn [fold_left fmap list_fmap snd]. unfold node_step at 2 4.
  destruct (nodeList !! m) as [other|] eqn:E.
  - destruct (IH (dups ++ [Itoa i +:+ ": " +:+ m; other +:+ ": " +:+ m]) nodeList) as [IH1 IH2].
    split.
    + rewrite IH1. split; [intros [H _]; by destruct dups|].
      intros (_ & _ & H). specialize (H m ltac:(set_solver)). congruence.
    + intros m'. rewrite IH2, elem_of_cons. split; [naive_solver|].
      intros [?|[->|?]]; [by left|left; by rewrite E|by right].
  - destruct (IH dups (<[m := Itoa i]> nodeList)) as [IH1 IH2]. split.
    + rewrite IH1, NoDup_cons. split.
      * intros (-> & Hnd & H). split_and!; [done| |done|].
        { intros Hin%H. by rewrite lookup_insert_eq in Hin. }
        intros m' [->|Hm']%elem_of_cons; [done|]. specialize (H m' Hm').
        apply lookup_insert_None in H. by destruct H.
      * intros (-> & [Hni Hnd] & H). split_and!; [done|done|]. intros m' Hm'.
        rewrite lookup_insert_ne by (by intros ->). apply H. set_solver.
    + intros m'. rewrite IH2, elem_of_cons. destruct (decide (m' = m)) as [->|Hne].
      * rewrite lookup_insert_eq. naive_solver.
      * rewrite lookup_insert_ne by done. naive_solver.
Qed.

Lemma find_dups_spec (MR : GoRuntime) byShard :
  let '(dups, nodeList) := find_dups byShard in
  (dups = [] ↔ NoDup (all_nodes byShard).*2)
  ∧ ((size nodeList =? 0)%nat = true ↔ (all_nodes byShard).*2 = []).
Proof.
  rewrite find_dups_flat. pose proof (node_steps_spec (all_nodes byShard) [] ∅) as [H1 H2].
  destruct (fold_left _ _ _) as [dups nodeList]. cbn [fst snd] in *. split.
  - rewrite H1. split; [naive_solver|]. intros Hnd. split_and!; [done|done|].
    intros m _. apply lookup_empty.
  - rewrite Nat.eqb_eq, map_size_empty_iff. split.
    + intros ->. apply elem_of_nil_inv. intros m Hm. destruct (proj2 (H2 m)) as [x Hx]; [by right|].
      by rewrite lookup_empty in Hx.
    + intros E. apply map_empty. intros m. rewrite eq_None_not_Some, H2, E, lookup_empty.
      intros [[? ?]|?]; [done|set_solver].
Qed.

(** ** Reading the node lists *)

(** [file] can be read and its lines are [ls]. *)
Definition reads (sys : system) (file : string) (ls : list string) : Prop :=
  ∃ content err, Open sys file = Some (content, err)
    ∧ scan_lines (raw_lines content) err = (ls, None).

(** The committee of a file. *)
Definition file_committee (port : Z) (file : string) (ls : list string) : committee :=
  MkCommittee file ((λ l, l +:+ ":" +:+ Itoa port) <$> ls).

(** The last file of a shard decides its committee. *)
Definition last_of_shard (files : list string) (id : Z) (file : string) : Prop :=
  ∃ pre post, files = pre ++ file :: post ∧ file_shard file = Some id
    ∧ Forall (λ f, file_shard f ≠ Some id) post.

Lemma read_committees_acc sys port files acc m id c :
  read_committees sys port files acc = inl m →
  m !! id = Some c ↔
    (∃ file ls, last_of_shard files id file ∧ reads sys file ls ∧ c = file_committee port file ls)
    ∨ (Forall (λ f, file_shard f ≠ Some id) files ∧ acc !! id = Some c).
Proof.
  revert acc. induction files as [|f files IH]; intros acc; cbn [read_committees].
  { intros [= <-]. split; [by right|]. intros [(file & ls & (pre & post & E & _) & _)|[_ ?]]; [|done].
    by destruct pre. }
  destruct (file_shard f) as [id0|] eqn:Ef; [|done].
  destruct (Open sys f) as [[content err]|] eqn:Eo; [|done].
  destruct (scan_lines (raw_lines content) err) as [ls [e|]] eqn:Es; [done|].
  intros E. rewrite (IH _ E). rewrite Forall_cons. clear IH E.
  assert (reads sys f ls) as Hreads by (by exists content, err).
  split.
  - intros [(file & ls' & (pre & post & -> & Hf & Hpost) & Hr & ->)|[Hall Hl]].
    + left. exists file, ls'. split; [|done]. exists (f :: pre), post. done.
    + destruct (decide (id0 = id)) as [->|Hne].
      * rewrite lookup_insert_eq in Hl. injection Hl as <-. left. exists f, ls.
        split; [|done]. by exists [], files.
      * rewrite lookup_insert_ne in Hl by done. right. split; [|done]. split; congruence.
  - intros [(file & ls' & ([|f' pre] & post & E & Hf & Hpost) & Hr & ->)|[[Hf Hall] Hl]].
    + injection E as <- <-. right. split; [done|]. simplify_eq. rewrite lookup_insert_eq.
      destruct Hr as (content' & err' & Eo' & Es'). rewrite Eo in Eo'. simplify_eq.
      rewrite Es in Es'. by simplify_eq.
    + injection E as <- ->. left. exists file, ls'. split; [|done]. by exists pre, post.
    + right. split; [done|]. rewrite lookup_insert_ne by congruence. done.
Qed.

(** Reading succeeds exactly when every file names a shard and can be read. *)
Lemma read_committees_ok sys port files acc :
  (∃ m, read_committees sys port files acc = inl m) ↔
  Forall (λ f, is_Some (file_shard f) ∧ ∃ ls, reads sys f ls) files.
Proof.
  revert acc. induction files as [|f files IH]; intros acc; cbn [read_committees].
  { split; [by constructor|]. by exists acc. }
  rewrite Forall_cons. unfold reads at 1.
  destruct (file_shard f) as [id|] eqn:Ef; [|split; [naive_solver|intros [[[? ?] _] _]; done]].
  destruct (Open sys f) as [[content err]|] eqn:Eo;
    [|split; [naive_solver|intros [[_ (? & ? & ? & ? & _)] _]; done]].
  destruct (scan_lines (raw_lines content) err) as [ls [e|]] eqn:Es.
  - split; [naive_solver|]. intros [[_ (ls' & c' & e' & E1 & E2)] _]. simplify_eq. congruence.
  - rewrite IH. split; [|by intros [_ ?]]. intros H. split; [|done]. split; [eauto|].
    by exists ls, content, err.
Qed.

(** [newInstructions] in terms of the sanity check and the shards of the files. *)
Lemma newInstructions_iff (MR : GoRuntime) sys yamlPath i :
  newInstructions sys yamlPath = (Some i, None) ↔
  ∃ raw, let t := i_params i in
    ReadFile sys yamlPath = inr raw ∧ UnmarshalStrict sys raw = inr t
    ∧ sanityCheck sys t = None
    ∧ Forall (λ f, is_Some (file_shard f) ∧ ∃ ls, reads sys f ls) (wp_MachineIPList t)
    ∧ (∀ id c, i_superCommittee i !! id = Some c ↔
         ∃ file ls, last_of_shard (wp_MachineIPList t) id file ∧ reads sys file ls
           ∧ c = file_committee (wp_RPCPort t) file ls)
    ∧ NoDup (all_nodes (i_superCommittee i)).*2
    ∧ (all_nodes (i_superCommittee i)).*2 ≠ [].
Proof.
  unfold newInstructions. destruct (ReadFile sys yamlPath) as [e|raw]; [naive_solver|].
  destruct (UnmarshalStrict sys raw) as [e|t] eqn:Ey; [naive_solver congruence|].
  destruct (sanityCheck sys t) as [e|] eqn:Esane; [naive_solver congruence|].
  destruct (read_committees sys (wp_RPCPort t) (wp_MachineIPList t) ∅) as [m|e] eqn:Er.
  - pose proof (find_dups_spec MR m) as Hd. destruct (find_dups m) as [dups nodeList].
    destruct Hd as [Hd1 Hd2].
    assert (∀ id c, m !! id = Some c ↔ ∃ file ls, last_of_shard (wp_MachineIPList t) id file
      ∧ reads sys file ls ∧ c = file_committee (wp_RPCPort t) file ls) as Hm.
    { intros id c. rewrite (read_committees_acc _ _ _ _ _ id c Er), lookup_empty. naive_solver. }
    assert (Forall (λ f, is_Some (file_shard f) ∧ ∃ ls, reads sys f ls) (wp_MachineIPList t))
      as Hall by (eapply read_committees_ok; eauto).
    split.
    + destruct (size nodeList =? 0)%nat eqn:Es; [done|]. destruct dups as [|d dups]; [|done].
      intros [= <-]. exists raw. cbn. split_and!; try done; [by apply Hd1|].
      intros E%Hd2. congruence.
    + intros (raw' & [= <-] & E & _ & _ & Hi & Hnd & Hne). rewrite Ey in E. injection E as ->.
      assert (i_superCommittee i = m) as Em.
      { apply map_eq. intros id. apply option_eq. intros c. by rewrite Hi, Hm. }
      rewrite Em in Hnd, Hne. apply Hd1 in Hnd as ->.
      destruct (size nodeList =? 0)%nat; [by destruct Hne; apply Hd2|]. rewrite <-Em.
      by destruct i.
  - split; [naive_solver|]. intros (raw' & [= <-] & E & _ & Hall & _). rewrite Ey in E.
    injection E as ->. apply (read_committees_ok _ (wp_RPCPort (i_params i)) _ ∅) in Hall as [m Hm].
    congruence.
Qed.

(** *** The trailing number of a file name

    The README wants a trailing number on the name of a node list, which is the
    shard. *)

(** The longest suffix of digits. *)
Fixpoint trailing_digits (s : string) : string :=
  match s with
  | EmptyString => EmptyString
  | String _ r => if all_digits s then s else trailing_digits r
  end.

Definition file_digits (file : string) : string :=
  trailing_digits (Base (TrimSuffix file (Ext file))).

Definition trailing_number (file : string) : option Z :=
  match file_digits file with EmptyString => None | ds => digits_value 0 ds end.

(** At most one digit at the end. *)
Definition short_number (file : string) : Prop := (String.length (file_digits file) ≤ 1)%nat.

Lemma trailing_one s c :
  last_byte s = Some c → (String.length (trailing_digits s) ≤ 1)%nat →
  match trailing_digits s with EmptyString => None | ds => digits_value 0 ds end = Atoi_byte c.
Proof.
  induction s as [|x r IH]; [done|]. intros Hc. cbn [trailing_digits]. destruct (all_digits (String x r)) eqn:E.
  - intros Hl. destruct r; [|cbn in Hl; lia]. injection Hc as ->. cbn in E. unfold Atoi_byte.
    cbn. destruct (is_digit c); [done|]. discriminate E.
  - destruct r as [|y r]; [|apply (IH Hc)]. injection Hc as ->. cbn in E. unfold Atoi_byte.
    by destruct (is_digit c).
Qed.

Lemma last_byte_Some s : s ≠ EmptyString → is_Some (last_byte s).
Proof. induction s as [|c [|d s] IH]; intros Hs; [done|by eexists|by apply IH]. Qed.

Lemma short_number_shard file : short_number file → file_shard file = trailing_number file.
Proof.
  intros Hs. unfold file_shard, trailing_number, short_number, file_digits in *.
  destruct (last_byte_Some (Base (TrimSuffix file (Ext file)))) as [c Hc].
  { unfold Base. repeat case_bool_decide; done. }
  rewrite Hc. cbn. symmetry. by apply trailing_one.
Qed.

(** The last file with the number of the shard. *)
Definition last_numbered (files : list string) (id : Z) (file : string) : Prop :=
  ∃ pre post, files = pre ++ file :: post ∧ trailing_number file = Some id
    ∧ Forall (λ f, trailing_number f ≠ Some id) post.

Lemma last_numbered_iff files id file :
  Forall short_number files → last_of_shard files id file ↔ last_numbered files id file.
Proof.
  intros Hall. unfold last_of_shard, last_numbered.
  split; intros (pre & post & -> & Hf & Hpost); exists pre, post; (split; [done|]);
    apply Forall_app in Hall as [_ [Hs Hp]%Forall_cons]; rewrite (short_number_shard file Hs) in *;
    (split; [done|]); rewrite Forall_forall in Hpost, Hp |- *; intros f Hin; specialize (Hpost f Hin);
    by rewrite (short_number_shard f (Hp f Hin)) in *.
Qed.

(** The numbers [sanityCheck] wants. *)
Lemma sanityCheck_numbers sys w :
  sanityCheck sys w = None ↔
  Forall (λ v, v ≠ 0)
    [wp_RPCPort w; wp_Inspect_BlockHeader w; wp_Inspect_NodeMetadata w; wp_Inspect_CxPending w;
     wp_Inspect_CrossLink w; wp_WorkerPoolSize w; wp_HTTPTimeout w; wp_Port w;
     wp_Consensus_Interval w; wp_Consensus_Warning w; wp_CxPending_Warning w;
     wp_CrossLink_Warning w; wp_ShardHeight_Warning w; wp_Connectivity_Warning w]
  ∧ Forall (λ f, NotExist sys f = false) (wp_MachineIPList w).
Proof. rewrite sanityCheck_spec. unfold required. by rewrite !Forall_cons, !Forall_nil. Qed.

(** C21: which configurations are accepted, and what becomes of them, when the names
    of the node lists end in at most one digit. [newInstructions] returns
    instructions exactly when the YAML parses, none of the fourteen numbers is
    zero, every node list exists, has a trailing number and can be read, no node
    occurs twice in the committees, and there is a node. The committees are those
    of the trailing numbers; the one of a shard has the lines of the last file with
    that number, with the port appended. The result does not depend on the
    iteration order of the map. *)
Theorem newInstructions_spec (MR : GoRuntime) sys yamlPath i :
  let t := i_params i in
  Forall short_number (wp_MachineIPList t) →
  newInstructions sys yamlPath = (Some i, None) ↔
  (∃ raw, ReadFile sys yamlPath = inr raw ∧ UnmarshalStrict sys raw = inr t)
  ∧ Forall (λ v, v ≠ 0)
      [wp_RPCPort t; wp_Inspect_BlockHeader t; wp_Inspect_NodeMetadata t; wp_Inspect_CxPending t;
       wp_Inspect_CrossLink t; wp_WorkerPoolSize t; wp_HTTPTimeout t; wp_Port t;
       wp_Consensus_Interval t; wp_Consensus_Warning t; wp_CxPending_Warning t;
       wp_CrossLink_Warning t; wp_ShardHeight_Warning t; wp_Connectivity_Warning t]
  ∧ Forall (λ f, NotExist sys f = false ∧ is_Some (trailing_number f) ∧ ∃ ls, reads sys f ls)
      (wp_MachineIPList t)
  ∧ (∀ id c, i_superCommittee i !! id = Some c ↔
       ∃ file ls, last_numbered (wp_MachineIPList t) id file ∧ reads sys file ls
         ∧ c = file_committee (wp_RPCPort t) file ls)
  ∧ NoDup (all_nodes (i_superCommittee i)).*2
  ∧ (all_nodes (i_superCommittee i)).*2 ≠ [].
Proof.
  intros t Hs. rewrite newInstructions_iff. fold t. cbv zeta. setoid_rewrite sanityCheck_numbers.
  setoid_rewrite (λ id file, last_numbered_iff (wp_MachineIPList t) id file Hs).
  assert (Forall (λ f, NotExist sys f = false ∧ is_Some (trailing_number f) ∧ ∃ ls, reads sys f ls)
      (wp_MachineIPList t)
    ↔ Forall (λ f, NotExist sys f = false) (wp_MachineIPList t)
      ∧ Forall (λ f, is_Some (file_shard f) ∧ ∃ ls, reads sys f ls) (wp_MachineIPList t)) as ->.
  { rewrite <-Forall_and, !Forall_forall. rewrite Forall_forall in Hs.
    split; intros H f Hf; specialize (H f Hf); by rewrite (short_number_shard f (Hs f Hf)) in *. }
  split; [intros (raw & H); decompose [and] H; split_and!; eauto|].
  intros ((raw & H1 & H2) & H). exists raw. decompose [and] H. by split_and!.
Qed.

(** A node list that cannot be opened is not reported. If [os.Open] fails
    on a file, although [os.Stat] found it, before any other failure,
    [newInstructions] returns neither instructions nor an error, and its caller
    dereferences a nil pointer. *)
Theorem newInstructions_nil (MR : GoRuntime) sys yamlPath raw t pre file post :
  ReadFile sys yamlPath = inr raw → UnmarshalStrict sys raw = inr t → sanityCheck sys t = None →
  wp_MachineIPList t = pre ++ file :: post →
  Forall (λ f, is_Some (file_shard f) ∧ ∃ ls, reads sys f ls) pre →
  is_Some (file_shard file) → Open sys file = None →
  newInstructions sys yamlPath = (None, None).
Proof.
  intros E1 E2 E3 E4 Hpre [id Hid] Ho. unfold newInstructions. rewrite E1, E2, E3, E4.
  assert (∀ acc, read_committees sys (wp_RPCPort t) (pre ++ file :: post) acc = inr None) as ->;
    [|done].
  clear E4. induction Hpre as [|f pre [[id' Hf] (ls & content & err & Eo & Es)] _ IH]; intros acc; cbn.
  - by rewrite Hid, Ho.
  - by rewrite Hf, Eo, Es, IH.
Qed.

(** ** Shard numbers in file names *)

Lemma last_byte_app s c t : last_byte (s +:+ String c t) = last_byte (String c t).
Proof.
  induction s as [|x s IH]; [done|]. rewrite <-IH, app_cons_string.
  by destruct s.
Qed.

Lemma strip_slashes_id s c : last_byte s = Some c → c ≠ slash → strip_slashes s = s.
Proof.
  intros Hl Hc. induction s as [|x s IH]; [done|]. cbn [strip_slashes].
  destruct s as [|y s]; [|by rewrite IH]. cbn in Hl. simplify_eq. cbn.
  by rewrite bool_decide_eq_false_2.
Qed.

Lemma after_slash_last s c : last_byte s = Some c → c ≠ slash → last_byte (after_slash s) = Some c.
Proof.
  intros Hl Hc. induction s as [|x s IH]; [done|]. cbn [after_slash].
  destruct s as [|y s]; cbn [last_byte] in *.
  - cbn [has_slash]. injection Hl as ->. by rewrite bool_decide_eq_false_2.
  - destruct (has_slash (String y s)); [by apply IH|].
    by destruct (bool_decide (x = slash)).
Qed.

Lemma Base_last s c : last_byte s = Some c → c ≠ slash → last_byte (Base s) = Some c.
Proof.
  intros Hl Hc. unfold Base. rewrite bool_decide_eq_false_2 by (by intros ->).
  rewrite (strip_slashes_id s c) by done. pose proof (after_slash_last s c Hl Hc) as Ha.
  rewrite bool_decide_eq_false_2; [done|]. by intros E; rewrite E in Ha.
Qed.

Lemma Base_nonempty s : Base s ≠ EmptyString.
Proof. unfold Base. repeat case_bool_decide; done. Qed.

Lemma Ext_app s : Ext (s +:+ ".txt") = ".txt"%string.
Proof.
  unfold Ext. assert (ext_from (s +:+ ".txt") = Some ".txt"%string) as ->; [|done].
  induction s as [|c s IH]; [done|]. rewrite app_cons_string. cbn [ext_from]. by rewrite IH.
Qed.

Lemma substring_app_l p q : String.substring 0 (String.length p) (p +:+ q) = p.
Proof.
  induction p as [|c p IH]; [by destruct q|]. rewrite app_cons_string. cbn. by rewrite IH.
Qed.

Lemma substring_app_r p q : String.substring (String.length p) (String.length q) (p +:+ q) = q.
Proof.
  induction p as [|c p IH].
  - rewrite app_nil_string. induction q as [|c q IH]; [done|]. cbn in *. by rewrite IH.
  - rewrite app_cons_string. cbn. exact IH.
Qed.

Lemma TrimSuffix_app p q : TrimSuffix (p +:+ q) q = p.
Proof.
  unfold TrimSuffix. rewrite length_app_string.
  replace (String.length p + String.length q - String.length q)%nat with (String.length p) by lia.
  rewrite substring_app_r, bool_decide_eq_true_2 by done.
  rewrite (proj2 (Nat.leb_le _ _)) by lia. apply substring_app_l.
Qed.

Lemma pretty_go_last x c t : last_byte (pretty_N_go x (String c t)) = last_byte (String c t).
Proof.
  revert c t. induction (N.lt_wf_0 x) as [x _ IH]; intros c t.
  destruct (decide (x = 0)%N) as [->|Hx]; [by rewrite pretty_N_go_0|].
  rewrite pretty_N_go_step by lia. rewrite IH; [done|]. apply N.div_lt; lia.
Qed.

Lemma Itoa_last z : 0 ≤ z → last_byte (Itoa z) = Some (pretty_N_char (Z.to_N (z mod 10))).
Proof.
  intros Hz. destruct z as [|p|p]; [done| |lia].
  change (Itoa (Z.pos p)) with (pretty_N_go (N.pos p) EmptyString).
  rewrite pretty_N_go_step by done. rewrite pretty_go_last. cbn [last_byte]. do 2 f_equal.
  rewrite Z2N.inj_mod by lia. done.
Qed.

Lemma Atoi_digit d : (d < 10)%N → Atoi_byte (pretty_N_char d) = Some (Z.of_N d).
Proof. by apply (digit_cases (λ d, Atoi_byte (pretty_N_char d) = Some (Z.of_N d))). Qed.

Lemma digit_not_slash d : (d < 10)%N → pretty_N_char d ≠ slash.
Proof. by apply (digit_cases (λ d, pretty_N_char d ≠ slash)). Qed.

(** The shard of a numbered file is its last digit. For a file whose name
    ends in the number [s] and .txt, the shard read is [s mod 10]: right for
    shards 0 to 9, while the list of shard 10 silently replaces that of shard 0,
    and so on. *)
Theorem file_shard_numbered dir s :
  0 ≤ s → file_shard (dir +:+ Itoa s +:+ ".txt") = Some (s mod 10).
Proof.
  intros Hs. unfold file_shard. rewrite <-string_app_assoc, Ext_app, TrimSuffix_app.
  assert (Z.to_N (s mod 10) < 10)%N as Hd by (pose proof (Z.mod_pos_bound s 10); lia).
  assert (last_byte (dir +:+ Itoa s) = Some (pretty_N_char (Z.to_N (s mod 10)))) as Hl.
  { rewrite <-Itoa_last by done. pose proof (Itoa_last s Hs) as Hi.
    destruct (Itoa s) as [|c t] eqn:E; [done|]. apply last_byte_app. }
  rewrite (Base_last _ _ Hl) by (by apply digit_not_slash). cbn.
  rewrite Atoi_digit by done. f_equal. rewrite Z2N.id; [done|].
  pose proof (Z.mod_pos_bound s 10). lia.
Qed.

(** ** The sample configuration ([generateSampleYAML], daemon-cmds.go) *)

Definition sampleParams : watchParams := {|
  wp_EventServiceKey := "YOUR_PAGERDUTY_KEY";
  wp_TargetChain := "mainnet";
  wp_RPCPort := 9500;
  wp_Inspect_BlockHeader := 15;
  wp_Inspect_NodeMetadata := 30;
  wp_Inspect_CxPending := 300;
  wp_Inspect_CrossLink := 30;
  wp_WorkerPoolSize := 32;
  wp_HTTPTimeout := 1;
  wp_Port := 8080;
  wp_Consensus_Interval := 30;
  wp_Consensus_Warning := 70;
  wp_CxPending_Warning := 1000;
  wp_CrossLink_Warning := 600;
  wp_ShardHeight_Warning := 1000;
  wp_Connectivity_Warning := 33;
  wp_MachineIPList :=
    ["/home/ec2_user/mainnet/shard0.txt"; "/home/ec2_user/mainnet/shard1.txt";
     "/home/ec2_user/mainnet/shard2.txt"; "/home/ec2_user/mainnet/shard3.txt"]%string;
|}.

(** ** Concrete configurations *)

Module ConfigWitness.
(** A machine with the sample configuration; [open] decides what the node lists
    hold. *)
Definition sys (open : string → option (string * option string)) : system :=
  MkSystem (λ _, inr EmptyString) (λ _, inr sampleParams) (λ _, false) open.
(** One node in shard 0. *)
Definition file0 : string := "/home/ec2_user/mainnet/shard0.txt".
Definition one_node : system :=
  sys (λ f, Some (if decide (f = file0) then "10.0.0.1"%string else EmptyString, None)).
End ConfigWitness.

Lemma newInstructions_nil_witness :
  newInstructions (MR := range_ref) (ConfigWitness.sys (λ _, None)) "watchdog.yaml" = (None, None).
Proof.
  refine (newInstructions_nil range_ref (ConfigWitness.sys (λ _, None)) "watchdog.yaml" EmptyString
    sampleParams [] "/home/ec2_user/mainnet/shard0.txt" _ eq_refl eq_refl _ eq_refl _ _ eq_refl).
  - vm_compute. reflexivity.
  - constructor.
  - vm_compute. eauto.
Defined.

Lemma file_shard_numbered_witness :
  file_shard ("/home/ec2-user/mainnet/shard" +:+ Itoa 12 +:+ ".txt") = Some (12 mod 10).
Proof. apply (file_shard_numbered "/home/ec2-user/mainnet/shard" 12). lia. Defined.

Lemma newInstructions_spec_witness :
  ∃ i, newInstructions (MR := range_ref) ConfigWitness.one_node "watchdog.yaml" = (Some i, None)
    ∧ i_superCommittee i !! 0 = Some (MkCommittee ConfigWitness.file0 ["10.0.0.1:9500"%string])
    ∧ NoDup (all_nodes (MR := range_ref) (i_superCommittee i)).*2.
Proof.
  destruct (newInstructions (MR := range_ref) ConfigWitness.one_node "watchdog.yaml")
    as [[i|] err] eqn:E; [|vm_compute in E; discriminate E].
  assert (i_params i = sampleParams ∧ err = None ∧ i_superCommittee i !! 0
    = Some (MkCommittee ConfigWitness.file0 ["10.0.0.1:9500"%string])) as (Ei & -> & Ec).
  { vm_compute in E. injection E as <- <-. vm_compute. done. }
  exists i. split; [reflexivity|]. split; [exact Ec|].
  apply (newInstructions_spec range_ref ConfigWitness.one_node "watchdog.yaml" i) in E.
  - apply E.
  - rewrite Ei. apply (bool_decide_unpack _). vm_compute. exact I.
Defined.
