(* ===== verification/Manager.v ===== *)
(** * The managers (reporting-server.go)

    [manager] samples every node once per tick with one RPC and replaces the
    snapshot the reports are made from; [stakingCommitteeUpdate] fetches the
    committees; [update] computes the shard of every node and starts all
    goroutines. *)

From S2P Require Import Prelude GoFloat GoFmt GoTime GoJson Rpc Pool Linq Alerts Summary Monitor.
From S2P Require Import Config.

(** ** The lock

    [m.inUse.Lock()] waits while the mutex is held: [None] is a goroutine that
    waits. The body runs with the mutex held. *)
Definition with_lock {A} (body : monitor → monitor * A) (m : monitor) : option (monitor * A) :=
  if m_inUse m then None
  else let '(m', a) := body (set_inUse true m) in Some (set_inUse false m', a).

(** ** Node metadata *)

Definition set_metadata_TS (now : Time) (m : monitor) : monitor :=
  let c := m_WorkingMetadata m in
  set_WorkingMetadata (MkMetadataContainer now (mc_Nodes c) (mc_Down c)) m.

(** The loop over [channels[rpc]]; the flag is [first]. *)
Definition metadata_reply (shardMap : gmap string Z) (acc : monitor * bool) (d : reply) :
    monitor * bool :=
  let '(m, first) := acc in
  let m :=
    if first then
      set_WorkingMetadata (MkMetadataContainer (mc_TS (m_WorkingMetadata m)) [] []) m
    else m in
  (match r_oops d with
   | Some e =>
       let c := m_WorkingMetadata m in
       set_WorkingMetadata
         (MkMetadataContainer (mc_TS c) (mc_Nodes c) (mc_Down c ++ [no_reply shardMap d e])) m
   | None => bytesToNodeMetadata (r_rpc d) (r_address d) (r_result d) m
   end, false).

(** A tick of [manager] for [NodeMetadataRPC], from the replies: its actions, and
    the state once it gets the lock. *)
Definition metadata_tick (tolerance : Z) (pdServiceKey chain : string) (shardMap : gmap string Z)
    (now : Time) (replies : list reply) (m : monitor) : list action * option monitor :=
  let m := set_metadata_TS now m in
  let m := (fold_left (metadata_reply shardMap) replies (m, true)).1 in
  ([GoP2pMonitor tolerance pdServiceKey chain (mc_Nodes (m_WorkingMetadata m))],
   fst <$> with_lock (λ m, (metadataCopy (m_WorkingMetadata m) m, ())) m).

(** ** Block headers *)

Definition set_header_TS (now : Time) (m : monitor) : monitor :=
  let c := m_WorkingBlockHeader m in
  set_WorkingBlockHeader (MkBlockHeaderContainer now (bc_Nodes c) (bc_Down c)) m.

Definition header_reply `{MR : GoRuntime} (shardMap : gmap string Z) (acc : monitor * bool)
    (d : reply) : monitor * bool :=
  let '(m, first) := acc in
  let m :=
    if first then
      set_DownArray (empty_array (m_DownArray m))
        (set_WorkingBlockHeader (MkBlockHeaderContainer (bc_TS (m_WorkingBlockHeader m)) [] []) m)
    else m in
  (match r_oops d with
   | Some e =>
       let c := m_WorkingBlockHeader m in
       set_DownArray (append_array (length (bc_Down c)) (m_DownArray m))
         (set_WorkingBlockHeader
           (MkBlockHeaderContainer (bc_TS c) (bc_Nodes c) (bc_Down c ++ [no_reply shardMap d e])) m)
   | None => bytesToNodeMetadata (r_rpc d) (r_address d) (r_result d) m
   end, false).

(** [getBeaconChainNode]: the first node of shard 0 in the order of the map. *)
Definition getBeaconChainNode `{MR : GoRuntime} (shardMap : gmap string Z) : string :=
  match list_find (λ p, p.2 = 0) (range shardMap) with
  | Some (_, (k, _)) => k
  | None => EmptyString
  end.

(** The loop that looks at the first header of shard 0: the new [prevEpoch] and
    the update it starts. *)
Fixpoint epoch_check (prevEpoch : Z) (beaconChainNode : string) (nodes : list BlockHeader) :
    Z * list action :=
  match nodes with
  | [] => (prevEpoch, [])
  | n :: nodes =>
      if header_shard n =? 0 then
        if prevEpoch <? header_epoch n then
          (header_epoch n, [GoStakingCommitteeUpdate beaconChainNode])
        else (prevEpoch, [])
      else epoch_check prevEpoch beaconChainNode nodes
  end.

(** A tick of [manager] for [BlockHeaderRPC], from the replies. *)
Definition header_tick `{MR : GoRuntime} (shardMap : gmap string Z) (now : Time)
    (replies : list reply) (prevEpoch : Z) (m : monitor) :
    option (monitor * (Z * list action)) :=
  let m := set_header_TS now m in
  let m := (fold_left (header_reply shardMap) replies (m, true)).1 in
  with_lock (λ m,
    (blockHeaderCopy (m_WorkingBlockHeader m) m,
     epoch_check prevEpoch (getBeaconChainNode shardMap) (bc_Nodes (m_WorkingBlockHeader m)))) m.

(** ** The committees *)

Definition committee_request : string :=
  Marshal_map (<["id" := JStr "0"]> (getRPCRequest SuperCommitteeRPC)).

Definition stakingCommitteeUpdate (client : http_client) (beaconChainNode : string)
    (m : monitor) : monitor * list action :=
  let log := Stdlog "[stakingCommitteeUpdate] Updating super committees" [] in
  match request client ("http://" +:+ beaconChainNode) committee_request with
  | (_, _, Some oops) =>
      (m, [log; Stdlog "[stakingCommitteeUpdate] Unable to update super committees, Error: %v"
                  [OStr oops]])
  | (result, _, None) =>
      (set_SuperCommittee (decode_committee result) m,
       [log; Stdlog "[stakingCommitteeUpdate] Updated super committees" []])
  end.

(** ** Starting everything *)

(** [shardMap]: the shard of every member of the committees. *)
Definition shard_map `{MR : GoRuntime} (superCommittee : gmap Z committee) : gmap string Z :=
  fold_left (λ (shardMap : gmap string Z) '(k, v),
    fold_left (λ (shardMap : gmap string Z) member, <[member := k]> shardMap) (c_members v) shardMap)
    (range superCommittee) ∅.

(** The goroutines [update] starts, with the arguments that come from the
    configuration. *)
Inductive goroutine : Type :=
  | GoWorker
  | GoManager (interval tolerance : Z) (rpc pdServiceKey chain : string)
  | GoStakingCommittee (beaconChainNode : string)
  | GoConsensusMonitor (interval warning tolerance poolSize : Z) (pdServiceKey chain : string)
  | GoCxMonitor (interval limit poolSize : Z) (pdServiceKey chain : string)
  | GoCrossLinkMonitor (interval warning poolSize : Z) (pdServiceKey chain : string).

Definition start_rpc `{MR : GoRuntime} (params : watchParams) (shardMap : gmap string Z)
    (rpc : string) : list goroutine :=
  let key := wp_EventServiceKey params in
  let chain := wp_TargetChain params in
  let size := wp_WorkerPoolSize params in
  if decide (rpc = NodeMetadataRPC) then
    [GoManager (wp_Inspect_NodeMetadata params) (wp_Connectivity_Warning params) rpc key chain]
  else if decide (rpc = BlockHeaderRPC) then
    [GoManager (wp_Inspect_BlockHeader params) 0 rpc EmptyString EmptyString;
     GoStakingCommittee (getBeaconChainNode shardMap);
     GoConsensusMonitor (uint64 (wp_Consensus_Interval params))
       (uint64 (wp_Consensus_Warning params)) (uint64 (wp_ShardHeight_Warning params)) size key
       chain;
     GoCxMonitor (uint64 (wp_Inspect_CxPending params)) (uint64 (wp_CxPending_Warning params)) size
       key chain;
     GoCrossLinkMonitor (uint64 (wp_Inspect_CrossLink params))
       (uint64 (wp_CrossLink_Warning params)) size key chain]
  else [].

Definition update `{MR : GoRuntime} (params : watchParams) (superCommittee : gmap Z committee)
    (rpcs : list string) : gmap string Z * list goroutine :=
  let shardMap := shard_map superCommittee in
  (shardMap,
   replicate (Z.to_nat (wp_WorkerPoolSize params)) GoWorker
   ++ (rpcs ≫= start_rpc params shardMap)).

(** ** Facts *)

(** *** Snapshots *)

Lemma omap_cons_app {A B} (f : A → option B) x l :
  omap f (x :: l) = option_list (f x) ++ omap f l.
Proof. cbn. by destruct (f x). Qed.

Lemma metadata_reply_step shardMap m ts nodes down d :
  r_rpc d = NodeMetadataRPC →
  metadata_reply shardMap (set_WorkingMetadata (MkMetadataContainer ts nodes down) m, false) d
  = (set_WorkingMetadata (MkMetadataContainer ts
       (nodes ++ option_list (metadata_of_reply d))
       (down ++ option_list (silence_of_reply shardMap d))) m, false).
Proof.
  intros Hd. unfold metadata_reply, metadata_of_reply, silence_of_reply, bytesToNodeMetadata.
  rewrite decide_True by done. destruct (r_oops d); cbn; by rewrite app_nil_r.
Qed.

Lemma header_reply_step `{MR : GoRuntime} shardMap m a ts nodes down d :
  r_rpc d = BlockHeaderRPC →
  header_reply shardMap
    (set_DownArray a (set_WorkingBlockHeader (MkBlockHeaderContainer ts nodes down) m), false) d
  = (set_DownArray (append_arrays (length down) (length (option_list (silence_of_reply shardMap d))) a)
      (set_WorkingBlockHeader (MkBlockHeaderContainer ts
         (nodes ++ option_list (header_of_reply d))
         (down ++ option_list (silence_of_reply shardMap d))) m), false).
Proof.
  intros Hd. unfold header_reply, header_of_reply, silence_of_reply, bytesToNodeMetadata.
  rewrite decide_False by (by rewrite Hd). rewrite decide_True by done.
  destruct (r_oops d); cbn; by rewrite app_nil_r.
Qed.

(** Storing a reply does not touch the lock. *)
Lemma metadata_reply_inUse shardMap acc d :
  m_inUse (metadata_reply shardMap acc d).1 = m_inUse acc.1.
Proof.
  destruct acc as [m b]. unfold metadata_reply, bytesToNodeMetadata.
  by destruct b, (r_oops d); repeat case_decide.
Qed.

Lemma header_reply_inUse `{MR : GoRuntime} shardMap acc d :
  m_inUse (header_reply shardMap acc d).1 = m_inUse acc.1.
Proof.
  destruct acc as [m b]. unfold header_reply, bytesToNodeMetadata.
  by destruct b, (r_oops d); repeat case_decide.
Qed.

Lemma metadata_replies_rest shardMap replies m ts nodes down :
  Forall (λ d, r_rpc d = NodeMetadataRPC) replies →
  (fold_left (metadata_reply shardMap) replies
    (set_WorkingMetadata (MkMetadataContainer ts nodes down) m, false)).1
  = set_WorkingMetadata (MkMetadataContainer ts
      (nodes ++ omap metadata_of_reply replies)
      (down ++ omap (silence_of_reply shardMap) replies)) m.
Proof.
  intros Hrpc. revert nodes down.
  induction Hrpc as [|d replies Hd _ IH]; intros nodes down; cbn [fold_left].
  { by rewrite !app_nil_r. }
  rewrite metadata_reply_step, IH, !omap_cons_app, !app_assoc by done. done.
Qed.

Lemma append_arrays_add `{MR : GoRuntime} n k k' a :
  append_arrays (n + k) k' (append_arrays n k a) = append_arrays n (k + k') a.
Proof.
  revert n a. induction k as [|k IH]; intros n a; cbn; [by rewrite Nat.add_0_r|].
  rewrite <-IH. f_equal. lia.
Qed.

Lemma header_replies_rest `{MR : GoRuntime} shardMap replies m a ts nodes down :
  Forall (λ d, r_rpc d = BlockHeaderRPC) replies →
  (fold_left (header_reply shardMap) replies
    (set_DownArray a (set_WorkingBlockHeader (MkBlockHeaderContainer ts nodes down) m), false)).1
  = set_DownArray
      (append_arrays (length down) (length (omap (silence_of_reply shardMap) replies)) a)
      (set_WorkingBlockHeader (MkBlockHeaderContainer ts
        (nodes ++ omap header_of_reply replies)
        (down ++ omap (silence_of_reply shardMap) replies)) m).
Proof.
  intros Hrpc. revert a nodes down.
  induction Hrpc as [|d replies Hd _ IH]; intros a nodes down; cbn [fold_left].
  { by rewrite !app_nil_r. }
  rewrite header_reply_step, IH, !omap_cons_app, !app_assoc by done.
  by rewrite !length_app, append_arrays_add.
Qed.

(** The nodes of a served round, split into those that answered and those that
    did not. *)
Lemma round_split {A} (f : reply → option A) (ip : A → string) shardMap replies :
  (∀ d, r_oops d = None → ∃ a, f d = Some a ∧ ip a = r_address d) →
  (∀ d e, r_oops d = Some e → f d = None) →
  (ip <$> omap f replies) ++ (nr_IP <$> omap (silence_of_reply shardMap) replies)
  ≡ₚ r_address <$> replies.
Proof.
  intros H1 H2. induction replies as [|d replies IH]; [done|].
  rewrite !omap_cons_app, fmap_cons. unfold silence_of_reply at 1.
  destruct (r_oops d) as [e|] eqn:E.
  - rewrite (H2 d e E). cbn. rewrite <-IH. solve_Permutation.
  - destruct (H1 d E) as (a & -> & <-). cbn. by rewrite IH.
Qed.

Lemma served_rpc (MR : GoRuntime) shardMap rpc replies :
  shardMap ≠ ∅ → served (node_jobs shardMap rpc) replies →
  replies ≠ [] ∧ Forall (λ d, r_rpc d = rpc) replies
  ∧ r_address <$> replies ≡ₚ (map_to_list shardMap).*1.
Proof.
  intros Hne Hs. split_and!.
  - intros ->. apply served_length in Hs. unfold node_jobs in Hs.
    rewrite length_fmap, length_range in Hs. symmetry in Hs. by apply map_size_empty_iff in Hs.
  - apply Forall_forall. intros d Hd. destruct (served_elem _ _ _ Hs Hd) as (j & Hj & Ha).
    unfold node_jobs in Hj. apply list_elem_of_fmap in Hj as ([n s] & -> & _).
    apply (answers_address _ _ Ha).
  - rewrite (served_addresses _ _ Hs), node_jobs_addresses. by rewrite (range_perm shardMap).
Qed.

(** A metadata tick replaces the whole snapshot. When the round was served
    and the lock is free, the new snapshot has the time of the tick and every
    node of the shard map exactly once, either with the record it answered or as
    silent; nothing else the reports read is changed, the lock is free again, and
    the connectivity check gets the same records. *)
Theorem metadata_tick_spec (MR : GoRuntime) tolerance key chain shardMap now replies m :
  m_inUse m = false → shardMap ≠ ∅ → served (node_jobs shardMap NodeMetadataRPC) replies →
  let nodes := omap metadata_of_reply replies in
  let down := omap (silence_of_reply shardMap) replies in
  let container := MkMetadataContainer now nodes down in
  metadata_tick tolerance key chain shardMap now replies m
  = ([GoP2pMonitor tolerance key chain nodes],
     Some (set_MetadataSnapshot container (set_WorkingMetadata container m)))
  ∧ (nmd_IP <$> nodes) ++ (nr_IP <$> down) ≡ₚ (map_to_list shardMap).*1.
Proof.
  intros Hlock Hmap Hs. destruct (served_rpc _ _ _ _ Hmap Hs) as (Hne & Hrpc & Haddr).
  cbv zeta. split.
  2:{ rewrite <-Haddr. apply round_split.
      - intros d E. unfold metadata_of_reply. rewrite E. eauto.
      - intros d e E. unfold metadata_of_reply. by rewrite E. }
  destruct replies as [|d replies]; [done|]. unfold metadata_tick.
  assert ((fold_left (metadata_reply shardMap) (d :: replies) (set_metadata_TS now m, true)).1
    = set_WorkingMetadata (MkMetadataContainer now (omap metadata_of_reply (d :: replies))
        (omap (silence_of_reply shardMap) (d :: replies))) m) as E.
  { exact (metadata_replies_rest shardMap (d :: replies) m now [] [] Hrpc). }
  rewrite E. unfold with_lock. cbn. rewrite Hlock. cbn. by destruct m; cbn in *; subst.
Qed.

Lemma epoch_check_head prevEpoch node nodes :
  epoch_check prevEpoch node nodes
  = match head (filter (λ h, header_shard h = 0) nodes) with
    | Some h =>
        if prevEpoch <? header_epoch h then (header_epoch h, [GoStakingCommitteeUpdate node])
        else (prevEpoch, [])
    | None => (prevEpoch, [])
    end.
Proof.
  induction nodes as [|h nodes IH]; [done|]. cbn [epoch_check]. rewrite filter_cons.
  destruct (Z.eqb_spec (header_shard h) 0).
  - by rewrite decide_True.
  - by rewrite decide_False.
Qed.

(** C25: a header tick replaces the whole snapshot and follows the epoch. When
    the round was served and the lock is free, the new header snapshot has the
    time of the tick and every node exactly once, with its header or as silent; a
    committee update is started exactly when the first header of shard 0 received
    in the tick has an epoch above the last one seen, which it becomes. The list
    of silent nodes is in an array of its own. *)
Theorem header_tick_spec (MR : GoRuntime) shardMap now replies prevEpoch m :
  m_inUse m = false → shardMap ≠ ∅ → served (node_jobs shardMap BlockHeaderRPC) replies →
  let nodes := omap header_of_reply replies in
  let down := omap (silence_of_reply shardMap) replies in
  let container := MkBlockHeaderContainer now nodes down in
  ∃ a, (ar_id (m_DownArray m) < ar_id a)%nat ∧
  header_tick shardMap now replies prevEpoch m
  = Some (set_BlockHeaderSnapshot container (set_DownArray a (set_WorkingBlockHeader container m)),
      match head (filter (λ h, header_shard h = 0) nodes) with
      | Some h =>
          if prevEpoch <? header_epoch h then
            (header_epoch h, [GoStakingCommitteeUpdate (getBeaconChainNode shardMap)])
          else (prevEpoch, [])
      | None => (prevEpoch, [])
      end)
  ∧ (bhd_IP <$> nodes) ++ (nr_IP <$> down) ≡ₚ (map_to_list shardMap).*1.
Proof.
  intros Hlock Hmap Hs. destruct (served_rpc _ _ _ _ Hmap Hs) as (Hne & Hrpc & Haddr).
  cbv zeta. exists (append_arrays 0 (length (omap (silence_of_reply shardMap) replies))
    (empty_array (m_DownArray m))). split; [|split].
  3:{ rewrite <-Haddr. apply round_split.
      - intros d E. unfold header_of_reply. rewrite E. eauto.
      - intros d e E. unfold header_of_reply. by rewrite E. }
  2:{ destruct replies as [|d replies]; [done|]. unfold header_tick.
      assert ((fold_left (header_reply shardMap) (d :: replies) (set_header_TS now m, true)).1 = _) as ->
        by exact (header_replies_rest shardMap (d :: replies) m (empty_array (m_DownArray m)) now [] [] Hrpc).
      unfold with_lock. cbn [m_inUse set_WorkingBlockHeader set_DownArray]. rewrite Hlock.
      cbn [m_WorkingBlockHeader set_WorkingBlockHeader set_DownArray set_inUse bc_Nodes].
      rewrite epoch_check_head. do 2 f_equal. by destruct m; cbn in *; subst. }
  apply (append_arrays_id 0 _ (empty_array (m_DownArray m))).
Qed.

(** *** Epochs over many ticks *)

(** The epoch bookkeeping of a sequence of header ticks, each given by the
    headers it received. *)
Definition epoch_ticks (node : string) (ticks : list (list BlockHeader)) (prevEpoch : Z) :
    Z * list action :=
  fold_left (λ '(prev, acts) nodes,
    let '(prev', acts') := epoch_check prev node nodes in (prev', acts ++ acts'))
    ticks (prevEpoch, []).

(** Committees are not fetched twice for an epoch. Over any sequence of
    ticks the last epoch seen never goes back, and at most one committee update
    is started per epoch it advances. *)
Theorem epoch_ticks_bound node ticks prevEpoch :
  let '(prev', acts) := epoch_ticks node ticks prevEpoch in
  prevEpoch ≤ prev' ∧ Z.of_nat (length acts) ≤ prev' - prevEpoch.
Proof.
  unfold epoch_ticks.
  assert (∀ acc, let r := fold_left (λ '(prev, acts) nodes,
      let '(prev', acts') := epoch_check prev node nodes in (prev', acts ++ acts')) ticks acc in
    acc.1 ≤ r.1 ∧ Z.of_nat (length r.2) ≤ Z.of_nat (length acc.2) + (r.1 - acc.1)) as H.
  { induction ticks as [|nodes ticks IH]; intros [prev acts]; cbn [fold_left fst snd]; [lia|].
    destruct (epoch_check prev node nodes) as [prev1 acts1] eqn:E.
    specialize (IH (prev1, acts ++ acts1)). cbn [fst snd] in IH. rewrite length_app in IH.
    assert (prev ≤ prev1 ∧ Z.of_nat (length acts1) ≤ prev1 - prev); [|lia].
    rewrite epoch_check_head in E. destruct (head _) as [h|]; [|simplify_eq; cbn; lia].
    destruct (Z.ltb_spec prev (header_epoch h)); simplify_eq; cbn; lia. }
  specialize (H (prevEpoch, [])). destruct (fold_left _ _ _) as [prev' acts]. cbn in H. lia.
Qed.

(** The beacon node is a node of shard 0, if there is one. *)
Theorem getBeaconChainNode_spec (MR : GoRuntime) shardMap :
  (shardMap !! getBeaconChainNode shardMap = Some 0)
  ∨ (getBeaconChainNode shardMap = EmptyString ∧ ∀ k, shardMap !! k ≠ Some 0).
Proof.
  unfold getBeaconChainNode. destruct (list_find _ _) as [[i [k v]]|] eqn:E.
  - left. apply list_find_Some in E as (Hi%list_elem_of_lookup_2 & Hv & _). cbn in Hv. subst v.
    by apply elem_of_range.
  - right. split; [done|]. intros k Hk. apply list_find_None in E.
    rewrite Forall_forall in E. by apply (E (k, 0)); [apply elem_of_range|].
Qed.

(** A committee update asks the beacon node for the committees and stores
    exactly what a good answer says; without a good answer the committees stay
    as they were. The request is a JSON-RPC call of the committee method with
    id 0. *)
Theorem stakingCommitteeUpdate_spec client node m :
  let m' := (stakingCommitteeUpdate client node m).1 in
  ((∃ res, http_ok client ("http://" +:+ node) committee_request res
      ∧ m' = set_SuperCommittee (decode_committee res) m)
   ∨ (m' = m ∧ ∀ res, ¬ http_ok client ("http://" +:+ node) committee_request res))
  ∧ Unmarshal dec_RpcCall committee_request (MkRpcCall EmptyString EmptyString EmptyString)
    = MkRpcCall JSONVersion SuperCommitteeRPC "0".
Proof.
  cbv zeta. split; [|by apply marshal_request_roundtrip].
  unfold stakingCommitteeUpdate. set (body := committee_request).
  destruct (request client ("http://" +:+ node) body) as [[res payload] [e|]] eqn:E.
  - right. split; [done|]. intros res' Hok.
    rewrite (proj2 (request_ok_iff _ _ _ res' EmptyString) (conj Hok eq_refl)) in E. congruence.
  - left. apply request_ok_iff in E as [Hok _]. by exists res.
Qed.

(** *** The shard map *)

Lemma shard_map_flat `{MR : GoRuntime} sc :
  shard_map sc
  = fold_left (λ m '(n, k), <[n := k]> m) ((λ '(k, n), (n, k)) <$> all_nodes sc)
      (∅ : gmap string Z).
Proof.
  unfold shard_map, all_nodes. generalize (∅ : gmap string Z) as acc.
  induction (range sc) as [|[k v] l IH]; intros acc; [done|].
  cbn [mbind list_bind fold_left]. rewrite fmap_app, fold_left_app, IH. f_equal. clear.
  revert acc. induction (c_members v) as [|n ns IH]; intros acc; [done|]. cbn. apply IH.
Qed.

Lemma all_nodes_perm (MR MR' : GoRuntime) sc : all_nodes (MR := MR) sc ≡ₚ all_nodes (MR := MR') sc.
Proof.
  unfold all_nodes. rewrite (range_perm (GoRuntime := MR) sc), (range_perm (GoRuntime := MR') sc). done.
Qed.

Lemma elem_of_all_nodes (MR : GoRuntime) sc k n :
  (k, n) ∈ all_nodes sc ↔ ∃ c, sc !! k = Some c ∧ n ∈ c_members c.
Proof.
  unfold all_nodes. rewrite list_elem_of_bind. split.
  - intros ([k' c] & Hin & Hr%elem_of_range).
    apply list_elem_of_fmap in Hin as (n' & [= -> ->] & Hn). eauto.
  - intros (c & Hc & Hn). exists (k, c). split; [by apply list_elem_of_fmap_2|].
    by apply elem_of_range.
Qed.

(** Every node gets the shard of its list. For committees without duplicate
    nodes, as [newInstructions] guarantees, the shard map sends exactly the
    members of the committee of shard [k] to [k], whatever the iteration order. *)
Theorem shard_map_spec (MR MR' : GoRuntime) sc n k :
  NoDup (all_nodes (MR := MR') sc).*2 →
  shard_map (MR := MR) sc !! n = Some k ↔ ∃ c, sc !! k = Some c ∧ n ∈ c_members c.
Proof.
  intros Hnd. rewrite shard_map_flat, <-(elem_of_all_nodes MR).
  rewrite (fold_insert_Some id id).
  - rewrite lookup_empty. split.
    + intros [(n' & k' & Hin & -> & ->)|[? _]]; [|done].
      apply list_elem_of_fmap in Hin as ([k0 n0] & [= -> ->] & Hin). done.
    + intros Hin. left. exists n, k. split; [|done].
      apply list_elem_of_fmap. by exists (k, n).
  - rewrite <-list_fmap_compose. rewrite (all_nodes_perm MR MR').
    erewrite list_fmap_ext; [exact Hnd|]. by intros ? [].
Qed.

(** ** Concrete ticks *)

Module ManagerWitness.
Definition shardMap : gmap string Z := {["n"%string := 0]}.
Definition client : http_client := λ _ _,
  inr (200, print (JObj [("result"%string, JObj [("epoch"%string, JNum "9")])])).
Definition replies (rpc : string) : list reply := [do_work client (job rpc "n")].
Definition sc : gmap Z committee := {[0 := MkCommittee "shard0.txt" ["n"]]}.

Lemma served_replies rpc :
  served (node_jobs (MR := range_ref) shardMap rpc) (replies rpc).
Proof.
  replace (node_jobs (MR := range_ref) shardMap rpc) with [job rpc "n"] by (vm_compute; reflexivity).
  exists (replies rpc). split; [|reflexivity].
  constructor; [exists client; reflexivity|constructor].
Qed.

Lemma nonempty : shardMap ≠ ∅.
Proof. apply map_non_empty_singleton. Qed.
End ManagerWitness.

Lemma metadata_tick_spec_witness :
  ∃ c, metadata_tick 33 "key" "testnet" ManagerWitness.shardMap (Unix 5)
      (ManagerWitness.replies NodeMetadataRPC) (new_monitor "testnet")
    = ([GoP2pMonitor 33 "key" "testnet" (mc_Nodes c)],
       Some (set_MetadataSnapshot c (set_WorkingMetadata c (new_monitor "testnet")))).
Proof.
  exists (MkMetadataContainer (Unix 5)
    (omap metadata_of_reply (ManagerWitness.replies NodeMetadataRPC))
    (omap (silence_of_reply ManagerWitness.shardMap) (ManagerWitness.replies NodeMetadataRPC))).
  exact (proj1 (metadata_tick_spec range_ref 33 "key" "testnet" ManagerWitness.shardMap
    (Unix 5) (ManagerWitness.replies NodeMetadataRPC) (new_monitor "testnet") eq_refl
    ManagerWitness.nonempty (ManagerWitness.served_replies NodeMetadataRPC))).
Defined.

Lemma header_tick_spec_witness :
  ∃ c a r, header_tick (MR := range_ref) ManagerWitness.shardMap (Unix 5)
      (ManagerWitness.replies BlockHeaderRPC) 0 (new_monitor "testnet")
    = Some (set_BlockHeaderSnapshot c
              (set_DownArray a (set_WorkingBlockHeader c (new_monitor "testnet"))), r).
Proof.
  exists (MkBlockHeaderContainer (Unix 5)
    (omap header_of_reply (ManagerWitness.replies BlockHeaderRPC))
    (omap (silence_of_reply ManagerWitness.shardMap) (ManagerWitness.replies BlockHeaderRPC))).
  destruct (header_tick_spec range_ref ManagerWitness.shardMap
    (Unix 5) (ManagerWitness.replies BlockHeaderRPC) 0 (new_monitor "testnet") eq_refl
    ManagerWitness.nonempty (ManagerWitness.served_replies BlockHeaderRPC)) as (a & _ & E & _).
  exists a. eexists. exact E.
Defined.

Lemma shard_map_spec_witness : shard_map (MR := range_ref) ManagerWitness.sc !! "n"%string = Some 0.
Proof.
  refine (proj2 (shard_map_spec range_ref range_ref ManagerWitness.sc "n" 0 _) _).
  - replace ((all_nodes (MR := range_ref) ManagerWitness.sc).*2) with ["n"%string]
      by (vm_compute; reflexivity).
    apply NoDup_singleton.
  - exists (MkCommittee "shard0.txt" ["n"%string]). split; [reflexivity|apply list_elem_of_here].
Defined.
