(* ===== verification/Daemon.v ===== *)
(** * The program around the monitors

    The command tree and the handlers of daemon-cmds.go, [monitorNetwork],
    [acceptConnection], [versionS] and the root command of root.go,
    [startReportingHTTPServer] of reporting-server.go and [main]. The daemon
    library, the network, the YAML printer and cobra's reading of the command
    line (class [Cobra]) are arguments. *)

From S2P Require Import Prelude GoFmt GoTime GoJson Rpc Linq Alerts Summary Monitor Config Manager.

(** ** State *)

(** takama/daemon: [New] and the methods of the object it returns; each gives an
    error or the text to print. *)
Record daemon_lib (D : Type) : Type := MkDaemonLib {
  dl_New : string → string → list string → string + D;
  dl_Install : D → list string → string + string;
  dl_Remove : D → string + string;
  dl_Start : D → string + string;
  dl_Stop : D → string + string;
  dl_Status : D → string + string;
}.
Arguments dl_New {D}.
Arguments dl_Install {D}.
Arguments dl_Remove {D}.
Arguments dl_Start {D}.
Arguments dl_Stop {D}.
Arguments dl_Status {D}.

(** [Service]; [monitor] and [instruction] are pointers. *)
Record Service (D : Type) : Type := MkService {
  s_Daemon : D;
  s_monitor : option monitor;
  s_instruction : option instruction;
}.
Arguments MkService {D}.
Arguments s_Daemon {D}.
Arguments s_monitor {D}.
Arguments s_instruction {D}.

(** The errors the commands return. *)
Inductive command_error : Type :=
  | ConfigError (e : config_error)
  | LibraryError (e : string)
  | ListenError (e : string)
  | YamlPrintError (e : string)
  | UnknownCommand                  (** cobra: the command line has no meaning *)
  | RequiredFlagNotSet              (** cobra: a flag marked as required is missing *)
  | errSysIntrpt
  | errDaemonKilled.

(** What a command prints, and the error it returns. *)
Definition result : Type := list string * option command_error.

Definition installD : string := "install the harmony-watchdogd service".
Definition removeD : string := "remove the harmony-watchdogd service".
Definition startD : string := "start the harmony-watchdogd service".
Definition stopD : string := "stop the harmony-watchdogd service".
Definition statusD : string := "check status of the harmony-watchdogd service".
Definition mCmd : string := "monitor".
Definition mFlag : string := "yaml-config".
Definition mDescr : string := "yaml detailing what to watch [required]".

(** The command line [install] registers for the service. *)
Definition installD_args (path : string) : list string := [mCmd; "--" +:+ mFlag; path].
Definition nameFMT : string := "harmony-watchdogd@%s".
Definition description : string := "Monitor the Harmony blockchain -- `%i`".

(** ** Network *)

Inductive os_signal : Type := Interrupt | SIGTERM.

(** The goroutines [monitorNetwork] starts. *)
Inductive spawned : Type :=
  | GoReportingServer (i : instruction)
  | GoAcceptConnection (address : string).

Definition signal_name (s : os_signal) : string :=
  match s with Interrupt => "interrupt" | SIGTERM => "terminated" end.

(** [monitorNetwork]; [listen] is [net.Listen] (an error or the address) and
    [killSignal] the signal it waits for. *)
Definition monitorNetwork (listen : string → string + string) (killSignal : os_signal)
    (i : instruction) : list spawned * list string * command_error :=
  match listen (":" +:+ Itoa (int64 (wp_Port (i_params i) + 1))) with
  | inl e => ([], [], ListenError e)
  | inr addr =>
      ([GoReportingServer i; GoAcceptConnection addr],
       ["[monitorNetwork] Got signal: " +:+ signal_name killSignal;
        "[monitorNetwork] Stopping listening on  " +:+ addr],
       match killSignal with Interrupt => errSysIntrpt | SIGTERM => errDaemonKilled end)
  end.

(** [acceptConnection] on a sequence of results of [Accept]: the channel, with
    room for 100 connections and no receiver, and whether the send blocks. *)
Fixpoint acceptConnection {C : Type} (accepts : list (option C)) (listen : list C) :
    list C * bool :=
  match accepts with
  | [] => (listen, false)
  | None :: accepts => acceptConnection accepts listen
  | Some conn :: accepts =>
      if (length listen <? 100)%nat then acceptConnection accepts (listen ++ [conn])
      else (listen, true)
  end.

(** ** HTTP *)

Inductive page : Type := RenderReport | ProduceCSV | NetworkJSON | StatusJSON.

(** The fields of [fasthttp.Client] it sets: the time-out for connecting, in
    nanoseconds, and the connections per host. *)
Record client_config : Type := MkClientConfig { fc_DialTimeout : Z; fc_MaxConnsPerHost : Z }.

(** [startReportingHTTPServer]: the client of all requests, what [update] starts,
    the patterns it registers and the address it serves. *)
Definition startReportingHTTPServer `{MR : GoRuntime} (instrs : instruction) :
    client_config * (gmap string Z * list goroutine) * list (string * page) * string :=
  let chain := wp_TargetChain (i_params instrs) in
  (MkClientConfig (int64 (Second * wp_HTTPTimeout (i_params instrs))) 2048,
   update (i_params instrs) (i_superCommittee instrs) [BlockHeaderRPC; NodeMetadataRPC],
   [("/report-" +:+ chain, RenderReport); ("/report-download-" +:+ chain, ProduceCSV);
    ("/network-" +:+ chain, NetworkJSON); ("/status-" +:+ chain, StatusJSON)],
   ":" +:+ Itoa (wp_Port (i_params instrs))).

(** ** Commands *)

(** What a command runs. *)
Inductive command : Type :=
  | CInstall | CStart | CRemove | CStop | CStatus   (** of [serviceCmd] *)
  | CMonitor | CGenerateSample | CVersion
  | CHelp.                                          (** [cmd.Help()] *)

(** [cobra.Command]: its name and description ([Short], of the root [Long]),
    whether it has the hook [PersistentPreRunE], which is always [preRunInit], what
    it runs, and its flags, all of them required. *)
Inductive cobra_command : Type :=
  Command (Use description : string) (PersistentPreRunE : bool) (run : command)
    (flags : list (string * string)) (subcommands : list cobra_command).

Definition c_Use (c : cobra_command) : string := let 'Command u _ _ _ _ _ := c in u.
Definition c_hook (c : cobra_command) : bool := let 'Command _ _ h _ _ _ := c in h.
Definition c_run (c : cobra_command) : command := let 'Command _ _ _ r _ _ := c in r.
Definition c_flags (c : cobra_command) : list (string * string) := let 'Command _ _ _ _ f _ := c in f.
Definition c_subcommands (c : cobra_command) : list cobra_command :=
  let 'Command _ _ _ _ _ s := c in s.

Definition monitorCmd : cobra_command :=
  Command mCmd "start watching the blockchain for problems" true CMonitor [(mFlag, mDescr)] [].

Definition generate_sample : cobra_command :=
  Command "generate-sample" "print sample yaml config file" false CGenerateSample [] [].

Definition serviceCmd : cobra_command :=
  Command "service" "Control the daemon functionality of harmony-watchdogd" true CHelp []
    [Command "install" installD false CInstall [(mFlag, mDescr)] [];
     Command "start" startD false CStart [] [];
     Command "remove" removeD false CRemove [] [];
     Command "stop" stopD false CStop [] [];
     Command "status" statusD false CStatus [] []].

Definition version_command : cobra_command := Command "version" "Show version" false CVersion [] [].

(** What [init] adds to [rootCmd]. *)
Definition root_commands : list cobra_command :=
  [version_command; serviceCmd; monitorCmd; generate_sample].

Definition rootCmd : cobra_command :=
  Command "harmony-watchdogd" "Monitor a Harmony blockchain" false CHelp [] root_commands.

(** The commands a sequence of words leads through, from [c] on. *)
Inductive leads_to : cobra_command → list string → list cobra_command → Prop :=
  | leads_here c : leads_to c [] [c]
  | leads_down c sub words chain :
      sub ∈ c_subcommands c → leads_to sub words chain →
      leads_to c (c_Use sub :: words) (c :: chain).

(** How cobra reads a command line of the program: the commands it leads through,
    and the value given to a flag of the last one. *)
Class Cobra : Type := {
  resolve : cobra_command → list string → option (list cobra_command * option (string * string));
  resolve_words words chain :
    leads_to rootCmd words chain → resolve rootCmd words = Some (chain, None);
  resolve_flag words chain last_command name usage value :
    leads_to rootCmd words chain → last chain = Some last_command →
    (name, usage) ∈ c_flags last_command →
    resolve rootCmd (words ++ ["--" +:+ name; value]) = Some (chain, Some (name, value));
}.

Definition versionS (arg0 version commit builtBy builtAt : string) : string :=
  Sprintf "Harmony (C) 2020. %v, version %v-%v (%v %v)"
    [OStr (Base arg0); OStr version; OStr commit; OStr builtBy; OStr builtAt].

Section commands.
Context {D : Type} (lib : daemon_lib D) `{CB : Cobra} `{MR : GoRuntime} (sys : system).
Context (Marshal : watchParams → string + string) (listen : string → string + string).

(** [preRunInit]: a nil instruction without an error is dereferenced. *)
Definition preRunInit (monitorNodeYAML : string) : outcome (command_error + Service D) :=
  match newInstructions sys monitorNodeYAML with
  | (_, Some err) => Done (inl (ConfigError err))
  | (None, None) => Panic "invalid memory address or nil pointer dereference"
  | (Some instr, None) =>
      Done (match dl_New lib (Sprintf nameFMT [OStr (wp_TargetChain (i_params instr))])
                    description [] with
            | inl e => inl (LibraryError e)
            | inr dm => inr (MkService dm None (Some instr))
            end)
  end.

(** The end of every service command: return the error or print the text. *)
Definition finish (r : string + string) : result :=
  match r with inl e => ([], Some (LibraryError e)) | inr text => ([text], None) end.

Definition install (monitorNodeYAML : string) (cw : Service D) : result :=
  finish (dl_Install lib (s_Daemon cw) (installD_args monitorNodeYAML)).
Definition remove (cw : Service D) : result := finish (dl_Remove lib (s_Daemon cw)).
Definition start (cw : Service D) : result := finish (dl_Start lib (s_Daemon cw)).
Definition stop (cw : Service D) : result := finish (dl_Stop lib (s_Daemon cw)).
Definition status (cw : Service D) : result := finish (dl_Status lib (s_Daemon cw)).

(** [doMonitor]: the service with its new monitor, and how it ends. *)
Definition doMonitor (killSignal : os_signal) (cw : Service D) :
    outcome (Service D * (list spawned * result)) :=
  match s_instruction cw with
  | None => Panic "invalid memory address or nil pointer dereference"
  | Some i =>
      let cw := MkService (s_Daemon cw) (Some (new_monitor (wp_TargetChain (i_params i))))
                  (Some i) in
      let '(started, out, err) := monitorNetwork listen killSignal i in
      Done (cw, (started, (out, Some err)))
  end.

Definition generateSampleYAML : result :=
  match Marshal sampleParams with
  | inl e => ([], Some (YamlPrintError e))
  | inr text => ([text], None)
  end.

(** What the command itself does. *)
Definition run_command (killSignal : os_signal) (version_text : string) (help : cobra_command → string)
    (c : cobra_command) (monitorNodeYAML : string) (w : option (Service D)) : outcome result :=
  let service (f : Service D → outcome result) : outcome result :=
    match w with
    | Some cw => f cw
    | None => Panic "invalid memory address or nil pointer dereference"
    end in
  match c_run c with
  | CInstall => service (λ cw, Done (install monitorNodeYAML cw))
  | CStart => service (λ cw, Done (start cw))
  | CRemove => service (λ cw, Done (remove cw))
  | CStop => service (λ cw, Done (stop cw))
  | CStatus => service (λ cw, Done (status cw))
  | CMonitor => service (λ cw, r ← doMonitor killSignal cw; Done r.2.2)
  | CGenerateSample => Done generateSampleYAML
  | CVersion => Done ([Sprintf version_text []], None)   (** the text is the format *)
  | CHelp => Done ([help c], None)
  end.

(** Cobra runs the hook of the nearest command of the chain that has one, checks
    that the required flags were set, and runs the last command. [w] is nil until
    the hook sets its service. *)
Definition execute (killSignal : os_signal) (version_text : string) (help : cobra_command → string)
    (args : list string) : outcome result :=
  match resolve rootCmd args with
  | None => Done ([], Some UnknownCommand)
  | Some (chain, flag) =>
      let monitorNodeYAML := match flag with Some (_, value) => value | None => EmptyString end in
      match last chain with
      | None => Done ([], None)
      | Some c =>
          hooked ← (if existsb c_hook chain then preRunInit monitorNodeYAML ≫= λ r, Done (Some r)
                    else Done None);
          match hooked with
          | Some (inl err) => Done ([], Some err)
          | _ =>
              let w := match hooked with Some (inr cw) => Some cw | _ => None end in
              if bool_decide (flag = None) && negb (bool_decide (c_flags c = [])) then
                Done ([], Some RequiredFlagNotSet)
              else run_command killSignal version_text help c monitorNodeYAML w
          end
      end
  end.
End commands.

(** [main]: the exit status; a panic ends a Go program with status 2. *)
Definition main (r : outcome result) : Z :=
  match r with
  | Done (_, Some _) => (-1) mod 256
  | Done (_, None) => 0
  | Panic _ => 2
  end.

(** ** Theorems *)

(** The channel keeps the first hundred connections for ever; the next one
    blocks the goroutine. *)
Lemma acceptConnection_queue {C} (accepts : list (option C)) (listen : list C) :
  (length listen ≤ 100)%nat →
  acceptConnection accepts listen
  = (take 100 (listen ++ omap id accepts),
     bool_decide (100 < length (listen ++ omap id accepts))%nat).
Proof.
  revert listen. induction accepts as [|[conn|] accepts IH]; intros listen Hl; cbn [acceptConnection omap list_omap id].
  - rewrite app_nil_r, take_ge by lia. by rewrite bool_decide_eq_false_2 by lia.
  - destruct (Nat.ltb_spec (length listen) 100) as [Hlt|Hge].
    + rewrite IH by (rewrite length_app; cbn; lia). by rewrite <-app_assoc.
    + assert (length listen = 100%nat) as E by lia. rewrite take_app_le by lia.
      rewrite (take_ge listen) by lia.
      rewrite bool_decide_eq_true_2; [done|]. rewrite length_app. cbn [length]. lia.
  - by apply IH.
Qed.

(** The four patterns differ for every chain name, so that [http.HandleFunc]
    does not panic on a duplicate registration. *)
Lemma patterns_distinct `{MR : GoRuntime} instrs :
  NoDup (startReportingHTTPServer instrs).1.2.*1.
Proof.
  cbn. set (chain := wp_TargetChain _). clearbody chain. cbn.
  rewrite !NoDup_cons. split_and!; try apply NoDup_nil_2; rewrite ?elem_of_cons, ?elem_of_nil;
    try naive_solver.
  intros [E|[E|[E|[]]]]; try done. injection E as E.
  apply (f_equal String.length) in E. rewrite !length_app_string in E. cbn in E. lia.
Qed.

(** The sample configuration passes the sanity check once its node lists exist,
    and they are the lists of shards 0 to 3. *)
Lemma sampleParams_sane sys :
  Forall (λ f, NotExist sys f = false) (wp_MachineIPList sampleParams) →
  sanityCheck sys sampleParams = None
  ∧ file_shard <$> wp_MachineIPList sampleParams = Some <$> [0; 1; 2; 3].
Proof.
  intros H. split; [|vm_compute; reflexivity]. unfold sanityCheck, sanity_errors.
  cbn [wp_MachineIPList sampleParams] in H. rewrite !Forall_cons in H.
  destruct H as (H1 & H2 & H3 & H4 & _). cbn. by rewrite H1, H2, H3, H4.
Qed.

(** *** The command line *)

(** Words that lead to a command of the tree. *)
Lemma leads_monitor : leads_to rootCmd [mCmd] [rootCmd; monitorCmd].
Proof. apply (leads_down rootCmd monitorCmd); [cbn; set_solver|constructor]. Qed.

Lemma leads_service sub :
  sub ∈ c_subcommands serviceCmd → leads_to rootCmd ["service"; c_Use sub] [rootCmd; serviceCmd; sub].
Proof.
  intros Hs. apply (leads_down rootCmd serviceCmd); [cbn; set_solver|].
  apply leads_down; [done|constructor].
Qed.

Section command_lines.
Context {D : Type} (lib : daemon_lib D) (CB : Cobra) (MR : GoRuntime) (sys : system).
Context (Marshal : watchParams → string + string) (listen : string → string + string).
Context (killSignal : os_signal) (version_text : string) (help : cobra_command → string).

#[local] Notation execute := (execute lib sys Marshal listen killSignal version_text help).

Lemma execute_monitor path :
  execute (installD_args path)
  = (r ← preRunInit lib sys path;
     match r with
     | inl err => Done ([], Some err)
     | inr cw => r ← doMonitor listen killSignal cw; Done r.2.2
     end).
Proof.
  unfold Daemon.execute.
  rewrite (resolve_flag [mCmd] [rootCmd; monitorCmd] monitorCmd mFlag mDescr path
    leads_monitor) by (done || set_solver).
  cbn [last existsb c_hook rootCmd monitorCmd orb]. by destruct (preRunInit lib sys path) as [[|]|].
Qed.

Lemma execute_install path :
  execute ["service"; "install"; "--" +:+ mFlag; path]
  = (r ← preRunInit lib sys path;
     Done (match r with inl err => ([], Some err) | inr cw => install lib path cw end)).
Proof.
  set (inst := Command "install" installD false CInstall [(mFlag, mDescr)] []).
  unfold Daemon.execute.
  change ["service"; "install"; "--" +:+ mFlag; path]
    with (["service"; "install"] ++ ["--" +:+ mFlag; path]).
  rewrite (resolve_flag ["service"; "install"] [rootCmd; serviceCmd; inst] inst mFlag mDescr path
    (leads_service inst ltac:(cbn; set_solver))) by (done || set_solver).
  cbn [last existsb c_hook rootCmd serviceCmd orb]. by destruct (preRunInit lib sys path) as [[|]|].
Qed.

(** A command of the service without the flag. *)
Lemma execute_service words chain :
  leads_to rootCmd words chain → serviceCmd ∈ chain →
  ∃ k, execute words = (r ← preRunInit lib sys EmptyString;
                        match r with inl err => Done ([], Some err) | inr cw => k cw end).
Proof.
  intros Hl Hs. unfold Daemon.execute. rewrite (resolve_words words chain Hl).
  assert (existsb c_hook chain = true) as ->.
  { apply existsb_exists. exists serviceCmd. split; [by apply list_elem_of_In|done]. }
  destruct (last chain) as [c|] eqn:Ec.
  - eexists (λ cw, if bool_decide (None = None) && _ then _ else run_command lib Marshal listen killSignal
      version_text help c EmptyString (Some cw)).
    destruct (preRunInit lib sys EmptyString) as [[|]|]; reflexivity.
  - apply last_None in Ec. subst chain. set_solver.
Qed.
End command_lines.


(** C39: the service can be installed but not controlled. With a good configuration
    [service install] registers with the daemon library a command line that the
    command tree itself reads as [monitor] with that configuration. The other
    commands of the service, and [service] alone, read the configuration first,
    but have no flag for it: they open the empty path, and return the error of
    that without asking the daemon library for anything. *)
Theorem service_commands {D} (lib : daemon_lib D) (CB : Cobra) (MR : GoRuntime) sys Marshal listen
    killSignal version_text help e path i dm :
  let execute := execute lib sys Marshal listen killSignal version_text help in
  ReadFile sys EmptyString = inl e →
  newInstructions sys path = (Some i, None) →
  dl_New lib (Sprintf nameFMT [OStr (wp_TargetChain (i_params i))]) description [] = inr dm →
  execute ["service"; "install"; "--yaml-config"; path]
  = Done (finish (dl_Install lib dm (installD_args path)))
  ∧ execute (installD_args path)
    = (r ← doMonitor listen killSignal (MkService dm None (Some i)); Done r.2.2)
  ∧ Forall (λ args, execute args = Done ([], Some (ConfigError (ReadError e))))
      [["service"]; ["service"; "start"]; ["service"; "remove"]; ["service"; "stop"];
       ["service"; "status"]].
Proof.
  intros execute He Hi Hdm.
  assert (preRunInit lib sys path = Done (inr (MkService dm None (Some i)))) as Hpre.
  { unfold preRunInit. by rewrite Hi, Hdm. }
  assert (∀ words chain, leads_to rootCmd words chain → serviceCmd ∈ chain →
    execute words = Done ([], Some (ConfigError (ReadError e)))) as Hs.
  { intros words chain Hl Hc. unfold execute.
    destruct (execute_service lib CB MR sys Marshal listen killSignal version_text help words chain Hl Hc)
      as [k ->]. unfold preRunInit, newInstructions. by rewrite He. }
  split; [|split].
  - unfold execute. change "--yaml-config"%string with ("--" +:+ mFlag). by rewrite execute_install, Hpre.
  - unfold execute. by rewrite execute_monitor, Hpre.
  - constructor; [apply (Hs _ [rootCmd; serviceCmd])|].
    { apply (leads_down rootCmd serviceCmd); [cbn; set_solver|constructor]. }
    { set_solver. }
    change [["service"; "start"]; ["service"; "remove"]; ["service"; "stop"]; ["service"; "status"]]%string
      with ((λ c, ["service"%string; c_Use c]) <$> tail (c_subcommands serviceCmd)).
    apply Forall_fmap, Forall_forall. intros c Hc. eapply Hs; [apply leads_service|set_solver].
    cbn [tail c_subcommands serviceCmd] in *. set_solver.
Qed.

(** *** A reader of command lines *)

(** The subcommands of a command have distinct names, none of which looks like a
    flag. *)
Definition is_flag (word : string) : bool := String.prefix "-" word.

Fixpoint proper_names (c : cobra_command) : bool :=
  let 'Command _ _ _ _ _ subs := c in
  bool_decide (NoDup (c_Use <$> subs)) && forallb (λ s, negb (is_flag (c_Use s))) subs
  && forallb proper_names subs.

Lemma rootCmd_names : proper_names rootCmd = true.
Proof. vm_compute. reflexivity. Qed.

Definition find_sub (w : string) (subs : list cobra_command) : option cobra_command :=
  snd <$> list_find (λ c, c_Use c = w) subs.

Fixpoint resolve_ref (c : cobra_command) (args : list string) :
    option (list cobra_command * option (string * string)) :=
  match args with
  | [] => Some ([c], None)
  | w :: args =>
      if is_flag w then
        match list_find (λ f, "--" +:+ f.1 = w) (c_flags c), args with
        | Some (_, (name, _)), [value] => Some ([c], Some (name, value))
        | _, _ => None
        end
      else
        sub ← find_sub w (c_subcommands c);
        '(chain, flag) ← resolve_ref sub args;
        Some (c :: chain, flag)
  end.

Lemma find_sub_elem c sub :
  proper_names c = true → sub ∈ c_subcommands c →
  find_sub (c_Use sub) (c_subcommands c) = Some sub ∧ is_flag (c_Use sub) = false
  ∧ proper_names sub = true.
Proof.
  destruct c as [u sh h r f subs]. cbn. intros [[Hd%bool_decide_eq_true_1 Hf]%andb_prop Hn]%andb_prop Hin.
  rewrite forallb_forall in Hf, Hn. apply list_elem_of_In in Hin as Hin'.
  split_and!; [|by apply negb_true_iff, Hf|by apply Hn]. unfold find_sub.
  destruct (list_find_elem_of (λ c, c_Use c = c_Use sub) subs sub Hin eq_refl) as [[i c] Hc].
  rewrite Hc. apply list_find_Some in Hc as (Hc & E & _). cbn. f_equal.
  eapply (NoDup_fmap_eq c_Use subs); try done. by eapply list_elem_of_lookup_2.
Qed.

Lemma resolve_ref_words c words chain :
  proper_names c = true → leads_to c words chain → resolve_ref c words = Some (chain, None).
Proof.
  intros Hp Hl. induction Hl as [c|c sub words chain Hin _ IH]; [done|].
  destruct (find_sub_elem c sub Hp Hin) as (E1 & E2 & E3). cbn. by rewrite E2, E1; cbn; rewrite IH.
Qed.

Lemma resolve_ref_flag c words chain lc name usage value :
  proper_names c = true → leads_to c words chain → last chain = Some lc →
  (name, usage) ∈ c_flags lc →
  resolve_ref c (words ++ ["--" +:+ name; value]) = Some (chain, Some (name, value)).
Proof.
  intros Hp Hl. induction Hl as [c|c sub words chain Hin Hl IH].
  - intros [= <-] Hf. cbn [app resolve_ref].
    destruct (list_find_elem_of (λ f : string * string, "--" +:+ f.1 = "--" +:+ name) (c_flags c)
      (name, usage) Hf eq_refl) as [[i [n u]] Hn]. rewrite Hn.
    apply list_find_Some in Hn as (_ & E & _). cbn in E.
    apply (inj (String.append "--")) in E. by subst n.
  - intros Hlast Hf. destruct (find_sub_elem c sub Hp Hin) as (E1 & E2 & E3).
    rewrite <-app_comm_cons. cbn [resolve_ref]. rewrite E2, E1. cbn [mbind option_bind].
    rewrite IH; [done|done| |done]. destruct chain; [by inversion Hl|done].
Qed.

#[global, refine] Instance cobra_ref : Cobra := {| resolve := resolve_ref |}.
Proof.
  - intros words chain. apply resolve_ref_words, rootCmd_names.
  - intros words chain lc name usage value. apply resolve_ref_flag, rootCmd_names.
Defined.

Module DaemonWitness.
Definition sys : system :=
  MkSystem (λ path, if decide (path = EmptyString) then inl "open : no such file or directory"%string
                    else inr "yaml"%string)
    (λ _, inr sampleParams) (λ _, false) (λ path, Some (path, None)).
Definition lib : daemon_lib unit :=
  MkDaemonLib unit (λ _ _ _, inr ()) (λ _ _, inr "ok"%string) (λ _, inr "ok"%string)
    (λ _, inr "ok"%string) (λ _, inr "ok"%string) (λ _, inr "ok"%string).
Definition instr : instruction :=
  match newInstructions (MR := range_ref) sys "watchdog.yaml" with
  | (Some i, None) => i
  | _ => MkInstruction sampleParams ∅
  end.
End DaemonWitness.


Lemma service_commands_witness :
  let execute := execute (CB := cobra_ref) (MR := range_ref) DaemonWitness.lib DaemonWitness.sys
    (λ _, inr EmptyString) (λ a, inr a) SIGTERM "v" (λ _, "help"%string) in
  execute ["service"; "install"; "--yaml-config"; "watchdog.yaml"] = Done (["ok"%string], None)
  ∧ execute ["service"; "start"]
    = Done ([], Some (ConfigError (ReadError "open : no such file or directory"%string))).
Proof.
  destruct (service_commands DaemonWitness.lib cobra_ref range_ref DaemonWitness.sys
    (λ _, inr EmptyString) (λ a, inr a) SIGTERM "v" (λ _, "help"%string)
    "open : no such file or directory" "watchdog.yaml" DaemonWitness.instr ()) as (H1 & _ & H2).
  - reflexivity.
  - vm_compute. reflexivity.
  - reflexivity.
  - split; [exact H1|]. by rewrite !Forall_cons in H2.
Defined.
