(* ===== verification/Reports.v ===== *)
(** * Reports (reporting-server.go)

    The HTTP handlers: [networkSnapshot] and [statusSnapshot] behind the JSON
    reports, [renderReport], and [produceCSV]. They share the monitor with the
    managers through the mutex [inUse]. *)

From S2P Require Import Prelude GoFloat GoFmt GoTime GoJson Rpc Linq Alerts Summary Monitor.
From S2P Require Import Manager.

(** ** Handlers and the lock

    A handler that finds the mutex held waits: [None]. A handler that panics
    while it holds the mutex never releases it; the HTTP server recovers the
    panic, so the process lives on with the mutex held. *)
Definition handler (A : Type) : Type := monitor → option (monitor * outcome A).

Definition locked {A} (body : monitor → monitor * outcome A) : handler A := λ m,
  if m_inUse m then None
  else
    let '(m', r) := body (set_inUse true m) in
    Some (match r with Done _ => set_inUse false m' | Panic _ => m' end, r).

(** Sequencing: a panic ends the handler. *)
Definition and_then {A B} (h : handler A) (k : A → handler B) : handler B := λ m,
  match h m with
  | None => None
  | Some (m', Done a) => k a m'
  | Some (m', Panic w) => Some (m', Panic w)
  end.

(** What other goroutines do between two critical sections of a handler. *)
Definition interfere {A} (env : monitor → monitor) (h : handler A) : handler A := λ m, h (env m).

Notation summary := (gmap string (gmap string iface)).

(** [m.BlockHeaderSnapshot.Nodes], whose signatures [summaryMaps] shortens in
    place. *)
Definition set_snapshot_headers (nodes : list BlockHeader) (m : monitor) : monitor :=
  let c := m_BlockHeaderSnapshot m in
  set_BlockHeaderSnapshot (MkBlockHeaderContainer (bc_TS c) nodes (bc_Down c)) m.

(** [sum[key][k].(any)[field] = v] when the entry is present. *)
Definition set_field (key k field : string) (v : leaf) (sum : summary) : outcome summary :=
  let inner := default ∅ (sum !! key) in
  match inner !! k with
  | None => Done sum
  | Some e =>
      a ← as_any (Some e);
      Done (<[key := <[k := IAny (<[field := v]> a)]> inner]> sum)
  end.

Record networkReport : Type := MkNetworkReport {
  rp_Build : string;
  rp_Chain : string;
  rp_ConsensusProgress : gmap string bool;
  rp_Summary : summary;
  rp_NoReplies : list noReply;
}.

Definition is_leader (n : NodeMetadata) : Prop := nm_IsLeader (nmd_Payload n) = true.
#[global] Instance is_leader_dec n : Decision (is_leader n).
Proof. unfold is_leader. apply _. Defined.

(** The leaders of one version's records, added under their shard. *)
Definition add_leaders (leaders : gmap string (list string)) (records : list NodeMetadata) :
    gmap string (list string) :=
  fold_left (λ leaders n, map_append (Itoa (meta_shard n)) (nmd_IP n) leaders)
    (filter is_leader records) leaders.

Definition leaders_step (e : string * iface) (leaders : gmap string (list string)) :
    outcome (gmap string (list string)) :=
  a ← as_map (Some e.2);
  records ← as_metas (a !! "records");
  Done (add_leaders leaders records).

Section reports.
Context `{L : Linq} `{MR : GoRuntime}.
(** [buildVersion], fixed at start-up. *)
Context (buildVersion : string).

(** The first critical section of both snapshots. *)
Definition take_summary (m : monitor) : monitor * outcome summary :=
  match summaryMaps (mc_Nodes (m_MetadataSnapshot m)) (bc_Nodes (m_BlockHeaderSnapshot m)) with
  | Done (sum, headers) => (set_snapshot_headers headers m, Done sum)
  | Panic w => (set_snapshot_headers (shortened (bc_Nodes (m_BlockHeaderSnapshot m))) m, Panic w)
  end.

(** The leaders of each shard, from the records of every version. *)
Definition report_leaders (sum : summary) : outcome (gmap string (list string)) :=
  for_each leaders_step (range (default ∅ (sum !! metaSumry))) ∅.

(** The second critical section: progress, silent nodes and cross links. *)
Definition finish_report (sum : summary) (m : monitor) : monitor * outcome networkReport :=
  (m,
   sum' ← for_each (λ v sum, set_field headerSumry (Itoa (cl_ShardID v)) "last-crosslink"
                              (LInt (cl_BlockNumber v)) sum)
            (lc_CrossLinks (m_LastCrossLinks m)) sum;
   Done (MkNetworkReport buildVersion (m_chain m) (m_consensusProgress m) sum'
           (mc_Down (m_MetadataSnapshot m) ++ bc_Down (m_BlockHeaderSnapshot m)))).

Definition networkSnapshot (env : monitor → monitor) : handler networkReport :=
  and_then (locked take_summary) (λ sum m,
    match
      (leaders ← report_leaders sum;
       for_each (λ '(i, ips) sum, set_field headerSumry i "shard-leader" (LStrs ips) sum)
         (range leaders) sum)
    with
    | Panic w => Some (m, Panic w)
    | Done sum => interfere env (locked (finish_report sum)) m
    end).

(** A report leaves the lock free, and carries the monitor's chain. *)
Lemma networkSnapshot_free m m' r :
  networkSnapshot id m = Some (m', Done r) → m_inUse m' = false ∧ rp_Chain r = m_chain m'.
Proof.
  unfold networkSnapshot, and_then, locked at 1. destruct (m_inUse m); [done|].
  destruct (take_summary _) as [m1 [sum|w]]; [|done].
  destruct (leaders ← report_leaders sum; _) as [sum1|w]; [|done].
  unfold interfere, locked, finish_report, id. cbn [m_inUse set_inUse].
  destruct (for_each _ _ sum1) as [sum2|w]; [|done]. by intros [= <- <-].
Qed.

(** ** Status *)

Record shardStatus : Type := MkShardStatus {
  ss_ShardID : string;
  ss_Consensus : bool;
  ss_Block : Z;
  ss_BlockTimestamp : string;
  ss_Epoch : Z;
  ss_LeaderAddress : string;
}.

Record statusReport : Type := MkStatusReport {
  sr_Shards : list shardStatus;
  sr_Versions : list string;
  sr_AvailSeats : Z;
  sr_ElectedSeats : Z;
  sr_Validators : Z;
}.

Definition shard_status (progress : gmap string bool) (e : string * iface) :
    outcome shardStatus :=
  let '(i, shard) := e in
  a ← as_any (Some shard);
  sample ← as_header (a !! "latest-block");
  block ← as_u64 (a !! blockMax);
  epoch ← as_u64 (a !! "epoch-max");
  Done (MkShardStatus i (default false (progress !! i)) block
          (bh_Timestamp (bhd_Payload sample)) epoch (bh_Leader (bhd_Payload sample))).

(** The elected seats of the current committees: the addresses of the members
    that are not Harmony nodes. *)
Definition elected (c : SuperCommitteeReply) : list string :=
  range (co_Deciders (sc_CurrentCommittee c)) ≫= λ '(_, info),
    cm_Address <$> filter (λ v, cm_IsHarmonyNode v = false) (ci_Committee info).

(** [env] is what others do after the critical section, and [env'] between the two
    reads of the committees. *)
Definition statusSnapshot (env env' : monitor → monitor) : handler statusReport :=
  and_then (locked (λ m, let '(m', r) := take_summary m in
                         (m', sum ← r; Done (sum, m_consensusProgress m))))
    (λ '(sum, progress) m,
      let m1 := env m in
      let m2 := env' m1 in
      Some (m2,
        status ← for_each (λ e acc, s ← shard_status progress e; Done (acc ++ [s]))
                   (range (default ∅ (sum !! headerSumry))) [];
        let addresses := elected (m_SuperCommittee m1) in
        Done (MkStatusReport status (range (default ∅ (sum !! metaSumry))).*1
                (co_ExternalCount (sc_CurrentCommittee (m_SuperCommittee m2)))
                (Z.of_nat (length addresses)) (Z.of_nat (length (Distinct addresses)))))).
End reports.

(** ** Functions of the page template *)

(** [strings.Split(s, sep)] for a non-empty separator, from the left. *)
Fixpoint split_at (fuel : nat) (sep s acc : string) : list string :=
  match fuel with
  | O => [acc +:+ s]
  | S fuel =>
      match s with
      | EmptyString => [acc]
      | String c r =>
          match strip_prefix sep s with
          | Some rest => acc :: split_at fuel sep rest EmptyString
          | None => split_at fuel sep r (acc +:+ String c EmptyString)
          end
      end
  end.
Definition Split (s sep : string) : list string := split_at (S (String.length s)) sep s EmptyString.

Definition getCommitID (version : string) : string :=
  let r := Split version "-g" in
  let r := Split (default EmptyString (last r)) " " in
  default EmptyString (head r).

Definition committeeCount (c : Committees) (shardID : string) : string :=
  Itoa (ci_Externals (default zero_CommitteeInfo (co_Deciders c !! ("shard-" +:+ shardID)))).
Definition currentCommitteeCount (m : monitor) (shardID : string) : string :=
  committeeCount (sc_CurrentCommittee (m_SuperCommittee m)) shardID.
Definition previousCommitteeCount (m : monitor) (shardID : string) : string :=
  committeeCount (sc_PreviousCommittee (m_SuperCommittee m)) shardID.

(** [s[len(s)-1:]]. *)
Definition getShardID (s : string) : outcome string :=
  if (String.length s =? 0)%nat then Panic "slice bounds out of range"
  else slice s (String.length s - 1) (String.length s).

Definition calcConnectivity (connected known : Z) : string :=
  if negb (known =? 0) then
    Sprintf "%d%%" [OInt TInt (int_of_float
      (fmul (fdiv (float_of_int connected) (float_of_int known)) (float_of_int 100)))]
  else "N/A".

Definition convertUnixTime (t : Z) : string := Format (Unix t).

(** The loop of [getShortBLSKey]: index, [count] and [displayStr]. *)
Definition bls_step (acc : Z * Z * string) (k : string) : Z * Z * string :=
  let '(i, count, displayStr) := acc in
  if (String.length k =? 96)%nat then
    let displayStr := displayStr +:+ String.substring 0 3 k +:+ "..." +:+ String.substring 93 3 k in
    (i + 1, count, if negb (i =? count) then displayStr +:+ ", " else displayStr)
  else (i + 1, count - 1, displayStr).

Definition getShortBLSKey (keys : list string) : string :=
  let displayStr := if (length keys =? 0)%nat then "No BLS keys"%string else EmptyString in
  (fold_left bls_step keys (0, Z.of_nat (length keys), displayStr)).2.

(** ** The report page *)

(** What the template is given, the current time apart. *)
Record page_data : Type := MkPageData {
  pg_LeftTitle : list string;
  pg_RightTitle : list string;
  pg_Summary : summary;
  pg_SuperCommittee : SuperCommitteeReply;
  pg_NoReply : list noReply;
  pg_DownMachineCount : Z;
}.

(** [summaryCopy]: a copy of both levels of the map. *)
Definition summaryCopy `{MR : GoRuntime} (newData : summary) (m : monitor) : monitor :=
  let copy := fold_left (λ (s : summary) '(key, value),
      <[key := fold_left (λ (i : gmap string iface) '(k, v), <[k := v]> i) (range value) ∅]> s)
    (range newData) ∅ in
  set_report copy (m_NoReplySnapshot m) m.

Section page.
Context `{L : Linq} `{MR : GoRuntime}.
Context (buildVersion : string).

(** [report.Summary[chainSumry][k].(any)["consensus-status"] = v]. *)
Definition add_consensus (report : networkReport) : outcome summary :=
  for_each (λ '(k, v) sum, set_field chainSumry k "consensus-status" (LBool v) sum)
    (range (rp_ConsensusProgress report)) (rp_Summary report).

(** [renderReport]: [now] is the formatted current time; [parse] says whether
    the template of the chain's page parses, and with what error if not. *)
Definition renderReport (parse : string → option string) (now : string)
    (env env' : monitor → monitor) : handler (page_data + string) :=
  and_then (networkSnapshot buildVersion env) (λ report m,
    match add_consensus report with
    | Panic w => Some (m, Panic w)
    | Done sum =>
        match parse (m_chain m) with
        | Some e => Some (m, Done (inr ("could not generate page:" +:+ e)))
        | None =>
            let data := MkPageData [rp_Chain report] [rp_Build report; now] sum
              (m_SuperCommittee m) (rp_NoReplies report)
              (Z.of_nat (length (Distinct (nr_IP <$> rp_NoReplies report)))) in
            interfere env' (locked (λ m,
              let m := summaryCopy sum m in
              (set_report (m_SummarySnapshot m) (rp_NoReplies report) m, Done (inl data)))) m
        end
    end).
End page.

(** ** CSV *)

Definition blockHeaderReport : string := "block-header".
Definition nodeMetadataReport : string := "node-metadata".

(** The field names of the two structs, in declaration order, as reflection
    lists them. *)
Definition BlockHeader_fields : list string := ["Payload"; "IP"].
Definition NodeMetadata_fields : list string := ["Payload"; "IP"].

(** The header rows: [init] appends the field names to the initial ["IP"]. *)
Definition headerInformationCSVHeader : list string :=
  fold_left (λ row name, row ++ [name]) BlockHeader_fields ["IP"].
Definition nodeMetadataCSVHeader : list string :=
  fold_left (λ row name, row ++ [name]) NodeMetadata_fields ["IP"].

Inductive csv_response : Type :=
  | HttpError (msg : string) (code : Z)
  | Csv (filename : string) (records : list (list string)).

Definition StatusBadRequest : Z := 400.

Definition header_row (shard : string) (h : BlockHeader) : list string :=
  let p := bhd_Payload h in
  [bhd_IP h; bh_BlockHash p; Itoa (bh_BlockNumber p); shard; bh_Leader p; Itoa (bh_ViewID p);
   Itoa (bh_Epoch p); bh_Timestamp p; Itoa (bh_UnixTime p); bh_LastCommitSig p;
   bh_LastCommitBitmap p].

Definition header_rows (shard : string) (l : list BlockHeader) : list (list string) :=
  header_row shard <$> l.

(** The loop that joins the BLS keys. *)
Definition join_keys (keys : list string) : string :=
  fold_left (λ blsKeys k,
    (if bool_decide (blsKeys ≠ EmptyString) then blsKeys +:+ ", " else blsKeys) +:+ k)
    keys EmptyString.

Definition metadata_row (n : NodeMetadata) : list string :=
  let p := nmd_Payload n in
  [nmd_IP n; join_keys (slice_elems (nm_BLSPublicKey p)); nm_Version p; nm_NetworkType p;
   Itoa (uint64 (cc_ChainID (nm_Chain p))); show_bool (nm_IsLeader p);
   Itoa (uint64 (nm_ShardID p)); nm_NodeRole p; show_bool (nm_ArchivalNode p)].

Definition metadata_rows (l : list NodeMetadata) : list (list string) := metadata_row <$> l.

(** The records of a shard and of a version in the last rendered report. *)
Definition snapshot_part (key : string) (m : monitor) : gmap string iface :=
  default ∅ (m_SummarySnapshot m !! key).

Definition csv_headers (shard : string) (m : monitor) : outcome (list (list string)) :=
  a ← as_any (snapshot_part headerSumry m !! shard);
  sum ← as_headers (a !! "records");
  Done (header_rows shard sum).

Definition csv_metadata (vrs : string) (m : monitor) : outcome (list (list string)) :=
  match snapshot_part metaSumry m !! vrs with
  | None => Done []
  | Some v =>
      a ← as_map (Some v);
      recs ← as_metas (a !! "records");
      Done (metadata_rows recs)
  end.

(** [keys[0]] of a query value. *)
Definition first_value (values : list string) : outcome string :=
  match values with v :: _ => Done v | [] => Panic "index out of range" end.

Definition produceCSV (query : gmap string (list string)) : handler csv_response := λ m,
  match query !! "report"%string with
  | None => Some (m, Done (HttpError "report not chosen in query param" StatusBadRequest))
  | Some keys =>
      match first_value keys with
      | Panic w => Some (m, Panic w)
      | Done report =>
          if decide (report = blockHeaderReport) then
            match query !! "shard"%string with
            | None => Some (m, Done (HttpError "shard not chosen in query param" StatusBadRequest))
            | Some shard =>
                locked (λ m, (m, s ← first_value shard;
                                 rows ← csv_headers s m;
                                 Done (Csv (blockHeaderReport +:+ ".csv")
                                         (headerInformationCSVHeader :: rows)))) m
            end
          else if decide (report = nodeMetadataReport) then
            match query !! "vrs"%string with
            | None => Some (m, Done (HttpError "version not chosen in query param" StatusBadRequest))
            | Some vrs =>
                locked (λ m, (m, v ← first_value vrs;
                                 rows ← csv_metadata v m;
                                 Done (Csv (nodeMetadataReport +:+ ".csv")
                                         (nodeMetadataCSVHeader :: rows)))) m
            end
          else Some (m, Done (Csv EmptyString []))
      end
  end.

(** ** Facts about setting fields *)

Definition put (field : string) (v : leaf) (e : iface) : iface :=
  match e with IAny a => IAny (<[field := v]> a) | IMap a => IMap a end.

Definition any_map (inner : gmap string iface) : Prop :=
  ∀ k e, inner !! k = Some e → ∃ a, e = IAny a.

Lemma any_map_alter field v k inner : any_map inner → any_map (alter (put field v) k inner).
Proof.
  intros Ha k' e. destruct (decide (k' = k)) as [->|Hne].
  - rewrite lookup_alter_eq. intros (e' & E & ->)%fmap_Some. apply Ha in E as [a ->].
    cbn. eauto.
  - rewrite lookup_alter_ne by done. apply Ha.
Qed.

Lemma set_field_alter key k field v sum inner :
  sum !! key = Some inner → any_map inner →
  set_field key k field v sum = Done (<[key := alter (put field v) k inner]> sum).
Proof.
  intros Hs Ha. unfold set_field. rewrite Hs. cbn. destruct (inner !! k) as [e|] eqn:E.
  - destruct (Ha k e E) as [a ->]. cbn. do 2 f_equal. apply map_eq. intros k'.
    destruct (decide (k' = k)) as [->|Hne].
    + by rewrite lookup_insert_eq, lookup_alter_eq, E.
    + by rewrite lookup_insert_ne, lookup_alter_ne.
  - f_equal. rewrite insert_id; [done|]. rewrite Hs. f_equal. apply map_eq. intros k'.
    destruct (decide (k' = k)) as [->|Hne].
    + by rewrite lookup_alter_eq, E.
    + by rewrite lookup_alter_ne.
Qed.

(** A loop of [set_field] with one field. *)
Lemma set_fields_fold {A} (key field : string) (k : A → string) (v : A → leaf) (l : list A)
    sum inner :
  sum !! key = Some inner → any_map inner →
  for_each (λ x sum, set_field key (k x) field (v x) sum) l sum
  = Done (<[key := fold_left (λ inner x, alter (put field (v x)) (k x) inner) l inner]> sum)
  ∧ any_map (fold_left (λ inner x, alter (put field (v x)) (k x) inner) l inner).
Proof.
  revert sum inner. induction l as [|x l IH]; intros sum inner Hs Ha; cbn [for_each fold_left].
  { split; [|done]. by rewrite insert_id. }
  rewrite (set_field_alter _ _ _ _ _ inner) by done. cbn.
  destruct (IH (<[key := alter (put field (v x)) (k x) inner]> sum)
    (alter (put field (v x)) (k x) inner)) as [-> Ha']; [by rewrite lookup_insert_eq|by apply any_map_alter|].
  by rewrite insert_insert_eq.
Qed.

(** The fields of an entry after such a loop: the last value set for it. *)
Lemma fold_alter_entry {A} field (k : A → string) (v : A → leaf) l (inner : gmap string iface) key a :
  inner !! key = Some (IAny a) →
  fold_left (λ inner x, alter (put field (v x)) (k x) inner) l inner !! key
  = Some (IAny (match last (filter (λ x, k x = key) l) with
                | Some x => <[field := v x]> a
                | None => a
                end)).
Proof.
  revert inner a. induction l as [|x l IH]; intros inner a E; [done|].
  cbn [fold_left]. rewrite filter_cons. destruct (decide (k x = key)) as [<-|Hne].
  - rewrite (IH _ (<[field := v x]> a)) by (by rewrite lookup_alter_eq, E).
    rewrite last_cons. destruct (last _); [by rewrite insert_insert_eq|done].
  - apply IH. by rewrite lookup_alter_ne.
Qed.

Lemma fold_alter_None {A} field (k : A → string) (v : A → leaf) l (inner : gmap string iface) key :
  inner !! key = None →
  fold_left (λ inner x, alter (put field (v x)) (k x) inner) l inner !! key = None.
Proof.
  intros E. apply (fold_left_inv _ (λ inner, inner !! key = None)); [|done].
  intros x inner' _ E'. destruct (decide (k x = key)) as [<-|Hne].
  - by rewrite lookup_alter_eq, E'.
  - by rewrite lookup_alter_ne.
Qed.

(** ** What a network report holds *)

Section report_facts.
Context `{L : Linq} `{MR : GoRuntime}.

Lemma version_summary_Some metas vrs e :
  version_summary metas !! vrs = Some e
  ↔ ∃ g, (vrs, g) ∈ GroupBy meta_version metas ∧ e = IMap {["records" := LMetas g]}.
Proof.
  unfold version_summary.
  rewrite (fold_insert_Some id (λ g, IMap {["records" := LMetas g]})) by apply GroupBy_keys.
  rewrite lookup_empty. naive_solver.
Qed.

Lemma version_summary_dom metas vrs :
  is_Some (version_summary metas !! vrs) ↔ ∃ n, n ∈ metas ∧ meta_version n = vrs.
Proof.
  rewrite <-(GroupBy_dom meta_version metas vrs), list_elem_of_fmap. split.
  - intros [e (g & Hg & _)%version_summary_Some]. by exists (vrs, g).
  - intros ([v g] & -> & Hg). eexists. apply version_summary_Some. eauto.
Qed.

(** The records of an entry of the version summary. *)
Definition entry_records (e : iface) : list NodeMetadata :=
  match e with
  | IMap a => match a !! "records"%string with Some (LMetas r) => r | _ => [] end
  | IAny _ => []
  end.

(** All leaders among the records, in the order of the loops. *)
Definition report_records (metas : list NodeMetadata) : list NodeMetadata :=
  range (version_summary metas) ≫= λ '(_, e), filter is_leader (entry_records e).

Lemma report_leaders_group sum metas :
  sum !! metaSumry = Some (version_summary metas) →
  report_leaders sum
  = Done (group_append (λ n, Itoa (meta_shard n)) nmd_IP (report_records metas)).
Proof.
  intros E. unfold report_leaders, report_records. rewrite E. cbn [default from_option id].
  rewrite (for_each_fold _ (λ leaders e, add_leaders leaders (entry_records e.2))).
  - f_equal. unfold group_append. generalize (∅ : gmap string (list string)) as acc.
    induction (range (version_summary metas)) as [|[v e] l IH]; intros acc; [done|].
    cbn [mbind list_bind fold_left snd]. by rewrite fold_left_app, IH.
  - intros [v e] leaders Hin%elem_of_range. apply version_summary_Some in Hin as (g & _ & ->).
    unfold leaders_step, entry_records. cbn [snd as_map mbind outcome_bind].
    by rewrite lookup_singleton_eq.
Qed.

Lemma report_records_perm metas : report_records metas ≡ₚ filter is_leader metas.
Proof.
  unfold report_records. rewrite range_bind_keys.
  transitivity ((range (version_summary metas)).*1 ≫= λ v,
    filter (λ n, meta_version n = v) (filter is_leader metas)).
  - apply bind_perm_ext. intros v [e He]%elem_of_range_keys. rewrite He.
    apply version_summary_Some in He as (g & Hg & ->). cbn. rewrite lookup_singleton_eq.
    rewrite (GroupBy_group _ _ _ _ Hg), filter_commute. done.
  - apply bind_partition; [apply NoDup_range_keys|]. intros n [_ Hn]%list_elem_of_filter.
    apply elem_of_range_keys, version_summary_dom. eauto.
Qed.

(** The addresses of the leaders of a shard. *)
Definition leader_ips (metas : list NodeMetadata) (shard : Z) : list string :=
  nmd_IP <$> filter (λ n, meta_shard n = shard) (filter is_leader metas).

Lemma report_leaders_ips metas shard :
  default [] (group_append (λ n, Itoa (meta_shard n)) nmd_IP (report_records metas) !! Itoa shard)
  ≡ₚ leader_ips metas shard.
Proof.
  rewrite group_append_lookup. unfold leader_ips. apply fmap_Permutation.
  rewrite report_records_perm. apply eq_Permutation, list_filter_iff. intros n.
  split; [by intros ?%(inj Itoa)|by intros ->].
Qed.

(** Headers of a shard of greatest block number, as in the summary. *)
Definition top_header (hs : list BlockHeader) (shard : Z) (h : BlockHeader) : Prop :=
  h ∈ hs ∧ header_shard h = shard
  ∧ ∀ x, x ∈ hs → header_shard x = shard → header_block x ≤ header_block h.

(** What the report says of a shard. *)
Definition shard_entry (hs : list BlockHeader) (metas : list NodeMetadata)
    (links : list CrossLink) (shard : Z) (e : iface) : Prop :=
  ∃ a h ips g, e = IAny a ∧ top_header hs shard h
    ∧ a !! "records" = Some (LHeaders g) ∧ g ≡ₚ filter (λ h, header_shard h = shard) hs
    ∧ a !! blockMax = Some (LU64 (header_block h))
    ∧ a !! "latest-block" = Some (LHeader h)
    ∧ ips ≡ₚ leader_ips metas shard
    ∧ a !! "shard-leader" = (if decide (ips = []) then None else Some (LStrs ips))
    ∧ a !! "last-crosslink"
      = (λ l, LInt (cl_BlockNumber l)) <$> last (filter (λ l, cl_ShardID l = shard) links).

Lemma blockHeaderSummary_any hs : any_map (blockHeaderSummary hs true ∅).
Proof. intros k e (a & h & -> & _)%blockHeaderSummary_entry. eauto. Qed.

(** The two loops that complete the header summary: leaders, then cross links. *)
Definition complete (metas : list NodeMetadata) (links : list CrossLink)
    (inner : gmap string iface) : gmap string iface :=
  let leaders := group_append (λ n, Itoa (meta_shard n)) nmd_IP (report_records metas) in
  fold_left (λ inner l, alter (put "last-crosslink" (LInt (cl_BlockNumber l)))
                          (Itoa (cl_ShardID l)) inner) links
    (fold_left (λ inner p, alter (put "shard-leader" (LStrs p.2)) p.1 inner) (range leaders)
       inner).

Lemma last_range_key {V} (m : gmap string V) k :
  last (filter (λ p, p.1 = k) (range m)) = (λ v, (k, v)) <$> m !! k.
Proof.
  destruct (m !! k) as [v|] eqn:E; cbn.
  - assert (filter (λ p, p.1 = k) (range m) = [(k, v)]) as ->; [|done].
    apply Permutation_singleton_r, NoDup_Permutation.
    + apply NoDup_filter, NoDup_range.
    + apply NoDup_singleton.
    + intros [k' v']. rewrite list_elem_of_filter, elem_of_range, list_elem_of_singleton. cbn.
      split; [intros [-> ?]; congruence|intros [= -> ->]; done].
  - rewrite filter_drop_all; [done|]. intros [k' v'] Hin%elem_of_range E'. cbn in E'. congruence.
Qed.

Lemma complete_entry hs metas links shard e :
  complete metas links (blockHeaderSummary hs true ∅) !! Itoa shard = Some e →
  shard_entry hs metas links shard e.
Proof.
  unfold complete. set (leaders := group_append _ _ _).
  destruct (blockHeaderSummary hs true ∅ !! Itoa shard) as [e0|] eqn:E0.
  2:{ rewrite fold_alter_None; [done|]. by apply fold_alter_None. }
  pose proof E0 as (s & g & Hg & Es%(inj Itoa) & ->)%blockHeaderSummary_Some. subst s.
  apply blockHeaderSummary_entry in E0 as (a & h & [= <-] & Es%(inj Itoa) & Hmax & Hlat & Hin & Hub).
  set (a0 := shard_summary true g) in *.
  assert (a0 !! "shard-leader" = None ∧ a0 !! "last-crosslink" = None) as [N1 N2] by done.
  assert (a0 !! "records" = Some (LHeaders g)) as Hrec by apply shard_summary_records.
  pose proof (GroupBy_group _ _ _ _ Hg) as Hperm.
  erewrite fold_alter_entry; [|eapply fold_alter_entry, blockHeaderSummary_Some; eauto].
  intros [= <-]. rewrite last_range_key. fold a0.
  replace (filter (λ l, Itoa (cl_ShardID l) = Itoa shard) links)
    with (filter (λ l, cl_ShardID l = shard) links)
    by (apply list_filter_iff; intros l; split; [by intros ->|by intros ?%(inj Itoa)]).
  eexists _, h, (default [] (leaders !! Itoa shard)), g. split; [reflexivity|].
  split; [split_and!; [done|congruence|]|]; [intros x Hx Ex; apply Hub; congruence|].
  pose proof (report_leaders_ips metas shard) as Hips. fold leaders in Hips.
  assert (∀ ips, leaders !! Itoa shard = Some ips → ips ≠ []) as Hne
    by (intros ips; apply group_append_nonempty).
  destruct (leaders !! Itoa shard) as [ips|], (last (filter _ links)) as [l|]; cbn in *;
    rewrite ?(decide_False (P := ips = [])) by (by apply Hne);
    split_and!; try done; by simplify_map_eq.
Qed.

Lemma complete_dom hs metas links shard :
  is_Some (complete metas links (blockHeaderSummary hs true ∅) !! Itoa shard)
  ↔ ∃ h, h ∈ hs ∧ header_shard h = shard.
Proof.
  rewrite <-(blockHeaderSummary_dom hs true shard). unfold complete. split.
  - destruct (blockHeaderSummary hs true ∅ !! Itoa shard) eqn:E; [done|].
    intros [e He]. rewrite fold_alter_None in He; [done|]. by apply fold_alter_None.
  - intros [e E]. destruct (blockHeaderSummary_any hs _ _ E) as [a ->].
    erewrite fold_alter_entry; [eauto|]. by apply fold_alter_entry.
Qed.
End report_facts.

(** ** Theorems *)

Lemma set_inUse_snapshot hs m :
  m_inUse m = false →
  set_inUse false (set_snapshot_headers hs (set_inUse true m)) = set_snapshot_headers hs m.
Proof. destruct m. cbn. by intros ->. Qed.

Lemma set_inUse_id m : m_inUse m = false → set_inUse false (set_inUse true m) = m.
Proof. destruct m. cbn. by intros ->. Qed.

Lemma take_summary_locked `{L : Linq} m hs :
  m_inUse m = false → shorten_sigs (bc_Nodes (m_BlockHeaderSnapshot m)) = Done hs →
  ∃ chain, chain_summaries (mc_Nodes (m_MetadataSnapshot m)) = Done chain
  ∧ locked take_summary m
  = Some (set_snapshot_headers hs m,
      Done (<[metaSumry := version_summary (mc_Nodes (m_MetadataSnapshot m))]>
           (<[headerSumry := blockHeaderSummary hs true ∅]>
           (<[chainSumry := chain]> {[committeeSumry := ∅]})))).
Proof.
  intros Hl Hs. unfold locked. rewrite Hl. unfold take_summary.
  destruct (summaryMaps_Done (mc_Nodes (m_MetadataSnapshot m)) _ _ Hs) as (chain & Hc & E).
  cbn [m_MetadataSnapshot m_BlockHeaderSnapshot set_inUse]. rewrite E. exists chain.
  split; [done|].
  by rewrite set_inUse_snapshot.
Qed.

Lemma take_summary_panics `{L : Linq} m :
  m_inUse m = false →
  (∃ h, h ∈ bc_Nodes (m_BlockHeaderSnapshot m)
     ∧ (0 < String.length (bh_LastCommitSig (bhd_Payload h)) < 5)%nat) →
  ∃ w, locked take_summary m
    = Some (set_inUse true (set_snapshot_headers (shortened (bc_Nodes (m_BlockHeaderSnapshot m))) m),
        Panic w).
Proof.
  intros Hl Hh. apply (summaryMaps_panics (mc_Nodes (m_MetadataSnapshot m))) in Hh.
  unfold locked. rewrite Hl. unfold take_summary.
  cbn [m_MetadataSnapshot m_BlockHeaderSnapshot set_inUse].
  destruct (summaryMaps _ _) as [[]|w]; [done|]. by exists w.
Qed.

(** The summary of a finished report. *)
Definition report_summary `{L : Linq} `{MR : GoRuntime} (metas : list NodeMetadata)
    (hs : list BlockHeader) (links : list CrossLink) (chain : gmap string iface) : summary :=
  <[headerSumry := complete metas links (blockHeaderSummary hs true ∅)]>
    (<[metaSumry := version_summary metas]>
    (<[headerSumry := blockHeaderSummary hs true ∅]>
    (<[chainSumry := chain]> {[committeeSumry := ∅]}))).

(** The maps [summaryMaps] makes. *)
Definition first_summary `{L : Linq} (metas : list NodeMetadata) (hs : list BlockHeader)
    (chain : gmap string iface) : summary :=
  <[metaSumry := version_summary metas]>
    (<[headerSumry := blockHeaderSummary hs true ∅]>
    (<[chainSumry := chain]> {[committeeSumry := ∅]})).

Lemma summaryMaps_sum `{L : Linq} metas hs sum hs' :
  summaryMaps metas hs = Done (sum, hs') →
  ∃ chain, hs' = shortened hs ∧ sum = first_summary metas (shortened hs) chain.
Proof.
  unfold summaryMaps. destruct (shorten_sigs hs) as [hs1|] eqn:E; [|done].
  cbn [mbind outcome_bind]. destruct (chain_summaries metas) as [chain|]; [|done].
  cbn [mbind outcome_bind]. rewrite (shortened_Done hs hs1 E). intros H.
  apply (f_equal (λ o, match o with Done p => p | Panic _ => (∅, []) end)) in H.
  apply pair_equal_spec in H as [<- <-]. by exists chain.
Qed.

(** The loops of [networkSnapshot] over its two maps of leaders and links. *)
Lemma report_loops `{L : Linq} `{MR : GoRuntime} metas hs links chain :
  ∃ sum1,
    (leaders ← report_leaders (first_summary metas hs chain);
     for_each (λ '(i, ips) sum, set_field headerSumry i "shard-leader" (LStrs ips) sum)
       (range leaders) (first_summary metas hs chain)) = Done sum1
    ∧ for_each (λ v sum, set_field headerSumry (Itoa (cl_ShardID v)) "last-crosslink"
                          (LInt (cl_BlockNumber v)) sum) links sum1
      = Done (report_summary metas hs links chain).
Proof.
  set (sum0 := first_summary metas hs chain).
  assert (sum0 !! metaSumry = Some (version_summary metas)) as Em by (by simplify_map_eq).
  assert (sum0 !! headerSumry = Some (blockHeaderSummary hs true ∅)) as Eh by done.
  set (leaders := group_append (λ n, Itoa (meta_shard n)) nmd_IP (report_records metas)).
  destruct (set_fields_fold headerSumry "shard-leader" fst (λ p, LStrs p.2) (range leaders) sum0
    (blockHeaderSummary hs true ∅) Eh (blockHeaderSummary_any hs)) as [F1 A1].
  set (inner1 := fold_left _ (range leaders) _) in F1, A1.
  destruct (set_fields_fold headerSumry "last-crosslink" (λ v, Itoa (cl_ShardID v))
    (λ v, LInt (cl_BlockNumber v)) links
    (<[headerSumry := inner1]> sum0) inner1 ltac:(by rewrite lookup_insert_eq) A1) as [F2 _].
  rewrite insert_insert_eq in F2. exists (<[headerSumry := inner1]> sum0). split; [|exact F2].
  rewrite (report_leaders_group sum0 metas Em). cbn [mbind outcome_bind]. fold leaders.
  by rewrite (for_each_ext _ (λ p sum, set_field headerSumry p.1 "shard-leader" (LStrs p.2) sum))
    by (by intros [] ?).
Qed.

Lemma networkSnapshot_run (L : Linq) (MR : GoRuntime) build env m hs :
  m_inUse m = false → shorten_sigs (bc_Nodes (m_BlockHeaderSnapshot m)) = Done hs →
  let m2 := env (set_snapshot_headers hs m) in
  m_inUse m2 = false →
  ∃ chain, chain_summaries (mc_Nodes (m_MetadataSnapshot m)) = Done chain
    ∧ networkSnapshot build env m
      = Some (m2, Done (MkNetworkReport build (m_chain m2) (m_consensusProgress m2)
          (report_summary (mc_Nodes (m_MetadataSnapshot m)) hs
             (lc_CrossLinks (m_LastCrossLinks m2)) chain)
          (mc_Down (m_MetadataSnapshot m2) ++ bc_Down (m_BlockHeaderSnapshot m2)))).
Proof.
  intros Hl Hs m2 Hl2. destruct (take_summary_locked m hs Hl Hs) as (chain & Hchain & Et).
  exists chain. split; [done|].
  destruct (report_loops (mc_Nodes (m_MetadataSnapshot m)) hs (lc_CrossLinks (m_LastCrossLinks m2))
    chain) as (sum1 & E1 & E2).
  unfold networkSnapshot, and_then. rewrite Et. fold (first_summary (mc_Nodes (m_MetadataSnapshot m)) hs chain).
  rewrite E1. unfold interfere, locked. fold m2. rewrite Hl2. unfold finish_report.
  cbn [m_LastCrossLinks m_consensusProgress m_chain m_MetadataSnapshot m_BlockHeaderSnapshot
    set_inUse]. rewrite E2. cbn [mbind outcome_bind]. by rewrite set_inUse_id.
Qed.

(** What a summary says of the headers, the metadata and the cross links. *)
Definition network_shape (hs : list BlockHeader) (metas : list NodeMetadata) (links : list CrossLink)
    (sum : summary) : Prop :=
  (∀ shard, is_Some (default ∅ (sum !! headerSumry) !! Itoa shard)
     ↔ ∃ h, h ∈ hs ∧ header_shard h = shard)
  ∧ ∀ shard e, default ∅ (sum !! headerSumry) !! Itoa shard = Some e →
      shard_entry hs metas links shard e.

Lemma report_summary_shape `{L : Linq} `{MR : GoRuntime} metas hs links chain :
  network_shape hs metas links (report_summary metas hs links chain).
Proof.
  unfold network_shape, report_summary. rewrite lookup_insert_eq. cbn [default from_option id].
  split; [apply complete_dom|]. intros shard e. apply complete_entry.
Qed.

(** What the tables of a summary hold: the headers of a shard under its number, and
    the metadata of a version under its name. *)
Definition tables_shape (hs : list BlockHeader) (metas : list NodeMetadata) (sum : summary) : Prop :=
  (∀ k e, default ∅ (sum !! headerSumry) !! k = Some e →
     ∃ shard a g, k = Itoa shard ∧ e = IAny a ∧ a !! "records" = Some (LHeaders g)
       ∧ g ≡ₚ filter (λ h, header_shard h = shard) hs)
  ∧ (∀ v, is_Some (default ∅ (sum !! metaSumry) !! v) ↔ ∃ n, n ∈ metas ∧ meta_version n = v)
  ∧ ∀ v e, default ∅ (sum !! metaSumry) !! v = Some e →
      ∃ a g, e = IMap a ∧ a !! "records" = Some (LMetas g)
        ∧ g ≡ₚ filter (λ n, meta_version n = v) metas.

Lemma report_summary_tables `{L : Linq} `{MR : GoRuntime} metas hs links chain :
  tables_shape hs metas (report_summary metas hs links chain).
Proof.
  unfold tables_shape, report_summary. rewrite lookup_insert_eq, lookup_insert_ne, lookup_insert_eq by done.
  cbn [default from_option id]. split_and!.
  - intros k e He. destruct (blockHeaderSummary hs true ∅ !! k) as [e0|] eqn:E0.
    2:{ unfold complete in He. rewrite fold_alter_None in He; [done|]. by apply fold_alter_None. }
    apply blockHeaderSummary_Some in E0 as (shard & _ & _ & -> & _).
    destruct (complete_entry _ _ _ _ _ He) as (a & h & ips & g & -> & _ & Hrec & Hg & _).
    by exists shard, a, g.
  - apply version_summary_dom.
  - intros v e (g & Hg%GroupBy_group & ->)%version_summary_Some. exists {["records" := LMetas g]}, g.
    by rewrite lookup_singleton_eq.
Qed.

Lemma empty_tables : tables_shape [] [] ∅.
Proof.
  split_and!; [done| |done]. intros v. split; [by intros [? ?]|]. by intros (n & Hn%not_elem_of_nil & _).
Qed.

(** What can be downloaded of a summary with such tables. *)
Lemma csv_headers_tables m hs metas k rows :
  tables_shape hs metas (m_SummarySnapshot m) → csv_headers k m = Done rows →
  ∃ shard g, g ≡ₚ filter (λ h, header_shard h = shard) hs ∧ rows = header_rows (Itoa shard) g.
Proof.
  intros (Hh & _) E. unfold csv_headers, snapshot_part in E. destruct (_ !! k) as [e|] eqn:Ee; [|done].
  destruct (Hh k e Ee) as (shard & a & g & -> & -> & Hrec & Hg). cbn in E. rewrite Hrec in E.
  injection E as <-. by exists shard, g.
Qed.

Lemma csv_metadata_tables m hs metas v rows :
  tables_shape hs metas (m_SummarySnapshot m) → csv_metadata v m = Done rows →
  ∃ g, g ≡ₚ filter (λ n, meta_version n = v) metas ∧ rows = metadata_rows g.
Proof.
  intros (_ & Hd & Hm) E. unfold csv_metadata, snapshot_part in E. destruct (_ !! v) as [e|] eqn:Ee.
  - destruct (Hm v e Ee) as (a & g & -> & Hrec & Hg). cbn in E. rewrite Hrec in E.
    injection E as <-. by exists g.
  - injection E as <-. exists []. split; [|done]. rewrite filter_drop_all; [done|].
    intros n Hn Hv. apply (not_eq_None_Some (default ∅ (m_SummarySnapshot m !! metaSumry) !! v)); [|done].
    apply Hd. by exists n.
Qed.

(** C22: the network report says what the snapshots hold. When the lock is free
    and every signature is empty or has at least five bytes, the report has an
    entry for exactly the shards with a header; an entry names a header of
    greatest block number of the shard, all headers of the shard, the addresses of
    the nodes that lead it and the block of its last cross link; the silent nodes are those of both
    snapshots; and the lock is released. [env] is what other goroutines do
    between the two critical sections. *)
Theorem networkSnapshot_spec (L : Linq) (MR : GoRuntime) build env m hs :
  m_inUse m = false → shorten_sigs (bc_Nodes (m_BlockHeaderSnapshot m)) = Done hs →
  let m2 := env (set_snapshot_headers hs m) in
  m_inUse m2 = false →
  ∃ sum,
    networkSnapshot build env m
    = Some (m2, Done (MkNetworkReport build (m_chain m2) (m_consensusProgress m2) sum
        (mc_Down (m_MetadataSnapshot m2) ++ bc_Down (m_BlockHeaderSnapshot m2))))
    ∧ (∀ shard, is_Some (default ∅ (sum !! headerSumry) !! Itoa shard)
         ↔ ∃ h, h ∈ hs ∧ header_shard h = shard)
    ∧ (∀ shard e, default ∅ (sum !! headerSumry) !! Itoa shard = Some e →
         shard_entry hs (mc_Nodes (m_MetadataSnapshot m))
           (lc_CrossLinks (m_LastCrossLinks m2)) shard e).
Proof.
  intros Hl Hs m2 Hl2. destruct (networkSnapshot_run L MR build env m hs Hl Hs Hl2) as (chain & _ & E).
  eexists. split; [exact E|]. apply report_summary_shape.
Qed.

(** A monitor that is stuck: everything that needs the lock waits for ever, the
    reports as well as the managers that refresh the snapshots. *)
Definition wedged (m : monitor) : Prop :=
  (∀ (L : Linq) (MR : GoRuntime) build env, networkSnapshot build env m = None)
  ∧ (∀ (L : Linq) (MR : GoRuntime) env env', statusSnapshot env env' m = None)
  ∧ (∀ (L : Linq) (MR : GoRuntime) build parse now env env',
       renderReport build parse now env env' m = None)
  ∧ (∀ shard shards query, produceCSV (<["report" := [blockHeaderReport]]>
       (<["shard" := shard :: shards]> query)) m = None)
  ∧ (∀ tolerance key chain shardMap now replies,
       (metadata_tick tolerance key chain shardMap now replies m).2 = None)
  ∧ (∀ (MR : GoRuntime) shardMap now replies prevEpoch,
       header_tick shardMap now replies prevEpoch m = None).

Lemma metadata_replies_inUse shardMap replies acc :
  m_inUse (fold_left (metadata_reply shardMap) replies acc).1 = m_inUse acc.1.
Proof.
  revert acc. induction replies as [|d replies IH]; intros [m first]; [done|].
  cbn [fold_left]. rewrite IH. unfold metadata_reply, bytesToNodeMetadata.
  by destruct first, (r_oops d); repeat case_decide.
Qed.

Lemma header_replies_inUse `{MR : GoRuntime} shardMap replies acc :
  m_inUse (fold_left (header_reply shardMap) replies acc).1 = m_inUse acc.1.
Proof.
  revert acc. induction replies as [|d replies IH]; intros [m first]; [done|].
  cbn [fold_left]. rewrite IH. unfold header_reply, bytesToNodeMetadata.
  by destruct first, (r_oops d); repeat case_decide.
Qed.

Lemma held_wedged m : m_inUse m = true → wedged m.
Proof.
  intros Hl. split_and!; intros.
  - unfold networkSnapshot, and_then, locked. by rewrite Hl.
  - unfold statusSnapshot, and_then, locked. by rewrite Hl.
  - unfold renderReport, networkSnapshot, and_then, locked. by rewrite Hl.
  - unfold produceCSV. rewrite lookup_insert_eq. cbn [first_value].
    rewrite decide_True by done. rewrite lookup_insert_ne, lookup_insert_eq by done.
    unfold locked. by rewrite Hl.
  - unfold metadata_tick. cbn [snd]. unfold with_lock. rewrite metadata_replies_inUse.
    cbn. by rewrite Hl.
  - unfold header_tick, with_lock. rewrite header_replies_inUse. cbn. by rewrite Hl.
Qed.

(** C36: one malformed signature stops the watchdog. If any header of the
    snapshot has a signature of one to four bytes, the next report panics while
    it holds the lock, with the signatures before that one shortened, and from
    then on no report is produced and no snapshot is refreshed. *)
Theorem short_signature_wedges (L : Linq) (MR : GoRuntime) build parse now env env' m h :
  m_inUse m = false → h ∈ bc_Nodes (m_BlockHeaderSnapshot m) →
  (0 < String.length (bh_LastCommitSig (bhd_Payload h)) < 5)%nat →
  let m' := set_inUse true (set_snapshot_headers (shortened (bc_Nodes (m_BlockHeaderSnapshot m))) m) in
  ∃ w, networkSnapshot build env m = Some (m', Panic w)
    ∧ statusSnapshot env env' m = Some (m', Panic w)
    ∧ renderReport build parse now env env' m = Some (m', Panic w)
    ∧ wedged m'.
Proof.
  intros Hl Hin Hlen m'. destruct (take_summary_panics m Hl) as [w Ew]; [eauto|]. exists w.
  assert (networkSnapshot build env m = Some (m', Panic w)) as En
    by (unfold networkSnapshot, and_then; by rewrite Ew).
  split_and!; [done| | |by apply held_wedged].
  - unfold statusSnapshot, and_then. unfold locked in *. rewrite Hl in *.
    destruct (take_summary (set_inUse true m)) as [m1 [sum|w']]; [done|]. by injection Ew as -> ->.
  - unfold renderReport, and_then. by rewrite En.
Qed.

(** C37: asking for the CSV of an unknown shard stops the watchdog. When the last
    rendered report has no entry for the shard of the query, as before the first
    page was rendered, [produceCSV] panics while it holds the lock. *)
Theorem unknown_shard_wedges m query shard shards reports :
  m_inUse m = false → query !! "report"%string = Some (blockHeaderReport :: reports) →
  query !! "shard"%string = Some (shard :: shards) →
  snapshot_part headerSumry m !! shard = None →
  ∃ w, produceCSV query m = Some (set_inUse true m, Panic w) ∧ wedged (set_inUse true m).
Proof.
  intros Hl Hr Hs Hn. eexists. split; [|by apply held_wedged].
  unfold produceCSV. rewrite Hr. cbn [first_value]. rewrite decide_True by done. rewrite Hs.
  unfold locked. rewrite Hl. cbn [first_value mbind outcome_bind].
  unfold csv_headers. change (snapshot_part headerSumry (set_inUse true m))
    with (snapshot_part headerSumry m). by rewrite Hn.
Qed.

(** ** Status report *)

(** What the status says of a shard: its block, time and leader are those of a
    header of greatest block number, its epoch is the greatest reported. *)
Definition status_of (hs : list BlockHeader) (progress : gmap string bool) (s : shardStatus) :
    Prop :=
  ∃ h, top_header hs (header_shard h) h
    ∧ ss_ShardID s = Itoa (header_shard h)
    ∧ ss_Consensus s = default false (progress !! ss_ShardID s)
    ∧ ss_Block s = header_block h
    ∧ ss_BlockTimestamp s = bh_Timestamp (bhd_Payload h)
    ∧ ss_LeaderAddress s = bh_Leader (bhd_Payload h)
    ∧ (∃ x, x ∈ hs ∧ header_shard x = header_shard h ∧ ss_Epoch s = header_epoch x)
    ∧ ∀ x, x ∈ hs → header_shard x = header_shard h → header_epoch x ≤ ss_Epoch s.

Lemma shard_status_ok `{L : Linq} hs progress i e :
  blockHeaderSummary hs true ∅ !! i = Some e →
  ∃ s, shard_status progress (i, e) = Done s ∧ ss_ShardID s = i ∧ status_of hs progress s.
Proof.
  intros E. pose proof E as (shard & g & Hg & Ei & ->)%blockHeaderSummary_Some.
  apply blockHeaderSummary_entry in E as (a & h & Ea & Ei' & Hmax & Hlat & Hin & Hub).
  assert (a = shard_summary true g) as -> by congruence. clear Ea.
  assert (shard = header_shard h) as -> by (apply (inj Itoa); congruence).
  destruct (Max_Some (header_epoch <$> g)) as [ep Hep].
  { intros Hnil%fmap_nil_inv. by eapply GroupBy_nonempty. }
  eexists. split; [|split].
  - unfold shard_status. cbn [as_any mbind outcome_bind]. rewrite Hlat, Hmax.
    rewrite shard_summary_epoch_max, Hep. reflexivity.
  - done.
  - exists h. cbn. apply Max_spec in Hep as [Hep Hle].
    apply list_elem_of_fmap in Hep as (x & -> & Hx).
    apply (elem_of_group hs _ _ _ Hg) in Hx as [Hx Ex].
    split_and!; try done; [eauto|].
    intros y Hy Ey. apply Hle, list_elem_of_fmap_2. by apply (elem_of_group hs _ _ _ Hg).
Qed.

Lemma status_loop `{L : Linq} `{MR : GoRuntime} hs progress :
  ∃ status,
    for_each (λ e acc, s ← shard_status progress e; Done (acc ++ [s]))
      (range (blockHeaderSummary hs true ∅)) [] = Done status
    ∧ (ss_ShardID <$> status) = (range (blockHeaderSummary hs true ∅)).*1
    ∧ Forall (status_of hs progress) status.
Proof.
  rewrite for_each_append.
  assert (∀ l, (∀ i e, (i, e) ∈ l → blockHeaderSummary hs true ∅ !! i = Some e) →
    ∃ status, mapM (shard_status progress) l = Done status ∧ (ss_ShardID <$> status) = l.*1
      ∧ Forall (status_of hs progress) status) as H.
  { induction l as [|[i e] l IH]; intros Hl; [by exists []|].
    destruct (shard_status_ok hs progress i e) as (s & Es & Ei & Hs); [apply Hl; set_solver|].
    destruct IH as (status & E & Eids & Hall); [set_solver|].
    exists (s :: status). cbn [mapM]. rewrite Es. cbn [mbind outcome_bind]. rewrite E.
    split; [done|]. split; [cbn; by rewrite Ei, Eids|by constructor]. }
  destruct (H (range (blockHeaderSummary hs true ∅))) as (status & E & Eids & Hall).
  { intros i e. apply elem_of_range. }
  exists status. rewrite E. done.
Qed.

(** What a status report says of headers, metadata and consensus statuses. *)
Definition status_shape (hs : list BlockHeader) (metas : list NodeMetadata)
    (progress : gmap string bool) (r : statusReport) : Prop :=
  Forall (status_of hs progress) (sr_Shards r)
  ∧ NoDup (ss_ShardID <$> sr_Shards r)
  ∧ (∀ shard, Itoa shard ∈ ss_ShardID <$> sr_Shards r ↔ ∃ h, h ∈ hs ∧ header_shard h = shard)
  ∧ NoDup (sr_Versions r)
  ∧ (∀ v, v ∈ sr_Versions r ↔ ∃ n, n ∈ metas ∧ meta_version n = v)
  ∧ 0 ≤ sr_Validators r ≤ sr_ElectedSeats r.

Lemma status_report_shape `{L : Linq} `{MR : GoRuntime} hs metas progress chain seats committees :
  let sum := first_summary metas hs chain in
  ∃ status,
    for_each (λ e acc, s ← shard_status progress e; Done (acc ++ [s]))
      (range (default ∅ (sum !! headerSumry))) [] = Done status
    ∧ status_shape hs metas progress
        (MkStatusReport status (range (default ∅ (sum !! metaSumry))).*1 seats
           (Z.of_nat (length (elected committees)))
           (Z.of_nat (length (Distinct (elected committees))))).
Proof.
  intros sum. destruct (status_loop hs progress) as (status & E & Eids & Hall).
  assert (sum !! metaSumry = Some (version_summary metas)) as Em by (by simplify_map_eq).
  assert (sum !! headerSumry = Some (blockHeaderSummary hs true ∅)) as Eh by done.
  exists status. rewrite Em, Eh. cbn [default from_option id]. split; [exact E|].
  unfold status_shape. cbn [sr_Shards sr_Versions sr_Validators sr_ElectedSeats]. rewrite Eids. split_and!.
  - done.
  - apply NoDup_range_keys.
  - intros shard. rewrite elem_of_range_keys. apply blockHeaderSummary_dom.
  - apply NoDup_range_keys.
  - intros v. rewrite elem_of_range_keys. apply version_summary_dom.
  - lia.
  - apply inj_le, submseteq_length, NoDup_submseteq; [apply Distinct_NoDup|].
    intros x. by rewrite Distinct_elem.
Qed.

(** C23: the status report is right. When the lock is free and every signature is
    empty or has at least five bytes, it lists exactly the shards with a header,
    each once, with the data of a header of greatest block number, the greatest
    epoch and the recorded consensus status; the versions are those of the nodes,
    each once; and there are no more validators than elected seats. *)
Theorem statusSnapshot_spec (L : Linq) (MR : GoRuntime) env env' m hs :
  m_inUse m = false → shorten_sigs (bc_Nodes (m_BlockHeaderSnapshot m)) = Done hs →
  let m2 := env (set_snapshot_headers hs m) in
  ∃ r, statusSnapshot env env' m = Some (env' m2, Done r)
    ∧ Forall (status_of hs (m_consensusProgress m)) (sr_Shards r)
    ∧ NoDup (ss_ShardID <$> sr_Shards r)
    ∧ (∀ shard, Itoa shard ∈ ss_ShardID <$> sr_Shards r ↔ ∃ h, h ∈ hs ∧ header_shard h = shard)
    ∧ NoDup (sr_Versions r)
    ∧ (∀ v, v ∈ sr_Versions r ↔ ∃ n, n ∈ mc_Nodes (m_MetadataSnapshot m) ∧ meta_version n = v)
    ∧ 0 ≤ sr_Validators r ≤ sr_ElectedSeats r.
Proof.
  intros Hl Hs m2. destruct (take_summary_locked m hs Hl Hs) as (chain & _ & Et).
  destruct (status_report_shape hs (mc_Nodes (m_MetadataSnapshot m)) (m_consensusProgress m) chain
    (co_ExternalCount (sc_CurrentCommittee (m_SuperCommittee (env' m2)))) (m_SuperCommittee m2))
    as (status & E & Hshape).
  eexists. split; [|exact Hshape].
  unfold statusSnapshot, and_then. unfold locked in *. rewrite Hl in *.
  change (m_consensusProgress (set_inUse true m)) with (m_consensusProgress m).
  destruct (take_summary (set_inUse true m)) as [m' [sum|w]]; [|done].
  apply (inj Some), pair_equal_spec in Et as [Em' Es]. injection Es as Es.
  fold (first_summary (mc_Nodes (m_MetadataSnapshot m)) hs chain) in Es.
  cbn [mbind outcome_bind]. rewrite Em', Es. fold m2. by rewrite E.
Qed.

(** ** The page and the download *)

Lemma chain_summaries_any `{L : Linq} metas chain :
  chain_summaries metas = Done chain → any_map chain.
Proof.
  unfold chain_summaries. intros E. eapply (for_each_inv _ any_map); [| |exact E].
  - intros [shard g] s s' _ Ha. destruct (FirstWith _ g) as [x|]; [|done]. intros [= <-] k e.
    rewrite lookup_insert_Some. intros [[_ <-]|[_ H]]; [eauto|by eapply Ha].
  - intros k e. by rewrite lookup_empty.
Qed.

Lemma fold_insert_range `{MR : GoRuntime} {V} (m : gmap string V) :
  fold_left (λ (i : gmap string V) '(k, v), <[k := v]> i) (range m) ∅ = m.
Proof.
  apply map_eq. intros k. apply option_eq. intros v.
  rewrite (fold_insert_Some id id) by apply NoDup_range_keys. rewrite lookup_empty. split.
  - intros [(k' & v' & Hin & -> & ->)|[? _]]; [|done]. by apply elem_of_range.
  - intros Hm. left. exists k, v. by rewrite elem_of_range.
Qed.

(** [summaryCopy] copies. *)
Lemma summaryCopy_eq `{MR : GoRuntime} newData m :
  summaryCopy newData m = set_report newData (m_NoReplySnapshot m) m.
Proof.
  unfold summaryCopy. f_equal. rewrite <-(fold_insert_range newData) at 2.
  generalize (∅ : summary) as acc. induction (range newData) as [|[k v] l IH]; intros acc; [done|].
  cbn [fold_left]. rewrite fold_insert_range. apply IH.
Qed.

(** Only the chain configurations get the consensus status. *)
Lemma add_consensus_other `{MR : GoRuntime} r sum key :
  key ≠ chainSumry → add_consensus r = Done sum → sum !! key = rp_Summary r !! key.
Proof.
  intros Hk. apply (for_each_inv _ (λ sum : summary, sum !! key = rp_Summary r !! key)); [|done].
  intros [k v] s s' _ Hs. unfold set_field. destruct (default ∅ (s !! chainSumry) !! k) as [e|].
  - destruct (as_any (Some e)) as [a|]; [|done]. intros [= <-]. by rewrite lookup_insert_ne.
  - by intros [= <-].
Qed.

(** The number of machines behind a list of addresses. *)
Lemma Distinct_size `{L : Linq} (l : list string) :
  length (Distinct l) = size (list_to_set l : gset string).
Proof.
  rewrite <-(size_list_to_set (C := gset string)) by apply Distinct_NoDup. f_equal.
  apply set_eq. intros x. by rewrite !elem_of_list_to_set, Distinct_elem.
Qed.

(** The summary on the page: that of the report, with the consensus status of
    the shards in their chain configuration. *)
Definition with_status `{MR : GoRuntime} (progress : gmap string bool)
    (chain : gmap string iface) : gmap string iface :=
  fold_left (λ inner p, alter (put "consensus-status" (LBool p.2)) p.1 inner) (range progress)
    chain.

Definition page_summary `{L : Linq} `{MR : GoRuntime} (metas : list NodeMetadata)
    (hs : list BlockHeader) (links : list CrossLink) (progress : gmap string bool)
    (chain : gmap string iface) : summary :=
  <[chainSumry := with_status progress chain]> (report_summary metas hs links chain).

Definition silent (m : monitor) : list noReply :=
  mc_Down (m_MetadataSnapshot m) ++ bc_Down (m_BlockHeaderSnapshot m).

Lemma renderReport_run (L : Linq) (MR : GoRuntime) build parse now env env' m hs :
  m_inUse m = false → shorten_sigs (bc_Nodes (m_BlockHeaderSnapshot m)) = Done hs →
  let m2 := env (set_snapshot_headers hs m) in
  m_inUse m2 = false → m_inUse (env' m2) = false → parse (m_chain m2) = None →
  ∃ chain, chain_summaries (mc_Nodes (m_MetadataSnapshot m)) = Done chain
    ∧ let sum := page_summary (mc_Nodes (m_MetadataSnapshot m)) hs
        (lc_CrossLinks (m_LastCrossLinks m2)) (m_consensusProgress m2) chain in
      renderReport build parse now env env' m
      = Some (set_report sum (silent m2) (env' m2),
          Done (inl (MkPageData [m_chain m2] [build; now] sum (m_SuperCommittee m2) (silent m2)
            (Z.of_nat (length (Distinct (nr_IP <$> silent m2))))))).
Proof.
  intros Hl Hs m2 Hl2 Hl3 Hparse.
  destruct (networkSnapshot_run L MR build env m hs Hl Hs Hl2) as (chain & Hchain & E).
  exists chain. split; [done|]. cbv zeta. fold m2 in E. fold m2.
  destruct (set_fields_fold chainSumry "consensus-status" fst (λ p : string * bool, LBool p.2)
    (range (m_consensusProgress m2)) (report_summary (mc_Nodes (m_MetadataSnapshot m)) hs
      (lc_CrossLinks (m_LastCrossLinks m2)) chain) chain eq_refl (chain_summaries_any _ _ Hchain))
    as [F _].
  unfold renderReport, and_then. rewrite E. unfold add_consensus. cbn [rp_ConsensusProgress rp_Summary].
  rewrite (for_each_ext _ (λ p sum, set_field chainSumry p.1 "consensus-status" (LBool p.2) sum))
    by (by intros [] ?).
  rewrite F, Hparse. unfold interfere, locked. fold m2. rewrite Hl3, summaryCopy_eq.
  do 2 f_equal. by destruct (env' m2); cbn in *; subst.
Qed.

(** C24: what is on the page can be downloaded. When the lock is free, every
    signature is empty or has at least five bytes and the page template parses,
    the page is rendered and stored; until the next page is rendered, the CSV of
    every shard with a header is one row per header of that shard in the
    snapshot, after the header row. *)
Theorem render_then_csv (L : Linq) (MR : GoRuntime) build parse now env env' m hs query shard :
  m_inUse m = false → shorten_sigs (bc_Nodes (m_BlockHeaderSnapshot m)) = Done hs →
  let m2 := env (set_snapshot_headers hs m) in
  m_inUse m2 = false → m_inUse (env' m2) = false → parse (m_chain m2) = None →
  query !! "report"%string = Some [blockHeaderReport] →
  query !! "shard"%string = Some [Itoa shard] →
  (∃ h, h ∈ hs ∧ header_shard h = shard) →
  ∃ m' data rows,
    renderReport build parse now env env' m = Some (m', Done (inl data))
    ∧ m_inUse m' = false
    ∧ produceCSV query m'
      = Some (m', Done (Csv "block-header.csv" (headerInformationCSVHeader :: rows)))
    ∧ rows ≡ₚ header_rows (Itoa shard) (filter (λ h, header_shard h = shard) hs).
Proof.
  intros Hl Hs m2 Hl2 Hl3 Hparse Hq1 Hq2 Hh.
  destruct (renderReport_run L MR build parse now env env' m hs Hl Hs Hl2 Hl3 Hparse)
    as (chain & Hchain & E).
  fold m2 in E. cbv zeta in E. set (sum := page_summary _ _ _ _ _) in E.
  set (m3 := env' m2) in *.
  assert (sum !! headerSumry = Some (complete (mc_Nodes (m_MetadataSnapshot m))
    (lc_CrossLinks (m_LastCrossLinks m2)) (blockHeaderSummary hs true ∅))) as Eh by done.
  destruct (proj2 (complete_dom hs (mc_Nodes (m_MetadataSnapshot m))
    (lc_CrossLinks (m_LastCrossLinks m2)) shard) Hh) as [e He].
  destruct (complete_entry _ _ _ _ _ He) as (a & h & ips & g & -> & _ & Hrec & Hg & _).
  eexists _, _, (header_rows (Itoa shard) g). split; [exact E|]. split_and!.
  - by destruct m3.
  - unfold produceCSV. rewrite Hq1. cbn [first_value]. rewrite decide_True by done. rewrite Hq2.
    unfold locked. cbn [m_inUse set_report]. rewrite Hl3. cbn [first_value mbind outcome_bind].
    unfold csv_headers, snapshot_part. cbn [m_SummarySnapshot set_report set_inUse].
    rewrite Eh. cbn [default from_option id]. rewrite He. cbn [as_any mbind outcome_bind].
    rewrite Hrec. cbn [as_headers mbind outcome_bind]. do 3 f_equal.
    by destruct m3; cbn in *; subst.
  - unfold header_rows. by rewrite Hg.
Qed.

(** The header row does not fit. Every downloaded header table has three
    column names over rows of eleven cells, and every metadata table three over
    rows of nine: the names are "IP" and those of the two fields of the Go
    struct. *)
Theorem csv_columns m shard vrs rows rows' :
  csv_headers shard m = Done rows → csv_metadata vrs m = Done rows' →
  length headerInformationCSVHeader = 3%nat ∧ Forall (λ r, length r = 11%nat) rows
  ∧ length nodeMetadataCSVHeader = 3%nat ∧ Forall (λ r, length r = 9%nat) rows'.
Proof.
  intros H1 H2. split_and!; [done| |done|].
  - unfold csv_headers in H1. destruct (as_any _) as [a|]; [|done]. cbn in H1.
    destruct (as_headers _) as [l|]; [|done]. injection H1 as <-. by apply Forall_fmap, Forall_true.
  - unfold csv_metadata in H2. destruct (snapshot_part _ _ !! vrs) as [v|]; [|by injection H2 as <-].
    destruct (as_map _) as [a|]; [|done]. cbn in H2.
    destruct (as_metas _) as [l|]; [|done]. injection H2 as <-. by apply Forall_fmap, Forall_true.
Qed.

(** ** Concrete reports *)

Module ReportsWitness.
Definition header (sig : string) : BlockHeader :=
  MkBlockHeader (MkBlockHeaderReply "0xab" 7 0 "leader" 7 1 "now" 5 sig "0x1") "10.0.0.1".
Definition metadata : NodeMetadata :=
  MkNodeMetadata
    (MkNodeMetadataReply (Some ["key"]) "v1" "testnet" true 0 "Validator" 10 "dns" false 5
       zero_ChainConfig zero_P2PConnectivity) "10.0.0.1".
Definition mon (sig : string) : monitor :=
  set_MetadataSnapshot (MkMetadataContainer (Unix 5) [metadata] [])
    (set_BlockHeaderSnapshot (MkBlockHeaderContainer (Unix 5) [header sig] [])
       (new_monitor "testnet")).
Definition hs : list BlockHeader := [header "0x123...56789"].
Definition query (shard : string) : gmap string (list string) :=
  <["report" := [blockHeaderReport]]> {["shard" := [shard]]}.
Lemma shortened_hs : shorten_sigs (bc_Nodes (m_BlockHeaderSnapshot (mon "0x123456789"))) = Done hs.
Proof. vm_compute. reflexivity. Qed.
Lemma query_report shard : query shard !! "report"%string = Some [blockHeaderReport].
Proof. unfold query. by rewrite lookup_insert_eq. Qed.
Lemma query_shard shard : query shard !! "shard"%string = Some [shard].
Proof. unfold query. rewrite lookup_insert_ne by done. by rewrite lookup_singleton_eq. Qed.
Lemma shard_known : ∃ h, h ∈ hs ∧ header_shard h = 0.
Proof. exists (header "0x123...56789"). split; [by apply list_elem_of_singleton|reflexivity]. Qed.
End ReportsWitness.

Lemma networkSnapshot_spec_witness :
  ∃ sum, networkSnapshot (L := linq_ref) (MR := range_ref) "v1" id (ReportsWitness.mon "0x123456789")
    = Some (set_snapshot_headers ReportsWitness.hs (ReportsWitness.mon "0x123456789"),
        Done (MkNetworkReport "v1" "testnet" ∅ sum []))
    ∧ is_Some (default ∅ (sum !! headerSumry) !! Itoa 0).
Proof.
  destruct (networkSnapshot_spec linq_ref range_ref "v1" id (ReportsWitness.mon "0x123456789")
    ReportsWitness.hs eq_refl ReportsWitness.shortened_hs eq_refl) as (sum & E & Hd & _).
  exists sum. split; [exact E|]. apply Hd. exact ReportsWitness.shard_known.
Defined.

Lemma short_signature_wedges_witness :
  ∃ w, statusSnapshot (L := linq_ref) (MR := range_ref) id id (ReportsWitness.mon "0x1")
    = Some (set_inUse true (set_snapshot_headers [ReportsWitness.header "0x1"]
        (ReportsWitness.mon "0x1")), Panic w)
    ∧ wedged (set_inUse true (set_snapshot_headers [ReportsWitness.header "0x1"]
        (ReportsWitness.mon "0x1"))).
Proof.
  destruct (short_signature_wedges linq_ref range_ref "v1" (λ _, None) "now" id id
    (ReportsWitness.mon "0x1") (ReportsWitness.header "0x1") eq_refl) as (w & _ & E & _ & W).
  - apply list_elem_of_here.
  - cbn. lia.
  - exists w. split; [exact E|exact W].
Defined.

Lemma unknown_shard_wedges_witness :
  ∃ w, produceCSV (ReportsWitness.query "0") (new_monitor "testnet")
    = Some (set_inUse true (new_monitor "testnet"), Panic w)
    ∧ wedged (set_inUse true (new_monitor "testnet")).
Proof.
  exact (unknown_shard_wedges (new_monitor "testnet") (ReportsWitness.query "0") "0" [] [] eq_refl
    (ReportsWitness.query_report "0") (ReportsWitness.query_shard "0") eq_refl).
Defined.

Lemma statusSnapshot_spec_witness :
  ∃ r, statusSnapshot (L := linq_ref) (MR := range_ref) id id (ReportsWitness.mon "0x123456789")
    = Some (set_snapshot_headers ReportsWitness.hs (ReportsWitness.mon "0x123456789"), Done r)
    ∧ Itoa 0 ∈ ss_ShardID <$> sr_Shards r.
Proof.
  destruct (statusSnapshot_spec linq_ref range_ref id id (ReportsWitness.mon "0x123456789")
    ReportsWitness.hs eq_refl ReportsWitness.shortened_hs) as (r & E & _ & _ & Hd & _).
  exists r. split; [exact E|]. apply Hd. exact ReportsWitness.shard_known.
Defined.

Lemma render_then_csv_witness :
  ∃ m' data rows,
    renderReport (L := linq_ref) (MR := range_ref) "v1" (λ _, None) "now" id id
      (ReportsWitness.mon "0x123456789") = Some (m', Done (inl data))
    ∧ m_inUse m' = false
    ∧ produceCSV (ReportsWitness.query (Itoa 0)) m'
      = Some (m', Done (Csv "block-header.csv" (headerInformationCSVHeader :: rows)))
    ∧ rows ≡ₚ header_rows (Itoa 0) (filter (λ h, header_shard h = 0) ReportsWitness.hs).
Proof.
  exact (render_then_csv linq_ref range_ref "v1" (λ _, None) "now" id id
    (ReportsWitness.mon "0x123456789") ReportsWitness.hs (ReportsWitness.query (Itoa 0)) 0
    eq_refl ReportsWitness.shortened_hs eq_refl eq_refl eq_refl
    (ReportsWitness.query_report (Itoa 0)) (ReportsWitness.query_shard (Itoa 0))
    ReportsWitness.shard_known).
Defined.
