(* ===== verification/Wire.v ===== *)
(** * What clients receive (reporting-server.go)

    The text of the CSV files, as encoding/csv writes it, and of the status
    report, as encoding/json writes it. Both can be read back; but a reader of CSV
    that wants as many cells in every row as there are column names refuses the
    files with data. *)

From S2P Require Import Prelude GoFloat GoFmt GoTime GoJson Rpc Linq Alerts Summary Monitor.
From S2P Require Import Manager Reports.

(** ** CSV files *)

Definition comma : ascii := ",".
Definition cr : ascii := "013".
Definition lf : ascii := "010".

(** [unicode.IsSpace] of the first character of UTF-8 text. *)
Definition starts_with_space (s : string) : bool :=
  match s with
  | EmptyString => false
  | String a r =>
      between 9 13 a || (ord a =? 32)
      || match r with
         | EmptyString => false
         | String b r =>
             (ord a =? 194) && ((ord b =? 133) || (ord b =? 160))
             || match r with
                | EmptyString => false
                | String c _ =>
                    (ord a =? 225) && (ord b =? 154) && (ord c =? 128)
                    || (ord a =? 226) && (ord b =? 128)
                       && (between 128 138 c || (ord c =? 168) || (ord c =? 169) || (ord c =? 175))
                    || (ord a =? 226) && (ord b =? 129) && (ord c =? 159)
                    || (ord a =? 227) && (ord b =? 128) && (ord c =? 128)
                end
         end
  end.

Fixpoint contains_any (P : ascii → bool) (s : string) : bool :=
  match s with EmptyString => false | String c r => P c || contains_any P r end.

Definition special (c : ascii) : bool :=
  bool_decide (c = comma) || bool_decide (c = dquote) || bool_decide (c = cr) || bool_decide (c = lf).

(** [fieldNeedsQuotes] of [csv.Writer]. *)
Definition fieldNeedsQuotes (field : string) : bool :=
  match field with
  | EmptyString => false
  | _ => bool_decide (field = "\."%string) || contains_any special field || starts_with_space field
  end.

Fixpoint double_quotes (s : string) : string :=
  match s with
  | EmptyString => EmptyString
  | String c r =>
      if decide (c = dquote) then String dquote (String dquote (double_quotes r))
      else String c (double_quotes r)
  end.

Definition csv_field (field : string) : string :=
  if fieldNeedsQuotes field then String dquote (double_quotes field +:+ str1 dquote) else field.

(** [Write]. *)
Definition csv_record (record : list string) : string :=
  join "," (csv_field <$> record) +:+ str1 lf.

(** [WriteAll]. *)
Fixpoint csv_text (records : list (list string)) : string :=
  match records with
  | [] => EmptyString
  | record :: records => csv_record record +:+ csv_text records
  end.

(** The header fields and the body of a response. [http.Error] ends its message
    with a line feed. *)
Definition csv_response_headers (r : csv_response) : list (string * string) :=
  match r with
  | Csv filename _ =>
      [("Content-Type", "text/csv");
       ("Content-Disposition", "attachment;filename=" +:+ filename)]%string
  | HttpError _ _ =>
      [("Content-Type", "text/plain; charset=utf-8"); ("X-Content-Type-Options", "nosniff")]%string
  end.

Definition csv_body (r : csv_response) : string :=
  match r with
  | Csv _ records => csv_text records
  | HttpError msg _ => msg +:+ str1 lf
  end.

(** *** Reading CSV

    A reader of the format (RFC 4180): at the start of a field, in a bare field,
    in a quoted one, or after a quote in a quoted one. *)
Inductive reader : Type :=
  | AtStart
  | Bare (field : string)
  | Quoted (field : string)
  | AfterQuote (field : string).

Fixpoint read_csv (s : string) (st : reader) (row : list string) (rows : list (list string)) :
    option (list (list string)) :=
  match s with
  | EmptyString =>
      match st, row with AtStart, [] => Some rows | _, _ => None end
  | String c s =>
      let ends field :=
        if decide (c = comma) then read_csv s AtStart (row ++ [field]) rows
        else if decide (c = lf) then read_csv s AtStart [] (rows ++ [row ++ [field]])
        else None in
      match st with
      | AtStart =>
          if decide (c = dquote) then read_csv s (Quoted EmptyString) row rows
          else if special c then ends EmptyString
          else read_csv s (Bare (str1 c)) row rows
      | Bare field =>
          if special c then ends field else read_csv s (Bare (field +:+ str1 c)) row rows
      | Quoted field =>
          if decide (c = dquote) then read_csv s (AfterQuote field) row rows
          else read_csv s (Quoted (field +:+ str1 c)) row rows
      | AfterQuote field =>
          if decide (c = dquote) then read_csv s (Quoted (field +:+ str1 c)) row rows
          else ends field
      end
  end.

Definition parse_csv (s : string) : option (list (list string)) := read_csv s AtStart [] [].

(** Each line should have the same number of fields (RFC 4180, rule 4); a strict
    reader, such as [csv.Reader] by default, refuses a record that has not as many
    as the first. *)
Definition same_fields (records : list (list string)) : bool :=
  match records with
  | [] => true
  | first :: rest => forallb (λ r, length r =? length first)%nat rest
  end.

Definition strict_csv (s : string) : option (list (list string)) :=
  records ← parse_csv s;
  if same_fields records then Some records else None.

(** ** Facts *)

(** A bare field, and a quoted one. *)
Lemma read_bare f rest field row rows :
  contains_any special f = false →
  read_csv (f +:+ rest) (Bare field) row rows = read_csv rest (Bare (field +:+ f)) row rows.
Proof.
  revert field. induction f as [|c f IH]; intros field.
  - intros _. by rewrite app_nil_string, string_app_nil_r.
  - cbn [contains_any]. intros [Hc Hf]%orb_false_iff. rewrite app_cons_string. cbn [read_csv].
    rewrite Hc, IH by done. by rewrite string_app_assoc.
Qed.

Lemma read_quoted f rest field row rows :
  read_csv (double_quotes f +:+ rest) (Quoted field) row rows
  = read_csv rest (Quoted (field +:+ f)) row rows.
Proof.
  revert field. induction f as [|c f IH]; intros field.
  - cbn [double_quotes]. by rewrite app_nil_string, string_app_nil_r.
  - cbn [double_quotes]. case_decide as Hc.
    + subst c. rewrite !app_cons_string. cbn [read_csv].
      rewrite !decide_True, IH, string_app_assoc by done. done.
    + rewrite app_cons_string. cbn [read_csv]. by rewrite decide_False, IH, string_app_assoc.
Qed.

(** The end of a field: the next one, or the next record. *)
Definition next (c : ascii) (rest field : string) (row : list string)
    (rows : list (list string)) : option (list (list string)) :=
  if decide (c = comma) then read_csv rest AtStart (row ++ [field]) rows
  else read_csv rest AtStart [] (rows ++ [row ++ [field]]).

Lemma read_field f c rest row rows :
  c = comma ∨ c = lf →
  read_csv (csv_field f +:+ String c rest) AtStart row rows = next c rest f row rows.
Proof.
  intros Hc. assert (special c = true ∧ c ≠ dquote) as [Hs Hq] by (by destruct Hc as [-> | ->]).
  assert (∀ field, (if decide (c = comma) then read_csv rest AtStart (row ++ [field]) rows
    else if decide (c = lf) then read_csv rest AtStart [] (rows ++ [row ++ [field]]) else None)
    = next c rest field row rows) as Hnext.
  { intros field. unfold next. case_decide; [done|]. rewrite decide_True; [done|]. by destruct Hc. }
  unfold csv_field. destruct (fieldNeedsQuotes f) eqn:Ef.
  - rewrite app_cons_string. cbn [read_csv]. rewrite decide_True by done.
    rewrite string_app_assoc, read_quoted. unfold str1. rewrite app_cons_string, app_nil_string.
    cbn [read_csv]. rewrite decide_True, decide_False by done. apply Hnext.
  - destruct f as [|a f].
    + rewrite app_nil_string. cbn [read_csv]. rewrite decide_False, Hs by done. apply Hnext.
    + cbn [fieldNeedsQuotes] in Ef. apply orb_false_iff in Ef as [[_ Ef]%orb_false_iff _].
      cbn [contains_any] in Ef. apply orb_false_iff in Ef as [Ha Hf].
      rewrite app_cons_string. cbn [read_csv]. rewrite Ha, read_bare by done. cbn [read_csv].
      rewrite Hs. rewrite decide_False; [apply Hnext|]. intros ->. done.
Qed.

Lemma read_record record rest row rows :
  record ≠ [] →
  read_csv (csv_record record +:+ rest) AtStart row rows
  = read_csv rest AtStart [] (rows ++ [row ++ record]).
Proof.
  unfold csv_record. revert row. induction record as [|f record IH]; intros row Hne; [done|].
  destruct record as [|g record].
  - cbn [fmap list_fmap join]. unfold str1. rewrite string_app_assoc, app_cons_string, app_nil_string.
    rewrite read_field by by right. done.
  - rewrite !fmap_cons, join_more, <-fmap_cons.
    rewrite !string_app_assoc, app_cons_string.
    rewrite read_field by by left. unfold next.
    rewrite decide_True by done. rewrite <-string_app_assoc, IH by done.
    by rewrite <-app_assoc.
Qed.

(** The text of non-empty records is read back as these records. *)
Lemma parse_csv_text records :
  Forall (λ r, r ≠ []) records → parse_csv (csv_text records) = Some records.
Proof.
  intros H. unfold parse_csv. rewrite <-(app_nil_l records) at 2. generalize (@nil (list string)) as rows.
  induction H as [|r records Hr _ IH]; intros rows; cbn [csv_text].
  - by rewrite app_nil_r.
  - rewrite read_record, IH, app_nil_l, <-app_assoc by done. done.
Qed.

(** The records of a download: none, or three names over rows of nine or eleven
    cells. *)
Definition download (records : list (list string)) : Prop :=
  records = []
  ∨ ∃ names rows n, records = names :: rows ∧ length names = 3%nat
      ∧ Forall (λ r, length r = n) rows ∧ (n = 9 ∨ n = 11)%nat.

Lemma produceCSV_download query m m' filename records :
  produceCSV query m = Some (m', Done (Csv filename records)) → download records.
Proof.
  assert (∀ P (body : monitor → outcome csv_response) m m' r,
    locked (λ m, (m, body m)) m = Some (m', Done r) → (∀ m, body m = Done r → P) → P) as Hl.
  { intros P body m0 m1 r. unfold locked. destruct (m_inUse m0); [done|].
    destruct (body _) eqn:E; [|done]. intros [= _ ->] H. by eapply H. }
  unfold produceCSV. destruct (query !! _) as [keys|]; [|done].
  destruct (first_value keys) as [report|]; [|done]. repeat case_decide.
  - destruct (query !! _) as [shard|]; [|done]. intros E. eapply Hl; [exact E|]. intros m0.
    destruct (first_value shard) as [s|]; [|done]. cbn [mbind outcome_bind]. unfold csv_headers.
    destruct (as_any _) as [a|]; [|done]. cbn [mbind outcome_bind].
    destruct (as_headers _) as [hs|]; [|done]. cbn [mbind outcome_bind]. intros [= <- <-].
    right. eexists _, _, 11%nat. split_and!; [done|done|by apply Forall_fmap, Forall_true|by right].
  - destruct (query !! _) as [vrs|]; [|done]. intros E. eapply Hl; [exact E|]. intros m0.
    destruct (first_value vrs) as [v|]; [|done]. cbn [mbind outcome_bind]. unfold csv_metadata.
    destruct (snapshot_part _ _ !! v) as [e|]; cbn [mbind outcome_bind].
    + destruct (as_map _) as [a|]; [|done]. cbn [mbind outcome_bind].
      destruct (as_metas _) as [ns|]; [|done]. cbn [mbind outcome_bind]. intros [= <- <-].
      right. eexists _, _, 9%nat. split_and!; [done|done|by apply Forall_fmap, Forall_true|by left].
    + intros [= <- <-]. right. by exists nodeMetadataCSVHeader, [], 9%nat; auto.
  - intros [= _ <- <-]. by left.
Qed.

Lemma download_nonempty records : download records → Forall (λ r, r ≠ []) records.
Proof.
  intros [->|(names & rows & n & -> & Hl & Hr & Hn)]; [constructor|]. constructor; [by destruct names|].
  eapply Forall_impl; [exact Hr|]. intros [|c r]; cbn; [lia|done].
Qed.

Lemma download_same_fields records :
  download records → same_fields records = true ↔ (length records ≤ 1)%nat.
Proof.
  intros [->|(names & [|r rows] & n & -> & Hl & Hr & Hn)]; [cbn; by split; auto with lia..|].
  apply Forall_cons in Hr as [Er _]. cbn. rewrite Er, Hl, andb_true_iff, Nat.eqb_eq. split; lia.
Qed.

(** C31: what a reader makes of a downloaded file. Whatever bytes the nodes put
    into their records (commas, quotes, line breaks), the text of a CSV response,
    read by the rules for fields and lines, gives back exactly the records. But the
    names in the first record are three, over rows of nine or eleven cells: a
    reader that wants every record to have as many fields as the first accepts the
    files without data and refuses all others. *)
Theorem csv_download query m m' filename records :
  produceCSV query m = Some (m', Done (Csv filename records)) →
  parse_csv (csv_body (Csv filename records)) = Some records
  ∧ strict_csv (csv_body (Csv filename records))
    = if decide (length records ≤ 1)%nat then Some records else None.
Proof.
  intros H%produceCSV_download. cbn [csv_body].
  pose proof (parse_csv_text records (download_nonempty _ H)) as E. split; [done|].
  unfold strict_csv. rewrite E. cbn [mbind option_bind].
  pose proof (download_same_fields records H) as Hs. case_decide as Hl; destruct (same_fields records);
    naive_solver.
Qed.

(** ** The status report *)

(** [json.NewEncoder(w).Encode] of the structs, whose slices are never nil. *)
Definition enc_shardStatus (s : shardStatus) : json := JObj [
  ("shard-id", JStr (ss_ShardID s)); ("consensus-status", JBool (ss_Consensus s));
  ("current-block-number", enc_int (ss_Block s)); ("block-timestamp", JStr (ss_BlockTimestamp s));
  ("current-epoch", enc_int (ss_Epoch s)); ("leader-address", JStr (ss_LeaderAddress s))]%string.

Definition enc_statusReport (r : statusReport) : json := JObj [
  ("shard-status", JArr (enc_shardStatus <$> sr_Shards r));
  ("commit-version", JArr (JStr <$> sr_Versions r)); ("avail-seats", enc_int (sr_AvailSeats r));
  ("used-seats", enc_int (sr_ElectedSeats r)); ("validators", enc_int (sr_Validators r))]%string.

(** The body [statusJSON] writes. *)
Definition status_body (r : statusReport) : string := print (enc_statusReport r) +:+ str1 lf.

(** A client that decodes into the same structs. *)
Definition zero_shardStatus : shardStatus := MkShardStatus EmptyString false 0 EmptyString 0 EmptyString.

Definition dec_shardStatus : decoder shardStatus := dec_struct [
  ("shard-id"%string, λ j s, MkShardStatus (dec_string j (ss_ShardID s)) (ss_Consensus s)
     (ss_Block s) (ss_BlockTimestamp s) (ss_Epoch s) (ss_LeaderAddress s));
  ("consensus-status"%string, λ j s, MkShardStatus (ss_ShardID s) (dec_bool j (ss_Consensus s))
     (ss_Block s) (ss_BlockTimestamp s) (ss_Epoch s) (ss_LeaderAddress s));
  ("current-block-number"%string, λ j s, MkShardStatus (ss_ShardID s) (ss_Consensus s)
     (dec_uint two64 j (ss_Block s)) (ss_BlockTimestamp s) (ss_Epoch s) (ss_LeaderAddress s));
  ("block-timestamp"%string, λ j s, MkShardStatus (ss_ShardID s) (ss_Consensus s)
     (ss_Block s) (dec_string j (ss_BlockTimestamp s)) (ss_Epoch s) (ss_LeaderAddress s));
  ("current-epoch"%string, λ j s, MkShardStatus (ss_ShardID s) (ss_Consensus s)
     (ss_Block s) (ss_BlockTimestamp s) (dec_uint two64 j (ss_Epoch s)) (ss_LeaderAddress s));
  ("leader-address"%string, λ j s, MkShardStatus (ss_ShardID s) (ss_Consensus s)
     (ss_Block s) (ss_BlockTimestamp s) (ss_Epoch s) (dec_string j (ss_LeaderAddress s)))].

Definition zero_statusReport : statusReport := MkStatusReport [] [] 0 0 0.

Definition dec_statusReport : decoder statusReport := dec_struct [
  ("shard-status"%string, λ j r, MkStatusReport
     ((dec_list zero_shardStatus dec_shardStatus) j (sr_Shards r)) (sr_Versions r) (sr_AvailSeats r)
     (sr_ElectedSeats r) (sr_Validators r));
  ("commit-version"%string, λ j r, MkStatusReport (sr_Shards r)
     ((dec_list EmptyString dec_string) j (sr_Versions r)) (sr_AvailSeats r) (sr_ElectedSeats r)
     (sr_Validators r));
  ("avail-seats"%string, λ j r, MkStatusReport (sr_Shards r) (sr_Versions r)
     (dec_int j (sr_AvailSeats r)) (sr_ElectedSeats r) (sr_Validators r));
  ("used-seats"%string, λ j r, MkStatusReport (sr_Shards r) (sr_Versions r) (sr_AvailSeats r)
     (dec_int j (sr_ElectedSeats r)) (sr_Validators r));
  ("validators"%string, λ j r, MkStatusReport (sr_Shards r) (sr_Versions r) (sr_AvailSeats r)
     (sr_ElectedSeats r) (dec_int j (sr_Validators r)))].

Definition wf_shardStatus (s : shardStatus) : Prop := is_uint64 (ss_Block s) ∧ is_uint64 (ss_Epoch s).
Definition wf_statusReport (r : statusReport) : Prop :=
  Forall wf_shardStatus (sr_Shards r) ∧ is_int64 (sr_AvailSeats r) ∧ is_int64 (sr_ElectedSeats r)
  ∧ is_int64 (sr_Validators r).

Lemma dec_shardStatus_enc s zero : wf_shardStatus s → dec_shardStatus (enc_shardStatus s) zero = s.
Proof.
  intros [H1 H2]. destruct s. cbn in H1, H2. unfold is_uint64 in *.
  lazy -[dec_uint Itoa two64]. by rewrite !dec_uint_Itoa.
Qed.

Lemma dec_shards_enc l :
  Forall wf_shardStatus l → dec_elems zero_shardStatus dec_shardStatus (enc_shardStatus <$> l) [] = l.
Proof.
  induction 1 as [|s l Hs _ IH]; [done|]. cbn [fmap list_fmap dec_elems].
  by rewrite dec_shardStatus_enc, IH.
Qed.

Lemma dec_statusReport_enc r :
  wf_statusReport r → dec_statusReport (enc_statusReport r) zero_statusReport = r.
Proof.
  intros (H1 & H2 & H3 & H4). destruct r as [shards versions avail used validators].
  cbn in H1, H2, H3, H4. unfold enc_statusReport. cbn [sr_Shards sr_Versions].
  pose proof (dec_elems_strings versions) as Hv. pose proof (dec_shards_enc shards H1) as Hs.
  set (js := JStr <$> versions) in *. set (ks := enc_shardStatus <$> shards) in *. clearbody js ks.
  lazy -[dec_int Itoa dec_elems dec_string dec_shardStatus zero_shardStatus].
  by rewrite !dec_int_Itoa, Hv, Hs.
Qed.

(** The status report can be read back. A status report of strings in UTF-8 and
    of numbers of the declared widths, encoded by [statusJSON], decodes to itself. *)
Theorem status_roundtrip r :
  wf_statusReport r → plain (enc_statusReport r) = true →
  Unmarshal dec_statusReport (status_body r) zero_statusReport = r.
Proof.
  intros Hr Hp. unfold Unmarshal, status_body, str1, lf. rewrite (parse_print_line _ Hp).
  by apply dec_statusReport_enc.
Qed.

(** ** Concrete texts *)

Module WireWitness.
Definition report : statusReport :=
  MkStatusReport [MkShardStatus "0" true 18446744073709551615 "now" 7 "one1"] ["v1"; "v<2>"] 130 120 75.
(** A monitor whose last report has a version with a comma and a quote in it. *)
Definition mon : monitor :=
  set_report {[metaSumry := {["v,1" := IMap {["records" :=
    LMetas [MkNodeMetadata (MkNodeMetadataReply (Some ["k1"; "k2"]) (String dquote "v,1") "testnet" true 0
      "Validator" 10 EmptyString false 5 (MkChainConfig 1 2 3 4 5 6 7) (MkP2PConnectivity 1 1 2))
      "n"]]}]}]} [] (new_monitor "testnet").
Definition query : gmap string (list string) :=
  <["report" := ["node-metadata"]]> {["vrs" := ["v,1"]]}.
Definition records : list (list string) :=
  [["IP"; "Payload"; "IP"];
   ["n"; "k1, k2"; String dquote "v,1"; "testnet"; "1"; "true"; "0"; "Validator"; "false"]].
End WireWitness.

Lemma csv_download_witness :
  parse_csv (csv_body (Csv "node-metadata.csv" WireWitness.records)) = Some WireWitness.records
  ∧ strict_csv (csv_body (Csv "node-metadata.csv" WireWitness.records)) = None.
Proof.
  apply (csv_download WireWitness.query WireWitness.mon WireWitness.mon "node-metadata.csv").
  vm_compute. reflexivity.
Defined.

Lemma status_roundtrip_witness :
  Unmarshal dec_statusReport (status_body WireWitness.report) zero_statusReport
  = WireWitness.report.
Proof.
  apply status_roundtrip.
  - split_and!; [constructor; [|constructor]; by split|done..].
  - vm_compute. reflexivity.
Defined.
