(* ===== verification/NetworkJson.v ===== *)
(** * The network report on the wire (reporting-server.go)

    The JSON text [networkSnapshotJSON] writes: encoding/json walks the structs
    by their tags and the maps with interface values by their sorted keys. A
    client reads a value of the text by the path of its keys. *)

From S2P Require Import Prelude GoFmt GoTime GoJson JsonText Rpc Linq Alerts Summary Monitor.
From S2P Require Import Manager Reports Wire.

(** ** Encoding *)

(** A map with string keys. *)
Definition enc_map {V} (enc : V → json) (m : gmap string V) : json :=
  JObj (prod_map id enc <$> sorted_entries m).

(** Structs without tags: the names of the fields. *)
Definition enc_BlockHeader (h : BlockHeader) : json := JObj [
  ("Payload", enc_BlockHeaderReply (bhd_Payload h)); ("IP", JStr (bhd_IP h))]%string.

Definition enc_NodeMetadata (n : NodeMetadata) : json := JObj [
  ("Payload", enc_NodeMetadataReply (nmd_Payload n)); ("IP", JStr (nmd_IP n))]%string.

Definition enc_noReply (n : noReply) : json := JObj [
  ("IP", JStr (nr_IP n)); ("FailureReason", JStr (nr_FailureReason n));
  ("RPCPayload", JStr (nr_RPCPayload n)); ("ShardID", enc_int (nr_ShardID n))]%string.

(** The values of the summaries; none of the slices in them is nil. *)
Definition enc_leaf (v : leaf) : json :=
  match v with
  | LNil => JNull
  | LU64 z | LInt z => enc_int z
  | LBool b => JBool b
  | LStr s => JStr s
  | LStrs l => JArr (JStr <$> l)
  | LU64s l => JArr (enc_int <$> l)
  | LHeader h => enc_BlockHeader h
  | LHeaders l => JArr (enc_BlockHeader <$> l)
  | LMetas l => JArr (enc_NodeMetadata <$> l)
  end.

Definition enc_iface (v : iface) : json :=
  match v with IAny m | IMap m => enc_map enc_leaf m end.

Definition enc_networkReport (r : networkReport) : json := JObj [
  ("watchdog-build-version", JStr (rp_Build r)); ("chain-name", JStr (rp_Chain r));
  ("consensus-liviness", enc_map JBool (rp_ConsensusProgress r));
  ("summary-maps", enc_map (enc_map enc_iface) (rp_Summary r));
  ("no-reply-machines", JArr (enc_noReply <$> rp_NoReplies r))]%string.

(** The body [networkSnapshotJSON] writes. *)
Definition network_body (r : networkReport) : string := print (enc_networkReport r) +:+ str1 lf.

(** ** Reading *)

(** The member of an object, and the value at a path. *)
Fixpoint find_member (k : string) (l : list (string * json)) : option json :=
  match l with
  | [] => None
  | (k', v) :: l => if decide (k' = k) then Some v else find_member k l
  end.

Definition member (k : string) (j : json) : option json :=
  match j with JObj l => find_member k l | _ => None end.

Fixpoint at_path (path : list string) (j : json) : option json :=
  match path with
  | [] => Some j
  | k :: path => member k j ≫= at_path path
  end.

(** Decoding into the structs of the program. *)
Definition zero_BlockHeader : BlockHeader := MkBlockHeader zero_BlockHeaderReply EmptyString.
Definition dec_BlockHeader : decoder BlockHeader := dec_struct [
  ("Payload"%string, λ j h, MkBlockHeader (dec_BlockHeaderReply j (bhd_Payload h)) (bhd_IP h));
  ("IP"%string, λ j h, MkBlockHeader (bhd_Payload h) (dec_string j (bhd_IP h)))].

Definition zero_NodeMetadata : NodeMetadata := MkNodeMetadata zero_NodeMetadataReply EmptyString.
Definition dec_NodeMetadata : decoder NodeMetadata := dec_struct [
  ("Payload"%string, λ j n, MkNodeMetadata (dec_NodeMetadataReply j (nmd_Payload n)) (nmd_IP n));
  ("IP"%string, λ j n, MkNodeMetadata (nmd_Payload n) (dec_string j (nmd_IP n)))].

Definition zero_noReply : noReply := MkNoReply EmptyString EmptyString EmptyString 0.
Definition dec_noReply : decoder noReply := dec_struct [
  ("IP"%string, λ j n, MkNoReply (dec_string j (nr_IP n)) (nr_FailureReason n) (nr_RPCPayload n)
     (nr_ShardID n));
  ("FailureReason"%string, λ j n, MkNoReply (nr_IP n) (dec_string j (nr_FailureReason n))
     (nr_RPCPayload n) (nr_ShardID n));
  ("RPCPayload"%string, λ j n, MkNoReply (nr_IP n) (nr_FailureReason n)
     (dec_string j (nr_RPCPayload n)) (nr_ShardID n));
  ("ShardID"%string, λ j n, MkNoReply (nr_IP n) (nr_FailureReason n) (nr_RPCPayload n)
     (dec_int j (nr_ShardID n)))].

(** ** Facts *)

Lemma Forall_filtered {A} (P Q : A → Prop) `{∀ x, Decision (Q x)} l :
  Forall P l → Forall P (filter Q l).
Proof. rewrite !Forall_forall. intros HP x [_ ?]%list_elem_of_filter. auto. Qed.

Fixpoint all_ascii (s : string) : bool :=
  match s with EmptyString => true | String c r => is_ascii c && all_ascii r end.

(** A text that is ASCII once it is valid was ASCII before. *)
Lemma valid_ascii s : all_ascii (valid s) = true → valid s = s.
Proof.
  induction s as [|c r IH]; [done|]. cbn [valid]. destruct (is_ascii c) eqn:Ec.
  - cbn [all_ascii]. rewrite Ec. intros H. by rewrite IH.
  - intros H. exfalso. revert H.
    repeat (case_match; cbn [all_ascii]; rewrite ?Ec; try done).
Qed.

Lemma valid_eq_ascii k s : all_ascii k = true → valid s = k ↔ s = k.
Proof.
  intros Hk. split.
  - intros E. rewrite <-E in Hk. by rewrite <-E, valid_ascii.
  - intros ->. clear -Hk. induction k as [|c r IH]; [done|]. cbn [all_ascii] in Hk.
    apply andb_prop in Hk as [H1 H2]. cbn [valid]. by rewrite H1, IH.
Qed.

Lemma member_scrub k j : all_ascii k = true → member k (scrub j) = scrub <$> member k j.
Proof.
  intros Hk. destruct j as [| | | | |l]; try done. cbn.
  induction l as [|[k' v] l IH]; [done|]. cbn. pose proof (valid_eq_ascii k k' Hk).
  by repeat case_decide; naive_solver.
Qed.

(** The same for a key of valid text, when all keys are. *)
Lemma member_scrub_valid k l :
  utf8 k = true → Forall (λ p, utf8 p.1 = true) l →
  member k (scrub (JObj l)) = scrub <$> member k (JObj l).
Proof.
  intros Hk. cbn. induction 1 as [|[k' v] l Hk' _ IH]; [done|]. cbn in *. rewrite valid_utf8 by done.
  by case_decide.
Qed.

Lemma at_path_scrub path j :
  Forall (λ k, all_ascii k = true) path → at_path path (scrub j) = scrub <$> at_path path j.
Proof.
  intros Hp. revert j. induction Hp as [|k path Hk _ IH]; intros j; [done|]. cbn.
  rewrite member_scrub by done. destruct (member k j); cbn; [apply IH|done].
Qed.

Lemma find_member_Some (l : list (string * json)) k v :
  NoDup l.*1 → find_member k l = Some v ↔ (k, v) ∈ l.
Proof.
  induction l as [|[k' v'] l IH]; cbn; [set_solver|]. intros [Hn Hd]%NoDup_cons.
  rewrite elem_of_cons. case_decide as E; [|naive_solver].
  subst k'. split; [naive_solver|]. intros [?|Hin]; [naive_solver|].
  destruct Hn. by apply (list_elem_of_fmap_2 fst) in Hin.
Qed.

Lemma member_enc_map {V} (enc : V → json) m k : member k (enc_map enc m) = enc <$> m !! k.
Proof.
  apply option_eq. intros j. cbn.
  assert (NoDup (prod_map id enc <$> sorted_entries m).*1) as Hd.
  { rewrite <-list_fmap_compose. change (NoDup (fst <$> sorted_entries m)).
    rewrite sorted_entries_perm. apply NoDup_fst_map_to_list. }
  rewrite find_member_Some, list_elem_of_fmap, fmap_Some by done. split.
  - intros ([k' v] & [= -> ->] & Hin%elem_of_sorted_entries). eauto.
  - intros (v & Hv%elem_of_sorted_entries & ->). by exists (k, v).
Qed.

Lemma integral_map {V} (enc : V → json) m :
  (∀ v, integral (enc v) = true) → integral (enc_map enc m) = true.
Proof.
  intros H. cbn. induction (sorted_entries m) as [|[k v] l IH]; [done|]. cbn. by rewrite H.
Qed.

Lemma integral_list {A} (enc : A → json) l :
  (∀ v, integral (enc v) = true) → integral (JArr (enc <$> l)) = true.
Proof. intros H. cbn. induction l as [|v l IH]; [done|]. cbn. by rewrite H. Qed.

Lemma integral_int z : integral (enc_int z) = true.
Proof. apply Itoa_int. Qed.
#[export] Hint Resolve integral_int integral_map integral_list : watchdog.

Lemma integral_header h : integral (enc_BlockHeader h) = true.
Proof. cbn -[enc_int]. by rewrite !integral_int. Qed.

Lemma integral_metadata n : integral (enc_NodeMetadata n) = true.
Proof.
  unfold enc_NodeMetadata, enc_NodeMetadataReply, enc_ChainConfig, enc_P2PConnectivity.
  assert (∀ s, integral (enc_strings s) = true) as Hk.
  { intros [l|]; [|done]. by apply integral_list. }
  case_bool_decide; destruct (nm_ArchivalNode _); cbn -[enc_int enc_strings];
    by rewrite Hk, !integral_int.
Qed.

Lemma integral_noReply n : integral (enc_noReply n) = true.
Proof. cbn -[enc_int]. by rewrite integral_int. Qed.
#[export] Hint Resolve integral_header integral_metadata integral_noReply : watchdog.

Lemma integral_leaf v : integral (enc_leaf v) = true.
Proof. destruct v; cbn [enc_leaf]; auto with watchdog. Qed.
#[export] Hint Resolve integral_leaf : watchdog.

Lemma integral_iface v : integral (enc_iface v) = true.
Proof. destruct v; cbn [enc_iface]; auto with watchdog. Qed.
#[export] Hint Resolve integral_iface : watchdog.

(** The body of every report is JSON text of the report. *)
Lemma network_body_parses r : parse (network_body r) = Some (scrub (enc_networkReport r)).
Proof.
  unfold network_body, str1, lf. apply parse_line_scrub. unfold enc_networkReport.
  assert (∀ l, integral (JArr (enc_noReply <$> l)) = true) as H1 by auto with watchdog.
  assert (∀ m, integral (enc_map JBool m) = true) as H2 by auto with watchdog.
  assert (∀ m, integral (enc_map (enc_map enc_iface) m) = true) as H3 by auto 6 with watchdog.
  cbn [integral forallb snd]. rewrite H2, H3. specialize (H1 (rp_NoReplies r)). cbn [integral] in H1.
  by rewrite H1.
Qed.

(** *** What a record decodes to

    The text of a record is sent with every byte outside valid UTF-8 replaced: the
    signatures are cut between bytes, and the addresses of the nodes and the
    messages of failures are any text. *)

Definition clean_header (h : BlockHeader) : BlockHeader :=
  let p := bhd_Payload h in
  MkBlockHeader
    (MkBlockHeaderReply (valid (bh_BlockHash p)) (bh_BlockNumber p) (bh_ShardID p)
       (valid (bh_Leader p)) (bh_ViewID p) (bh_Epoch p) (valid (bh_Timestamp p)) (bh_UnixTime p)
       (valid (bh_LastCommitSig p)) (valid (bh_LastCommitBitmap p)))
    (valid (bhd_IP h)).

Definition clean_metadata (n : NodeMetadata) : NodeMetadata :=
  let p := nmd_Payload n in
  MkNodeMetadata
    (MkNodeMetadataReply (option_map (λ l, valid <$> l) (nm_BLSPublicKey p)) (valid (nm_Version p))
       (valid (nm_NetworkType p)) (nm_IsLeader p) (nm_ShardID p) (valid (nm_NodeRole p))
       (nm_BlocksPerEpoch p) (valid (nm_DNSZone p)) (nm_ArchivalNode p) (nm_NodeStartTime p)
       (nm_Chain p) (nm_P2P p))
    (valid (nmd_IP n)).

Definition clean_noReply (n : noReply) : noReply :=
  MkNoReply (valid (nr_IP n)) (valid (nr_FailureReason n)) (valid (nr_RPCPayload n)) (nr_ShardID n).

(** The numbers have the widths of their types. *)
Definition header_widths (h : BlockHeader) : Prop := wf_BlockHeaderReply (bhd_Payload h).
Definition metadata_widths (n : NodeMetadata) : Prop := wf_NodeMetadataReply (nmd_Payload n).
Definition noReply_widths (n : noReply) : Prop := is_int64 (nr_ShardID n).

Lemma valid_nil s : valid s = EmptyString ↔ s = EmptyString.
Proof. split; [|by intros ->]. destruct s as [|c r]; [done|]. cbn [valid]. by repeat case_match. Qed.

Lemma scrub_header h : scrub (enc_BlockHeader h) = enc_BlockHeader (clean_header h).
Proof. by destruct h as [[] ip]. Qed.

Lemma scrub_metadata n : scrub (enc_NodeMetadata n) = enc_NodeMetadata (clean_metadata n).
Proof.
  destruct n as [[keys v net lead shard role blocks zone arch start chain p2p] ip].
  unfold enc_NodeMetadata, clean_metadata, enc_NodeMetadataReply.
  cbn [nmd_Payload nmd_IP nm_BLSPublicKey nm_Version nm_NetworkType nm_IsLeader nm_ShardID nm_NodeRole
    nm_BlocksPerEpoch nm_DNSZone nm_ArchivalNode nm_NodeStartTime nm_Chain nm_P2P].
  assert (scrub (enc_strings keys) = enc_strings (option_map (λ l, valid <$> l) keys)) as Hk.
  { destruct keys as [l|]; [|done]. cbn. f_equal. rewrite <-!list_fmap_compose. done. }
  rewrite (bool_decide_ext (valid zone = EmptyString) (zone = EmptyString)) by apply valid_nil.
  case_bool_decide; destruct arch; cbn -[enc_strings valid enc_int]; rewrite Hk; done.
Qed.

Lemma scrub_noReply n : scrub (enc_noReply n) = enc_noReply (clean_noReply n).
Proof. by destruct n. Qed.

Lemma header_dec h :
  header_widths h → dec_BlockHeader (scrub (enc_BlockHeader h)) zero_BlockHeader = clean_header h.
Proof.
  intros Hw. rewrite scrub_header. destruct (clean_header h) as [p ip] eqn:E.
  assert (wf_BlockHeaderReply p) as Hp by by destruct h as [[] ?]; injection E as <- <-.
  change (MkBlockHeader (dec_BlockHeaderReply (enc_BlockHeaderReply p) zero_BlockHeaderReply) ip
    = MkBlockHeader p ip). by rewrite dec_BlockHeaderReply_enc.
Qed.

Lemma metadata_dec n :
  metadata_widths n →
  dec_NodeMetadata (scrub (enc_NodeMetadata n)) zero_NodeMetadata = clean_metadata n.
Proof.
  intros Hw. rewrite scrub_metadata. destruct (clean_metadata n) as [p ip] eqn:E.
  assert (wf_NodeMetadataReply p) as Hp by by destruct n as [[] ?]; injection E as <- <-.
  change (MkNodeMetadata (dec_NodeMetadataReply (enc_NodeMetadataReply p) zero_NodeMetadataReply) ip
    = MkNodeMetadata p ip). by rewrite dec_NodeMetadataReply_enc.
Qed.

Lemma noReply_dec n :
  noReply_widths n → dec_noReply (scrub (enc_noReply n)) zero_noReply = clean_noReply n.
Proof.
  intros Hw. rewrite scrub_noReply. destruct n as [ip reason payload shard].
  change (MkNoReply (valid ip) (valid reason) (valid payload) (dec_int (enc_int shard) 0)
    = MkNoReply (valid ip) (valid reason) (valid payload) shard).
  unfold enc_int. by rewrite dec_int_Itoa.
Qed.

(** A list of records. *)
Lemma dec_list_scrub {A} (P : A → Prop) (cl : A → A) (zero : A) (enc : A → json) (d : decoder A) l :
  (∀ a, P a → d (scrub (enc a)) zero = cl a) → Forall P l →
  dec_list zero d (scrub (JArr (enc <$> l))) [] = cl <$> l.
Proof.
  intros Hd. cbn. induction 1 as [|a l Ha _ IH]; [done|]. cbn. by rewrite Hd, IH.
Qed.

Lemma all_digits_ascii s : all_digits s = true → all_ascii s = true.
Proof.
  induction s as [|c r IH]; [done|]. cbn. intros [H1 H2]%andb_prop. rewrite IH by done.
  rewrite andb_true_r. revert H1. unfold is_digit, between, is_ascii. lia.
Qed.

Lemma Itoa_ascii z : all_ascii (Itoa z) = true.
Proof.
  destruct (Itoa_int z) as [Hl _]. revert Hl. generalize (Itoa z). intros s.
  assert (∀ s, nat_literal s = true → all_ascii s = true) as Hn.
  { intros [|c r]; [done|]. unfold nat_literal. case_decide as Hc.
    - intros ->%bool_decide_eq_true_1. by subst c.
    - intros H. by apply (all_digits_ascii (String c r)). }
  destruct s as [|c r]; [done|]. intros Hl. destruct (decide (c = "-"%char)) as [->|Hc].
  - by apply (Hn r).
  - apply Hn. revert Hl. by destruct c as [[] [] [] [] [] [] [] []].
Qed.

(** ** The report a client reads *)

Section client.
Context `{L : Linq} `{MR : GoRuntime}.

(** The summary of a report, by path. *)
Lemma at_summary r part key field m :
  all_ascii part = true → rp_Summary r !! part = Some m →
  member key (scrub (enc_map enc_iface m)) = scrub <$> member key (enc_map enc_iface m) →
  all_ascii field = true →
  at_path ["summary-maps"; part; key; field] (scrub (enc_networkReport r))
  = (λ v, scrub (enc_leaf v)) <$> (m !! key ≫= λ e, match e with IAny a | IMap a => a !! field end).
Proof.
  intros H1 Em H2 H3.
  change (at_path ["summary-maps"; part; key; field] (scrub (enc_networkReport r)))
    with (at_path [part; key; field] (scrub (enc_map (enc_map enc_iface) (rp_Summary r)))).
  cbn [at_path]. rewrite member_scrub, member_enc_map, Em by done.
  cbn [fmap option_fmap option_map mbind option_bind]. rewrite H2, member_enc_map.
  destruct (m !! key) as [e|]; [|done]. cbn [fmap option_fmap option_map mbind option_bind].
  rewrite member_scrub by done. destruct e as [a|a]; cbn [enc_iface]; rewrite member_enc_map;
    by destruct (a !! field).
Qed.

(** What a client reads of a shard: the values its entry in the report holds. *)
Definition client_shard (hs : list BlockHeader) (metas : list NodeMetadata)
    (links : list CrossLink) (shard : Z) (at_field : string → option json) : Prop :=
  ∃ h g ips, top_header hs shard h ∧ g ≡ₚ filter (λ h, header_shard h = shard) hs
    ∧ ips ≡ₚ leader_ips metas shard
    ∧ (λ j, dec_list zero_BlockHeader dec_BlockHeader j []) <$> at_field "records"
      = Some (clean_header <$> g)
    ∧ at_field blockMax = Some (enc_int (header_block h))
    ∧ (λ j, dec_BlockHeader j zero_BlockHeader) <$> at_field "latest-block" = Some (clean_header h)
    ∧ (λ j, dec_list EmptyString dec_string j []) <$> at_field "shard-leader"
      = (if decide (ips = []) then None else Some (valid <$> ips))
    ∧ at_field "last-crosslink"
      = (λ l, enc_int (cl_BlockNumber l)) <$> last (filter (λ l, cl_ShardID l = shard) links).

Lemma client_shard_entry r hs metas links shard m e :
  Forall header_widths hs → rp_Summary r !! headerSumry = Some m → m !! Itoa shard = Some e →
  shard_entry hs metas links shard e →
  client_shard hs metas links shard
    (λ field, at_path ["summary-maps"; headerSumry; Itoa shard; field] (scrub (enc_networkReport r))).
Proof.
  intros Hh Em He (a & h & ips & g & -> & Htop & E1 & Hg & E2 & E3 & Hi & E4 & E5).
  assert (∀ field, all_ascii field = true →
    at_path ["summary-maps"; headerSumry; Itoa shard; field] (scrub (enc_networkReport r))
    = (λ v, scrub (enc_leaf v)) <$> a !! field) as Hat.
  { intros field Hf. rewrite (at_summary r headerSumry (Itoa shard) field m);
      [|done|done|apply member_scrub, Itoa_ascii|done]. by rewrite He. }
  exists h, g, ips. split_and!; try done; rewrite Hat by done.
  - rewrite E1. cbn [fmap option_fmap option_map enc_leaf]. f_equal.
    apply (dec_list_scrub header_widths); [apply header_dec|]. rewrite Hg. by apply Forall_filtered.
  - by rewrite E2.
  - rewrite E3. cbn [fmap option_fmap option_map enc_leaf]. f_equal. apply header_dec.
    destruct Htop as [Hin _]. rewrite Forall_forall in Hh. by apply Hh.
  - rewrite E4. case_decide; [done|]. cbn [fmap option_fmap option_map enc_leaf]. f_equal.
    apply (dec_list_scrub (λ _, True)); [done|by apply Forall_true].
  - rewrite E5. by destruct (last _).
Qed.

(** The nodes of a version. *)
Lemma client_version r metas n :
  Forall metadata_widths metas → Forall (λ n, utf8 (meta_version n) = true) metas →
  rp_Summary r !! metaSumry = Some (version_summary metas) → n ∈ metas →
  ∃ g, g ≡ₚ filter (λ n', meta_version n' = meta_version n) metas
    ∧ (λ j, dec_list zero_NodeMetadata dec_NodeMetadata j [])
        <$> at_path ["summary-maps"; metaSumry; meta_version n; "records"] (scrub (enc_networkReport r))
      = Some (clean_metadata <$> g).
Proof.
  intros Hm Hv Er Hn. assert (∃ n', n' ∈ metas ∧ meta_version n' = meta_version n) as Hex by by exists n.
  rewrite Forall_forall in Hv. rewrite (at_summary r metaSumry (meta_version n) "records" _ eq_refl Er);
    [|apply member_scrub_valid; [by apply Hv|]|done].
  2:{ apply Forall_fmap, Forall_forall. intros [k e] Hin%elem_of_sorted_entries. cbn.
      destruct (proj1 (version_summary_dom metas k)) as (n' & Hn' & <-); [by eexists|]. by apply Hv. }
  apply version_summary_dom in Hex as [e He]. rewrite He.
  apply version_summary_Some in He as (g & Hg%GroupBy_group & ->). exists g. split; [done|].
  cbn [mbind option_bind]. rewrite lookup_singleton_eq. cbn [fmap option_fmap option_map enc_leaf].
  f_equal. apply (dec_list_scrub metadata_widths); [apply metadata_dec|].
  rewrite Hg. by apply Forall_filtered.
Qed.
End client.

(** A record of the metadata snapshot: the widths and the text are those of
    decoded replies. *)
Lemma decoded_metadata metas :
  (∀ n, n ∈ metas → ∃ d, metadata_of_reply d = Some n) →
  Forall metadata_widths metas ∧ Forall (λ n, utf8 (meta_version n) = true) metas.
Proof.
  intros H. rewrite !Forall_forall. split; intros n Hn; destruct (H n Hn) as [d Hd];
    unfold metadata_of_reply in Hd; destruct (r_oops d); simplify_eq.
  - apply decode_metadata_wf.
  - apply (decode_metadata_text (r_result d)).
Qed.

(** C32: a client of the network report reads what the snapshots hold. When the
    lock is free and every signature is empty or has at least five bytes, the body
    is JSON text, whatever [env] the other goroutines do between the two critical
    sections. It has an entry for exactly the shards with a header, and its values
    decode to the headers of the shard, its greatest block, a header with that
    block, the addresses of its leaders and the block of its last cross link; under
    the version of every node are the metadata of the nodes that run it; and the
    silent nodes decode to those of both snapshots. In the decoded records every
    byte that was not part of valid UTF-8 is replaced. The metadata are those of
    replies, and the numbers of the headers and silent nodes have the widths of
    their Go types. *)
Theorem network_json (L : Linq) (MR : GoRuntime) build env m hs :
  m_inUse m = false → shorten_sigs (bc_Nodes (m_BlockHeaderSnapshot m)) = Done hs →
  let m2 := env (set_snapshot_headers hs m) in
  let metas := mc_Nodes (m_MetadataSnapshot m) in
  let downs := mc_Down (m_MetadataSnapshot m2) ++ bc_Down (m_BlockHeaderSnapshot m2) in
  m_inUse m2 = false → (∀ n, n ∈ metas → ∃ d, metadata_of_reply d = Some n) →
  Forall header_widths hs → Forall noReply_widths downs →
  ∃ m' r j, networkSnapshot build env m = Some (m', Done r) ∧ parse (network_body r) = Some j
    ∧ (∀ shard,
         let at_field field := at_path ["summary-maps"; headerSumry; Itoa shard; field] j in
         (is_Some (at_field "records") ↔ ∃ h, h ∈ hs ∧ header_shard h = shard)
         ∧ ((∃ h, h ∈ hs ∧ header_shard h = shard) →
            client_shard hs metas (lc_CrossLinks (m_LastCrossLinks m2)) shard at_field))
    ∧ (∀ n, n ∈ metas →
         ∃ g, g ≡ₚ filter (λ n', meta_version n' = meta_version n) metas
           ∧ (λ j, dec_list zero_NodeMetadata dec_NodeMetadata j [])
               <$> at_path ["summary-maps"; metaSumry; meta_version n; "records"] j
             = Some (clean_metadata <$> g))
    ∧ (λ j, dec_list zero_noReply dec_noReply j []) <$> at_path ["no-reply-machines"] j
      = Some (clean_noReply <$> downs).
Proof.
  intros Hl Hs m2 metas downs Hl2 Hm Hh Hd. apply decoded_metadata in Hm as [Hw Hv].
  destruct (networkSnapshot_run L MR build env m hs Hl Hs Hl2) as (chain & _ & E). fold m2 metas in E.
  eexists _, _, _. split; [exact E|]. split; [apply network_body_parses|].
  set (links := lc_CrossLinks (m_LastCrossLinks m2)) in *. split_and!.
  - intros shard at_field.
    assert ((∃ h, h ∈ hs ∧ header_shard h = shard) → client_shard hs metas links shard at_field) as Hc.
    { intros Hx. pose proof Hx as [e He]%(complete_dom hs metas links).
      eapply client_shard_entry; [done| |exact He|by apply complete_entry]. apply lookup_insert_eq. }
    split; [|exact Hc]. split.
    + intros [j Hj]. apply (complete_dom hs metas links). revert Hj. unfold at_field.
      rewrite (at_summary _ headerSumry (Itoa shard) "records" _ eq_refl (lookup_insert_eq _ _ _));
        [|apply member_scrub, Itoa_ascii|done].
      destruct (complete _ _ _ !! Itoa shard); [by eauto|done].
    + intros (h & g & ips & _ & _ & _ & Hr & _)%Hc. by destruct (at_field "records"); eauto.
  - intros n Hn. by apply client_version.
  - rewrite at_path_scrub by (by repeat constructor).
    change (at_path ["no-reply-machines"] (enc_networkReport ?r))
      with (Some (JArr (enc_noReply <$> rp_NoReplies r))).
    cbn [fmap option_fmap option_map]. f_equal.
    apply (dec_list_scrub noReply_widths); [apply noReply_dec|done].
Qed.

Module NetworkWitness.
Definition header (block : Z) (ip : string) : BlockHeader :=
  MkBlockHeader (MkBlockHeaderReply "0xab" block 3 "one1" 7 1 "now" 5 "signature" "0x1") ip.
Definition metadata : NodeMetadata :=
  MkNodeMetadata (MkNodeMetadataReply None "v1" "testnet" true 3 "Validator" 10 EmptyString
    true 5 (MkChainConfig 1 2 3 4 5 6 7) (MkP2PConnectivity 29 71 100)) "10.0.0.1:9500".
(** The reply it is decoded from. *)
Definition answer : reply :=
  MkReply "10.0.0.1:9500" NodeMetadataRPC EmptyString
    (reply_body (enc_NodeMetadataReply (nmd_Payload metadata))) None.
Lemma decoded n : n ∈ [metadata] → ∃ d, metadata_of_reply d = Some n.
Proof. intros ->%list_elem_of_singleton. exists answer. vm_compute. reflexivity. Qed.
(** A failure message with a byte that is not UTF-8. *)
Definition down : noReply :=
  MkNoReply "10.0.0.3:9500" ("timeout" +:+ String (ascii_of_nat 255) EmptyString) "{}" 3.
Definition mon : monitor :=
  set_MetadataSnapshot (MkMetadataContainer (Unix 0) [metadata] [down])
    (set_BlockHeaderSnapshot
       (MkBlockHeaderContainer (Unix 0) [header 8 "10.0.0.1:9500"; header 9 "10.0.0.2:9500"] [down])
       (new_monitor "testnet")).
Definition hs : list BlockHeader :=
  (λ h, set_sig h "signa...ature") <$> [header 8 "10.0.0.1:9500"; header 9 "10.0.0.2:9500"].
End NetworkWitness.

Lemma network_json_witness :
  ∃ m' r j, networkSnapshot (L := linq_ref) (MR := range_ref) "v" id NetworkWitness.mon = Some (m', Done r)
    ∧ parse (network_body r) = Some j
    ∧ client_shard NetworkWitness.hs [NetworkWitness.metadata] [] 3
        (λ field, at_path ["summary-maps"; headerSumry; "3"; field] j)
    ∧ (λ j, dec_list zero_noReply dec_noReply j []) <$> at_path ["no-reply-machines"] j
      = Some [clean_noReply NetworkWitness.down; clean_noReply NetworkWitness.down].
Proof.
  destruct (network_json linq_ref range_ref "v" id NetworkWitness.mon NetworkWitness.hs)
    as (m' & r & j & E & Ej & Hs & _ & Hd);
    [reflexivity|vm_compute; reflexivity|reflexivity|exact NetworkWitness.decoded
    |repeat constructor; vm_compute; congruence..|].
  exists m', r, j. split; [exact E|]. split; [exact Ej|]. split; [|exact Hd].
  apply (Hs 3). eexists. split; [by left|reflexivity].
Defined.
