(* ===== verification/System.v ===== *)
(** * The whole watchdog

    All goroutines of the process over the shared monitor: the two managers, the
    three monitors with their worker pools, the committee updates and the HTTP
    handlers, each as a program of [Goroutines] whose steps are those of the
    code, with the reads and writes of the monitor's fields and the uses of the
    mutex [inUse] spelled out. [watchdog_start] is the process as [update] launches it. *)

From S2P Require Import Prelude GoFloat GoFmt GoTime GoJson Rpc Pool Goroutines Linq Alerts Summary.
From S2P Require Import Monitor Consensus CrossLink Cx P2p Beacon Config Manager Reports.

(** ** Shared variables and local state *)

(** The fields of the monitor; [VStatusMap] is the content of the map behind
    [consensusProgress] once it is the map [consensusStatus] of the consensus
    monitor. *)
Inductive variable : Set :=
  | VWorkingMetadata
  | VWorkingBlockHeader
  | VMetadataSnapshot
  | VBlockHeaderSnapshot
  | VSuperCommittee
  | VLastCrossLinks
  | VSummarySnapshot
  | VNoReplySnapshot
  | VConsensusProgress
  | VStatusMap.

(** What a handler answers. *)
Inductive response : Type :=
  | RNetwork (r : networkReport)
  | RStatus (r : statusReport)
  | RPage (r : page_data * SuperCommitteeReply + string)
      (** with the committees the functions of the template read *)
  | RCsv (r : csv_response).

(** The variables the loops keep: [prevEpoch], the maps of the consensus monitor
    and whether the second is published, [lastProcessed]; and the answer of a
    handler. *)
Record local : Type := MkLocal {
  lo_prevEpoch : Z;
  lo_consensus : consensus_state;
  lo_published : bool;
  lo_lastProcessed : gmap Z processedCrossLink;
  lo_response : option response;
}.

Definition initial_local : local := MkLocal 0 initial_consensus false ∅ None.
Definition set_prevEpoch (e : Z) (s : local) : local :=
  MkLocal e (lo_consensus s) (lo_published s) (lo_lastProcessed s) (lo_response s).
Definition set_consensus (st : consensus_state) (s : local) : local :=
  MkLocal (lo_prevEpoch s) st true (lo_lastProcessed s) (lo_response s).
Definition set_lastProcessed (l : gmap Z processedCrossLink) (s : local) : local :=
  MkLocal (lo_prevEpoch s) (lo_consensus s) (lo_published s) l (lo_response s).
Definition answer (r : response) : local :=
  MkLocal 0 initial_consensus false ∅ (Some r).

(** What differs from tick to tick and from goroutine to goroutine without being
    in the memory: the orders in which maps are iterated and groups come, the
    growth of arrays, and the answers of PagerDuty. *)
Record runtime : Type := MkRuntime {
  rt_linq : Linq;
  rt_go : GoRuntime;
  rt_pager : pager;
}.

Notation program := (@prog variable local monitor action).
Notation go_loop := (@loop variable local monitor action runtime).
Notation go_state := (@gstate variable local monitor action).
Notation process := (@sys variable local monitor action runtime).
Notation go_event := (@event action).

(** The period of [time.Tick(time.Duration(interval) * time.Second)]. *)
Definition tick_period (interval : Z) : Z := int64 (int64 interval * 1000000000).

(** ** Loops

    A loop over [l] with the variable [b], whose iterations do what [f] says. *)
Fixpoint for_prog {X B} (f : B → X → B * list action) (l : list X) (b : B) (k : B → program) :
    program :=
  match l with
  | [] => k b
  | x :: l => let '(b', acts) := f b x in Log acts (for_prog f l b' k)
  end.

Definition each_prog {X} (f : X → list action) (l : list X) (k : program) : program :=
  for_prog (λ _ x, (tt, f x)) l tt (λ _, k).

(** ** The managers *)

Section programs.
Context `{L : Linq} `{MR : GoRuntime}.
Context (pd : pager) (buildVersion : string) (shardMap : gmap string Z).

(** The loop over [channels[rpc]] stores every reply in the working container
    [x]. *)
Fixpoint store_replies (x : variable) (store : monitor * bool → reply → monitor * bool)
    (first : bool) (replies : list reply) (k : program) : program :=
  match replies with
  | [] => k
  | d :: replies =>
      Put x (λ m, (store (m, first) d).1) (store_replies x store false replies k)
  end.

(** The loop body of [manager] for node metadata. The code sets the time stamp
    after its last send; no other goroutine reads it. *)
Definition metadata_body (tolerance : Z) (pdServiceKey chain : string) (now : Time) (s : local) :
    program :=
  Put VWorkingMetadata (set_metadata_TS now)
  (Round NodeMetadataRPC (node_jobs shardMap NodeMetadataRPC) (λ replies,
  store_replies VWorkingMetadata (metadata_reply shardMap) true replies
  (Get VWorkingMetadata (λ w,
  Log [GoP2pMonitor tolerance pdServiceKey chain (mc_Nodes (m_WorkingMetadata w))]
  (Lock
  (Get VWorkingMetadata (λ w,
  Put VMetadataSnapshot (metadataCopy (m_WorkingMetadata w))
  (Unlock
  (Remake NodeMetadataRPC
  (Return s)))))))))).

(** The loop body of [manager] for block headers. *)
Definition header_body (now : Time) (s : local) : program :=
  Put VWorkingBlockHeader (set_header_TS now)
  (Round BlockHeaderRPC (node_jobs shardMap BlockHeaderRPC) (λ replies,
  store_replies VWorkingBlockHeader (header_reply shardMap) true replies
  (Lock
  (Get VWorkingBlockHeader (λ w,
  let '(prevEpoch, acts) :=
    epoch_check (lo_prevEpoch s) (getBeaconChainNode shardMap)
      (bc_Nodes (m_WorkingBlockHeader w)) in
  Log acts
  (Put VBlockHeaderSnapshot (blockHeaderCopy (m_WorkingBlockHeader w))
  (Unlock
  (Remake BlockHeaderRPC
  (Return (set_prevEpoch prevEpoch s)))))))))).

(** [stakingCommitteeUpdate]. *)
Definition committee_prog (beaconChainNode : string) : program :=
  Log [Stdlog "[stakingCommitteeUpdate] Updating super committees" []]
  (Fetch ("http://" +:+ beaconChainNode) committee_request (λ r,
  match r with
  | (_, _, Some oops) =>
      Log [Stdlog "[stakingCommitteeUpdate] Unable to update super committees, Error: %v"
             [OStr oops]]
      (Return initial_local)
  | (result, _, None) =>
      Put VSuperCommittee (set_SuperCommittee (decode_committee result))
      (Log [Stdlog "[stakingCommitteeUpdate] Updated super committees" []]
      (Return initial_local))
  end)).

(** ** The monitors *)

(** The slot [n] of the array [id] is written: an entry of the working list of the
    header manager changes if the list is still in that array and has grown
    beyond [n]. *)
Definition store_down (id n : nat) (e : noReply) (m : monitor) : monitor :=
  if decide (ar_id (m_DownArray m) = id) then
    let c := m_WorkingBlockHeader m in
    set_WorkingBlockHeader (MkBlockHeaderContainer (bc_TS c) (bc_Nodes c) (<[n := e]> (bc_Down c))) m
  else m.

(** The loop of [consensusMonitor] over its replies. For every silent node it
    appends to the working list of the header manager as it finds it: [append]
    loads the slice, and then writes into its array if there is room. *)
Fixpoint collect_prog (replies : list reply) (nodes : list BlockHeader) (down : list noReply)
    (k : list BlockHeader → list noReply → program) : program :=
  match replies with
  | [] => k nodes down
  | d :: replies =>
      match r_oops d with
      | Some e =>
          let entry := no_reply shardMap d e in
          Get VWorkingBlockHeader (λ w,
          let n := length (bc_Down (m_WorkingBlockHeader w)) in
          let rest := collect_prog replies nodes (bc_Down (m_WorkingBlockHeader w) ++ [entry]) k in
          if (n <? ar_cap (m_DownArray w))%nat then
            Put VWorkingBlockHeader (store_down (ar_id (m_DownArray w)) n entry) rest
          else rest)
      | None =>
          collect_prog replies
            (nodes ++ [MkBlockHeader (decode_header (r_result d)) (r_address d)]) down k
      end
  end.

(** The loop of [consensusMonitor] over the shards. Once the map of statuses is
    published, [consensusStatus[shard] = ...] writes the map the reports read. *)
Fixpoint shard_loop (cfg : consensus_config) (now : Time) (published : bool)
    (entries : list (string * iface)) (st : consensus_state) (k : consensus_state → program) :
    program :=
  match entries with
  | [] => k st
  | e :: entries =>
      match shard_step pd cfg now e (st, []) with
      | Panic w => Panics w
      | Done (st', acts) =>
          Log acts
          (if published then
             Put VStatusMap (set_consensusProgress (consensusStatus st'))
             (shard_loop cfg now published entries st' k)
           else shard_loop cfg now published entries st' k)
      end
  end.

Definition consensus_body (cfg : consensus_config) (now : Time) (s : local) : program :=
  Log [Stdlog "[consensusMonitor] Starting consensus check" []]
  (Round BlockHeaderRPC (node_jobs shardMap BlockHeaderRPC) (λ replies,
  collect_prog replies [] [] (λ nodes down,
  Log [GoCheckShardHeight nodes (cf_warning cfg) (cf_tolerance cfg) (cf_pdServiceKey cfg)
         (cf_chain cfg)]
  (shard_loop cfg now (lo_published s) (range (blockHeaderSummary nodes true ∅))
    (lo_consensus s) (λ st,
  Log [Stdlog "[consensusMonitor] Total no reply machines: %d" [OInt TInt (Z.of_nat (length down))]]
  (each_prog (λ '(s, b), [Stdlog "[consensusMonitor] Shard %s, Consensus: %v" [OStr s; OBool b]])
     (range (consensusStatus st))
  (Lock
  (Put VConsensusProgress (publish_progress st)
  (Unlock
  (Remake BlockHeaderRPC
  (Return (set_consensus st s)))))))))))).

Definition cx_body (cfg : cx_config) (now : Time) (s : local) : program :=
  Log [Stdlog "[cxMonitor] Starting cross shard transaction check" []]
  (Round NodeMetadataRPC (node_jobs shardMap NodeMetadataRPC) (λ metas,
  let leaders := cx_leaders metas in
  Round PendingCXRPC (cx_jobs leaders) (λ replies,
  for_prog (λ sizes d, cx_reply pd cfg leaders (sizes, []) d) replies ∅ (λ cxPoolSize,
  each_prog (λ e, [cx_line e]) (range cxPoolSize)
  (Remake NodeMetadataRPC
  (Remake PendingCXRPC
  (Return s))))))).

(** The loop of [crossLinkMonitor] over the replies. *)
Fixpoint links_prog (cfg : crosslink_config) (now : Time) (replies : list reply)
    (crossLinks : LastCrossLinkReply) (lastProcessed : gmap Z processedCrossLink)
    (k : LastCrossLinkReply → gmap Z processedCrossLink → program) : program :=
  match replies with
  | [] => k crossLinks lastProcessed
  | i :: replies =>
      match r_oops i with
      | None =>
          let crossLinks := decode_crosslinks (r_result i) crossLinks in
          for_prog (λ last link, process_link pd cfg now (last, []) link)
            (lc_CrossLinks crossLinks) lastProcessed (k crossLinks)
      | Some _ => links_prog cfg now replies crossLinks lastProcessed k
      end
  end.

Definition crosslink_body (cfg : crosslink_config) (now : Time) (s : local) : program :=
  Log [Stdlog "[crossLinkMonitor] Starting crosslink check" []]
  (Round NodeMetadataRPC (beacon_jobs shardMap) (λ metas,
  Round LastCrossLinkRPC (leader_jobs (find_leaders metas)) (λ replies,
  links_prog cfg now replies zero_LastCrossLinkReply (lo_lastProcessed s)
    (λ crossLinks lastProcessed,
  each_prog (λ e, [crosslink_line e]) (range lastProcessed)
  (Remake NodeMetadataRPC
  (Remake LastCrossLinkRPC
  (Lock
  (Put VLastCrossLinks (publish_crosslinks crossLinks)
  (Unlock
  (Return (set_lastProcessed lastProcessed s))))))))))).

(** ** The checks that are started for a time

    They work on what they were given and do not use the monitor. *)

Definition p2p_prog (tolerance : Z) (pdServiceKey chain : string) (nodes : list NodeMetadata) :
    program :=
  Log [Stdlog "[p2pMonitor] Running p2p connectivity check" []]
  (each_prog (λ '(shard, values), p2p_shard pd tolerance pdServiceKey chain shard values)
     (range (percent_map nodes))
  (Return initial_local)).

Definition heights_prog (nodes : list BlockHeader) (syncTimer tolerance : Z)
    (pdServiceKey chain : string) : program :=
  Log [Stdlog "[checkShardHeight] Running shard height check" []]
  (each_prog (λ '(i, s), check_heights syncTimer tolerance pdServiceKey chain i s)
     (range (height_map nodes))
  (Return initial_local)).

Definition sync_prog (IP pdServiceKey chain : string) (blockNumber shardHeight syncTimer : Z) :
    program :=
  Log (sync_sleep IP syncTimer)
  (Fetch ("http://" +:+ IP) (request_body BlockHeaderRPC) (λ r,
  Log (sync_reply pd IP pdServiceKey chain blockNumber shardHeight r)
  (Return initial_local))).

(** The replies to [js], in their order. [getBeaconHeaders] asks for them with
    goroutines of its own ([Beacon.fetch_step]), which give every order; what
    [beaconSyncMonitor] does with them does not depend on it
    ([Beacon.beaconSyncMonitor_perm]). *)
Fixpoint fetch_all (js : list work) (data : list reply) (k : list reply → program) : program :=
  match js with
  | [] => k data
  | j :: js =>
      Fetch ("http://" +:+ w_address j) (w_body j) (λ '(result, payload, oops),
      fetch_all js (data ++ [MkReply (w_address j) (w_rpc j) payload result oops]) k)
  end.

(** With no worker in its pool [getBeaconHeaders] waits for ever
    ([Beacon.fetch_stuck]). *)
Definition beacon_prog (beaconBlock interval threshold poolSize : Z) (pdServiceKey chain : string) :
    program :=
  Log [Stdlog "[beaconSyncMonitor] Starting beacon sync check, Beacon Block: %v"
         [OInt TUint64 beaconBlock];
       Stdlog "[getBeaconHeaders] Fetching latest header data" []]
  (if poolSize <=? 0 then Blocks
   else
     fetch_all (beacon_requests shardMap) [] (λ data,
     let '(ret, success) := collect_beacon data in
     Log [fetched_line ret success]
     (for_prog (λ blocks e,
         beacon_header beaconBlock interval threshold pdServiceKey chain shardMap (blocks, []) e)
        (range ret) ∅ (λ shardBeaconMap,
     each_prog (beacon_log beaconBlock) (range shardBeaconMap)
     (Return initial_local))))).

Definition beacon_sync_prog (blockNum beaconHeight threshold syncTimer : Z)
    (IP pdServiceKey chain : string) : program :=
  Log (beacon_sleep IP syncTimer)
  (Fetch ("http://" +:+ IP) (request_body LatestHeadersRPC) (λ r,
  Log (beacon_reply pd blockNum beaconHeight threshold IP pdServiceKey chain r)
  (Return initial_local))).

(** ** HTTP handlers *)

(** A value, or the panic of the handler. *)
Definition or_panic {X} (o : outcome X) (k : X → program) : program :=
  match o with Done x => k x | Panic w => Panics w end.

(** [summaryMaps(m.MetadataSnapshot.Nodes, m.BlockHeaderSnapshot.Nodes)]: the
    signatures are shortened in the snapshot, also when it panics. *)
Definition summary_prog (k : summary → program) : program :=
  Get VMetadataSnapshot (λ mm,
  Get VBlockHeaderSnapshot (λ mh,
  let headers := bc_Nodes (m_BlockHeaderSnapshot mh) in
  Put VBlockHeaderSnapshot (λ m, set_snapshot_headers (shortened (bc_Nodes (m_BlockHeaderSnapshot m))) m)
  (or_panic (summaryMaps (mc_Nodes (m_MetadataSnapshot mm)) headers) (λ '(sum, _), k sum)))).

(** [for key, value := range m.consensusProgress]. *)
Definition progress_prog (k : gmap string bool → program) : program :=
  Get VConsensusProgress (λ _, Get VStatusMap (λ m, k (m_consensusProgress m))).

Definition networkSnapshot_prog (k : networkReport → program) : program :=
  Lock (summary_prog (λ sum, Unlock
  (or_panic
    (leaders ← report_leaders sum;
     for_each (λ '(i, ips) sum, set_field headerSumry i "shard-leader" (LStrs ips) sum)
       (range leaders) sum) (λ sum,
  Lock (progress_prog (λ progress,
  Get VMetadataSnapshot (λ mm,
  Get VBlockHeaderSnapshot (λ mh,
  Get VLastCrossLinks (λ ml,
  or_panic
    (for_each (λ v sum, set_field headerSumry (Itoa (cl_ShardID v)) "last-crosslink"
                          (LInt (cl_BlockNumber v)) sum)
       (lc_CrossLinks (m_LastCrossLinks ml)) sum) (λ sum,
  Unlock (k (MkNetworkReport buildVersion (m_chain ml) progress sum
    (mc_Down (m_MetadataSnapshot mm) ++ bc_Down (m_BlockHeaderSnapshot mh)))))))))))))).

(** [networkSnapshotJSON]. *)
Definition network_handler : program :=
  networkSnapshot_prog (λ report, Return (answer (RNetwork report))).

(** [statusJSON]. *)
Definition status_handler : program :=
  Lock (summary_prog (λ sum, progress_prog (λ progress, Unlock
  (or_panic
    (for_each (λ e acc, s ← shard_status progress e; Done (acc ++ [s]))
       (range (default ∅ (sum !! headerSumry))) []) (λ status,
  Get VSuperCommittee (λ m,
  let addresses := elected (m_SuperCommittee m) in
  Get VSuperCommittee (λ m,
  Return (answer (RStatus (MkStatusReport status (range (default ∅ (sum !! metaSumry))).*1
    (co_ExternalCount (sc_CurrentCommittee (m_SuperCommittee m)))
    (Z.of_nat (length addresses)) (Z.of_nat (length (Distinct addresses))))))))))))).

(** [renderReport]. The functions of the template read the committees again while
    the page is written; one read stands for those of all calls. *)
Definition page_handler (parse : string → option string) (now : string) : program :=
  networkSnapshot_prog (λ report,
  or_panic (add_consensus report) (λ sum,
  match parse (rp_Chain report) with
  | Some e => Return (answer (RPage (inr ("could not generate page:" +:+ e))))
  | None =>
      Get VSuperCommittee (λ m,
      let data := MkPageData [rp_Chain report] [rp_Build report; now] sum (m_SuperCommittee m)
        (rp_NoReplies report) (Z.of_nat (length (Distinct (nr_IP <$> rp_NoReplies report)))) in
      Get VSuperCommittee (λ m',
      Lock
      (Put VSummarySnapshot (summaryCopy sum)
      (Put VNoReplySnapshot (λ m, set_report (m_SummarySnapshot m) (rp_NoReplies report) m)
      (Unlock
      (Return (answer (RPage (inl (data, m_SuperCommittee m'))))))))))
  end)).

(** [produceCSV]: a critical section that reads the stored summary. *)
Definition csv_section (filename : string) (header : list string) (values : list string)
    (rows : string → monitor → outcome (list (list string))) : program :=
  Lock (or_panic (first_value values) (λ v,
  Get VSummarySnapshot (λ m,
  or_panic (rows v m) (λ rows,
  Unlock (Return (answer (RCsv (Csv filename (header :: rows))))))))).

Definition csv_handler (query : gmap string (list string)) : program :=
  let error msg := Return (answer (RCsv (HttpError msg StatusBadRequest))) in
  match query !! "report"%string with
  | None => error "report not chosen in query param"%string
  | Some keys =>
      or_panic (first_value keys) (λ report,
      if decide (report = blockHeaderReport) then
        match query !! "shard"%string with
        | None => error "shard not chosen in query param"%string
        | Some shard =>
            csv_section (blockHeaderReport +:+ ".csv") headerInformationCSVHeader shard csv_headers
        end
      else if decide (report = nodeMetadataReport) then
        match query !! "vrs"%string with
        | None => error "version not chosen in query param"%string
        | Some vrs =>
            csv_section (nodeMetadataReport +:+ ".csv") nodeMetadataCSVHeader vrs csv_metadata
        end
      else Return (answer (RCsv (Csv EmptyString []))))
  end.

(** ** Starting *)

(** The goroutine a [go] statement starts. *)
Definition spawns (a : action) : option program :=
  match a with
  | GoStakingCommitteeUpdate node => Some (committee_prog node)
  | GoP2pMonitor tolerance pdServiceKey chain nodes =>
      Some (p2p_prog tolerance pdServiceKey chain nodes)
  | GoCheckShardHeight nodes syncTimer tolerance pdServiceKey chain =>
      Some (heights_prog nodes syncTimer tolerance pdServiceKey chain)
  | GoCheckSync IP pdServiceKey chain blockNumber shardHeight syncTimer =>
      Some (sync_prog IP pdServiceKey chain blockNumber shardHeight syncTimer)
  | GoBeaconSyncMonitor beaconBlock interval threshold poolSize pdServiceKey chain =>
      Some (beacon_prog beaconBlock interval threshold poolSize pdServiceKey chain)
  | GoCheckBeaconSync blockNum beaconHeight threshold syncTimer IP pdServiceKey chain =>
      Some (beacon_sync_prog blockNum beaconHeight threshold syncTimer IP pdServiceKey chain)
  | _ => None
  end.

End programs.

(** The routes of [startReportingHTTPServer]. *)
Inductive http_request (buildVersion : string) : program → Prop :=
  | get_report (rt : runtime) parse now :
      http_request buildVersion
        (page_handler (L := rt_linq rt) (MR := rt_go rt) buildVersion parse now)
  | get_download query : http_request buildVersion (csv_handler query)
  | get_network (rt : runtime) :
      http_request buildVersion (network_handler (L := rt_linq rt) (MR := rt_go rt) buildVersion)
  | get_status (rt : runtime) :
      http_request buildVersion (status_handler (L := rt_linq rt) (MR := rt_go rt)).

Definition starts (shardMap : gmap string Z) (rt : runtime) : action → option program :=
  spawns (MR := rt_go rt) (rt_pager rt) shardMap.

(** The loops of the two managers and the three monitors: their pool, the RPCs they
    own there, their period and their body. The managers share pool 0; every
    monitor has its own. *)
Section loops.
Context (shardMap : gmap string Z).

Definition metadata_manager (interval tolerance : Z) (pdServiceKey chain : string) : go_loop :=
  MkLoop 0 [NodeMetadataRPC] (tick_period interval)
    (λ rt, metadata_body (MR := rt_go rt) shardMap tolerance pdServiceKey chain).

Definition header_manager (interval : Z) : go_loop :=
  MkLoop 0 [BlockHeaderRPC] (tick_period interval) (λ rt, header_body (MR := rt_go rt) shardMap).

Definition consensusMonitor (interval : Z) (cfg : consensus_config) : go_loop :=
  MkLoop 1 [BlockHeaderRPC] (tick_period interval)
    (λ rt, consensus_body (L := rt_linq rt) (MR := rt_go rt) (rt_pager rt) shardMap cfg).

Definition cxMonitor (interval : Z) (cfg : cx_config) : go_loop :=
  MkLoop 2 [NodeMetadataRPC; PendingCXRPC] (tick_period interval)
    (λ rt, cx_body (MR := rt_go rt) (rt_pager rt) shardMap cfg).

Definition crossLinkMonitor (interval : Z) (cfg : crosslink_config) : go_loop :=
  MkLoop 3 [NodeMetadataRPC; LastCrossLinkRPC] (tick_period interval)
    (λ rt, crosslink_body (MR := rt_go rt) (rt_pager rt) shardMap cfg).

(** A goroutine of [update] as it starts. The workers are those of the pools. *)
Definition launch (g : goroutine) : option (option go_loop * go_state) :=
  let looping l := Some (Some l, Waiting initial_local) in
  match g with
  | GoWorker => None
  | GoManager interval tolerance rpc pdServiceKey chain =>
      if decide (rpc = NodeMetadataRPC) then
        looping (metadata_manager interval tolerance pdServiceKey chain)
      else looping (header_manager interval)
  | GoStakingCommittee node => Some (None, Running (committee_prog node))
  | GoConsensusMonitor interval warning tolerance poolSize pdServiceKey chain =>
      looping (consensusMonitor interval
        (MkConsensusConfig warning tolerance poolSize pdServiceKey chain shardMap))
  | GoCxMonitor interval limit _ pdServiceKey chain =>
      looping (cxMonitor interval (MkCxConfig limit pdServiceKey chain))
  | GoCrossLinkMonitor interval warning _ pdServiceKey chain =>
      looping (crossLinkMonitor interval (MkCrossLinkConfig warning pdServiceKey chain))
  end.
End loops.

(** The pools: the job channel, the reply channels and wait groups of the RPCs, and
    [poolSize] workers, as [update] and each monitor make them when they start. *)
Definition manager_pool (poolSize : Z) : pool := initial_pool (λ _, []) (Z.to_nat poolSize).
Definition consensus_pool (poolSize : Z) : pool := initial_pool (λ _, []) (Z.to_nat poolSize).
Definition cx_pool (poolSize : Z) : pool := initial_pool (λ _, []) (Z.to_nat poolSize).
Definition crosslink_pool (poolSize : Z) : pool := initial_pool (λ _, []) (Z.to_nat poolSize).

(** The process once [update] has run; [MR] is the order in which [update] goes
    through its maps. *)
Definition watchdog_start (MR : GoRuntime) (params : watchParams)
    (superCommittee : gmap Z committee) : process :=
  let '(shardMap, gs) := update params superCommittee [BlockHeaderRPC; NodeMetadataRPC] in
  let size := wp_WorkerPoolSize params in
  MkSys
    [manager_pool size; consensus_pool size; cx_pool size; crosslink_pool size]
    (omap (launch shardMap) gs)
    (new_monitor (wp_TargetChain params)) [].

(** Steps of the process. *)
Definition watchdog_steps (MR : GoRuntime) (buildVersion : string)
    (params : watchParams) (superCommittee : gmap Z committee) : process → Prop :=
  sys_run (size (shard_map superCommittee)) m_inUse set_inUse (http_request buildVersion)
    (starts (shard_map superCommittee)) (watchdog_start MR params superCommittee).
