(* ===== verification/Runs.v ===== *)
(** * Runs of the watchdog

    A small configuration of the process of [System], with one node, and
    schedules that take it through the ticks of its goroutines. *)

From S2P Require Import Prelude GoFloat GoFmt GoTime GoJson Rpc Pool Goroutines Schedules.
From S2P Require Import Linq Alerts Summary Monitor Consensus CrossLink Cx P2p Beacon Config Manager.
From S2P Require Import Reports System.

#[global] Instance variable_eq_dec : EqDecision variable.
Proof. solve_decision. Defined.

(** Goroutine [i] is about to write [x], and [j] to access it. *)
Definition race_at (x : variable) (i j : nat)
    (gos : list (option go_loop * go_state)) : bool :=
  match gos !! i, gos !! j with
  | Some (_, Running (Put y _ _)), Some (_, Running (Get z _ | Put z _ _)) =>
      bool_decide (y = x) && bool_decide (z = x) && negb (bool_decide (i = j))
  | _, _ => false
  end.

Lemma race_at_races x i j gos : race_at x i j gos = true → races x gos.
Proof.
  unfold race_at. destruct (gos !! i) as [[o [|[]| | |]]|] eqn:Ei; try done.
  destruct (gos !! j) as [[o' [|[]| | |]]|] eqn:Ej; try done;
    intros [[->%bool_decide_eq_true ->%bool_decide_eq_true]%andb_true_iff
            ?%negb_true_iff%bool_decide_eq_false]%andb_true_iff;
    by do 7 eexists; split_and!; [|exact Ei|exact Ej|].
Qed.

(** Goroutine [i] is about to write the map of channels of pool [c], and worker
    [w] of the pool to read it. *)
Definition map_race_at (c i w : nat) (y : process) : bool :=
  match y_gos y !! i, y_pools y !! c with
  | Some (Some l, Running (Remake _ _)), Some p =>
      match p_workers p !! w with
      | Some (Working _) => aliveb y && bool_decide (l_pool l = c)
      | _ => false
      end
  | _, _ => false
  end.

Lemma map_race_at_race c i w y : map_race_at c i w y = true → map_race c y.
Proof.
  unfold map_race_at. destruct (y_gos y !! i) as [[[l|] [|[]| | |]]|] eqn:Ei; try done.
  destruct (y_pools y !! c) as [p|] eqn:Ep; [|done].
  destruct (p_workers p !! w) as [[]|] eqn:Ew; try done.
  intros [Ha%aliveb_alive Hc%bool_decide_eq_true]%andb_true_iff.
  by do 7 eexists; split_and!; [|exact Ei|exact Hc|exact Ep|exact Ew].
Qed.

Module Example.
Definition sc : gmap Z committee := {[0 := MkCommittee "shard0.txt" ["n"]]}.
Definition params : watchParams := {|
  wp_EventServiceKey := "key";
  wp_TargetChain := "testnet";
  wp_RPCPort := 9500;
  wp_Inspect_BlockHeader := 15;
  wp_Inspect_NodeMetadata := 30;
  wp_Inspect_CxPending := 300;
  wp_Inspect_CrossLink := 600;
  wp_WorkerPoolSize := 1;
  wp_HTTPTimeout := 5;
  wp_Port := 8080;
  wp_Consensus_Interval := 60;
  wp_Consensus_Warning := 70;
  wp_CxPending_Warning := 1000;
  wp_CrossLink_Warning := 600;
  wp_ShardHeight_Warning := 10;
  wp_Connectivity_Warning := 33;
  wp_MachineIPList := ["shard0.txt"%string];
|}.
Definition rt : runtime := MkRuntime linq_ref range_ref (λ _, None).
(** A node that answers every request, and one that answers none. *)
Definition node : http_client := λ _ _,
  inr (200, print (JObj [("result"%string, JObj [("epoch"%string, JNum "9")])])).
Definition nobody : http_client := λ _ _, inl "connection refused"%string.

Notation choice := (@choice variable local monitor action runtime).
Definition begin_with (c : gmap Z committee) : process :=
  watchdog_start range_ref params c.
Definition steps_with (c : gmap Z committee) : process → Prop :=
  watchdog_steps range_ref "v1" params c.
Definition begin : process := begin_with sc.
Definition steps : process → Prop := steps_with sc.

(** [n] steps of goroutine [i]. *)
Definition go (i n : nat) : list choice := replicate n (MoveGo i rt node).

(** A round of goroutine [i] with [n] jobs, done by the worker of pool [c]. *)
Definition ask_all (n i c : nat) (client : http_client) : list choice :=
  go i (1 + 2 * n) ++ replicate (3 * n) (MoveWorker c 0 client) ++ go i 2.
Definition ask (i c : nat) (client : http_client) : list choice := ask_all 1 i c client.

(** A tick of the metadata manager, up to its next wait. *)
Definition metadata_round : list choice :=
  MoveTick 5 rt (Unix 5) :: go 5 1 ++ ask 5 0 node ++ go 5 9.

(** A tick of the header manager up to its store of the reply. *)
Definition header_half : list choice := MoveTick 0 rt (Unix 5) :: go 0 1 ++ ask 0 0 node.

(** The first tick of the consensus monitor, and the next up to its write of the
    status. *)
Definition consensus_first : list choice := MoveTick 2 rt (Unix 5) :: go 2 1 ++ ask 2 1 node ++ go 2 9.
Definition consensus_half (client : http_client) : list choice :=
  MoveTick 2 rt (Unix 65) :: go 2 1 ++ ask 2 1 client.

Definition ask_status : list choice := [MoveRequest (status_handler (L := linq_ref) (MR := range_ref))].

Definition run_schedule (c : gmap Z committee) (chs : list choice) :
    option process :=
  exec_all (size (shard_map (MR := range_ref) c)) m_inUse set_inUse
    (starts (shard_map (MR := range_ref) c)) chs (begin_with c).

Lemma schedule_run c chs y :
  Forall (choice_ok (http_request "v1")) chs →
  run_schedule c chs = Some y → steps_with c y.
Proof. intros Hok E. eapply exec_all_run; [exact Hok|apply sys_run_refl|exact E]. Qed.

(** A state with a property that can be evaluated. *)
Lemma schedule_such c chs (P : process → bool) :
  Forall (choice_ok (http_request "v1")) chs →
  match run_schedule c chs with Some y => P y | None => false end = true →
  ∃ y, steps_with c y ∧ P y = true.
Proof.
  intros Hok. destruct (run_schedule c chs) as [y|] eqn:E; [|done]. intros HP. exists y.
  split; [by eapply schedule_run|done].
Qed.

Lemma race_reached x i j chs :
  Forall (choice_ok (http_request "v1")) chs →
  match run_schedule sc chs with Some y => race_at x i j (y_gos y) | None => false end = true →
  ∃ y, steps y ∧ races x (y_gos y).
Proof.
  intros Hok E. destruct (schedule_such sc chs (λ y, race_at x i j (y_gos y)) Hok E) as (y & Hy & Hr).
  exists y. split; [done|]. by eapply race_at_races.
Qed.

Lemma go_ok i n : Forall (choice_ok (http_request "v1")) (go i n).
Proof. by apply Forall_replicate. Qed.

Lemma ask_ok n i c client :
  Forall (choice_ok (http_request "v1")) (ask_all n i c client).
Proof. unfold ask_all. repeat apply Forall_app_2; [apply go_ok|by apply Forall_replicate|apply go_ok]. Qed.

Lemma ask_status_ok : Forall (choice_ok (http_request "v1")) ask_status.
Proof. constructor; [apply (get_status _ rt)|constructor]. Qed.

Ltac solve_choices :=
  repeat first [apply Forall_app_2 | apply go_ok | apply ask_ok | apply ask_status_ok
               | constructor; [done|] | apply Forall_nil; done ].

(** The consensus monitor writes the map of statuses while a handler, which holds
    the lock, copies it. *)
Lemma status_map_race : ∃ y, steps y ∧ races VStatusMap (y_gos y).
Proof.
  apply (race_reached VStatusMap 2 10
    (consensus_first ++ consensus_half node ++ go 2 2 ++ ask_status ++ go 10 5)).
  - unfold consensus_first, consensus_half. solve_choices.
  - vm_compute. reflexivity.
Qed.

(** The committee update stores its reply while a handler reads the committees. *)
Lemma committee_race : ∃ y, steps y ∧ races VSuperCommittee (y_gos y).
Proof.
  apply (race_reached VSuperCommittee 1 6 (ask_status ++ go 6 7 ++ go 1 2)).
  - solve_choices.
  - vm_compute. reflexivity.
Qed.

(** The header manager stores a reply while the consensus monitor reads its list of
    silent nodes. *)
Lemma working_header_race : ∃ y, steps y ∧ races VWorkingBlockHeader (y_gos y).
Proof.
  apply (race_reached VWorkingBlockHeader 0 2 (header_half ++ consensus_half nobody)).
  - unfold header_half, consensus_half. solve_choices.
  - vm_compute. reflexivity.
Qed.

(** The metadata manager makes a fresh channel while the worker it shares with the
    header manager has a job of the latter. *)
Lemma channel_map_race : ∃ y, steps y ∧ map_race 0 y.
Proof.
  destruct (schedule_such sc (MoveTick 5 rt (Unix 5) :: go 5 1 ++ ask 5 0 node ++ go 5 7
    ++ MoveTick 0 rt (Unix 5) :: go 0 3 ++ [MoveWorker 0 0 node]) (map_race_at 0 5 0)) as (y & Hy & Hr).
  - solve_choices.
  - vm_compute. reflexivity.
  - exists y. split; [done|]. by eapply map_race_at_race.
Qed.

(** A tick of the metadata manager publishes the node's answer. *)
Definition published (y : process) : bool :=
  bool_decide ((nmd_IP <$> mc_Nodes (m_MetadataSnapshot (y_mem y))) = ["n"%string]).

Lemma metadata_published : ∃ y, steps y ∧ published y = true.
Proof.
  apply (schedule_such sc metadata_round).
  - unfold metadata_round. solve_choices.
  - vm_compute. reflexivity.
Qed.

(** A network report that was answered after that. *)
Definition ask_network : list choice :=
  [MoveRequest (network_handler (L := linq_ref) (MR := range_ref) "v1")].

Definition answered (y : process) : option (local * response) :=
  match y_gos y !! 7%nat with
  | Some (_, Waiting s) => (λ r, (s, r)) <$> lo_response s
  | _ => None
  end.

Lemma report_answered :
  ∃ y, steps y ∧ match answered y with Some _ => true | None => false end = true.
Proof.
  apply (schedule_such sc (metadata_round ++ ask_network ++ go 7 13)
    (λ y, match answered y with Some _ => true | None => false end)).
  - unfold metadata_round. solve_choices. constructor; [apply (get_network _ rt)|constructor].
  - vm_compute. reflexivity.
Qed.

(** Four nodes that do not answer. The header manager has stored three of them
    when the consensus monitor loads the list to append to it; the manager appends
    the fourth, in the same array, and then the consensus monitor writes its entry
    over it. *)
Definition four : gmap Z committee := {[0 := MkCommittee "shard0.txt" ["a"; "b"; "c"; "d"]]}.
Definition overwriting : list choice :=
  MoveTick 0 rt (Unix 5) :: go 0 1 ++ ask_all 4 0 0 nobody ++ go 0 3
  ++ MoveTick 2 rt (Unix 5) :: go 2 1 ++ ask_all 4 2 1 nobody ++ go 2 1
  ++ go 0 1 ++ go 2 1 ++ go 0 5.

(** The silent nodes of the published headers: the last is missing, the first is
    there twice. *)
Definition overwritten (y : process) : bool :=
  let nodes := (map_to_list (shard_map (MR := range_ref) four)).*1 in
  bool_decide (bc_Nodes (m_BlockHeaderSnapshot (y_mem y)) = [])
  && bool_decide ((nr_IP <$> bc_Down (m_BlockHeaderSnapshot (y_mem y)))
                  = take 3 nodes ++ take 1 nodes).

Lemma header_overwritten : ∃ y, steps_with four y ∧ overwritten y = true.
Proof.
  apply (schedule_such four overwriting).
  - unfold overwriting. solve_choices.
  - vm_compute. reflexivity.
Qed.

(** A leader with many pending transactions, and the page of the cross shard
    monitor. *)
Definition leader : http_client := λ _ body,
  if decide (body = request_body PendingCXRPC) then
    inr (200, print (JObj [("result"%string, JNum "5000")]))
  else inr (200, print (JObj [("result"%string, JObj [("is-leader"%string, JBool true)])])).

Definition paged (y : process) : bool :=
  match pages (y_log y) with [] => false | _ => true end.

Lemma page_sent : ∃ y, steps y ∧ paged y = true.
Proof.
  apply (schedule_such sc (MoveTick 3 rt (Unix 5) :: go 3 1 ++ ask 3 2 leader ++ ask 3 2 leader ++ go 3 1)).
  - solve_choices.
  - vm_compute. reflexivity.
Qed.
End Example.
