(* ===== verification/Safety.v ===== *)
(** * Safety of the whole watchdog

    Every interleaving of the goroutines of [System] is one of whole rounds
    ([watchdog_refines]); the fields the mutex guards are never raced for
    ([watchdog_race_free]). *)

From S2P Require Import Prelude GoFloat GoFmt GoTime GoJson Rpc Pool Goroutines Linq Alerts Summary.
From S2P Require Import Monitor Consensus CrossLink Cx P2p Beacon Config Manager Reports System Runs.

(** ** Rounds *)

(** The fresh channels at the end of a tick. *)
Ltac solve_remake :=
  repeat (cbn [prog_ok]; intros);
  repeat split; first [by constructor|by repeat constructor|vm_compute; reflexivity].

(** The RPCs of the four pools. *)
Definition pool_rpcs (c : nat) : list string :=
  match c with
  | 0%nat => [NodeMetadataRPC; BlockHeaderRPC]
  | 1%nat => [BlockHeaderRPC]
  | 2%nat => [NodeMetadataRPC; PendingCXRPC]
  | _ => [NodeMetadataRPC; LastCrossLinkRPC]
  end.

Section rounds.
Context (shardMap : gmap string Z).
Notation ok := (prog_ok (round_jobs shardMap)).

Lemma store_replies_ok owns closed x f first ds (k : program) :
  ok owns closed k → ok owns closed (store_replies x f first ds k).
Proof. intros Hk. revert first. by induction ds; intros first; cbn. Qed.

Lemma collect_prog_ok owns closed ds nodes down k :
  (∀ nodes down, ok owns closed (k nodes down)) →
  ok owns closed (collect_prog shardMap ds nodes down k).
Proof.
  intros Hk. revert nodes down. induction ds as [|d ds IH]; intros nodes down; cbn; [done|].
  destruct (r_oops d); cbn; [|done]. intros m. by case_match; cbn.
Qed.

Lemma for_prog_ok {X B} owns closed (f : B → X → B * list action) l b k :
  (∀ b, ok owns closed (k b)) → ok owns closed (for_prog f l b k).
Proof.
  intros Hk. revert b. induction l as [|x l IH]; intros b; [apply Hk|]. cbn [for_prog].
  destruct (f b x). apply IH.
Qed.

Lemma each_prog_ok {X} owns closed (f : X → list action) l (k : program) :
  ok owns closed k → ok owns closed (each_prog f l k).
Proof. intros Hk. by apply for_prog_ok. Qed.

Lemma shard_loop_ok pd owns closed cfg now b entries st k :
  (∀ st, ok owns closed (k st)) → ok owns closed (shard_loop pd cfg now b entries st k).
Proof.
  intros Hk. revert st. induction entries as [|e entries IH]; intros st; [apply Hk|].
  cbn [shard_loop]. destruct (shard_step pd cfg now e (st, [])) as [[st' acts]|]; [|done].
  by destruct b; cbn.
Qed.

Lemma links_prog_ok pd owns closed cfg now replies links last k :
  (∀ links last, ok owns closed (k links last)) →
  ok owns closed (links_prog pd cfg now replies links last k).
Proof.
  intros Hk. induction replies as [|d replies IH]; [apply Hk|]. cbn [links_prog].
  destruct (r_oops d); [apply IH|]. by apply for_prog_ok.
Qed.

Lemma metadata_loop_ok interval tolerance key chain :
  loop_ok (round_jobs shardMap) (metadata_manager shardMap interval tolerance key chain).
Proof.
  intros rt now s. cbn. split_and!; [set_solver|set_solver|apply node_jobs_round|].
  intros ds _. apply store_replies_ok. solve_remake.
Qed.

Lemma header_loop_ok interval : loop_ok (round_jobs shardMap) (header_manager shardMap interval).
Proof.
  intros rt now s. cbn. split_and!; [set_solver|set_solver|apply node_jobs_round|].
  intros ds _. apply store_replies_ok. intros m. destruct (epoch_check _ _ _). solve_remake.
Qed.

Lemma consensus_loop_ok interval cfg :
  loop_ok (round_jobs shardMap) (consensusMonitor shardMap interval cfg).
Proof.
  intros rt now s. cbn. split_and!; [set_solver|set_solver|apply node_jobs_round|].
  intros ds _. apply collect_prog_ok. intros nodes down. apply shard_loop_ok. intros st.
  apply each_prog_ok. solve_remake.
Qed.

Lemma cx_loop_ok interval cfg : loop_ok (round_jobs shardMap) (cxMonitor shardMap interval cfg).
Proof.
  intros rt now s. cbn. split_and!; [set_solver|set_solver|apply node_jobs_round|].
  intros metas Hm. split_and!; [set_solver|set_solver| |].
  - eapply round_jobs_perm; [symmetry; apply cx_jobs_nodes|].
    eapply leaders_round; [apply (node_jobs_round (rt_go rt))|exact Hm].
  - intros ds _. apply for_prog_ok. intros sizes. apply each_prog_ok. solve_remake.
Qed.

Lemma crosslink_loop_ok interval cfg :
  loop_ok (round_jobs shardMap) (crossLinkMonitor shardMap interval cfg).
Proof.
  intros rt now s. cbn. split_and!; [set_solver|set_solver|apply beacon_jobs_round|].
  intros metas Hm. split_and!; [set_solver|set_solver| |].
  - unfold leader_jobs. rewrite find_leaders_filter.
    eapply leaders_round; [apply (beacon_jobs_round (rt_go rt))|exact Hm].
  - intros ds _. apply links_prog_ok. intros links last. apply each_prog_ok. solve_remake.
Qed.
End rounds.

(** ** The start *)

Section start.
Context (MR : GoRuntime).
Context (buildVersion : string) (params : watchParams) (superCommittee : gmap Z committee).
Notation shardMap := (shard_map superCommittee).
Notation steps := (watchdog_steps MR buildVersion params superCommittee).

Definition metadata_loop : go_loop :=
  metadata_manager shardMap (wp_Inspect_NodeMetadata params) (wp_Connectivity_Warning params)
    (wp_EventServiceKey params) (wp_TargetChain params).
Definition header_loop : go_loop := header_manager shardMap (wp_Inspect_BlockHeader params).
Definition consensus_settings : consensus_config :=
  MkConsensusConfig (uint64 (wp_Consensus_Warning params)) (uint64 (wp_ShardHeight_Warning params))
    (wp_WorkerPoolSize params) (wp_EventServiceKey params) (wp_TargetChain params) shardMap.
Definition consensus_loop : go_loop :=
  consensusMonitor shardMap (uint64 (wp_Consensus_Interval params)) consensus_settings.
Definition cx_settings : cx_config :=
  MkCxConfig (uint64 (wp_CxPending_Warning params)) (wp_EventServiceKey params)
    (wp_TargetChain params).
Definition cx_loop : go_loop :=
  cxMonitor shardMap (uint64 (wp_Inspect_CxPending params)) cx_settings.
Definition crosslink_settings : crosslink_config :=
  MkCrossLinkConfig (uint64 (wp_CrossLink_Warning params)) (wp_EventServiceKey params)
    (wp_TargetChain params).
Definition crosslink_loop : go_loop :=
  crossLinkMonitor shardMap (uint64 (wp_Inspect_CrossLink params)) crosslink_settings.

Definition watchdog_loops : list go_loop :=
  [metadata_loop; header_loop; consensus_loop; cx_loop; crosslink_loop].

(** The goroutines [update] starts, by their place. *)
Definition header_go : nat := 0.
Definition committee_go : nat := 1.
Definition consensus_go : nat := 2.
Definition cx_go : nat := 3.
Definition crosslink_go : nat := 4.
Definition metadata_go : nat := 5.

Lemma omap_replicate_None {A B} (f : A → option B) n x : f x = None → omap f (replicate n x) = [].
Proof. intros E. induction n; cbn; [done|]. by rewrite E. Qed.

(** What [update] starts. *)
Lemma start_gos :
  y_gos (watchdog_start MR params superCommittee)
  = [(Some header_loop, Waiting initial_local);
     (None, Running (committee_prog (getBeaconChainNode shardMap)));
     (Some consensus_loop, Waiting initial_local);
     (Some cx_loop, Waiting initial_local);
     (Some crosslink_loop, Waiting initial_local);
     (Some metadata_loop, Waiting initial_local)].
Proof.
  unfold watchdog_start, update. cbn [y_gos]. rewrite omap_app, omap_replicate_None by done. reflexivity.
Qed.

Lemma start_loops i l g :
  y_gos (watchdog_start MR params superCommittee) !! i = Some (Some l, g) →
  l ∈ watchdog_loops ∧ g = Waiting initial_local.
Proof.
  rewrite start_gos. intros Hi%list_elem_of_lookup_2. unfold watchdog_loops.
  rewrite !elem_of_cons, elem_of_nil in Hi.
  repeat destruct Hi as [Hi|Hi]; try done; injection Hi as -> ->; split; try done; set_solver.
Qed.

Lemma watchdog_loop_ok l :
  l ∈ watchdog_loops →
  loop_ok (round_jobs shardMap) l ∧ (∀ r, r ∈ l_owns l → r ∈ pool_rpcs (l_pool l))
  ∧ (l_pool l < 4)%nat.
Proof.
  unfold watchdog_loops. rewrite !elem_of_cons, elem_of_nil.
  intros [-> | [-> | [-> | [-> | [-> | []]]]]]; cbn;
    (split; [|split; [|lia]]); try (intros r; cbn; set_solver).
  - apply metadata_loop_ok.
  - apply header_loop_ok.
  - apply consensus_loop_ok.
  - apply cx_loop_ok.
  - apply crosslink_loop_ok.
Qed.

(** No two goroutines own the same RPC of a pool. *)
Lemma start_owns i j l l' g g' :
  i ≠ j → y_gos (watchdog_start MR params superCommittee) !! i = Some (Some l, g) →
  y_gos (watchdog_start MR params superCommittee) !! j = Some (Some l', g') → l_pool l = l_pool l' →
  ∀ r, r ∈ l_owns l → r ∉ l_owns l'.
Proof.
  rewrite start_gos. intros Hne Hi Hj Hp r.
  destruct i as [|[|[|[|[|[|i]]]]]]; try done; destruct j as [|[|[|[|[|[|j]]]]]]; try done;
    cbn in Hi, Hj; simplify_eq; cbn in Hp |- *; try done; unfold NodeMetadataRPC, BlockHeaderRPC; set_solver.
Qed.

Lemma start_pools c p :
  y_pools (watchdog_start MR params superCommittee) !! c = Some p
  ↔ p = initial_pool (λ _, []) (Z.to_nat (wp_WorkerPoolSize params)) ∧ (c < 4)%nat.
Proof. apply (lookup_replicate 4). Qed.

Lemma start_coherent :
  coherent (size shardMap) (round_jobs shardMap) pool_rpcs (watchdog_start MR params superCommittee).
Proof.
  split.
  - intros c p [-> _]%start_pools. apply initial_pool_ok; [apply round_jobs_ok|]. intros r. apply round_jobs_nil.
  - intros i l g [Hl ->]%start_loops. destruct (watchdog_loop_ok l Hl) as (Hok & Ho & Hlt).
    split; [done|]. eexists. split; [by apply start_pools|].
    split; [done|]. exists []. split; [set_solver|]. split; [done|]. intros r _. split; [set_solver|done].
  - apply start_owns.
Qed.

Lemma start_untouched : untouched (watchdog_start MR params superCommittee).
Proof. by intros c p r [-> _]%start_pools _. Qed.

(** C8: whatever the interleaving of the goroutines, the workers of the four
    pools and the HTTP handlers, the process behaves as if every round of
    requests were one atomic step in which each node that was asked gives one
    answer; and no worker ever sends on a closed channel. *)
Theorem watchdog_refines y :
  steps y →
  abs_run m_inUse set_inUse (http_request buildVersion) (starts shardMap)
    (abs (watchdog_start MR params superCommittee)) (abs y)
  ∧ ∀ p, p ∈ y_pools y → p_crash p ≠ Some ClosedChannel.
Proof.
  intros Hy. eapply rounds_refine in Hy as [Hco Hr];
    [|apply round_jobs_ok|apply round_jobs_nil|apply start_coherent].
  split; [exact Hr|]. intros p [c Hc]%list_elem_of_lookup. apply (co_pools _ _ _ _ Hco _ _ Hc).
Qed.

(** The loops of the process are those of the start. *)
Lemma process_loops y i l :
  steps y → has_loop y i l ↔ has_loop (watchdog_start MR params superCommittee) i l.
Proof.
  intros Hy. eapply sys_run_untouched in Hy as [_ Hloops];
    [|apply round_jobs_ok|apply round_jobs_nil|apply start_coherent|apply start_untouched].
  apply Hloops.
Qed.
End start.

(** ** The lock *)

(** The fields every goroutine uses under the lock only. *)
Definition guarded (x : variable) : Prop :=
  match x with
  | VMetadataSnapshot | VBlockHeaderSnapshot | VLastCrossLinks
  | VSummarySnapshot | VNoReplySnapshot | VConsensusProgress => True
  | VWorkingMetadata | VWorkingBlockHeader | VSuperCommittee | VStatusMap => False
  end.

(** Straight-line parts. *)
Ltac solve_lock := repeat (cbn [lock_ok guarded]; first
  [ done | progress intros | split ]).

Section locks.
Context `{L : Linq} `{MR : GoRuntime}.
Context (pd : pager) (shardMap : gmap string Z).
Notation ok := (lock_ok m_inUse guarded).

Lemma store_replies_lock b x f first ds (k : program) :
  ¬ guarded x → (∀ acc d, m_inUse (f acc d).1 = m_inUse acc.1) → ok b k →
  ok b (store_replies x f first ds k).
Proof.
  intros Hx Hf Hk. revert first. induction ds as [|d ds IH]; intros first; cbn; [done|].
  split_and!; [done| |by apply IH]. intros m. apply (Hf (m, first)).
Qed.

Lemma collect_prog_lock b ds nodes down k :
  (∀ nodes down, ok b (k nodes down)) → ok b (collect_prog shardMap ds nodes down k).
Proof.
  intros Hk. revert nodes down. induction ds as [|d ds IH]; intros nodes down; cbn; [done|].
  destruct (r_oops d); cbn; [|done]. split; [done|]. intros m. case_match; cbn; [|done].
  split_and!; [done| |done]. intros m'. unfold store_down. by case_decide.
Qed.

Lemma for_prog_lock {X B} c (f : B → X → B * list action) l b k :
  (∀ b, ok c (k b)) → ok c (for_prog f l b k).
Proof.
  intros Hk. revert b. induction l as [|x l IH]; intros b; [apply Hk|]. cbn [for_prog].
  destruct (f b x). apply IH.
Qed.

Lemma each_prog_lock {X} c (f : X → list action) l (k : program) : ok c k → ok c (each_prog f l k).
Proof. intros Hk. by apply for_prog_lock. Qed.

Lemma links_prog_lock c cfg now replies links last k :
  (∀ links last, ok c (k links last)) → ok c (links_prog pd cfg now replies links last k).
Proof.
  intros Hk. induction replies as [|d replies IH]; [apply Hk|]. cbn [links_prog].
  destruct (r_oops d); [apply IH|]. by apply for_prog_lock.
Qed.

Lemma shard_loop_lock b cfg now published entries st k :
  (∀ st, ok b (k st)) → ok b (shard_loop pd cfg now published entries st k).
Proof.
  intros Hk. revert st. induction entries as [|e entries IH]; intros st; [apply Hk|].
  cbn [shard_loop]. destruct (shard_step pd cfg now e (st, [])) as [[st' acts]|]; [|done].
  destruct published; cbn; [|done]. by split_and!.
Qed.

Lemma metadata_body_lock tolerance key chain now s :
  ok false (metadata_body shardMap tolerance key chain now s).
Proof.
  unfold metadata_body. solve_lock. apply store_replies_lock; [intros []|apply metadata_reply_inUse|].
  solve_lock.
Qed.

Lemma header_body_lock now s : ok false (header_body shardMap now s).
Proof.
  unfold header_body. solve_lock. apply store_replies_lock; [intros []|apply header_reply_inUse|].
  solve_lock. destruct (epoch_check _ _ _). solve_lock.
Qed.

Lemma consensus_body_lock cfg now s : ok false (consensus_body pd shardMap cfg now s).
Proof.
  unfold consensus_body. solve_lock. apply collect_prog_lock. intros nodes down. cbn.
  apply shard_loop_lock. intros st. apply each_prog_lock. solve_lock.
Qed.

Lemma cx_body_lock cfg now s : ok false (cx_body pd shardMap cfg now s).
Proof.
  unfold cx_body. solve_lock. apply for_prog_lock. intros sizes. by apply each_prog_lock.
Qed.

Lemma crosslink_body_lock cfg now s : ok false (crosslink_body pd shardMap cfg now s).
Proof.
  unfold crosslink_body. solve_lock. apply links_prog_lock. intros links last.
  apply each_prog_lock. solve_lock.
Qed.

Lemma committee_prog_lock node : ok false (committee_prog node).
Proof.
  unfold committee_prog. cbn [lock_ok]. intros client.
  destruct (request client _ _) as [[result payload] [oops|]]; solve_lock.
Qed.

Lemma or_panic_lock {X} b (o : outcome X) k : (∀ x, ok b (k x)) → ok b (or_panic o k).
Proof. intros Hk. destruct o; [apply Hk|done]. Qed.

Lemma summary_prog_lock k : (∀ sum, ok true (k sum)) → ok true (summary_prog k).
Proof.
  intros Hk. unfold summary_prog. solve_lock. apply or_panic_lock. by intros [].
Qed.

Lemma networkSnapshot_lock buildVersion k :
  (∀ r, ok false (k r)) → ok false (networkSnapshot_prog buildVersion k).
Proof.
  intros Hk. unfold networkSnapshot_prog. split; [done|]. apply summary_prog_lock. intros sum.
  split; [done|]. apply or_panic_lock. intros sum1. unfold progress_prog. solve_lock.
  apply or_panic_lock. intros sum2. split; [done|]. apply Hk.
Qed.

Lemma csv_section_lock filename header values rows : ok false (csv_section filename header values rows).
Proof.
  unfold csv_section. split; [done|]. apply or_panic_lock. solve_lock. apply or_panic_lock. solve_lock.
Qed.

Lemma fetch_all_lock b js data k :
  (∀ data, ok b (k data)) → ok b (fetch_all js data k).
Proof.
  intros Hk. revert data. induction js as [|j js IH]; intros data; [apply Hk|].
  intros client. destruct (request client _ _) as [[result payload] oops]. apply IH.
Qed.

Lemma spawns_lock a h : spawns pd shardMap a = Some h → ok false h.
Proof.
  destruct a; try done; intros [= <-]; try by cbn.
  - by apply each_prog_lock.
  - unfold beacon_prog. cbn [lock_ok]. destruct (_ <=? _); [done|]. apply fetch_all_lock. intros data.
    destruct (collect_beacon data). apply for_prog_lock. intros blocks. by apply each_prog_lock.
  - by apply each_prog_lock.
  - apply committee_prog_lock.
Qed.
End locks.

Lemma http_request_lock buildVersion h :
  http_request buildVersion h → lock_ok m_inUse guarded false h.
Proof.
  intros [rt parse now|query|rt|rt].
  - apply networkSnapshot_lock. intros r. apply or_panic_lock. intros sum.
    destruct (parse _); solve_lock.
  - unfold csv_handler. destruct (query !! _) as [keys|]; [|done]. apply or_panic_lock. intros report.
    repeat case_decide; [destruct (query !! _)..|]; solve [apply csv_section_lock|done].
  - by apply networkSnapshot_lock.
  - unfold status_handler. split; [done|]. apply summary_prog_lock. intros sum.
    unfold progress_prog. solve_lock. apply or_panic_lock. solve_lock.
Qed.

Lemma starts_lock shardMap rt a h :
  starts shardMap rt a = Some h → lock_ok m_inUse guarded false h.
Proof. apply spawns_lock. Qed.

Section race_free.
Context (MR : GoRuntime).
Context (buildVersion : string) (params : watchParams) (superCommittee : gmap Z committee).
Notation steps := (watchdog_steps MR buildVersion params superCommittee).

Lemma watchdog_loop_lock l :
  l ∈ watchdog_loops MR params superCommittee → loop_lock m_inUse guarded (Some l).
Proof.
  unfold watchdog_loops. rewrite !elem_of_cons, elem_of_nil.
  intros [-> | [-> | [-> | [-> | [-> | []]]]]] rt now s.
  - apply metadata_body_lock.
  - apply header_body_lock.
  - apply consensus_body_lock.
  - apply cx_body_lock.
  - apply crosslink_body_lock.
Qed.

Lemma start_exclusive : exclusive m_inUse guarded (abs (watchdog_start MR params superCommittee)).
Proof.
  exists None. split_and!; [|done|done].
  intros i o g. unfold abs, abs_gos. cbn [a_gos]. rewrite list_lookup_fmap_Some.
  intros ([o' g'] & [= -> ->] & Hi). destruct o' as [l|].
  - destruct (start_loops _ _ _ _ _ _ Hi) as [Hl ->]. split; [by apply watchdog_loop_lock|done].
  - split; [done|]. rewrite start_gos in Hi. apply list_elem_of_lookup_2 in Hi.
    rewrite !elem_of_cons, elem_of_nil in Hi.
    repeat destruct Hi as [Hi|Hi]; try done. injection Hi as ->. apply committee_prog_lock.
Qed.

(** The mutex does its work. In every reachable state of the process, no two
    goroutines are about to access the same snapshot, the cross links, the stored
    report or the pointer to the consensus status with one of them writing it. *)
Lemma watchdog_race_free y x : steps y → guarded x → ¬ races x (y_gos y).
Proof.
  intros Hy Hx Hr. eapply rounds_refine in Hy as [_ Hrun];
    [|apply round_jobs_ok|apply round_jobs_nil|apply start_coherent].
  eapply (abs_run_exclusive _ _ _ _ guarded) in Hrun;
    [|done|apply http_request_lock|apply starts_lock|apply start_exclusive].
  eapply exclusive_race_free; [exact Hrun|exact Hx|by apply abs_races].
Qed.
End race_free.

(** ** Concrete runs *)

Lemma watchdog_refines_witness :
  ∃ y, Example.published y = true
    ∧ abs_run m_inUse set_inUse (http_request "v1")
        (starts (shard_map (MR := range_ref) Example.sc)) (abs Example.begin) (abs y).
Proof.
  destruct Example.metadata_published as (y & Hy & Hp). exists y. split; [exact Hp|].
  exact (proj1 (watchdog_refines range_ref "v1" Example.params Example.sc y Hy)).
Defined.
