(* ===== verification/Races.v ===== *)
(** * Data races of the watchdog

    Which fields of the monitor two goroutines can access at the same time with
    one of them writing, and in which pools the map of reply channels is written
    while a worker reads it. *)

From S2P Require Import Prelude GoFloat GoFmt GoTime GoJson Rpc Pool Goroutines Schedules.
From S2P Require Import Linq Alerts Summary Monitor Consensus CrossLink Cx P2p Beacon Config Manager.
From S2P Require Import Reports System.
From S2P Require Import Runs Safety.

(** ** The working metadata

    Only its manager uses it. *)

Ltac solve_avoids := repeat (cbn [avoids]; first [ done | progress intros | split ]).

Section metadata.
Context `{L : Linq} `{MR : GoRuntime}.
Context (pd : pager) (buildVersion : string) (shardMap : gmap string Z).
Notation av := (avoids VWorkingMetadata).

Lemma store_replies_avoids x f first ds (k : program) :
  x ≠ VWorkingMetadata → av k → av (store_replies x f first ds k).
Proof. intros Hx Hk. revert first. induction ds; intros first; cbn; [done|]. auto. Qed.

Lemma collect_prog_avoids ds nodes down k :
  (∀ nodes down, av (k nodes down)) → av (collect_prog shardMap ds nodes down k).
Proof.
  intros Hk. revert nodes down. induction ds as [|d ds IH]; intros nodes down; cbn; [done|].
  destruct (r_oops d); cbn; [|done]. split; [done|]. intros m. by case_match; cbn; auto.
Qed.

Lemma shard_loop_avoids cfg now published entries st k :
  (∀ st, av (k st)) → av (shard_loop pd cfg now published entries st k).
Proof.
  intros Hk. revert st. induction entries as [|e entries IH]; intros st; [apply Hk|].
  cbn [shard_loop]. destruct (shard_step pd cfg now e (st, [])) as [[st' acts]|]; [|done].
  by destruct published; cbn; auto.
Qed.

Lemma for_prog_avoids {X B} (f : B → X → B * list action) l b k :
  (∀ b, av (k b)) → av (for_prog f l b k).
Proof.
  intros Hk. revert b. induction l as [|x l IH]; intros b; [apply Hk|]. cbn [for_prog].
  destruct (f b x). apply IH.
Qed.

Lemma each_prog_avoids {X} (f : X → list action) l (k : program) : av k → av (each_prog f l k).
Proof. intros Hk. by apply for_prog_avoids. Qed.

Lemma or_panic_avoids {X} (r : outcome X) k : (∀ x, av (k x)) → av (or_panic r k).
Proof. intros Hk. destruct r; [apply Hk|done]. Qed.

Lemma header_body_avoids now s : av (header_body shardMap now s).
Proof.
  unfold header_body. solve_avoids. apply store_replies_avoids; [done|].
  solve_avoids. destruct (epoch_check _ _ _). solve_avoids.
Qed.

Lemma consensus_body_avoids cfg now s : av (consensus_body pd shardMap cfg now s).
Proof.
  unfold consensus_body. solve_avoids. apply collect_prog_avoids. intros nodes down. cbn.
  apply shard_loop_avoids. intros st. apply each_prog_avoids. solve_avoids.
Qed.

Lemma cx_body_avoids cfg now s : av (cx_body pd shardMap cfg now s).
Proof.
  unfold cx_body. solve_avoids. apply for_prog_avoids. intros sizes. by apply each_prog_avoids.
Qed.

Lemma links_prog_avoids cfg now replies links last k :
  (∀ links last, av (k links last)) → av (links_prog pd cfg now replies links last k).
Proof.
  intros Hk. induction replies as [|d replies IH]; [apply Hk|]. cbn [links_prog].
  destruct (r_oops d); [apply IH|]. by apply for_prog_avoids.
Qed.

Lemma crosslink_body_avoids cfg now s : av (crosslink_body pd shardMap cfg now s).
Proof.
  unfold crosslink_body. solve_avoids. apply links_prog_avoids. intros links last.
  apply each_prog_avoids. solve_avoids.
Qed.

Lemma committee_prog_avoids node : av (committee_prog node).
Proof.
  unfold committee_prog. cbn [avoids]. intros client.
  destruct (request client _ _) as [[result payload] [oops|]]; solve_avoids.
Qed.

Lemma summary_prog_avoids k : (∀ sum, av (k sum)) → av (summary_prog k).
Proof. intros Hk. unfold summary_prog. solve_avoids. apply or_panic_avoids. by intros []. Qed.

Lemma networkSnapshot_avoids k : (∀ r, av (k r)) → av (networkSnapshot_prog buildVersion k).
Proof.
  intros Hk. apply summary_prog_avoids. intros sum. apply or_panic_avoids. intros sum1.
  unfold progress_prog. solve_avoids. apply or_panic_avoids. intros sum2. apply Hk.
Qed.

Lemma csv_section_avoids filename header values rows : av (csv_section filename header values rows).
Proof. apply or_panic_avoids. intros v. split; [done|]. intros m. apply or_panic_avoids. done. Qed.

Lemma fetch_all_avoids js data k : (∀ data, av (k data)) → av (fetch_all js data k).
Proof.
  intros Hk. revert data. induction js as [|j js IH]; intros data; [apply Hk|].
  intros client. destruct (request client _ _) as [[result payload] oops]. apply IH.
Qed.

Lemma spawns_avoids a h : spawns pd shardMap a = Some h → av h.
Proof.
  destruct a; try done; intros [= <-]; try by cbn.
  - by apply each_prog_avoids.
  - unfold beacon_prog. cbn [avoids]. destruct (_ <=? _); [done|]. apply fetch_all_avoids. intros data.
    destruct (collect_beacon data). apply for_prog_avoids. intros blocks. by apply each_prog_avoids.
  - by apply each_prog_avoids.
  - apply committee_prog_avoids.
Qed.
End metadata.

Lemma http_request_avoids buildVersion h :
  http_request buildVersion h → avoids VWorkingMetadata h.
Proof.
  intros [rt parse now|query|rt|rt].
  - apply networkSnapshot_avoids. intros r. apply or_panic_avoids. intros sum.
    destruct (parse _); solve_avoids.
  - unfold csv_handler. destruct (query !! _) as [keys|]; [|done]. apply or_panic_avoids. intros report.
    repeat case_decide; [destruct (query !! _)..|]; solve [apply csv_section_avoids|done].
  - by apply networkSnapshot_avoids.
  - apply summary_prog_avoids. intros sum. unfold progress_prog. solve_avoids.
    apply or_panic_avoids. solve_avoids.
Qed.

Lemma starts_avoid shardMap rt a h : starts shardMap rt a = Some h → avoids VWorkingMetadata h.
Proof. apply spawns_avoids. Qed.

Section private.
Context (MR : GoRuntime).
Context (buildVersion : string) (params : watchParams)
  (superCommittee : gmap Z committee).
Notation shardMap := (shard_map superCommittee).

Definition manages_metadata (o : option go_loop) : Prop :=
  match o with Some l => l_pool l = 0%nat ∧ l_owns l = [NodeMetadataRPC] | None => False end.

Lemma start_private :
  Goroutines.private VWorkingMetadata manages_metadata (abs (watchdog_start MR params superCommittee)).
Proof.
  assert (∀ i o g, a_gos (abs (watchdog_start MR params superCommittee)) !! i = Some (o, g) →
    ∃ g', g = abs_go g' ∧ y_gos (watchdog_start MR params superCommittee) !! i = Some (o, g')) as Hl.
  { intros i o g. unfold abs, abs_gos. cbn [a_gos]. rewrite list_lookup_fmap_Some.
    intros ([o' g'] & [= -> ->] & Hi). eauto. }
  split.
  - intros i o g (g' & -> & Hi)%Hl. rewrite start_gos in Hi. apply list_elem_of_lookup_2 in Hi.
    rewrite !elem_of_cons, elem_of_nil in Hi.
    destruct Hi as [E|[E|[E|[E|[E|[E|[]]]]]]]; injection E as -> ->; [right..|by left];
      (split; [|done || apply committee_prog_avoids]); try done; intros rt now s;
      first [apply header_body_avoids|apply consensus_body_avoids|apply cx_body_avoids
        |apply crosslink_body_avoids].
  - intros i j o o' g g' Hne (g1 & _ & Hi)%Hl (g2 & _ & Hj)%Hl Ho Ho'.
    destruct o as [l|]; [|done]. destruct o' as [l'|]; [|done].
    destruct Ho as [E1 E2], Ho' as [E1' E2'].
    apply (start_owns MR params superCommittee i j l l' g1 g2 Hne Hi Hj) with NodeMetadataRPC;
      [congruence|rewrite E2|rewrite E2']; by apply list_elem_of_here.
Qed.

Lemma metadata_race_free y :
  watchdog_steps MR buildVersion params superCommittee y → ¬ races VWorkingMetadata (y_gos y).
Proof.
  intros Hy Hr. eapply rounds_refine in Hy as [_ Hrun];
    [|apply round_jobs_ok|apply round_jobs_nil|apply start_coherent].
  eapply (abs_run_private _ _ _ _ VWorkingMetadata manages_metadata) in Hrun;
    [|exact id|apply http_request_avoids|apply starts_avoid|apply start_private].
  eapply private_race_free; [exact Hrun|by apply abs_races].
Qed.
End private.

(** ** The monitor's fields *)

(** C13: exactly three parts of the monitor are raced for. Two goroutines of a
    running watchdog can be about to access the same part, one of them to write
    it, only for the working list of block headers (the consensus monitor reads
    the list of silent nodes the manager is filling), the committees (stored and
    read without the mutex), and the map behind [consensusProgress] (which the
    consensus monitor goes on writing after it published it, while the reports
    iterate over it). All other fields are protected, by the mutex or by having
    one user. *)
Theorem race_iff x :
  (∃ (MR : GoRuntime) buildVersion params superCommittee y,
     watchdog_steps MR buildVersion params superCommittee y ∧ races x (y_gos y))
  ↔ x ∈ [VWorkingBlockHeader; VSuperCommittee; VStatusMap].
Proof.
  split.
  - intros (MR & buildVersion & params & sc & y & Hy & Hr).
    destruct (decide (x ∈ [VWorkingBlockHeader; VSuperCommittee; VStatusMap])) as [|Hx]; [done|].
    exfalso. destruct (decide (x = VWorkingMetadata)) as [->|Hm].
    + by eapply metadata_race_free.
    + eapply watchdog_race_free; [exact Hy| |exact Hr]. destruct x; cbn; set_solver.
  - assert (∀ z, (∃ y, Example.steps y ∧ races z (y_gos y)) →
      ∃ (MR : GoRuntime) buildVersion params superCommittee y,
        watchdog_steps MR buildVersion params superCommittee y ∧ races z (y_gos y)) as H.
    { intros z (y & Hy & Hr). by exists range_ref, "v1"%string,
        Example.params, Example.sc, y. }
    rewrite !elem_of_cons, elem_of_nil. intros [-> | [-> | [-> | []]]]; apply H.
    + apply Example.working_header_race.
    + apply Example.committee_race.
    + apply Example.status_map_race.
Qed.

(** ** The maps of channels *)

Section channels.
Context (MR : GoRuntime).
Context (buildVersion : string) (params : watchParams)
  (superCommittee : gmap Z committee).

(** Only the managers share a pool. *)
Lemma start_one_loop c i j l l' :
  c ≠ 0%nat → has_loop (watchdog_start MR params superCommittee) i l →
  has_loop (watchdog_start MR params superCommittee) j l' → l_pool l = c → l_pool l' = c → i = j.
Proof.
  unfold has_loop. rewrite start_gos. intros Hc [g Hi] [g' Hj] H1 H2.
  destruct i as [|[|[|[|[|[|i]]]]]]; try done; destruct j as [|[|[|[|[|[|j]]]]]]; try done;
    cbn in Hi, Hj; simplify_eq; cbn in *; congruence.
Qed.

Lemma channels_race_free y c :
  c ≠ 0%nat → watchdog_steps MR buildVersion params superCommittee y → ¬ map_race c y.
Proof.
  intros Hc Hy. eapply single_owner_race_free; [apply round_jobs_ok|apply round_jobs_nil
    |apply start_coherent|apply start_untouched|exact Hy|].
  intros i j l l'. by apply start_one_loop.
Qed.
End channels.

(** C16: of the four pools, exactly that of the two managers has a race on its map
    of reply channels: a manager can store the fresh channel of its RPC in the map
    while a worker, which has a job of the other manager, is about to look up a
    channel there. In the pools of the consensus, cross shard and cross link
    monitors, no worker has a job when the map is written. *)
Theorem channel_map_race_iff c :
  (∃ (MR : GoRuntime) buildVersion params superCommittee y,
     watchdog_steps MR buildVersion params superCommittee y ∧ map_race c y)
  ↔ c = 0%nat.
Proof.
  split.
  - intros (MR & buildVersion & params & sc & y & Hy & Hr).
    destruct (decide (c = 0%nat)) as [|Hc]; [done|]. by apply (channels_race_free MR buildVersion params sc y c) in Hr.
  - intros ->. destruct Example.channel_map_race as (y & Hy & Hr).
    by exists range_ref, "v1"%string, Example.params, Example.sc, y.
Qed.
