(* ===== verification/Invariants.v ===== *)
(** * Invariants of the whole watchdog

    Where the data of the process comes from, in every reachable state: the
    published snapshots and cross links are answers of a round that the manager or
    monitor received, the committees those of a reply, and every report a handler
    has answered is made of such data ([snapshots_cover], [reports_served]). Each
    goroutine keeps this, given what it knows of the working container that only it
    writes. *)

From S2P Require Import Prelude GoFloat GoFmt GoTime GoJson Rpc Pool Goroutines Linq Alerts Summary.
From S2P Require Import Monitor Consensus CrossLink Cx P2p Beacon Config Manager Reports System Runs Safety.

(** ** Where data comes from *)

(** A loop of pool [c] that owns [rpcs]. *)
Definition uses (o : option go_loop) (c : nat) (rpcs : list string) : Prop :=
  match o with Some l => l_pool l = c ∧ l_owns l = rpcs | None => False end.

(** The manager of an RPC. *)
Definition manages (o : option go_loop) (rpc : string) : Prop := uses o 0 [rpc].

(** Its index. *)
Definition manager_go (rpc : string) : nat :=
  if decide (rpc = NodeMetadataRPC) then metadata_go else header_go.

Section origins.
Context (shardMap : gmap string Z) (tr : list (nat * go_event)).

(** A round of a manager: every node was asked, and the replies were received. *)
Definition round_seen (rpc : string) (ds : list reply) : Prop :=
  (∃ MR : GoRuntime, served (node_jobs shardMap rpc) ds) ∧ (manager_go rpc, Received rpc ds) ∈ tr.

(** A silent node is one of the shard map, listed under its own shard. *)
Definition silent_wf (d : noReply) : Prop := shardMap !! nr_IP d = Some (nr_ShardID d).

Definition metadata_from (c : MetadataContainer) : Prop :=
  (mc_Nodes c = [] ∧ mc_Down c = [])
  ∨ ∃ ds, round_seen NodeMetadataRPC ds ∧ mc_Nodes c = omap metadata_of_reply ds
      ∧ mc_Down c = omap (silence_of_reply shardMap) ds.

(** The consensus monitor can overwrite an entry for a silent node. *)
Definition header_from (c : BlockHeaderContainer) : Prop :=
  (bc_Nodes c = [] ∧ bc_Down c = [])
  ∨ ∃ ds, round_seen BlockHeaderRPC ds ∧ bc_Nodes c = omap header_of_reply ds
      ∧ length (bc_Down c) = length (omap (silence_of_reply shardMap) ds).

(** The reports shorten the signatures of the published headers. *)
Definition header_shown (c : BlockHeaderContainer) : Prop :=
  (bc_Nodes c = [] ∧ bc_Down c = [])
  ∨ ∃ ds, round_seen BlockHeaderRPC ds
      ∧ (bc_Nodes c = omap header_of_reply ds ∨ bc_Nodes c = shortened (omap header_of_reply ds))
      ∧ length (bc_Down c) = length (omap (silence_of_reply shardMap) ds).

Definition links_from (links : list CrossLink) : Prop :=
  links = [] ∨ ∃ ds, (crosslink_go, Received LastCrossLinkRPC ds) ∈ tr ∧ links = tick_links ds.

Definition committee_from (c : SuperCommitteeReply) : Prop :=
  c = zero_SuperCommitteeReply
  ∨ ∃ i url res payload, (i, Fetched url committee_request (res, payload, None)) ∈ tr
      ∧ c = decode_committee res.

(** The data of a report: the metadata of a round, and the headers of a round with
    their signatures shortened. *)
Definition metas_of_round (metas : list NodeMetadata) : Prop :=
  metas = [] ∨ ∃ ds, round_seen NodeMetadataRPC ds ∧ metas = omap metadata_of_reply ds.
Definition headers_of_round (hs : list BlockHeader) : Prop :=
  hs = [] ∨ ∃ ds, round_seen BlockHeaderRPC ds ∧ hs = shortened (omap header_of_reply ds).

Context (chain buildVersion : string).

(** What a network report says. *)
Definition network_from (r : networkReport) : Prop :=
  rp_Build r = buildVersion ∧ rp_Chain r = chain
  ∧ (∃ metas hs links, metas_of_round metas ∧ headers_of_round hs ∧ links_from links
      ∧ network_shape hs metas links (rp_Summary r) ∧ tables_shape hs metas (rp_Summary r))
  ∧ ∃ mc bc, metadata_from mc ∧ header_shown bc ∧ Forall silent_wf (mc_Down mc ++ bc_Down bc)
      ∧ rp_NoReplies r = mc_Down mc ++ bc_Down bc.

(** What a status report says. *)
Definition status_from (r : statusReport) : Prop :=
  (∃ metas hs progress, metas_of_round metas ∧ headers_of_round hs
     ∧ status_shape hs metas progress r)
  ∧ (∃ c, committee_from c ∧ sr_AvailSeats r = co_ExternalCount (sc_CurrentCommittee c))
  ∧ ∃ (MR : GoRuntime) c, committee_from c ∧ sr_ElectedSeats r = Z.of_nat (length (elected c)).

(** What a page shows: the header part of a network report, its silent nodes, and
    committees; the functions of the template read the latter again. *)
Definition page_from (data : page_data) (read : SuperCommitteeReply) : Prop :=
  committee_from (pg_SuperCommittee data) ∧ committee_from read
  ∧ ∃ r, network_from r ∧ pg_LeftTitle data = [rp_Chain r] ∧ pg_NoReply data = rp_NoReplies r
      ∧ pg_Summary data !! headerSumry = rp_Summary r !! headerSumry
      ∧ pg_DownMachineCount data = Z.of_nat (size (list_to_set (nr_IP <$> rp_NoReplies r) : gset string)).

(** What a CSV file lists, after its names: the headers of a shard of a round, or the
    metadata of a version. *)
Definition csv_from (records : list (list string)) : Prop :=
  records = []
  ∨ (∃ hs shard g, headers_of_round hs ∧ g ≡ₚ filter (λ h, header_shard h = shard) hs
       ∧ records = headerInformationCSVHeader :: header_rows (Itoa shard) g)
  ∨ ∃ metas v g, metas_of_round metas ∧ g ≡ₚ filter (λ n, meta_version n = v) metas
      ∧ records = nodeMetadataCSVHeader :: metadata_rows g.

(** The other two answers are texts of errors. *)
Definition answer_from (r : response) : Prop :=
  match r with
  | RNetwork r => network_from r
  | RStatus r => status_from r
  | RPage (inl (data, read)) => page_from data read
  | RCsv (Csv _ records) => csv_from records
  | RPage (inr _) | RCsv (HttpError _ _) => True
  end.

(** The summary that is stored for the downloads. *)
Definition summary_from (sum : summary) : Prop :=
  ∃ metas hs, metas_of_round metas ∧ headers_of_round hs ∧ tables_shape hs metas sum.

(** What a goroutine keeps when it waits. *)
Definition local_ok (s : local) : Prop :=
  0 ≤ lo_prevEpoch s ∧ ∀ r, lo_response s = Some r → answer_from r.

(** What the managers start: the connectivity check on the metadata of a round, and
    an update of the committees when a header of the beacon chain shows an epoch. *)
Definition action_from (a : action) : Prop :=
  match a with
  | GoP2pMonitor _ _ _ nodes =>
      ∃ ds, round_seen NodeMetadataRPC ds ∧ nodes = omap metadata_of_reply ds
  | GoStakingCommitteeUpdate node =>
      (node = EmptyString ∨ shardMap !! node = Some 0)
      ∧ ∃ ds h, round_seen BlockHeaderRPC ds ∧ h ∈ omap header_of_reply ds
          ∧ header_shard h = 0 ∧ 0 < header_epoch h
  | _ => True
  end.

Record good (m : monitor) : Prop := {
  go_chain : m_chain m = chain;
  go_working : Forall silent_wf (bc_Down (m_WorkingBlockHeader m));
  go_metadata : metadata_from (m_MetadataSnapshot m);
  go_header : header_shown (m_BlockHeaderSnapshot m);
  go_silent : Forall silent_wf (bc_Down (m_BlockHeaderSnapshot m));
  go_links : links_from (lc_CrossLinks (m_LastCrossLinks m));
  go_committee : committee_from (m_SuperCommittee m);
  go_summary : summary_from (m_SummarySnapshot m);
}.

(** The events the goroutines have seen are those of the trace. *)
Context (seen : option go_loop → go_event → Prop).
Hypothesis seen_manager : ∀ o rpc e, manages o rpc → seen o e → (manager_go rpc, e) ∈ tr.
Hypothesis seen_links : ∀ o e,
  uses o 3 [NodeMetadataRPC; LastCrossLinkRPC] → seen o e → (crosslink_go, e) ∈ tr.
Hypothesis seen_any : ∀ o e, seen o e → ∃ i, (i, e) ∈ tr.

(** ** Ownership of the working containers *)

(** The same headers, and as many silent nodes. *)
Definition same_answers (c c' : BlockHeaderContainer) : Prop :=
  bc_Nodes c' = bc_Nodes c ∧ length (bc_Down c') = length (bc_Down c).

Lemma header_from_same c c' : same_answers c c' → header_from c → header_from c'.
Proof.
  intros [E1 E2] [[H1 H2]|(ds & H0 & H1 & H2)]; [left|right; exists ds].
  - split; [congruence|]. rewrite H2 in E2. by apply length_zero_iff_nil in E2.
  - split_and!; [done|congruence|congruence].
Qed.

(** The working metadata is the same, of the working headers what the consensus
    monitor leaves alone; no other variable is owned. *)
Definition agree (x : variable) (m m' : monitor) : Prop :=
  match x with
  | VWorkingMetadata => m_WorkingMetadata m' = m_WorkingMetadata m
  | VWorkingBlockHeader => same_answers (m_WorkingBlockHeader m) (m_WorkingBlockHeader m')
  | _ => True
  end.

(** The manager of an RPC owns its container. *)
Definition mine (o : option go_loop) (x : variable) : Prop :=
  match x with
  | VWorkingMetadata => manages o NodeMetadataRPC
  | VWorkingBlockHeader => manages o BlockHeaderRPC
  | _ => False
  end.

Definition between_ticks (o : option go_loop) (m : monitor) : Prop :=
  (manages o NodeMetadataRPC → metadata_from (m_WorkingMetadata m))
  ∧ (manages o BlockHeaderRPC → header_from (m_WorkingBlockHeader m)).

Notation outl := (outline good local_ok action_from agree mine between_ticks seen).
Notation deps := (depends agree mine).

Lemma between_ticks_depends o : deps o (between_ticks o).
Proof.
  intros m m' Hx [H1 H2]. split; intros Ho.
  - rewrite (Hx VWorkingMetadata Ho). auto.
  - eapply header_from_same; [exact (Hx VWorkingBlockHeader Ho)|auto].
Qed.

Lemma outline_weaken o (C C' : monitor → Prop) q :
  (∀ m, C' m → C m) → outl o C q → outl o C' q.
Proof.
  intros HC. revert C C' HC.
  induction q as [s|w| |rpc js k IH|url body k IH|rpc k IH|k IH|k IH|x k IH|x f k IH|acts k IH];
    intros C C' HC; cbn; try by eauto.
  - intros [HQ H]. split; eauto.
  - intros (Hf & C1 & Hd & HP & Hk). split; [done|]. exists C1. split_and!; eauto.
  - intros [HR Hk]. split; eauto.
Qed.

(** A write that leaves the working containers alone. *)
Definition quiet (f : monitor → monitor) : Prop := ∀ m,
  m_WorkingMetadata (f m) = m_WorkingMetadata m
  ∧ m_WorkingBlockHeader (f m) = m_WorkingBlockHeader m.

Lemma quiet_agree f x m : quiet f → agree x m (f m).
Proof. intros Hf. destruct (Hf m) as [? E]. destruct x; try done. cbn. by rewrite E. Qed.

Lemma outline_quiet o (C : monitor → Prop) x f k :
  deps o C → quiet f → (∀ m, good m → C m → good (f m)) → outl o C k → outl o C (Put x f k).
Proof.
  intros Hd Hq Hg Hk. split; [intros y m _ _; by apply quiet_agree|]. exists C. split_and!; [done| |done].
  intros m HP HC. split; [by apply Hg|]. eapply Hd; [|done]. intros y _. by apply quiet_agree.
Qed.

(** Loops that only log what may be logged. *)
Lemma outline_for {X B} o C (f : B → X → B * list action) (I : B → Prop) l b k :
  (∀ b x, x ∈ l → I b → I (f b x).1 ∧ Forall action_from (f b x).2) → I b →
  (∀ b, I b → outl o C (k b)) → outl o C (for_prog f l b k).
Proof.
  intros Hf. revert b. induction l as [|x l IH]; intros b Hb Hk; [by apply Hk|]. cbn [for_prog].
  destruct (Hf b x (list_elem_of_here x l) Hb) as [H1 H2]. destruct (f b x) as [b' acts].
  split; [done|]. apply IH; [|done|done]. intros b1 x1 Hx. apply Hf. set_solver.
Qed.

Lemma outline_each {X} o C (f : X → list action) l k :
  (∀ x, x ∈ l → Forall action_from (f x)) → outl o C k → outl o C (each_prog f l k).
Proof. intros Hf Hk. apply (outline_for o C _ (λ _, True)); [|done|done]. intros b x Hx _. split; [done|by apply Hf]. Qed.

(** ** The managers *)

(** What one reply of a node of the map adds. *)
Notation known d := (is_Some (shardMap !! r_address d)).

Lemma no_reply_wf d e : known d → silent_wf (no_reply shardMap d e).
Proof. intros [z Hz]. unfold silent_wf. cbn. by rewrite Hz. Qed.

Lemma silence_wf d : known d → Forall silent_wf (option_list (silence_of_reply shardMap d)).
Proof.
  intros Hd. unfold silence_of_reply. destruct (r_oops d); [|done].
  constructor; [by apply no_reply_wf|done].
Qed.

(** Changing a part of the monitor. *)
Lemma good_WorkingMetadata c m : good m → good (set_WorkingMetadata c m).
Proof. by intros []. Qed.
Lemma good_WorkingBlockHeader c m :
  Forall silent_wf (bc_Down c) → good m → good (set_WorkingBlockHeader c m).
Proof. by intros Hc []. Qed.
Lemma good_DownArray a m : good m → good (set_DownArray a m).
Proof. by intros []. Qed.
Lemma good_MetadataSnapshot c m : metadata_from c → good m → good (set_MetadataSnapshot c m).
Proof. by intros Hc []. Qed.
Lemma good_BlockHeaderSnapshot c m :
  header_shown c → Forall silent_wf (bc_Down c) → good m → good (set_BlockHeaderSnapshot c m).
Proof. by intros Hc Hd []. Qed.

(** The container of the manager once it has stored the replies [pre]. *)
Definition metadata_stored (o : option go_loop) (pre : list reply) (m : monitor) : Prop :=
  match pre with
  | [] => between_ticks o m
  | _ => mc_Nodes (m_WorkingMetadata m) = omap metadata_of_reply pre
         ∧ mc_Down (m_WorkingMetadata m) = omap (silence_of_reply shardMap) pre
  end.
Definition header_stored (o : option go_loop) (pre : list reply) (m : monitor) : Prop :=
  match pre with
  | [] => between_ticks o m
  | _ => bc_Nodes (m_WorkingBlockHeader m) = omap header_of_reply pre
         ∧ length (bc_Down (m_WorkingBlockHeader m))
           = length (omap (silence_of_reply shardMap) pre)
  end.

Definition is_nil {A} (l : list A) : bool := match l with [] => true | _ => false end.

(** One reply, in terms of the container. *)
Lemma metadata_reply_eq (m : monitor) (first : bool) d :
  r_rpc d = NodeMetadataRPC →
  let c := m_WorkingMetadata m in
  let nodes := if first then [] else mc_Nodes c in
  let down := if first then [] else mc_Down c in
  (metadata_reply shardMap (m, first) d).1
  = set_WorkingMetadata (MkMetadataContainer (mc_TS c)
      (nodes ++ option_list (metadata_of_reply d))
      (down ++ option_list (silence_of_reply shardMap d))) m.
Proof.
  intros Hd. unfold metadata_reply, metadata_of_reply, silence_of_reply, bytesToNodeMetadata.
  rewrite decide_True by done. by destruct first, (r_oops d); cbn; rewrite ?app_nil_r.
Qed.

Lemma header_reply_eq `{MR : GoRuntime} (m : monitor) (first : bool) d :
  r_rpc d = BlockHeaderRPC →
  let c := m_WorkingBlockHeader m in
  let nodes := if first then [] else bc_Nodes c in
  let down := if first then [] else bc_Down c in
  ∃ a, (header_reply shardMap (m, first) d).1
  = set_DownArray a (set_WorkingBlockHeader (MkBlockHeaderContainer (bc_TS c)
      (nodes ++ option_list (header_of_reply d))
      (down ++ option_list (silence_of_reply shardMap d))) m).
Proof.
  intros Hd. set (c := m_WorkingBlockHeader m).
  pose proof (header_reply_step shardMap m (if first then empty_array (m_DownArray m) else m_DownArray m)
    (bc_TS c) (if first then [] else bc_Nodes c) (if first then [] else bc_Down c) d Hd) as E.
  apply (f_equal fst) in E. cbn [fst] in E. eexists. rewrite <-E. unfold c. by destruct first, m as [???[]].
Qed.

Lemma metadata_stored_depends o pre :
  manages o NodeMetadataRPC → deps o (metadata_stored o pre).
Proof.
  intros Ho. destruct pre; [apply between_ticks_depends|]. intros m m' Hx. cbn.
  by rewrite (Hx VWorkingMetadata Ho).
Qed.

Lemma header_stored_depends o pre :
  manages o BlockHeaderRPC → deps o (header_stored o pre).
Proof.
  intros Ho. destruct pre; [apply between_ticks_depends|]. intros m m' Hx. cbn.
  destruct (Hx VWorkingBlockHeader Ho) as [-> ->]. done.
Qed.

Lemma omap_snoc {A B} (f : A → option B) l x : omap f (l ++ [x]) = omap f l ++ option_list (f x).
Proof. rewrite omap_app. cbn. by destruct (f x). Qed.

Lemma metadata_stored_reply o pre m d :
  r_rpc d = NodeMetadataRPC → good m → metadata_stored o pre m →
  good (metadata_reply shardMap (m, is_nil pre) d).1
  ∧ metadata_stored o (pre ++ [d]) (metadata_reply shardMap (m, is_nil pre) d).1.
Proof.
  intros Hd HP HC. rewrite metadata_reply_eq by done. split; [by apply good_WorkingMetadata|].
  assert ((if is_nil pre then [] else mc_Nodes (m_WorkingMetadata m)) = omap metadata_of_reply pre
    ∧ (if is_nil pre then [] else mc_Down (m_WorkingMetadata m))
      = omap (silence_of_reply shardMap) pre) as [-> ->] by by destruct pre.
  rewrite <-!omap_snoc. by destruct pre.
Qed.

Lemma header_stored_reply `{MR : GoRuntime} o pre m d :
  r_rpc d = BlockHeaderRPC → known d → good m → header_stored o pre m →
  good (header_reply shardMap (m, is_nil pre) d).1
  ∧ header_stored o (pre ++ [d]) (header_reply shardMap (m, is_nil pre) d).1.
Proof.
  intros Hd Hk HP HC. destruct (header_reply_eq m (is_nil pre) d Hd) as [a ->]. split.
  - apply good_DownArray, good_WorkingBlockHeader; [|done]. apply Forall_app.
    split; [destruct (is_nil pre); [done|apply HP]|by apply silence_wf].
  - assert ((if is_nil pre then [] else bc_Nodes (m_WorkingBlockHeader m)) = omap header_of_reply pre
      ∧ length (if is_nil pre then [] else bc_Down (m_WorkingBlockHeader m))
        = length (omap (silence_of_reply shardMap) pre)) as [E1 E2] by by destruct pre.
    assert (header_stored o (pre ++ [d]) = λ m,
      bc_Nodes (m_WorkingBlockHeader m) = omap header_of_reply (pre ++ [d])
      ∧ length (bc_Down (m_WorkingBlockHeader m))
        = length (omap (silence_of_reply shardMap) (pre ++ [d]))) as -> by by destruct pre.
    cbn. by rewrite E1, !omap_snoc, !length_app, E2.
Qed.

(** Storing all replies of a round. *)
Lemma store_outline o x f (stored : list reply → monitor → Prop) pre ds k :
  (∀ pre, deps o (stored pre)) →
  (∀ pre d m, d ∈ ds → good m → stored pre m →
    good (f (m, is_nil pre) d).1 ∧ stored (pre ++ [d]) (f (m, is_nil pre) d).1) →
  (∀ first d y m, d ∈ ds → owned mine y → ¬ mine o y → agree y m (f (m, first) d).1) →
  outl o (stored (pre ++ ds)) k → outl o (stored pre) (store_replies x f (is_nil pre) ds k).
Proof.
  intros Hdep Hstep Hag. revert pre. induction ds as [|d ds IH]; intros pre Hk; cbn.
  { by rewrite app_nil_r in Hk. }
  split; [intros y m; apply Hag; set_solver|]. exists (stored (pre ++ [d])). split_and!; [done| |].
  - intros m. apply Hstep. set_solver.
  - replace false with (is_nil (pre ++ [d])) by by destruct pre. apply IH.
    + intros pre' d' m Hin. apply Hstep. set_solver.
    + intros first d' y m Hin. apply Hag. set_solver.
    + by rewrite <-app_assoc.
Qed.

Lemma manages_one o : manages o NodeMetadataRPC → ¬ manages o BlockHeaderRPC.
Proof. destruct o as [l|]; [|done]. intros [_ E1] [_ E2]. rewrite E1 in E2. discriminate. Qed.

Lemma round_rpc `{MR : GoRuntime} rpc replies d :
  served (node_jobs shardMap rpc) replies → d ∈ replies → r_rpc d = rpc.
Proof.
  intros Hs Hd. destruct (served_elem _ _ _ Hs Hd) as (j & Hj & Ha).
  unfold node_jobs in Hj. apply list_elem_of_fmap in Hj as ([n z] & -> & _).
  apply (answers_address _ _ Ha).
Qed.

Lemma round_known `{MR : GoRuntime} rpc replies d :
  served (node_jobs shardMap rpc) replies → d ∈ replies → known d.
Proof.
  intros Hs Hd. destruct (served_elem _ _ _ Hs Hd) as (j & Hj & Ha).
  unfold node_jobs in Hj. apply list_elem_of_fmap in Hj as ([n z] & -> & Hn).
  destruct (answers_address _ _ Ha) as [-> _]. exists z. by apply elem_of_range in Hn.
Qed.

(** The owner of one container leaves the other alone. *)
Lemma agree_WorkingMetadata o c y m :
  manages o NodeMetadataRPC → ¬ mine o y → agree y m (set_WorkingMetadata c m).
Proof. intros Ho Hy. by destruct y. Qed.
Lemma agree_WorkingBlockHeader o c y m :
  manages o BlockHeaderRPC → ¬ mine o y → agree y m (set_WorkingBlockHeader c m).
Proof. intros Ho Hy. by destruct y. Qed.

(** The whole round is stored. *)
Lemma metadata_stored_all o ds m :
  manages o NodeMetadataRPC → round_seen NodeMetadataRPC ds → metadata_stored o ds m →
  between_ticks o m
  ∧ ∃ ds', round_seen NodeMetadataRPC ds'
      ∧ mc_Nodes (m_WorkingMetadata m) = omap metadata_of_reply ds'.
Proof.
  intros Ho Hs HC. destruct ds as [|d ds].
  - split; [done|]. destruct (proj1 HC Ho) as [[E _]|(ds & H1 & H2 & _)]; [by exists []|by exists ds].
  - split; [split; [|by intros ?%manages_one]|].
    + intros _. right. by exists (d :: ds).
    + exists (d :: ds). split; [done|apply HC].
Qed.

Lemma header_stored_all o ds m :
  manages o BlockHeaderRPC → round_seen BlockHeaderRPC ds → header_stored o ds m →
  between_ticks o m
  ∧ ∃ ds', round_seen BlockHeaderRPC ds'
      ∧ bc_Nodes (m_WorkingBlockHeader m) = omap header_of_reply ds'.
Proof.
  intros Ho Hs HC. destruct ds as [|d ds].
  - split; [done|]. destruct (proj2 HC Ho) as [[E _]|(ds & H1 & H2 & _)]; [by exists []|by exists ds].
  - split; [split; [by intros ?%manages_one|]|].
    + intros _. right. by exists (d :: ds).
    + exists (d :: ds). split; [done|apply HC].
Qed.

Lemma header_from_shown c : header_from c → header_shown c.
Proof. intros [?|(ds & H1 & H2 & H3)]; [by left|]. right. exists ds. eauto. Qed.

Lemma metadata_body_outline `{MR : GoRuntime} o tolerance key chain' now s :
  manages o NodeMetadataRPC → local_ok s →
  outl o (between_ticks o) (metadata_body shardMap tolerance key chain' now s).
Proof.
  intros Ho HQ. split.
  { intros y m _ Hy. by eapply agree_WorkingMetadata. }
  exists (between_ticks o). split_and!; [apply between_ticks_depends| |].
  { intros m HP [HC _]. split; [by apply good_WorkingMetadata|]. split; [exact HC|].
    by intros ?%manages_one. }
  intros replies Hs Hsn. assert (round_seen NodeMetadataRPC replies) as Hr by (split; [by eexists|by eapply seen_manager]).
  apply (store_outline o _ _ (metadata_stored o) []).
  - intros pre. by apply metadata_stored_depends.
  - intros pre d m Hd. apply metadata_stored_reply. by eapply round_rpc.
  - intros first d y m Hd _ Hy. rewrite metadata_reply_eq by by eapply round_rpc.
    by eapply agree_WorkingMetadata.
  - intros w _ HCw. destruct (metadata_stored_all o replies w Ho Hr HCw) as (_ & ds & Hds & E).
    split; [constructor; [by exists ds|done]|].
    intros w' _ HCw'. destruct (metadata_stored_all o replies w' Ho Hr HCw') as ([HC _] & _).
    apply outline_quiet; [by apply metadata_stored_depends|done| |].
    + intros m HP _. by apply good_MetadataSnapshot; [apply HC|].
    + split; [done|]. intros m _ Hm. apply (metadata_stored_all o replies m Ho Hr Hm).
Qed.

Lemma getBeaconChainNode_zero `{MR : GoRuntime} :
  getBeaconChainNode shardMap = EmptyString ∨ shardMap !! getBeaconChainNode shardMap = Some 0.
Proof.
  unfold getBeaconChainNode. destruct (list_find _ _) as [[i [k v]]|] eqn:E; [|by left].
  right. apply list_find_Some in E as (Hi & Hv & _). cbn in Hv. subst v.
  apply list_elem_of_lookup_2 in Hi. by apply elem_of_range in Hi.
Qed.

Lemma epoch_check_from `{MR : GoRuntime} prev ds nodes prev' acts :
  0 ≤ prev → round_seen BlockHeaderRPC ds → (∀ h, h ∈ nodes → h ∈ omap header_of_reply ds) →
  epoch_check prev (getBeaconChainNode shardMap) nodes = (prev', acts) →
  0 ≤ prev' ∧ Forall action_from acts.
Proof.
  intros Hp Hds. induction nodes as [|h nodes IH]; cbn; intros Hn; [by intros [= <- <-]|].
  destruct (Z.eqb_spec (header_shard h) 0); [|apply IH; set_solver].
  destruct (Z.ltb_spec prev (header_epoch h)); intros [= <- <-]; [|done]. split; [lia|].
  constructor; [|done]. split; [apply getBeaconChainNode_zero|]. exists ds, h.
  split_and!; [done|apply Hn; set_solver|done|lia].
Qed.

Lemma header_body_outline `{MR : GoRuntime} o now s :
  manages o BlockHeaderRPC → local_ok s → outl o (between_ticks o) (header_body shardMap now s).
Proof.
  intros Ho HQ. split.
  { intros y m _ Hy. by eapply agree_WorkingBlockHeader. }
  exists (between_ticks o). split_and!; [apply between_ticks_depends| |].
  { intros m HP [_ HC]. split.
    - apply good_WorkingBlockHeader; [apply HP|done].
    - split; [by intros ?%manages_one|exact HC]. }
  intros replies Hs Hsn. assert (round_seen BlockHeaderRPC replies) as Hr by (split; [by eexists|by eapply seen_manager]).
  apply (store_outline o _ _ (header_stored o) []).
  - intros pre. by apply header_stored_depends.
  - intros pre d m Hd. apply header_stored_reply; [by eapply round_rpc|by eapply round_known].
  - intros first d y m Hd _ Hy. destruct (header_reply_eq m first d) as [a ->]; [by eapply round_rpc|].
    by apply (agree_WorkingBlockHeader o _ y m).
  - intros w HPw HCw. destruct (header_stored_all o replies w Ho Hr HCw) as ([_ HC] & ds & Hds & E).
    destruct (epoch_check _ _ _) as [prev acts] eqn:Ee.
    apply (epoch_check_from _ ds) in Ee as [Hp Ha]; [|apply HQ|done|by rewrite E]. split; [done|].
    apply outline_quiet; [by apply header_stored_depends|done| |].
    + intros m HP _. apply good_BlockHeaderSnapshot; [by apply header_from_shown, HC|apply HPw|done].
    + split; [by split; [|apply HQ]|]. intros m _ Hm. apply (header_stored_all o replies m Ho Hr Hm).
Qed.

(** ** The monitors *)

(** Alarms only page and log. *)
Definition logging (a : action) : Prop :=
  match a with Stdlog _ _ | Sleep _ => True | _ => False end.
Definition reporting (a : action) : Prop :=
  match a with Stdlog _ _ | Sleep _ | Errlog _ | ManageEvent _ => True | _ => False end.

Lemma alert_reports pd format key incident chain' text :
  Forall reporting (alert pd format key incident chain' text).
Proof. unfold alert. by repeat (case_match || constructor). Qed.

Lemma reporting_from l : Forall reporting l → Forall action_from l.
Proof. intros H. eapply Forall_impl; [exact H|]. by intros []. Qed.

Lemma initial_ok : local_ok initial_local.
Proof. by split. Qed.

Lemma committee_prog_outline (C : monitor → Prop) node :
  deps None C → (∀ m, C m → between_ticks None m) → outl None C (committee_prog node).
Proof.
  intros Hd HC. unfold committee_prog. split; [by repeat constructor|]. intros client Hsn.
  pose proof initial_ok. destruct (request client _ _) as [[result payload] [oops|]].
  - split; [by repeat constructor|]. split; auto.
  - apply outline_quiet; [done|done| |].
    + intros m [] _. split; try done. right. destruct (seen_any _ _ Hsn) as [i Hi]. eauto 6.
    + split; [by repeat constructor|]. split; auto.
Qed.

Section monitors.
Context `{L : Linq} `{MR : GoRuntime}.
Context (pd : pager).
Context (o : option go_loop) (C : monitor → Prop).
Hypothesis C_depends : deps o C.
Hypothesis C_ends : ∀ m, C m → between_ticks o m.

(** What the consensus monitor writes into the list of the header manager. *)
Lemma store_down_agree id n e y m : agree y m (store_down id n e m).
Proof.
  unfold store_down. case_decide; [|by destruct y]. destruct y; try done. cbn.
  split; [done|]. apply length_insert.
Qed.

Lemma store_down_good id n e m : silent_wf e → good m → good (store_down id n e m).
Proof.
  intros He HP. unfold store_down. case_decide; [|done]. apply good_WorkingBlockHeader; [|done].
  cbn. apply Forall_insert; [apply HP|done].
Qed.

Lemma collect_prog_outline ds nodes down k :
  (∀ d, d ∈ ds → known d) → (∀ nodes down, outl o C (k nodes down)) →
  outl o C (collect_prog shardMap ds nodes down k).
Proof.
  intros Hds Hk. revert nodes down. induction ds as [|d ds IH]; intros nodes down; [apply Hk|].
  assert (∀ nodes down, outl o C (collect_prog shardMap ds nodes down k)) as IH'
    by (apply IH; set_solver). cbn [collect_prog]. destruct (r_oops d) as [e|]; [|apply IH'].
  intros m _ _. cbv zeta. destruct (_ <? _)%nat; [|by apply IH']. split.
  { intros y m' _ _. apply store_down_agree. }
  exists C. split_and!; [done| |by apply IH']. intros m' HP HC. split.
  - apply store_down_good; [|done]. apply no_reply_wf, Hds. set_solver.
  - eapply C_depends; [|done]. intros y _. apply store_down_agree.
Qed.

Lemma record_step_reports cfg now st shard h :
  Forall action_from (record_step pd cfg now (st, []) (shard, h)).2.
Proof.
  unfold record_step. assert (Forall action_from (beacon_action cfg shard h)) as Hb.
  { unfold beacon_action. case_decide; [|done]. by repeat constructor. }
  destruct (stuck _ _ _ h); [|done]. cbn. apply Forall_app_2; [done|].
  destruct (lastShardData st !! shard); [apply reporting_from, alert_reports|done].
Qed.

Lemma shard_loop_outline cfg now published nodes entries st k :
  (∀ e, e ∈ entries → blockHeaderSummary nodes true ∅ !! e.1 = Some e.2) →
  (∀ st, outl o C (k st)) → outl o C (shard_loop pd cfg now published entries st k).
Proof.
  intros He Hk. revert st. induction entries as [|[shard e] entries IH]; intros st; [by apply Hk|].
  cbn [shard_loop]. destruct (view_entry nodes shard e) as (a & h & -> & E1 & E2 & _).
  { apply (He (shard, e)). set_solver. }
  rewrite (shard_step_record pd cfg now shard a h) by done.
  pose proof (record_step_reports cfg now st shard h) as Ha.
  destruct (record_step _ _ _ _ _) as [st' acts]. split; [done|].
  assert (outl o C (shard_loop pd cfg now published entries st' k)) as IH' by (apply IH; set_solver).
  destruct published; [|done]. by apply (outline_quiet o C VStatusMap); [done|done|intros m []|].
Qed.

Lemma consensus_body_outline cfg now s :
  local_ok s → outl o C (consensus_body pd shardMap cfg now s).
Proof.
  intros Hl. split; [by repeat constructor|]. intros replies Hs _.
  apply collect_prog_outline; [intros d; by eapply round_known|]. intros nodes down.
  split; [by repeat constructor|]. apply shard_loop_outline with nodes.
  { intros [k v]. by rewrite elem_of_range. }
  intros st. split; [by repeat constructor|].
  apply outline_each; [intros [shard b] _; by repeat constructor|].
  apply (outline_quiet o C VConsensusProgress); [done|done|by intros m []|]. split; [done|auto].
Qed.

Lemma cx_body_outline cfg now s : local_ok s → outl o C (cx_body pd shardMap cfg now s).
Proof.
  intros Hs. split; [by repeat constructor|]. intros metas _ _ replies _ _.
  apply (outline_for o C _ (λ _, True)); [|done|].
  - intros sizes d _ _. split; [done|]. unfold cx_reply. destruct (r_oops d); [done|]. cbn.
    destruct (_ <? _); [apply reporting_from, alert_reports|done].
  - intros sizes _. apply outline_each; [intros e _; by repeat constructor|]. split; auto.
Qed.

Lemma process_link_reports cfg now last link :
  Forall reporting (process_link pd cfg now (last, []) link).2.
Proof.
  cbn. destruct (last !! _); [|done]. destruct (_ <=? _); [|done]. cbn.
  destruct (_ <=? _); [apply alert_reports|done].
Qed.

Lemma links_prog_outline cfg now replies last k :
  (∀ links last, lc_CrossLinks links = tick_links replies → outl o C (k links last)) →
  outl o C (links_prog pd cfg now replies zero_LastCrossLinkReply last k).
Proof.
  induction replies as [|d replies IH]; intros Hk; [by apply Hk|]. cbn [links_prog].
  destruct (r_oops d) as [e|] eqn:E.
  - apply IH. intros links last' El. apply Hk. rewrite El. unfold tick_links.
    cbn. rewrite decide_False by (by rewrite E). by destruct (list_find _ replies) as [[]|].
  - apply (outline_for o C _ (λ _, True)); [|done|].
    + intros last' link _ _. split; [done|]. apply reporting_from, process_link_reports.
    + intros last' _. apply Hk. unfold tick_links. cbn. by rewrite decide_True.
Qed.

Lemma crosslink_body_outline cfg now s :
  uses o 3 [NodeMetadataRPC; LastCrossLinkRPC] → local_ok s →
  outl o C (crosslink_body pd shardMap cfg now s).
Proof.
  intros Ho Hl. split; [by repeat constructor|]. intros metas _ _ replies _ Hsn.
  apply links_prog_outline. intros links last El.
  apply outline_each; [intros e _; by repeat constructor|].
  apply (outline_quiet o C VLastCrossLinks); [done|done| |].
  - intros m [] _. split; try done. cbn. rewrite El. right. exists replies. split; [|done]. by eapply seen_links.
  - split; [done|auto].
Qed.
End monitors.

(** ** The handlers *)

Notation outh := (outl None (λ _, True)).

Lemma outline_answer r : answer_from r → outh (Return (answer r)).
Proof. intros Hr. split; [|by split]. split; [done|]. by intros r' [= <-]. Qed.

Lemma or_panic_outline {X} (r : outcome X) k : (∀ x, r = Done x → outh (k x)) → outh (or_panic r k).
Proof. intros Hk. destruct r; [by apply Hk|done]. Qed.

(** The signatures of the published headers get shortened. *)
Lemma shortened_nil hs : shortened hs = [] → hs = [].
Proof. destruct hs as [|h hs]; [done|]. cbn. by destruct (shorten _). Qed.

Lemma shorten_snapshot m :
  good m → good (set_snapshot_headers (shortened (bc_Nodes (m_BlockHeaderSnapshot m))) m).
Proof.
  intros HP. apply good_BlockHeaderSnapshot; [|apply HP|done].
  destruct (go_header _ HP) as [[E1 E2]|(ds & Hds & Hn & El)]; [left; by rewrite E1|].
  right. exists ds. split_and!; [done| |done]. right. cbn.
  destruct Hn as [-> | ->]; [done|]. apply shortened_idem.
Qed.

Lemma metadata_silent_wf c : metadata_from c → Forall silent_wf (mc_Down c).
Proof.
  intros [[_ ->]|(ds & ((MR & Hs) & _) & _ & ->)]; [done|]. apply Forall_forall.
  intros d (r & Hr & Hd)%list_elem_of_omap. pose proof (round_known _ _ _ Hs Hr) as Hk.
  pose proof (silence_wf r Hk) as Hw. rewrite Hd in Hw. by inversion Hw.
Qed.

(** What [summaryMaps] makes of the snapshots. *)
Lemma summary_prog_outline `{L : Linq} `{MR : GoRuntime} k :
  (∀ metas hs chain, metas_of_round metas → headers_of_round hs →
     outh (k (first_summary metas hs chain))) →
  outh (summary_prog k).
Proof.
  intros Hk mm HPm _ mh HPh _. apply outline_quiet; [done|done| |].
  { intros m HP _. by apply shorten_snapshot. }
  apply or_panic_outline. intros [sum hs'] E.
  destruct (summaryMaps_sum _ _ _ _ E) as (chain' & -> & ->). apply Hk.
  - destruct (go_metadata _ HPm) as [[-> _]|(ds & ? & -> & _)]; [by left|right; eauto].
  - destruct (go_header _ HPh) as [[-> _]|(ds & Hds & [-> | ->] & _)]; [by left|right..]; exists ds.
    + done.
    + split; [done|]. apply shortened_idem.
Qed.

Lemma networkSnapshot_outline `{L : Linq} `{MR : GoRuntime} k :
  (∀ r, network_from r → outh (k r)) → outh (networkSnapshot_prog buildVersion k).
Proof.
  intros Hk. apply summary_prog_outline. intros metas hs chain' Hm Hh. apply or_panic_outline.
  intros sum1 E1 mp _ _ ms _ _ mm HPm _ mh HPh _ ml HPl _. apply or_panic_outline. intros sum2 E2.
  apply Hk. split; [done|]. split; [apply HPl|]. split.
  - exists metas, hs, (lc_CrossLinks (m_LastCrossLinks ml)).
    split; [done|]. split; [done|]. split; [apply HPl|].
    destruct (report_loops metas hs (lc_CrossLinks (m_LastCrossLinks ml)) chain')
      as (sum1' & F1 & F2).
    assert (sum1' = sum1) as -> by congruence. assert (sum2 = report_summary metas hs _ chain') as ->
      by (rewrite F2 in E2; by injection E2).
    split; [apply report_summary_shape|apply report_summary_tables].
  - exists (m_MetadataSnapshot mm), (m_BlockHeaderSnapshot mh).
    split_and!; [apply HPm|apply HPh| |done]. apply Forall_app_2; [|apply HPh].
    apply metadata_silent_wf, HPm.
Qed.

Lemma csv_section_outline filename header values rows :
  (∀ v m l, summary_from (m_SummarySnapshot m) → rows v m = Done l → csv_from (header :: l)) →
  outh (csv_section filename header values rows).
Proof.
  intros Hrows. apply or_panic_outline. intros v _ m HP _. apply or_panic_outline. intros l E.
  apply outline_answer. eapply Hrows; [apply HP|exact E].
Qed.

Lemma csv_headers_from v m l :
  summary_from (m_SummarySnapshot m) → csv_headers v m = Done l →
  csv_from (headerInformationCSVHeader :: l).
Proof.
  intros (metas & hs & _ & Hh & Ht) E.
  destruct (csv_headers_tables _ _ _ _ _ Ht E) as (shard & g & Hg & ->). right. left. by exists hs, shard, g.
Qed.

Lemma csv_metadata_from v m l :
  summary_from (m_SummarySnapshot m) → csv_metadata v m = Done l →
  csv_from (nodeMetadataCSVHeader :: l).
Proof.
  intros (metas & hs & Hm & _ & Ht) E.
  destruct (csv_metadata_tables _ _ _ _ _ Ht E) as (g & Hg & ->). right. right. by exists metas, v, g.
Qed.

(** The page stores its summary. *)
Lemma summary_stored `{MR : GoRuntime} r sum m :
  network_from r → add_consensus r = Done sum → good m → good (summaryCopy sum m).
Proof.
  intros (_ & _ & (metas & hs & links & Hm & Hh & _ & _ & Ht) & _) Hsum []. rewrite summaryCopy_eq.
  split; try done. exists metas, hs. split_and!; [done|done|]. unfold tables_shape. cbn.
  by rewrite !(add_consensus_other r sum) by done.
Qed.

Lemma status_handler_outline `{L : Linq} `{MR : GoRuntime} : outh status_handler.
Proof.
  apply summary_prog_outline. intros metas hs chain' Hm Hh mp _ _ ms _ _. apply or_panic_outline.
  intros status E m1 HP1 _ m2 HP2 _. apply outline_answer.
  destruct (status_report_shape hs metas (m_consensusProgress ms) chain'
    (co_ExternalCount (sc_CurrentCommittee (m_SuperCommittee m2))) (m_SuperCommittee m1))
    as (status' & E' & Hshape).
  assert (status' = status) as -> by congruence. split; [|split].
  - by exists metas, hs, (m_consensusProgress ms).
  - exists (m_SuperCommittee m2). split; [apply HP2|done].
  - exists MR, (m_SuperCommittee m1). split; [apply HP1|done].
Qed.

Lemma http_request_outline h : http_request buildVersion h → outh h.
Proof.
  intros [rt parse now|query|rt|rt].
  - apply networkSnapshot_outline. intros r Hr. apply or_panic_outline. intros sum Hsum.
    destruct (parse _); [by apply outline_answer|]. intros m HPm _ m' HPm' _.
    apply (outline_quiet None _ VSummarySnapshot); [done|done|intros m0 H0 _; by eapply summary_stored|].
    apply (outline_quiet None _ VNoReplySnapshot); [done|done|by intros m0 []|].
    apply outline_answer. split; [apply HPm|]. split; [apply HPm'|]. exists r.
    split_and!; [done|done|done|by apply (add_consensus_other (MR := rt_go rt))|]. cbn.
    by rewrite Distinct_size.
  - unfold csv_handler. destruct (query !! _) as [keys|]; [|by apply outline_answer].
    apply or_panic_outline. intros report _.
    repeat case_decide; [destruct (query !! _)..|];
      first [by apply outline_answer|by apply outline_answer; left|apply csv_section_outline];
      intros v m rows; [apply csv_headers_from|apply csv_metadata_from].
  - apply networkSnapshot_outline. intros r Hr. by apply outline_answer.
  - apply status_handler_outline.
Qed.

Lemma committee_outline node : outh (committee_prog node).
Proof. apply committee_prog_outline; [done|]. by split. Qed.

(** ** The checks

    They only log, page and start other checks. *)

Section checks.
Context `{MR : GoRuntime}.
Context (pd : pager).

Ltac solve_reports := repeat first
  [ apply Forall_app_2 | apply alert_reports | apply Forall_nil; exact I | constructor; [exact I|]
  | case_match | case_decide ].

Lemma p2p_shard_reports tolerance key chain' shard values :
  Forall reporting (p2p_shard pd tolerance key chain' shard values).
Proof. unfold p2p_shard. destruct (0 <? Z.of_nat (length values)); solve_reports. Qed.

Lemma check_heights_logs syncTimer tolerance key chain' i s :
  Forall (λ a, logging a ∨ is_Some (sync_check a)) (check_heights syncTimer tolerance key chain' i s).
Proof.
  unfold check_heights. apply Forall_app_2; [|constructor; [by left|done]].
  apply Forall_bind, Forall_true. intros h. cbv beta delta [compose]. case_match; [|done].
  apply Forall_fmap, Forall_true. intros v. right. by eexists.
Qed.

Lemma sync_reply_reports IP key chain' block height r :
  Forall reporting (sync_reply pd IP key chain' block height r).
Proof. destruct r as [[result payload] oops]. unfold sync_reply. solve_reports. Qed.

Lemma beacon_reply_reports block height threshold IP key chain' r :
  Forall reporting (beacon_reply pd block height threshold IP key chain' r).
Proof. destruct r as [[result payload] oops]. unfold beacon_reply. solve_reports. Qed.

Lemma beacon_header_logs block interval threshold key chain' blocks e :
  Forall (λ a, logging a ∨ is_Some (beacon_check a))
    (beacon_header block interval threshold key chain' shardMap (blocks, []) e).2.
Proof.
  destruct e as [ip [h|]]; cbn; [|done]. destruct (behind _ _ _); [|done].
  constructor; [right; by eexists|done].
Qed.

Lemma beacon_log_logs block e : Forall logging (beacon_log block e).
Proof. destruct e as [shard blocks]. unfold beacon_log. case_match; [|done]. by constructor. Qed.

Lemma outline_end : outh (Return initial_local).
Proof. split; [apply initial_ok|]. by split. Qed.

Lemma fetch_all_outline js data k : (∀ data, outh (k data)) → outh (fetch_all js data k).
Proof.
  intros Hk. revert data. induction js as [|j js IH]; intros data; [apply Hk|].
  intros client _. destruct (request client _ _) as [[result payload] oops]. apply IH.
Qed.

Lemma logs_from (R : action → Prop) l :
  (∀ a, R a → action_from a) → Forall R l → Forall action_from l.
Proof. intros HR Hl. by eapply Forall_impl. Qed.

Lemma beacon_prog_outline block interval threshold poolSize key chain' :
  outh (beacon_prog shardMap block interval threshold poolSize key chain').
Proof.
  split; [by repeat constructor|]. destruct (_ <=? _); [done|]. apply fetch_all_outline. intros data.
  destruct (collect_beacon data) as [ret success]. split; [by repeat constructor|].
  apply (outline_for _ _ _ (λ _, True)); [|done|].
  - intros blocks e _ _. split; [done|]. eapply logs_from; [|apply beacon_header_logs].
    by intros [] [|[]].
  - intros blocks _. apply outline_each; [|apply outline_end]. intros e _.
    eapply logs_from; [|apply beacon_log_logs]. by intros [].
Qed.

Lemma spawns_outline a h : spawns pd shardMap a = Some h → outh h.
Proof.
  destruct a; try done; intros [= <-].
  - split; [by repeat constructor|]. apply outline_each; [|apply outline_end]. intros [i s] _.
    eapply logs_from; [|apply check_heights_logs]. by intros [] [|[]].
  - split; [by repeat constructor|]. intros client _.
    split; [apply reporting_from, sync_reply_reports|apply outline_end].
  - apply beacon_prog_outline.
  - split; [by repeat constructor|]. intros client _.
    split; [apply reporting_from, beacon_reply_reports|apply outline_end].
  - split; [by repeat constructor|]. apply outline_each; [|apply outline_end]. intros [i s] _.
    apply reporting_from, p2p_shard_reports.
  - apply committee_outline.
Qed.
End checks.
End origins.

(** ** Coverage *)

(** No round was published yet, or every node is there once; of the headers, every
    node that answered is there once, with as many entries for silent nodes as
    there are other nodes. *)
Definition metadata_covers (shardMap : gmap string Z) (c : MetadataContainer) : Prop :=
  (mc_Nodes c = [] ∧ mc_Down c = [])
  ∨ (nmd_IP <$> mc_Nodes c) ++ (nr_IP <$> mc_Down c) ≡ₚ (map_to_list shardMap).*1.
Definition header_covers (shardMap : gmap string Z) (c : BlockHeaderContainer) : Prop :=
  (bc_Nodes c = [] ∧ bc_Down c = [])
  ∨ ∃ silent, (bhd_IP <$> bc_Nodes c) ++ silent ≡ₚ (map_to_list shardMap).*1
      ∧ length (bc_Down c) = length silent.

Section coverage.
Context (shardMap : gmap string Z) (tr : list (nat * go_event)).

Lemma served_covers {A} (f : reply → option A) (ip : A → string) rpc ds :
  round_seen shardMap tr rpc ds →
  (∀ d, r_oops d = None → ∃ a, f d = Some a ∧ ip a = r_address d) →
  (∀ d e, r_oops d = Some e → f d = None) →
  (ip <$> omap f ds) ++ (nr_IP <$> omap (silence_of_reply shardMap) ds)
  ≡ₚ (map_to_list shardMap).*1.
Proof.
  intros [[MR Hs] _] H1 H2. rewrite (round_split f ip shardMap ds H1 H2).
  by rewrite (served_addresses _ _ Hs), node_jobs_addresses, (range_perm shardMap).
Qed.

Lemma metadata_from_covers c : metadata_from shardMap tr c → metadata_covers shardMap c.
Proof.
  intros [?|(ds & Hs & E1 & E2)]; [by left|]. right. rewrite E1, E2. apply (served_covers _ _ _ _ Hs);
    unfold metadata_of_reply; [intros d ->; eauto|by intros d e ->].
Qed.

Lemma header_shown_covers c : header_shown shardMap tr c → header_covers shardMap c.
Proof.
  intros [?|(ds & Hs & Hn & E)]; [by left|]. right.
  exists (nr_IP <$> omap (silence_of_reply shardMap) ds). split; [|by rewrite length_fmap, E].
  assert (bhd_IP <$> bc_Nodes c = bhd_IP <$> omap header_of_reply ds) as ->
    by (destruct Hn as [-> | ->]; by rewrite ?shortened_IP).
  apply (served_covers _ _ _ _ Hs); unfold header_of_reply; [intros d ->; eauto|by intros d e ->].
Qed.
End coverage.

(** ** The process *)

Section process.
Context (MR : GoRuntime).
Context (buildVersion : string) (params : watchParams) (superCommittee : gmap Z committee).
Notation shardMap := (shard_map superCommittee).
Notation chain := (wp_TargetChain params).
Notation steps := (watchdog_steps MR buildVersion params superCommittee).
Notation start := (watchdog_start MR params superCommittee).
Notation state := (@asys variable local monitor action runtime).
Notation arun := (abs_run m_inUse set_inUse (http_request buildVersion) (starts shardMap)
  (abs start)).

(** The events of the goroutines with the loop [o]. *)
Definition seen_in (a : state) (o : option go_loop) (e : go_event) : Prop :=
  ∃ i g, a_gos a !! i = Some (o, g) ∧ (i, e) ∈ a_trace a.

Lemma arun_loop a i l g :
  arun a → a_gos a !! i = Some (Some l, g) → ∃ g', y_gos start !! i = Some (Some l, g').
Proof.
  intros Hr Hi. apply (abs_run_has_loop _ _ _ _ _ _ i l) in Hr.
  destruct (proj1 Hr) as [g' Hg]; [by exists g|].
  unfold abs, abs_gos in Hg. cbn [a_gos] in Hg. rewrite list_lookup_fmap_Some in Hg.
  destruct Hg as ([o' g1] & [= <- _] & Hg). by exists g1.
Qed.

(** A loop at the start is known by its pool and its RPCs. *)
Lemma start_place i l g :
  y_gos start !! i = Some (Some l, g) →
  (l_pool l, l_owns l)
  = match i with
    | 0 => (0, [BlockHeaderRPC])
    | 2 => (1, [BlockHeaderRPC])
    | 3 => (2, [NodeMetadataRPC; PendingCXRPC])
    | 4 => (3, [NodeMetadataRPC; LastCrossLinkRPC])
    | 5 => (0, [NodeMetadataRPC])
    | _ => (4, [])
    end%nat.
Proof.
  rewrite start_gos. intros Hi.
  destruct i as [|[|[|[|[|[|i]]]]]]; try done; cbn in Hi; by injection Hi as <- <-.
Qed.

Lemma seen_uses a o c rpcs e :
  arun a → uses o c rpcs → seen_in a o e →
  ∃ i l g, o = Some l ∧ y_gos start !! i = Some (Some l, g) ∧ l_pool l = c ∧ l_owns l = rpcs
    ∧ (i, e) ∈ a_trace a.
Proof.
  intros Hr Ho (i & g & Hi & He). destruct o as [l|]; [|done]. destruct Ho as [E1 E2].
  destruct (arun_loop a i l g Hr Hi) as [g' Hg]. by exists i, l, g'.
Qed.

Lemma seen_manager_ok a o rpc e :
  arun a → manages o rpc → seen_in a o e → (manager_go rpc, e) ∈ a_trace a.
Proof.
  intros Hr Ho He. destruct (seen_uses a o _ _ e Hr Ho He) as (i & l & g & _ & Hi & E1 & E2 & Hin).
  pose proof (start_place i l g Hi) as E. rewrite E1, E2 in E.
  destruct i as [|[|[|[|[|[|i]]]]]]; try discriminate E; injection E as ->; exact Hin.
Qed.

Lemma seen_links_ok a o e :
  arun a → uses o 3 [NodeMetadataRPC; LastCrossLinkRPC] → seen_in a o e →
  (crosslink_go, e) ∈ a_trace a.
Proof.
  intros Hr Ho He. destruct (seen_uses a o _ _ e Hr Ho He) as (i & l & g & _ & Hi & E1 & E2 & Hin).
  pose proof (start_place i l g Hi) as E. rewrite E1, E2 in E.
  by destruct i as [|[|[|[|[|[|i]]]]]].
Qed.

Lemma seen_any_ok a o e : seen_in a o e → ∃ i, (i, e) ∈ a_trace a.
Proof. intros (i & g & _ & He). by exists i. Qed.

Section one_state.
Context (a : state) (Ha : arun a).
Notation tr := (a_trace a).
Notation all_sound := (sound (good shardMap tr chain) (local_ok shardMap tr chain buildVersion)
  (action_from shardMap tr) agree mine (between_ticks shardMap tr) (seen_in a)).

Lemma watchdog_loop_sound l :
  l ∈ watchdog_loops MR params superCommittee →
  loop_sound (good shardMap tr chain) (local_ok shardMap tr chain buildVersion)
    (action_from shardMap tr) agree mine (between_ticks shardMap tr) (seen_in a) (Some l).
Proof.
  pose proof (λ o rpc e, seen_manager_ok a o rpc e Ha) as Hm.
  pose proof (λ o e, seen_links_ok a o e Ha) as Hk. pose proof (seen_any_ok a) as Hany.
  unfold watchdog_loops. rewrite !elem_of_cons, elem_of_nil.
  intros [-> | [-> | [-> | [-> | [-> | []]]]]] _ rt now s HQ.
  - by apply metadata_body_outline.
  - by apply header_body_outline.
  - apply consensus_body_outline; try done. apply between_ticks_depends.
  - by apply cx_body_outline.
  - apply crosslink_body_outline; try done. apply between_ticks_depends.
Qed.

Lemma start_mine i j o o' g g' x :
  i ≠ j → y_gos start !! i = Some (o, g) → y_gos start !! j = Some (o', g') → mine o x → ¬ mine o' x.
Proof.
  intros Hne Hi Hj Hm Hm'. assert (∀ rpc, manages o rpc → ¬ manages o' rpc) as H.
  { intros rpc Ho Ho'. destruct o as [l|]; [|done]. destruct o' as [l'|]; [|done].
    destruct Ho as [E1 E2], Ho' as [E1' E2'].
    apply (start_owns MR params superCommittee i j l l' g g' Hne Hi Hj) with rpc;
      [congruence|rewrite E2; set_solver|rewrite E2'; set_solver]. }
  destruct x; cbn in *; try done; by eapply H.
Qed.

Lemma start_sound : all_sound (abs start).
Proof.
  assert (∀ i o g, a_gos (abs start) !! i = Some (o, g) →
    ∃ g', g = abs_go g' ∧ y_gos start !! i = Some (o, g')) as Hl.
  { intros i o g. unfold abs, abs_gos. cbn [a_gos]. rewrite list_lookup_fmap_Some.
    intros ([o' g'] & [= -> ->] & Hi). eauto. }
  split.
  - intros i o g (g' & -> & Hi)%Hl. destruct o as [l|].
    + destruct (start_loops _ _ _ _ _ _ Hi) as [Hin ->]. split; [by apply watchdog_loop_sound|].
      split; [apply initial_ok|]. by split; intros _; left.
    + split; [done|]. rewrite start_gos in Hi. apply list_elem_of_lookup_2 in Hi.
      rewrite !elem_of_cons, elem_of_nil in Hi. repeat destruct Hi as [Hi|Hi]; try done.
      injection Hi as ->. exists (λ _, True). split_and!; [done|done|]. apply committee_outline.
      apply seen_any_ok.
  - intros i j o o' g g' Hne (g1 & _ & Hi)%Hl (g2 & _ & Hj)%Hl x. by eapply start_mine.
  - split; cbn; try done; try by left. exists [], []. split_and!; [by left|by left|apply empty_tables].
  - by apply Forall_nil.
Qed.

Lemma arun_sound : all_sound a.
Proof.
  pose proof (λ o rpc e, seen_manager_ok a o rpc e Ha) as Hm.
  pose proof (λ o e, seen_links_ok a o e Ha) as Hk. pose proof (seen_any_ok a) as Hany.
  eapply abs_run_sound; [..|exact start_sound|exact Ha|].
  - by intros [].
  - by intros [].
  - intros []; cbn; tauto.
  - intros o. apply between_ticks_depends.
  - by intros b m [].
  - by apply http_request_outline.
  - intros rt x h _. by apply (spawns_outline _ _ _ _ _ Hm Hk Hany (rt_pager rt)).
  - intros i o g e Hi He. by exists i, g.
Qed.
End one_state.

Lemma steps_arun y : steps y → arun (abs y).
Proof.
  intros Hy. by eapply rounds_refine in Hy as [_ Hrun];
    [|apply round_jobs_ok|apply round_jobs_nil|apply start_coherent].
Qed.

(** C11: the reports see whole rounds. In every reachable state, whatever the
    interleaving, the published metadata snapshot either is the empty one of the
    start or is made of the replies of one round the manager received: it has every
    node of the shard map exactly once, with its answer or as silent. The published
    headers either are the empty ones or those of one round the manager received,
    every node that answered once, up to the signatures that the reports shorten;
    there are as many silent nodes as there are others, each a node of the map
    under its own shard; the consensus monitor can replace the name of a silent
    node by that of another. *)
Theorem snapshots_cover y :
  steps y →
  metadata_covers shardMap (m_MetadataSnapshot (y_mem y))
  ∧ metadata_from shardMap (y_trace y) (m_MetadataSnapshot (y_mem y))
  ∧ header_covers shardMap (m_BlockHeaderSnapshot (y_mem y))
  ∧ header_shown shardMap (y_trace y) (m_BlockHeaderSnapshot (y_mem y))
  ∧ Forall (silent_wf shardMap) (bc_Down (m_BlockHeaderSnapshot (y_mem y))).
Proof.
  intros [_ _ [] _]%steps_arun%arun_sound.
  split_and!; [by eapply metadata_from_covers|done|by eapply header_shown_covers|done|done].
Qed.

(** C12: what a handler has answered is what the nodes said. In every reachable
    state, whatever the interleaving: a network report has an entry for exactly the
    shards of the headers of one round the header manager received, each entry with
    a header of greatest block number, all headers of the shard, the leaders
    according to one round of the metadata manager and the last cross link of one
    round of the cross link monitor; its silent nodes are those of such rounds. A
    status report lists the shards and versions of such rounds, and seats of
    committees that a node answered. A page shows the header part of such a report,
    and such committees. A CSV file lists the headers of one shard of such a round, or
    the metadata of one version. *)
Theorem reports_served y i o s r :
  steps y → y_gos y !! i = Some (o, Waiting s) → lo_response s = Some r →
  answer_from shardMap (y_trace y) chain buildVersion r.
Proof.
  intros Hy Hi Hr. destruct (arun_sound _ (steps_arun y Hy)) as [H1 _ _ _].
  destruct (H1 i o (Waiting s)) as [_ [[_ HQ] _]]; [exact (abs_gos_lookup _ _ _ _ Hi)|]. by apply HQ.
Qed.
End process.

(** C35: a silent node can get lost. The consensus monitor appends to the header
    manager's own list of silent nodes without the mutex. When the manager appends
    to the list between the load and the store of that append, the entry it added
    is overwritten: there is a run of the process after which the published
    headers show as many silent nodes as there are nodes, and a node is neither
    among those that answered nor among the silent ones. *)
Theorem silent_node_lost :
  ∃ (MR : GoRuntime) buildVersion params superCommittee y n,
    watchdog_steps MR buildVersion params superCommittee y
    ∧ let c := m_BlockHeaderSnapshot (y_mem y) in
      is_Some (shard_map superCommittee !! n)
      ∧ n ∉ (bhd_IP <$> bc_Nodes c) ++ (nr_IP <$> bc_Down c)
      ∧ length (bc_Down c) = size (shard_map superCommittee).
Proof.
  destruct Example.header_overwritten as (y & Hy & [H1 H2]%andb_true_iff).
  apply bool_decide_eq_true in H1, H2.
  exists range_ref, "v1"%string, Example.params, Example.four, y.
  set (nodes := (map_to_list (shard_map (MR := range_ref) Example.four)).*1) in H2.
  exists (default EmptyString (nodes !! 3%nat)). split; [exact Hy|]. cbv zeta.
  rewrite H1, <-(length_fmap nr_IP), H2. split_and!.
  - vm_compute. by eexists.
  - apply (bool_decide_unpack _). vm_compute. exact I.
  - vm_compute. reflexivity.
Qed.

Lemma snapshots_cover_witness :
  ∃ y, Example.published y = true
    ∧ metadata_covers (shard_map (MR := range_ref) Example.sc) (m_MetadataSnapshot (y_mem y)).
Proof.
  destruct Example.metadata_published as (y & Hy & Hp). exists y. split; [exact Hp|].
  exact (proj1 (snapshots_cover range_ref "v1" Example.params Example.sc y Hy)).
Defined.

Lemma reports_served_witness :
  ∃ y s r, Example.answered y = Some (s, r)
    ∧ answer_from (shard_map (MR := range_ref) Example.sc) (y_trace y) "testnet" "v1" r.
Proof.
  destruct Example.report_answered as (y & Hy & Hp). exists y.
  destruct (Example.answered y) as [[s r]|] eqn:E; [|discriminate Hp]. exists s, r.
  split; [reflexivity|]. unfold Example.answered in E.
  destruct (y_gos y !! 7%nat) as [[o g]|] eqn:Eg; [|discriminate E].
  destruct g as [s'| | | |]; try discriminate E.
  destruct (lo_response s') as [r'|] eqn:Er; [|discriminate E]. injection E as -> ->.
  exact (reports_served range_ref "v1" Example.params Example.sc y 7 o s r Hy Eg Er).
Defined.
