(* ===== verification/Ticks.v ===== *)
(** * What the goroutines do

    The programs of [System] step by step against the ticks and checks of the
    other files: whatever the other goroutines write meanwhile and the nodes
    answer, a whole tick of a monitor has the events that its rounds and the
    actions of its tick give ([may_consensus], [may_cx], [may_crosslink], ...), and
    so have the checks that are started for a time. *)

From S2P Require Import Prelude GoFloat GoFmt GoTime GoJson Rpc Pool Goroutines Histories Linq Alerts.
From S2P Require Import Summary Monitor Consensus CrossLink Cx P2p Beacon Config Manager Reports System.
From S2P Require Import Runs Safety Invariants.

(** ** Lists of events *)

Definition received (es : list go_event) : list (string * list reply) :=
  omap (λ e, match e with Received rpc ds => Some (rpc, ds) | _ => None end) es.

(** A first line, rounds, and what was logged after them. *)
Definition tick_shape (first : list action) (rs : list (string * list reply))
    (ls : list (list action)) : list go_event :=
  Logged first :: ((λ r, Received r.1 r.2) <$> rs) ++ (Logged <$> ls).

Lemma all_acts_logged (ls : list (list action)) : all_acts (Logged <$> ls) = concat ls.
Proof. induction ls as [|l ls IH]; [done|]. cbn. by f_equal. Qed.

Lemma all_acts_app (es es' : list go_event) : all_acts (es ++ es') = all_acts es ++ all_acts es'.
Proof. apply bind_app. Qed.

(** Events that log nothing between the first line and the others. *)
Lemma shape_acts first (fs : list go_event) ls :
  Forall (λ e, acts_of e = []) fs →
  all_acts (Logged first :: fs ++ (Logged <$> ls)) = first ++ concat ls.
Proof.
  intros Hfs. change (first ++ all_acts (fs ++ (Logged <$> ls)) = first ++ concat ls). f_equal.
  rewrite all_acts_app, all_acts_logged. induction Hfs as [|e fs He _ IH]; [done|].
  cbn. rewrite He. exact IH.
Qed.

Lemma tick_shape_acts first rs ls : all_acts (tick_shape first rs ls) = first ++ concat ls.
Proof. apply shape_acts. by apply Forall_fmap, Forall_true. Qed.

Lemma tick_shape_received first rs ls : received (tick_shape first rs ls) = rs.
Proof.
  unfold received, tick_shape. cbn. rewrite omap_app.
  assert (omap (λ e : go_event, match e with Received rpc ds => Some (rpc, ds) | _ => None end)
    (Logged <$> ls) = []) as -> by by induction ls.
  rewrite app_nil_r. induction rs as [|[rpc ds] rs IH]; [done|]. cbn. by f_equal.
Qed.

(** What is logged after the first line comes after the events that log nothing. *)
Lemma shape_split first (fs : list go_event) ls es acts rest x :
  Forall (λ e, acts_of e = []) fs →
  Logged first :: fs ++ (Logged <$> ls) = es ++ Logged acts :: rest → x ∈ acts → x ∉ first →
  ∃ ls1, es = Logged first :: fs ++ (Logged <$> ls1).
Proof.
  intros Hfs E Hx Hn. destruct es as [|e es]; [by injection E as <-|]. injection E as <- E.
  enough (∃ ls1, es = fs ++ (Logged <$> ls1)) as [ls1 ->] by by exists ls1.
  clear Hn. revert es E. induction Hfs as [|e fs He _ IH]; intros es E.
  - apply fmap_app_inv in E as (ls1 & ls2 & -> & _ & _). by exists ls1.
  - destruct es as [|e' es].
    + injection E as -> _. cbn in He. subst acts. by apply elem_of_nil in Hx.
    + injection E as <- E. destruct (IH es E) as [ls1 ->]. by exists ls1.
Qed.

Lemma tick_shape_split first rs ls es acts rest x :
  tick_shape first rs ls = es ++ Logged acts :: rest → x ∈ acts → x ∉ first →
  ∃ ls1, es = tick_shape first rs ls1.
Proof. apply shape_split. by apply Forall_fmap, Forall_true. Qed.

(** A line is among those of the whole. *)
Lemma elem_of_lines (es es0 : list go_event) acts rest x :
  es = es0 ++ Logged acts :: rest → x ∈ acts → x ∈ all_acts es.
Proof.
  intros -> Hx. rewrite all_acts_app. apply elem_of_app. right. cbn. apply elem_of_app. by left.
Qed.

(** ** Loops *)

Lemma bind_singletons {X Y} (g : X → list Y) (f : X → Y) l : (∀ x, g x = [f x]) → l ≫= g = f <$> l.
Proof. intros Hg. induction l as [|x l IH]; [done|]. cbn. by rewrite Hg, IH. Qed.

Definition then_acts {X B} (f : B → X → B * list action) (acc : B * list action) (x : X) :
    B * list action :=
  let '(b, acts) := f acc.1 x in (b, acc.2 ++ acts).

Lemma fold_then_acts {X B} (f : B → X → B * list action) l acc :
  fold_left (then_acts f) l acc
  = let '(b, acts) := fold_left (then_acts f) l (acc.1, []) in (b, acc.2 ++ acts).
Proof.
  revert acc. induction l as [|x l IH]; intros [b acts]; cbn [fold_left fst snd];
    [by rewrite app_nil_r|].
  rewrite IH, (IH (then_acts f (b, []) x)). unfold then_acts at 2 3 5 6. cbn [fst snd].
  destruct (f b x) as [b' acts']. cbn [fst snd].
  destruct (fold_left _ l (b', [])) as [b2 acts2]. by rewrite app_assoc.
Qed.

(** A loop whose body adds to the actions. *)
Lemma fold_adds {X B} (F : B * list action → X → B * list action) l acc :
  (∀ b acts x, F (b, acts) x = let '(b', acts') := F (b, []) x in (b', acts ++ acts')) →
  fold_left F l acc = fold_left (then_acts (λ b x, F (b, []) x)) l acc.
Proof.
  intros HF. revert acc. induction l as [|x l IH]; intros [b acts]; [done|]. cbn [fold_left].
  rewrite IH. f_equal. unfold then_acts. by rewrite HF.
Qed.

Lemma may_for {X B} (f : B → X → B * list action) l b k es s :
  may (for_prog f l b k) es s →
  ∃ b' ls es', es = (Logged <$> ls) ++ es' ∧ may (k b') es' s
    ∧ fold_left (then_acts f) l (b, []) = (b', concat ls).
Proof.
  revert b es. induction l as [|x l IH]; intros b es; cbn [for_prog fold_left].
  { intros H. by exists b, [], es. }
  unfold then_acts at 2. cbn [fst snd]. destruct (f b x) as [b1 acts] eqn:E. intros (es1 & -> & H).
  apply IH in H as (b' & ls & es' & -> & Hk & E'). exists b', (acts :: ls), es'.
  split_and!; [done|done|]. rewrite fold_then_acts. cbn [fst snd]. by rewrite E'.
Qed.

Lemma may_each {X} (f : X → list action) l (k : program) es s :
  may (each_prog f l k) es s →
  ∃ ls es', es = (Logged <$> ls) ++ es' ∧ may k es' s ∧ concat ls = l ≫= f.
Proof.
  intros (b & ls & es' & -> & Hk & E)%may_for. exists ls, es'. split_and!; [done|done|].
  assert (∀ l, (fold_left (then_acts (λ _ x, (tt, f x))) l (tt, [])).2 = l ≫= f) as H;
    [|by rewrite <-H, E].
  clear. induction l as [|x l IH]; [done|]. cbn [fold_left]. rewrite fold_then_acts.
  unfold then_acts at 2 3. cbn [fst snd]. destruct (fold_left _ _ _) as [? acts]. cbn in *. by f_equal.
Qed.

Lemma total_for {X B} (f : B → X → B * list action) l b k :
  (∀ b, total (k b)) → total (for_prog f l b k).
Proof.
  intros Hk. revert b. induction l as [|x l IH]; intros b; [apply Hk|]. cbn [for_prog].
  destruct (f b x). apply IH.
Qed.

Lemma total_each {X} (f : X → list action) l (k : program) : total k → total (each_prog f l k).
Proof. intros Hk. by apply total_for. Qed.

(** ** Whole ticks under interference *)

Section ticks.
Context `{L : Linq} `{MR : GoRuntime}.
Context (pd : pager) (shardMap : gmap string Z).

(** The silent nodes the consensus monitor counts come from the list it read for
    the last of them. *)
Definition collect_step (workingDown : list noReply) (acc : list BlockHeader * list noReply)
    (d : reply) : list BlockHeader * list noReply :=
  match r_oops d with
  | Some e => (acc.1, workingDown ++ [no_reply shardMap d e])
  | None => (acc.1 ++ [MkBlockHeader (decode_header (r_result d)) (r_address d)], acc.2)
  end.

Lemma collect_headers_steps wd ds :
  collect_headers shardMap wd ds = fold_left (collect_step wd) ds ([], []).
Proof.
  unfold collect_headers. generalize ([] : list BlockHeader, [] : list noReply) as acc.
  induction ds as [|d ds IH]; intros [nodes down]; [done|]. cbn [fold_left].
  rewrite <-IH. unfold collect_step. by destruct (r_oops d).
Qed.

Lemma collect_silent ds wd nodes down down' :
  ¬ Forall (λ d, r_oops d = None) ds →
  fold_left (collect_step wd) ds (nodes, down) = fold_left (collect_step wd) ds (nodes, down').
Proof.
  intros Hex. apply not_Forall_Exists in Hex; [|apply _]. revert nodes down down'.
  induction Hex as [d ds Hd|d ds _ IH]; intros nodes down down';
    cbn [fold_left]; unfold collect_step at 2 4; cbn [fst snd].
  - destruct (r_oops d) eqn:E; [done|by destruct Hd].
  - destruct (r_oops d); [done|apply IH].
Qed.

Lemma collect_answered ds wd wd' acc :
  Forall (λ d, r_oops d = None) ds →
  fold_left (collect_step wd) ds acc = fold_left (collect_step wd') ds acc.
Proof.
  intros Hall. revert acc. induction Hall as [|d ds Hd _ IH]; intros acc; [done|].
  cbn [fold_left]. unfold collect_step at 2 4. rewrite Hd. apply IH.
Qed.

Lemma may_collect ds nodes down k es s :
  may (collect_prog shardMap ds nodes down k) es s →
  ∃ wd, let '(nodes', down') := fold_left (collect_step wd) ds (nodes, down) in
        may (k nodes' down') es s.
Proof.
  revert nodes down. induction ds as [|d ds IH]; intros nodes down; cbn [collect_prog].
  { intros H. by exists []. }
  cbn [fold_left]. unfold collect_step at 2. destruct (r_oops d) as [e|]; [|apply IH].
  intros [m H]. cbv zeta in H. set (read := bc_Down (m_WorkingBlockHeader m)) in *.
  assert (may (collect_prog shardMap ds nodes (read ++ [no_reply shardMap d e]) k) es s) as H'
    by (destruct (_ <? _)%nat; exact H).
  apply IH in H' as [wd H']. cbn [fst].
  destruct (decide (Forall (λ d, r_oops d = None) ds)) as [Hall|Hex].
  - exists read. by rewrite (collect_answered ds read wd).
  - exists wd. by rewrite (collect_silent ds wd nodes _ (read ++ [no_reply shardMap d e])).
Qed.

Lemma may_shard_loop cfg now published entries st k es s :
  may (shard_loop pd cfg now published entries st k) es s →
  ∃ st' ls es', for_each (shard_step pd cfg now) entries (st, []) = Done (st', concat ls)
    ∧ es = (Logged <$> ls) ++ es' ∧ may (k st') es' s.
Proof.
  revert st es. induction entries as [|e entries IH]; intros st es.
  { intros H. by exists st, [], es. }
  cbn [shard_loop for_each]. destruct (shard_step pd cfg now e (st, [])) as [[st1 acts1]|]; [|done].
  intros (es1 & -> & H). assert (may (shard_loop pd cfg now published entries st1 k) es1 s) as H'
    by (destruct published; exact H).
  apply IH in H' as (st' & ls & es2 & E & -> & Hk). exists st', (acts1 :: ls), es2.
  cbn [mbind outcome_bind]. rewrite shard_steps_acts, E. done.
Qed.

(** A tick of the consensus monitor, whatever the others do. *)
Definition consensus_first : list action := [Stdlog "[consensusMonitor] Starting consensus check" []].

Lemma may_consensus cfg now s es s' :
  cf_shardMap cfg = shardMap → may (consensus_body pd shardMap cfg now s) es s' →
  ∃ wd replies ls acts, served (node_jobs shardMap BlockHeaderRPC) replies
    ∧ es = tick_shape consensus_first [(BlockHeaderRPC, replies)] ls
    ∧ acts = consensus_first ++ concat ls
    ∧ consensus_tick pd cfg now wd replies (lo_consensus s) = Done (lo_consensus s', acts).
Proof.
  intros Hc (es1 & -> & replies & es2 & Hs & -> & H). apply may_collect in H as [wd H].
  exists wd, replies. unfold consensus_tick.
  rewrite Hc, collect_headers_steps. destruct (fold_left _ _ _) as [nodes down].
  destruct H as (es3 & -> & H). apply may_shard_loop in H as (st' & ls & es4 & E & -> & H).
  destruct H as (es5 & -> & H). apply may_each in H as (ls2 & es6 & -> & [-> <-] & E2).
  eexists (_ :: ls ++ _ :: ls2), _. split; [done|].
  split; [by unfold tick_shape; cbn; rewrite fmap_app, app_nil_r|]. split; [done|].
  rewrite shard_steps_acts, E. cbn [mbind outcome_bind]. do 2 f_equal. cbn. do 2 f_equal.
  rewrite concat_app. cbn. rewrite E2. do 2 f_equal. symmetry. apply bind_singletons. by intros [].
Qed.

Definition cx_first : list action :=
  [Stdlog "[cxMonitor] Starting cross shard transaction check" []].

Lemma may_cx cfg now s es s' :
  may (cx_body pd shardMap cfg now s) es s' →
  ∃ metas replies ls, served (node_jobs shardMap NodeMetadataRPC) metas
    ∧ served (cx_jobs (cx_leaders metas)) replies
    ∧ es = tick_shape cx_first [(NodeMetadataRPC, metas); (PendingCXRPC, replies)] ls
    ∧ cx_tick pd cfg metas replies = cx_first ++ concat ls ∧ s' = s.
Proof.
  intros (es1 & -> & metas & es2 & Hm & -> & replies & es3 & Hr & -> & H).
  apply may_for in H as (sizes & ls & es4 & -> & H & E).
  apply may_each in H as (ls2 & es5 & -> & [-> <-] & E2).
  exists metas, replies, (ls ++ ls2). split_and!; [done|done| | |done].
  - unfold tick_shape. cbn. by rewrite fmap_app, app_nil_r.
  - unfold cx_tick. rewrite fold_adds by (intros; apply cx_reply_acts).
    rewrite fold_then_acts. cbn [fst snd]. rewrite E, concat_app, E2, <-app_assoc.
    by rewrite (bind_singletons _ cx_line).
Qed.

Definition crosslink_first : list action :=
  [Stdlog "[crossLinkMonitor] Starting crosslink check" []].

Lemma may_links cfg now replies links last k es s :
  may (links_prog pd cfg now replies links last k) es s →
  ∃ links' last' ls es', es = (Logged <$> ls) ++ es' ∧ may (k links' last') es' s
    ∧ process_replies pd cfg now replies links (last, []) = (links', (last', concat ls)).
Proof.
  induction replies as [|d replies IH]; cbn [links_prog process_replies].
  { intros H. by exists links, last, [], es. }
  destruct (r_oops d); [apply IH|]. intros (last' & ls & es' & -> & Hk & E)%may_for.
  eexists _, last', ls, es'. split_and!; [done|done|].
  by rewrite (fold_adds (process_link pd cfg now)), E by (intros; apply process_link_acts).
Qed.

Lemma process_replies_acts cfg now replies links last acts :
  process_replies pd cfg now replies links (last, acts)
  = let '(links', (last', acts')) := process_replies pd cfg now replies links (last, []) in
    (links', (last', acts ++ acts')).
Proof.
  induction replies as [|d replies IH]; cbn [process_replies]; [by rewrite app_nil_r|].
  destruct (r_oops d); [apply IH|]. rewrite !(fold_adds (process_link pd cfg now)) by (intros; apply process_link_acts).
  rewrite fold_then_acts. cbn [fst snd]. by destruct (fold_left _ _ _).
Qed.

Lemma may_crosslink cfg now s es s' :
  may (crosslink_body pd shardMap cfg now s) es s' →
  ∃ metas replies ls links, served (beacon_jobs shardMap) metas
    ∧ served (leader_jobs (find_leaders metas)) replies
    ∧ es = tick_shape crosslink_first [(NodeMetadataRPC, metas); (LastCrossLinkRPC, replies)] ls
    ∧ crosslink_tick pd cfg now replies (lo_lastProcessed s)
      = (lo_lastProcessed s', links, crosslink_first ++ concat ls).
Proof.
  intros (es1 & -> & metas & es2 & Hm & -> & replies & es3 & Hr & -> & H).
  apply may_links in H as (links & last & ls & es4 & -> & H & E).
  apply may_each in H as (ls2 & es5 & -> & [-> <-] & E2).
  exists metas, replies, (ls ++ ls2), links. split_and!; [done|done| |].
  - unfold tick_shape. cbn. by rewrite fmap_app, app_nil_r.
  - unfold crosslink_tick. rewrite process_replies_acts, E. rewrite concat_app, E2, <-app_assoc.
    by rewrite (bind_singletons _ crosslink_line).
Qed.

(** The managers. *)
Lemma may_store x f first ds (k : program) es s :
  may (store_replies x f first ds k) es s → may k es s.
Proof. revert first. by induction ds as [|d ds IH]; intros first; [|apply IH]. Qed.

Lemma may_metadata tolerance key chain now s es s' :
  may (metadata_body shardMap tolerance key chain now s) es s' →
  ∃ ds nodes, served (node_jobs shardMap NodeMetadataRPC) ds
    ∧ es = [Received NodeMetadataRPC ds; Logged [GoP2pMonitor tolerance key chain nodes]].
Proof.
  intros (ds & es1 & Hs & -> & H%may_store). destruct H as (w & es2 & -> & w' & -> & _). eauto.
Qed.

Lemma may_header now s es s' :
  may (header_body shardMap now s) es s' →
  ∃ ds prev nodes, served (node_jobs shardMap BlockHeaderRPC) ds
    ∧ es = [Received BlockHeaderRPC ds;
            Logged (epoch_check prev (getBeaconChainNode shardMap) nodes).2].
Proof.
  intros (ds & es1 & Hs & -> & H%may_store). destruct H as (w & H).
  exists ds, (lo_prevEpoch s), (bc_Nodes (m_WorkingBlockHeader w)). split; [done|].
  destruct (epoch_check _ _ _) as [prev acts]. by destruct H as (es2 & -> & -> & _).
Qed.

(** *** No panics *)

Lemma store_replies_total x f first ds (k : program) :
  total k → total (store_replies x f first ds k).
Proof. intros Hk. revert first. by induction ds; intros first; cbn. Qed.

Lemma metadata_total tolerance key chain now s :
  total (metadata_body shardMap tolerance key chain now s).
Proof. intros ds _. by apply store_replies_total. Qed.

Lemma header_total now s : total (header_body shardMap now s).
Proof. intros ds _. apply store_replies_total. intros m. by destruct (epoch_check _ _ _). Qed.

Lemma collect_total ds nodes down k :
  (∀ nodes down, total (k nodes down)) → total (collect_prog shardMap ds nodes down k).
Proof.
  intros Hk. revert nodes down. induction ds as [|d ds IH]; intros nodes down; [apply Hk|].
  cbn [collect_prog]. destruct (r_oops d); [|apply IH]. intros m. cbv zeta.
  destruct (_ <? _)%nat; apply IH.
Qed.

Lemma shard_loop_total cfg now published nodes entries st k :
  (∀ e, e ∈ entries → blockHeaderSummary nodes true ∅ !! e.1 = Some e.2) → (∀ st, total (k st)) →
  total (shard_loop pd cfg now published entries st k).
Proof.
  intros He Hk. revert st. induction entries as [|[shard e] entries IH]; intros st; [apply Hk|].
  cbn [shard_loop]. destruct (view_entry nodes shard e) as (a & h & -> & E1 & E2 & _).
  { apply (He (shard, e)). set_solver. }
  rewrite (shard_step_record pd cfg now shard a h) by done.
  destruct (record_step _ _ _ _ _) as [st' acts]. destruct published; apply IH; set_solver.
Qed.

Lemma consensus_total cfg now s : total (consensus_body pd shardMap cfg now s).
Proof.
  intros replies _. apply collect_total. intros nodes down.
  apply (shard_loop_total cfg now _ nodes); [|intros st; by apply total_each].
  intros [k v]. by rewrite elem_of_range.
Qed.

Lemma cx_total cfg now s : total (cx_body pd shardMap cfg now s).
Proof. intros metas _ replies _. apply total_for. intros sizes. by apply total_each. Qed.

Lemma links_total cfg now replies links last k :
  (∀ links last, total (k links last)) → total (links_prog pd cfg now replies links last k).
Proof.
  intros Hk. induction replies as [|d replies IH]; [apply Hk|]. cbn [links_prog].
  destruct (r_oops d); [apply IH|]. by apply total_for.
Qed.

Lemma crosslink_total cfg now s : total (crosslink_body pd shardMap cfg now s).
Proof. intros metas _ replies _. apply links_total. intros links last. by apply total_each. Qed.

Lemma committee_total node : total (committee_prog node).
Proof. intros client. by destruct (request client _ _) as [[??] [?|]]. Qed.

Lemma fetch_all_total js data k : (∀ data, total (k data)) → total (fetch_all js data k).
Proof.
  intros Hk. revert data. induction js as [|j js IH]; intros data; [apply Hk|].
  intros client. destruct (request client _ _) as [[??]?]. apply IH.
Qed.

Lemma beacon_total block interval threshold poolSize key chain :
  total (beacon_prog shardMap block interval threshold poolSize key chain).
Proof.
  unfold beacon_prog. cbn [total]. destruct (_ <=? _); [done|]. apply fetch_all_total. intros data.
  destruct (collect_beacon data). apply total_for. intros blocks. by apply total_each.
Qed.

Lemma spawns_total a h : spawns pd shardMap a = Some h → total h.
Proof.
  destruct a; try done; intros [= <-]; try by apply total_each.
  - by cbn.
  - apply beacon_total.
  - by cbn.
  - apply committee_total.
Qed.
End ticks.

(** ** What a tick logs *)

Definition tick_action (cfg : consensus_config) (nodes : list BlockHeader) (a : action) : Prop :=
  match a with
  | GoCheckShardHeight nodes' syncTimer tolerance key chain =>
      nodes' = nodes ∧ syncTimer = cf_warning cfg ∧ tolerance = cf_tolerance cfg
      ∧ key = cf_pdServiceKey cfg ∧ chain = cf_chain cfg
  | GoBeaconSyncMonitor beaconBlock interval threshold poolSize key chain =>
      (∃ h, latest nodes "0" h ∧ beaconBlock = header_block h) ∧ interval = cf_warning cfg
      ∧ threshold = cf_tolerance cfg ∧ poolSize = cf_poolSize cfg ∧ key = cf_pdServiceKey cfg ∧ chain = cf_chain cfg
  | a => reporting a
  end.

Lemma reporting_tick cfg nodes l : Forall reporting l → Forall (tick_action cfg nodes) l.
Proof. intros H. eapply Forall_impl; [exact H|]. by intros []. Qed.

Section tick_actions.
Context `{L : Linq} `{MR : GoRuntime}.
Context (pd : pager).

Lemma record_step_actions cfg now nodes st shard h :
  latest nodes shard h →
  Forall (tick_action cfg nodes) (record_step pd cfg now (st, []) (shard, h)).2.
Proof.
  intros Hl. assert (Forall (tick_action cfg nodes) (beacon_action cfg shard h)) as Hb.
  { unfold beacon_action. case_decide; [|done]. subst. constructor; [|done]. cbn. eauto 10. }
  unfold record_step. destruct (stuck _ _ _ h); [|done]. cbn. apply Forall_app_2; [done|].
  destruct (lastShardData st !! shard); [|done]. apply reporting_tick, alert_reports.
Qed.

Lemma shard_steps_actions cfg now nodes entries st st' acts :
  (∀ e, e ∈ entries → blockHeaderSummary nodes true ∅ !! e.1 = Some e.2) →
  for_each (shard_step pd cfg now) entries (st, []) = Done (st', acts) →
  Forall (tick_action cfg nodes) acts.
Proof.
  revert st acts. induction entries as [|[shard e] entries IH]; intros st acts He.
  { cbn. by intros [= _ <-]. }
  cbn [for_each]. destruct (view_entry nodes shard e) as (a & h & -> & E1 & E2 & _ & Hl).
  { apply (He (shard, e)). set_solver. }
  rewrite (shard_step_record pd cfg now shard a h) by done. cbn [mbind outcome_bind].
  pose proof (record_step_actions cfg now nodes st shard h Hl) as Ha.
  destruct (record_step _ _ _ _ _) as [st1 acts1]. rewrite shard_steps_acts.
  destruct (for_each _ entries (st1, [])) as [[st2 acts2]|] eqn:E; [|done].
  intros [= -> <-]. apply Forall_app_2; [done|]. eapply IH; [|exact E]. set_solver.
Qed.

Lemma consensus_tick_actions cfg now wd replies st st' acts :
  consensus_tick pd cfg now wd replies st = Done (st', acts) →
  Forall (tick_action cfg (collect_headers (cf_shardMap cfg) wd replies).1) acts.
Proof.
  unfold consensus_tick. destruct (collect_headers _ _ _) as [nodes down]. cbn [fst].
  rewrite shard_steps_acts.
  destruct (for_each _ _ (st, [])) as [[st2 acts2]|] eqn:E; [|done]. cbn [mbind outcome_bind].
  intros [= -> <-]. constructor; [done|]. constructor; [by split_and!|]. apply Forall_app_2.
  - eapply shard_steps_actions; [|exact E]. intros [k v]. by rewrite elem_of_range.
  - constructor; [done|]. apply Forall_fmap, Forall_true. by intros [].
Qed.

Lemma cx_tick_reports cfg metas replies : Forall reporting (cx_tick pd cfg metas replies).
Proof.
  unfold cx_tick. destruct (fold_left _ _ _) as [sizes acts] eqn:E. apply Forall_app_2.
  - change acts with (sizes, acts).2. rewrite <-E. apply fold_left_inv; [|by repeat constructor].
    intros d [sizes' acts'] _ Ha. unfold cx_reply. destruct (r_oops d); [done|]. cbn.
    destruct (_ <? _); [|done]. apply Forall_app_2; [done|apply alert_reports].
  - apply Forall_fmap, Forall_true. by intros [].
Qed.

(** A cross link tick also logs whole records. *)
Definition link_action (a : action) : Prop :=
  match a with StdlogCrossLink _ _ _ _ _ => True | a => reporting a end.

Lemma process_replies_links cfg now replies links acc :
  Forall link_action acc.2 → Forall link_action (process_replies pd cfg now replies links acc).2.2.
Proof.
  intros Ha. induction replies as [|d replies IH]; [done|]. cbn.
  destruct (r_oops d); [apply IH|]. cbn. apply fold_left_inv; [|done].
  intros link [last acts] _ Hl. cbn in *. destruct (last !! _); [|done]. destruct (_ <=? _); [|done].
  cbn. destruct (_ <=? _); [|done]. apply Forall_app_2; [done|].
  eapply Forall_impl; [apply alert_reports|]. by intros [].
Qed.

Lemma crosslink_tick_links cfg now replies last last' links acts :
  crosslink_tick pd cfg now replies last = (last', links, acts) → Forall link_action acts.
Proof.
  unfold crosslink_tick. intros H.
  pose proof (process_replies_links cfg now replies zero_LastCrossLinkReply
    (last, [Stdlog "[crossLinkMonitor] Starting crosslink check" []])) as Hp.
  destruct (process_replies _ _ _ _ _ _) as [links' [last1 acts1]]. injection H as <- <- <-.
  apply Forall_app_2; [apply Hp; by repeat constructor|].
  apply Forall_fmap, Forall_true. by intros [].
Qed.
End tick_actions.

(** ** What a check does *)

(** The answers to the requests of a check, one after the other. *)
Definition fetched (j : work) (d : reply) : go_event :=
  Fetched ("http://" +:+ w_address j) (w_body j) (r_result d, r_payload d, r_oops d).

Lemma fetched_quiet js ds : Forall (λ e, acts_of e = []) (zip_with fetched js ds).
Proof. revert ds. induction js as [|j js IH]; intros [|d ds]; cbn; by constructor. Qed.

Section checks.
Context `{MR : GoRuntime}.
Context (pd : pager) (shardMap : gmap string Z).

Definition beacon_first (beaconBlock : Z) : list action :=
  [Stdlog "[beaconSyncMonitor] Starting beacon sync check, Beacon Block: %v" [OInt TUint64 beaconBlock];
   Stdlog "[getBeaconHeaders] Fetching latest header data" []].

(** The events of a check from its start to its end; one whose pool has no worker
    has no end. *)
Definition does_check (a : action) (es : list go_event) : Prop :=
  match a with
  | GoP2pMonitor tolerance key chain nodes => ∃ ls,
      es = Logged <$> ls ∧ concat ls = p2pMonitor pd tolerance key chain nodes
  | GoCheckShardHeight nodes syncTimer tolerance key chain => ∃ ls,
      es = Logged <$> ls ∧ concat ls = checkShardHeight nodes syncTimer tolerance key chain
  | GoCheckSync IP key chain block height syncTimer => ∃ r,
      es = [Logged (sync_sleep IP syncTimer);
            Fetched ("http://" +:+ IP) (request_body BlockHeaderRPC) r;
            Logged (sync_reply pd IP key chain block height r)]
  | GoBeaconSyncMonitor block interval threshold poolSize key chain =>
      es = [Logged (beacon_first block)]
      ∨ ∃ data ls, Forall2 answers (beacon_requests shardMap) data
          ∧ es = Logged (beacon_first block)
                 :: zip_with fetched (beacon_requests shardMap) data ++ (Logged <$> ls)
          ∧ beaconSyncMonitor block interval threshold key chain shardMap data
            = beacon_first block ++ concat ls
  | GoCheckBeaconSync block height threshold syncTimer IP key chain => ∃ r,
      es = [Logged (beacon_sleep IP syncTimer);
            Fetched ("http://" +:+ IP) (request_body LatestHeadersRPC) r;
            Logged (beacon_reply pd block height threshold IP key chain r)]
  | GoStakingCommitteeUpdate _ => Forall logging (all_acts es)
  | _ => False
  end.

Lemma may_committee node es s : may (committee_prog node) es s → Forall logging (all_acts es).
Proof.
  intros (es1 & -> & client & es2 & -> & H). cbn. constructor; [done|].
  destruct (request client _ _) as [[??] [?|]]; destruct H as (es3 & -> & -> & _); by repeat constructor.
Qed.

Lemma may_fetch_all js data k es s :
  may (fetch_all js data k) es s →
  ∃ ds es', Forall2 answers js ds ∧ es = zip_with fetched js ds ++ es' ∧ may (k (data ++ ds)) es' s.
Proof.
  revert data es. induction js as [|j js IH]; intros data es; cbn [fetch_all may].
  { intros H. exists [], es. rewrite app_nil_r. split_and!; [constructor|done|done]. }
  intros (client & es1 & -> & H). destruct (request client _ _) as [[result payload] oops] eqn:E.
  apply IH in H as (ds & es' & Hds & -> & H). rewrite <-app_assoc in H.
  exists (MkReply (w_address j) (w_rpc j) payload result oops :: ds), es'. split_and!; [|done|exact H].
  constructor; [|done]. exists client. unfold do_work. by rewrite E.
Qed.

Lemma may_beacon block interval threshold poolSize key chain es s :
  may (beacon_prog shardMap block interval threshold poolSize key chain) es s →
  does_check (GoBeaconSyncMonitor block interval threshold poolSize key chain) es.
Proof.
  intros (es1 & -> & H). destruct (poolSize <=? 0); [left; by rewrite H|]. right.
  apply may_fetch_all in H as (data & es2 & Hd & -> & H). rewrite app_nil_l in H.
  destruct (collect_beacon data) as [ret success] eqn:Ec. destruct H as (es3 & -> & H).
  apply may_for in H as (blocks & ls & es4 & -> & H & E).
  apply may_each in H as (ls2 & es5 & -> & [-> _] & E2).
  exists data, ([fetched_line ret success] :: ls ++ ls2). split; [done|]. split.
  { cbn. by rewrite fmap_app, app_nil_r. }
  unfold beaconSyncMonitor, getBeaconHeaders. rewrite Ec.
  rewrite fold_adds by (intros; apply beacon_header_acts). rewrite fold_then_acts. cbn [fst snd].
  rewrite E. cbn [concat]. by rewrite concat_app, E2, <-!app_assoc.
Qed.

Lemma may_check a p es s : spawns pd shardMap a = Some p → may p es s → does_check a es.
Proof.
  destruct a; try done; intros [= <-]; cbn [does_check].
  - intros (es1 & -> & H). apply may_each in H as (ls & es2 & -> & [-> _] & E).
    eexists (_ :: ls). split; [by rewrite app_nil_r|]. unfold checkShardHeight. rewrite <-E. done.
  - intros (es1 & -> & client & es2 & -> & es3 & -> & -> & _). by eexists.
  - apply may_beacon.
  - intros (es1 & -> & client & es2 & -> & es3 & -> & -> & _). by eexists.
  - intros (es1 & -> & H). apply may_each in H as (ls & es2 & -> & [-> _] & E).
    eexists (_ :: ls). split; [by rewrite app_nil_r|]. unfold p2pMonitor. rewrite <-E. done.
  - apply may_committee.
Qed.
End checks.

(** ** What a handler does *)

Section handlers.
Context (buildVersion : string).

Lemma or_panic_mute {X} (o : outcome X) k : (∀ x, mute (k x)) → mute (or_panic o k).
Proof. intros Hk. destruct o; [apply Hk|done]. Qed.

Lemma summary_prog_mute `{L : Linq} `{MR : GoRuntime} k : (∀ sum, mute (k sum)) → mute (summary_prog k).
Proof. intros Hk mm mh. apply or_panic_mute. by intros []. Qed.

Lemma networkSnapshot_mute `{L : Linq} `{MR : GoRuntime} k :
  (∀ r, mute (k r)) → mute (networkSnapshot_prog buildVersion k).
Proof.
  intros Hk. apply summary_prog_mute. intros sum. apply or_panic_mute. intros sum1 mp ms mm mh ml.
  apply or_panic_mute. intros sum2. apply Hk.
Qed.

Lemma csv_section_mute filename header values rows : mute (csv_section filename header values rows).
Proof. apply or_panic_mute. intros v m. by apply or_panic_mute. Qed.

(** A request is answered without an event. *)
Lemma http_request_mute h : http_request buildVersion h → mute h.
Proof.
  intros [rt parse now|query|rt|rt].
  - apply (networkSnapshot_mute (L := rt_linq rt) (MR := rt_go rt)). intros r. apply or_panic_mute. intros sum.
    by destruct (parse _).
  - unfold csv_handler. destruct (query !! _) as [keys|]; [|done]. apply or_panic_mute. intros report.
    repeat case_decide; [destruct (query !! _)..|]; solve [apply csv_section_mute|done].
  - by apply (networkSnapshot_mute (L := rt_linq rt) (MR := rt_go rt)).
  - apply (summary_prog_mute (L := rt_linq rt) (MR := rt_go rt)). intros sum mp ms. by apply or_panic_mute.
Qed.
End handlers.

(** ** Rounds with their times *)

(** The rounds of a goroutine, each with the time of its tick. *)
Fixpoint stamped (t : Time) (es : list go_event) : list (Time * (string * list reply)) :=
  match es with
  | [] => []
  | Ticked now :: es => stamped now es
  | Received rpc ds :: es => (t, (rpc, ds)) :: stamped t es
  | Fetched _ _ _ :: es | Logged _ :: es => stamped t es
  end.

Definition rounds_of (i : nat) (tr : list (nat * go_event)) : list (Time * (string * list reply)) :=
  stamped (Unix 0) (of_go i tr).

Definition tick_rounds (t : Time * list go_event) : list (Time * (string * list reply)) :=
  pair t.1 <$> received t.2.

Lemma stamped_app t es es' :
  Forall unticked es → stamped t (es ++ es') = (pair t <$> received es) ++ stamped t es'.
Proof.
  induction 1 as [|e es He _ IH]; [done|]. destruct e; try done; cbn; by rewrite IH.
Qed.

Lemma stamped_ticks t0 h now es :
  Forall (λ t, Forall unticked t.2) h → Forall unticked es →
  stamped t0 ((h ≫= tick_events) ++ Ticked now :: es)
  = (h ≫= tick_rounds) ++ (pair now <$> received es).
Proof.
  intros Hh He. revert t0. induction Hh as [|[t es1] h Ht _ IH]; intros t0.
  - cbn. rewrite <-(app_nil_r es) at 1. rewrite stamped_app by done. apply app_nil_r.
  - cbn [mbind list_bind tick_events app fst snd]. rewrite <-!app_assoc. cbn [app stamped].
    rewrite stamped_app by done. by rewrite IH.
Qed.

Lemma ticked_unticked (l : go_loop) s0 h s : ticked l s0 h s → Forall (λ t, Forall unticked t.2) h.
Proof.
  induction 1 as [|h s rt now es s' _ IH Hm]; [done|]. apply Forall_app_2; [done|].
  constructor; [|done]. by eapply may_unticked.
Qed.

(** A round was received. *)
Lemma elem_of_rounds i tr t rpc ds : (t, (rpc, ds)) ∈ rounds_of i tr → (i, Received rpc ds) ∈ tr.
Proof.
  intros H. apply elem_of_go. revert H. unfold rounds_of. generalize (Unix 0) as t0.
  induction (of_go i tr) as [|e es IH]; intros t0; cbn; [set_solver|].
  destruct e; intros H; try (apply list_elem_of_further; by eapply IH).
  apply elem_of_cons in H as [[= -> -> ->]|H]; [left|]. right. by eapply IH.
Qed.

(** ** Sequences of ticks *)

Lemma run_snoc cfg st tr st1 i acts st2 :
  run cfg st tr st1 → tick_step cfg i st1 st2 acts → run cfg st (tr ++ [(i, acts)]) st2.
Proof.
  induction 1 as [st|st j a st' tr st1 Hstep _ IH]; intros H; cbn.
  - by eapply run_cons; [|constructor].
  - eapply run_cons; [done|by apply IH].
Qed.

(** A run of the cross link monitor with the actions of its ticks. *)
Inductive crosslink_trace (cfg : crosslink_config) :
    list (crosslink_input * list action) → gmap Z processedCrossLink → Prop :=
  | crosslink_trace_nil : crosslink_trace cfg [] ∅
  | crosslink_trace_snoc tr i last last' links acts :
      crosslink_trace cfg tr last → crosslink_step cfg i last last' links acts →
      crosslink_trace cfg (tr ++ [(i, acts)]) last'.

Lemma crosslink_trace_run cfg tr last : crosslink_trace cfg tr last → crosslink_run cfg tr.*1 last.
Proof.
  induction 1 as [|tr i last last' links acts _ IH Hs]; [constructor|].
  rewrite fmap_app. by eapply crosslink_run_snoc.
Qed.

(** ** The pages of the second looks *)

Definition page_event (key chain incident text : string) : V2Event :=
  MkV2Event key "trigger" incident (MkV2Payload incident chain "critical" text).

Definition sync_page (key chain IP : string) (shardHeight : Z) (r : BlockHeaderReply) : V2Event :=
  page_event key chain (Sprintf "%s out of sync! - %s" [OStr IP; OStr chain])
    (Sprintf blockHeightMessage
       [OStr IP; OInt TUint64 (bh_BlockNumber r); OInt TUint64 shardHeight;
        OInt TUint32 (bh_ShardID r); OStr chain]).

Definition beacon_page (key chain IP : string) (beaconHeight : Z) (p : HeaderPair) : V2Event :=
  page_event key chain (beacon_incident IP chain) (beacon_text IP chain beaconHeight p).

Lemma sync_reply_pages pd IP key chain block height r ev :
  ev ∈ pages (sync_reply pd IP key chain block height r) →
  ∃ res payload, r = (res, payload, None) ∧ bh_BlockNumber (decode_header res) ≤ block
    ∧ ev = sync_page key chain IP height (decode_header res).
Proof.
  destruct r as [[result payload] [e|]]; unfold sync_reply; [set_solver|].
  destruct (Z.ltb_spec block (bh_BlockNumber (decode_header result)));
    cbn [negb]; [set_solver|]. rewrite pages_app, pages_alert. cbn [pages omap list_omap page_of app].
  intros ->%list_elem_of_singleton. by exists result, payload.
Qed.

Lemma beacon_reply_pages pd block height threshold IP key chain r ev :
  is_uint64 height → block < height →
  ev ∈ pages (beacon_reply pd block height threshold IP key chain r) →
  ∃ res payload, r = (res, payload, None)
    ∧ hd_Number (hp_Beacon (decode_pair res)) ≤ block
    ∧ threshold < height - hd_Number (hp_Beacon (decode_pair res))
    ∧ ev = beacon_page key chain IP height (decode_pair res).
Proof.
  intros Hb Hlt. destruct r as [[result payload] [e|]]; unfold beacon_reply; [set_solver|].
  set (n := hd_Number (hp_Beacon (decode_pair result))).
  assert (is_uint64 n) as Hn by (apply (decode_pair_wf result)).
  destruct (Z.ltb_spec block n); cbn [negb andb]; [set_solver|].
  rewrite sub64_no_wrap by (done || lia).
  destruct (Z.ltb_spec threshold (height - n)); [|set_solver].
  rewrite pages_app, pages_alert. cbn [pages omap list_omap page_of app].
  intros ->%list_elem_of_singleton. by exists result, payload.
Qed.
