(* ===== verification/Alarms.v ===== *)
(** * The monitors within the process

    In the process of [System] the goroutines interfere. Still each of them does
    what its monitor is proved to do: the ticks of the consensus monitor form a
    [Consensus.run], those of the cross link monitor a [CrossLink.crosslink_run],
    and so on, on the replies of the rounds in the trace ([monitors_run]). So every
    page, and every check that is started, has a cause among the answers the process
    has got by then ([pages_justified]); a process whose tickers have no positive
    period gets none ([negative_intervals]). *)

From S2P Require Import Prelude GoFloat GoFmt GoTime GoJson Rpc Pool Goroutines Histories Linq Alerts.
From S2P Require Import Summary Monitor Consensus CrossLink Cx P2p Beacon Config Manager Reports System.
From S2P Require Import Runs Safety Invariants Ticks.

Section process.
Context (MR : GoRuntime).
Context (buildVersion : string) (params : watchParams) (superCommittee : gmap Z committee).
Notation shardMap := (shard_map (MR := MR) superCommittee).
Notation steps := (watchdog_steps MR buildVersion params superCommittee).
Notation start := (watchdog_start MR params superCommittee).
Notation loops := (watchdog_loops MR params superCommittee).
Notation state := (@asys variable local monitor action runtime).
Notation arun := (abs_run m_inUse set_inUse (http_request buildVersion) (starts shardMap)
  (abs start)).
Notation ccfg := (consensus_settings MR params superCommittee).
Notation xcfg := (cx_settings params).
Notation lcfg := (crosslink_settings params).
Notation key := (wp_EventServiceKey params).
Notation chain := (wp_TargetChain params).

(** ** Runs *)

Definition first_update (p : program) : Prop := p = committee_prog (getBeaconChainNode shardMap).

Lemma arun_chronicle a :
  arun a → chronicle (http_request buildVersion) (starts shardMap) initial_local first_update a.
Proof.
  intros Hrun. eapply abs_run_chronicle; [|exact Hrun]. apply chronicle_start. intros i o g.
  unfold abs_gos. rewrite list_lookup_fmap_Some. intros ([o' g'] & [= -> ->] & Hi).
  destruct o' as [l|].
  - destruct (start_loops _ _ _ _ _ _ Hi) as [_ ->]. left. by exists l.
  - right. rewrite start_gos in Hi. apply list_elem_of_lookup_2 in Hi.
    rewrite !elem_of_cons, elem_of_nil in Hi. repeat destruct Hi as [Hi|Hi]; try done.
    injection Hi as ->. by eexists.
Qed.

Lemma watchdog_loop_total l rt now s : l ∈ loops → total (l_body l rt now s).
Proof.
  unfold watchdog_loops. rewrite !elem_of_cons, elem_of_nil.
  intros [-> | [-> | [-> | [-> | [-> | []]]]]].
  - apply metadata_total.
  - apply header_total.
  - apply consensus_total.
  - apply cx_total.
  - apply crosslink_total.
Qed.

(** ** The monitors *)

(** The replies of a tick are those of rounds that were served. *)
Definition asked (replies : list reply) : Prop :=
  ∃ R : GoRuntime, served (node_jobs shardMap BlockHeaderRPC) replies.
Definition links_asked (metas replies : list reply) : Prop :=
  ∃ R : GoRuntime, served (beacon_jobs shardMap) metas
    ∧ served (leader_jobs (find_leaders metas)) replies.
Definition cx_asked (metas replies : list reply) : Prop :=
  ∃ R : GoRuntime, served (node_jobs shardMap NodeMetadataRPC) metas
    ∧ served (cx_jobs (cx_leaders metas)) replies.

(** A tick of the trace is one of a run: its time, its rounds, its actions. *)
Definition consensus_in (p : tick_input * list action) (t : Time * list go_event) : Prop :=
  ti_now p.1 = t.1 ∧ received t.2 = [(BlockHeaderRPC, ti_replies p.1)] ∧ all_acts t.2 = p.2
  ∧ asked (ti_replies p.1).
Definition crosslink_in (p : crosslink_input * list action) (t : Time * list go_event) : Prop :=
  xi_now p.1 = t.1 ∧ all_acts t.2 = p.2
  ∧ ∃ metas, received t.2 = [(NodeMetadataRPC, metas); (LastCrossLinkRPC, xi_replies p.1)]
      ∧ links_asked metas (xi_replies p.1).
Definition cx_in (t : Time * list go_event) : Prop :=
  ∃ metas replies (R : GoRuntime) pd,
    received t.2 = [(NodeMetadataRPC, metas); (PendingCXRPC, replies)] ∧ cx_asked metas replies
    ∧ all_acts t.2 = cx_tick (MR := R) pd xcfg metas replies.

Notation cloop := (consensus_loop MR params superCommittee).
Notation xloop := (cx_loop MR params superCommittee).
Notation lloop := (crosslink_loop MR params superCommittee).

Lemma may_tick rt now s es s' :
  may (l_body cloop rt now s) es s' →
  ∃ i ls, ti_now i = now ∧ asked (ti_replies i)
    ∧ es = tick_shape consensus_first [(BlockHeaderRPC, ti_replies i)] ls
    ∧ consensus_tick (L := rt_linq rt) (MR := rt_go rt) (rt_pager rt) ccfg now (ti_down i)
        (ti_replies i) (lo_consensus s) = Done (lo_consensus s', consensus_first ++ concat ls).
Proof.
  intros (wd & replies & ls & acts & Hs & -> & -> & E)%may_consensus; [|done].
  exists (MkTickInput now wd replies), ls. split_and!; [done|by exists (rt_go rt)|done|exact E].
Qed.

Lemma consensus_history h s :
  ticked cloop initial_local h s →
  ∃ tr, run ccfg initial_consensus tr (lo_consensus s) ∧ Forall2 consensus_in tr h.
Proof.
  induction 1 as [|h s rt now es s' _ (tr & Hr & Ha) Hm]; [by exists []; split; constructor|].
  apply may_tick in Hm as (i & ls & En & Hi & -> & E).
  exists (tr ++ [(i, consensus_first ++ concat ls)]). split.
  - eapply run_snoc; [exact Hr|]. rewrite <-En in E. by apply (tick_step_intro _ _ _ _ _ _ (rt_go rt)) in E.
  - apply Forall2_app; [done|]. constructor; [|constructor].
    split_and!; [done|apply tick_shape_received|apply tick_shape_acts|done].
Qed.

Lemma may_link_tick rt now s es s' :
  may (l_body lloop rt now s) es s' →
  ∃ metas replies ls links, links_asked metas replies
    ∧ es = tick_shape crosslink_first [(NodeMetadataRPC, metas); (LastCrossLinkRPC, replies)] ls
    ∧ crosslink_step lcfg (MkCrossLinkInput now replies) (lo_lastProcessed s) (lo_lastProcessed s')
        links (crosslink_first ++ concat ls).
Proof.
  intros (metas & replies & ls & links & Hm & Hr & -> & E)%may_crosslink.
  exists metas, replies, ls, links. split_and!; [by exists (rt_go rt)|done|].
  by apply (crosslink_step_intro _ (MkCrossLinkInput now replies) _ _ _ _ (rt_go rt)) in E.
Qed.

Lemma crosslink_history h s :
  ticked lloop initial_local h s →
  ∃ tr, crosslink_trace lcfg tr (lo_lastProcessed s) ∧ Forall2 crosslink_in tr h.
Proof.
  induction 1 as [|h s rt now es s' _ (tr & Hr & Ha) Hm]; [by exists []; split; constructor|].
  apply may_link_tick in Hm as (metas & replies & ls & links & Hi & -> & E).
  eexists (tr ++ [(_, _)]). split; [by eapply crosslink_trace_snoc|].
  apply Forall2_app; [done|]. constructor; [|constructor].
  split_and!; [done|apply tick_shape_acts|]. exists metas. split; [apply tick_shape_received|done].
Qed.

Lemma cx_history h s : ticked xloop initial_local h s → Forall cx_in h.
Proof.
  induction 1 as [|h s rt now es s' _ IH Hm]; [done|]. apply Forall_app_2; [done|].
  constructor; [|done]. apply (may_cx _ _ _ now) in Hm as (metas & replies & ls & Hms & Hr & -> & E & _).
  exists metas, replies, (rt_go rt), (rt_pager rt).
  split_and!; [apply tick_shape_received|by exists (rt_go rt)|]. rewrite E. apply tick_shape_acts.
Qed.

(** The whole ticks of a loop, as the monitors' files describe them. *)
Definition does_run (l : go_loop) (h : list (Time * list go_event)) : Prop :=
  (l = cloop → ∃ tr st, run ccfg initial_consensus tr st ∧ Forall2 consensus_in tr h)
  ∧ (l = lloop → ∃ tr last, crosslink_trace lcfg tr last ∧ Forall2 crosslink_in tr h)
  ∧ (l = xloop → Forall cx_in h).

Lemma ticked_does_run l h s : ticked l initial_local h s → does_run l h.
Proof.
  intros H. split_and!; intros ->.
  - apply consensus_history in H as (tr & H). eauto.
  - apply crosslink_history in H as (tr & H). eauto.
  - by eapply cx_history.
Qed.

(** C10: the monitors do what they are proved to do, whatever the interleaving.
    In every reachable state of the process, what a monitor did is what whole ticks
    of it and a part of one more do, nothing of the latter while the monitor
    waits. The whole ticks, and the part once completed, are a run of the consensus
    monitor, of the cross link monitor or of the cross shard monitor, at the times
    of the ticks and on the replies that were received in them, which are those of
    rounds in which every node that was asked gave its answer. *)
Theorem monitors_run y i l g :
  steps y → y_gos y !! i = Some (Some l, g) →
  ∃ h part, of_go i (y_trace y) = (h ≫= tick_events) ++ part ∧ does_run l h
    ∧ ((∃ s, g = Waiting s) → part = [])
    ∧ ((∀ s, g ≠ Waiting s) → ∃ now es rest,
         part = Ticked now :: es ∧ does_run l (h ++ [(now, es ++ rest)])).
Proof.
  intros Hy Hi. destruct (arun_chronicle _ (steps_arun _ _ _ _ y Hy)) as [_ Ht].
  destruct (proj1 (process_loops _ _ _ _ y i l Hy)) as [g0 Hg]; [by exists g|].
  apply start_loops in Hg as [Hl _].
  specialize (Ht i (Some l) (abs_go g) (abs_gos_lookup _ _ _ _ Hi)). cbn [a_trace abs] in Ht.
  inversion Ht as [l' h s Htick E1 E2 E|l' h s rt now es q Htick Hr E1 E2 E| |]; subst.
  - exists h, []. rewrite app_nil_r. split_and!; [done|by eapply ticked_does_run|done|].
    intros Hn. exfalso. destruct g; try done. by eapply Hn.
  - exists h, (Ticked now :: es). split_and!; [done|by eapply ticked_does_run| |].
    + intros [s' ->]. done.
    + intros _. destruct (reaches_completes initial_local (new_monitor "") _ _ _
        (watchdog_loop_total l rt now s Hl) Hr) as (rest & s' & Hm).
      exists now, es, rest. split; [done|]. by eapply ticked_does_run, ticked_snoc.
Qed.

(** ** Causes of pages *)

Notation trace := (list (nat * go_event)).
Notation headers ds := (omap header_of_reply ds).

(** The last round of the consensus monitor. *)
Definition last_round (tr : trace) (now : Time) (before : list (Time * (string * list reply)))
    (ds : list reply) : Prop :=
  rounds_of consensus_go tr = before ++ [(now, (BlockHeaderRPC, ds))].

(** A node was behind its shard in a round of the consensus monitor. *)
Definition behind_shard (tr : trace) (ds : list reply) (v : BlockHeader) : Prop :=
  (consensus_go, Received BlockHeaderRPC ds) ∈ tr
  ∧ v ∈ headers ds ∧ lagging (cf_tolerance ccfg) (headers ds) v.

(** A node of another shard was behind the beacon chain: after a round of the
    consensus monitor with the header [h] for the beacon chain it answered [d]. *)
Definition behind_beacon (tr : trace) (node : string) (h : BlockHeader) (hd : Header) : Prop :=
  ∃ tr1 i d tr2 ds shard,
    tr = tr1 ++ (i, fetched (job LatestHeadersRPC node) d) :: tr2
    ∧ (consensus_go, Received BlockHeaderRPC ds) ∈ tr1 ∧ latest (headers ds) "0" h
    ∧ shardMap !! node = Some shard ∧ shard ≠ 0 ∧ beacon_view d = Some hd
    ∧ hd_Number hd < header_block h ∧ cf_tolerance ccfg ≤ header_block h - hd_Number hd.

(** What the monitors have observed of the cross links. *)
Definition observed (rounds : list (Time * (string * list reply))) : list (Time * CrossLink) :=
  rounds ≫= λ '(t, (rpc, ds)),
    if decide (rpc = LastCrossLinkRPC) then observe t (tick_links ds) else [].

(** Why an action is taken, in terms of what the process saw before it. *)
Inductive cause (tr : trace) : action → Prop :=
  (** the latest header of a shard in the last round is not beyond the latest one
      [h0] of an earlier round, which is overdue *)
  | stuck_shard now before ds t0 ds0 shard h0 h :
      last_round tr now before ds → (t0, (BlockHeaderRPC, ds0)) ∈ before →
      latest (headers ds0) shard h0 → latest (headers ds) shard h →
      header_block h ≤ header_block h0 →
      overdue (cf_warning ccfg) (Sub now (Unix (bh_UnixTime (bhd_Payload h0)))) = true →
      cause tr (ManageEvent (consensus_page ccfg now shard (recorded h0) h))
  (** a cross link of the last round is not beyond the greatest one seen for its
      shard until then, which was first seen a while ago *)
  | stuck_link now before metas ds seen l rest t0 l0 :
      rounds_of crosslink_go tr
      = before ++ [(now, (NodeMetadataRPC, metas)); (now, (LastCrossLinkRPC, ds))] →
      tick_links ds = seen ++ l :: rest →
      first_max (of_shard (cl_ShardID l) (observed before ++ observe now seen)) (t0, l0) →
      cl_BlockNumber l ≤ cl_BlockNumber l0 → xf_warning lcfg ≤ whole_seconds (Sub now t0) →
      cause tr (ManageEvent (crosslink_page lcfg l (Sub now t0)))
  (** a node that said that it leads its shard has too many pending cross shard
      transactions *)
  | full_pool now before metas ds d r :
      rounds_of cx_go tr
      = before ++ [(now, (NodeMetadataRPC, metas)); (now, (PendingCXRPC, ds))] →
      d ∈ metas → leads d → r ∈ ds → r_address d = r_address r → r_oops r = None →
      xc_limit xcfg < decode_cx (r_result r) →
      cause tr (ManageEvent (cx_page xcfg (led_shard d) (decode_cx (r_result r))))
  (** the nodes of a shard had few connections in a round of the manager *)
  | few_peers ds shard values :
      (metadata_go, Received NodeMetadataRPC ds) ∈ tr →
      percent_map (omap metadata_of_reply ds) !! shard = Some values → average values ≠ 0 →
      average values < wp_Connectivity_Warning params →
      cause tr (ManageEvent (p2p_page key chain shard (average values)))
  (** a node was behind its shard, and was not further when asked again *)
  | lagging_node tr1 i res payload tr2 ds v :
      tr = tr1 ++ (i, Fetched ("http://" +:+ bhd_IP v) (request_body BlockHeaderRPC)
                        (res, payload, None)) :: tr2 →
      behind_shard tr1 ds v → bh_BlockNumber (decode_header res) ≤ header_block v →
      cause tr (ManageEvent (sync_page key chain (bhd_IP v)
                  (shard_height (headers ds) (header_shard v)) (decode_header res)))
  (** a node was behind the beacon chain, and was not further when asked again *)
  | lagging_beacon tr1 i res payload tr2 node h hd :
      tr = tr1 ++ (i, Fetched ("http://" +:+ node) (request_body LatestHeadersRPC)
                        (res, payload, None)) :: tr2 →
      behind_beacon tr1 node h hd → hd_Number (hp_Beacon (decode_pair res)) ≤ hd_Number hd →
      cf_tolerance ccfg < header_block h - hd_Number (hp_Beacon (decode_pair res)) →
      cause tr (ManageEvent (beacon_page key chain node (header_block h) (decode_pair res)))
  (** the checks that are started *)
  | heights_started now before ds :
      last_round tr now before ds →
      cause tr (GoCheckShardHeight (headers ds) (cf_warning ccfg) (cf_tolerance ccfg) key chain)
  | sync_started ds v :
      behind_shard tr ds v →
      cause tr (GoCheckSync (bhd_IP v) key chain (header_block v)
                  (shard_height (headers ds) (header_shard v)) (cf_warning ccfg))
  | beacon_started now before ds h :
      last_round tr now before ds → latest (headers ds) "0" h →
      cause tr (GoBeaconSyncMonitor (header_block h) (cf_warning ccfg) (cf_tolerance ccfg)
                  (wp_WorkerPoolSize params) key chain)
  | beacon_sync_started node h hd :
      behind_beacon tr node h hd →
      cause tr (GoCheckBeaconSync (hd_Number hd) (header_block h) (cf_tolerance ccfg)
                  (cf_warning ccfg) node key chain)
  | peers_started ds :
      (metadata_go, Received NodeMetadataRPC ds) ∈ tr →
      cause tr (GoP2pMonitor (wp_Connectivity_Warning params) key chain (omap metadata_of_reply ds))
  | committee_started ds h node :
      (header_go, Received BlockHeaderRPC ds) ∈ tr → h ∈ headers ds → header_shard h = 0 →
      0 < header_epoch h → node = EmptyString ∨ shardMap !! node = Some 0 →
      cause tr (GoStakingCommitteeUpdate node).

(** Pages and starts of goroutines. *)
Definition notable (x : action) : Prop :=
  match x with
  | ManageEvent _ | GoCheckShardHeight _ _ _ _ _ | GoCheckSync _ _ _ _ _ _
  | GoBeaconSyncMonitor _ _ _ _ _ _ | GoCheckBeaconSync _ _ _ _ _ _ _ | GoP2pMonitor _ _ _ _
  | GoStakingCommitteeUpdate _ => True
  | _ => False
  end.

Lemma not_logging x l : notable x → Forall logging l → x ∉ l.
Proof. intros Hx Hl Hin. rewrite Forall_forall in Hl. specialize (Hl x Hin). by destruct x. Qed.

(** *** The loops *)

(** A loop logged [acts] in a tick after the ticks [h]. *)
Definition in_tick (l : go_loop) (es : list go_event) (acts : list action) : Prop :=
  ∃ h s rt now es' rest s', ticked l initial_local h s
    ∧ may (l_body l rt now s) (es' ++ Logged acts :: rest) s'
    ∧ es = (h ≫= tick_events) ++ Ticked now :: es'.

(** The rounds of a tick are there when it logs something notable. *)
Lemma tick_rounds_of i pre h now first rs ls es acts rest x :
  Forall (λ t, Forall unticked t.2) h →
  of_go i pre = (h ≫= tick_events) ++ Ticked now :: es →
  tick_shape first rs ls = es ++ Logged acts :: rest → x ∈ acts → notable x → Forall logging first →
  rounds_of i pre = (h ≫= tick_rounds) ++ (pair now <$> rs).
Proof.
  intros Hh E Es Hx Hn Hf. unfold rounds_of. rewrite E.
  destruct (tick_shape_split _ _ _ _ _ _ _ Es Hx (not_logging _ _ Hn Hf)) as [ls1 ->].
  rewrite stamped_ticks; [by rewrite tick_shape_received|done|].
  unfold tick_shape. constructor; [done|]. apply Forall_app_2; by apply Forall_fmap, Forall_true.
Qed.

(** What is logged in a tick is among its actions. *)
Lemma tick_shape_elem first rs ls es acts rest x :
  tick_shape first rs ls = es ++ Logged acts :: rest → x ∈ acts → x ∈ first ++ concat ls.
Proof. intros E Hx. rewrite <-(tick_shape_acts first rs ls). by eapply elem_of_lines. Qed.

(** The tick of a run that a tick of the trace is. *)
Lemma consensus_round tr h j a :
  Forall2 consensus_in tr h → (j, a) ∈ tr →
  (ti_now j, (BlockHeaderRPC, ti_replies j)) ∈ h ≫= tick_rounds.
Proof.
  intros H Hj. apply list_elem_of_lookup in Hj as [n Hn].
  destruct (Forall2_lookup_l _ _ _ _ _ H Hn) as ([now es] & Hk & E1 & E2 & _). cbn [fst snd] in E1, E2.
  apply list_elem_of_bind. exists (now, es). split; [|by eapply list_elem_of_lookup_2].
  unfold tick_rounds. cbn [fst snd]. rewrite E1, E2. apply list_elem_of_here.
Qed.

Lemma consensus_page_cause pre h i s s' acts ev :
  ticked cloop initial_local h s → tick_step ccfg i (lo_consensus s) (lo_consensus s') acts →
  last_round pre (ti_now i) (h ≫= tick_rounds) (ti_replies i) → ev ∈ pages acts →
  cause pre (ManageEvent ev).
Proof.
  intros (tr & Hrun & Hall)%consensus_history Hstep Hlast Hev.
  apply (page_due ccfg i (lo_consensus s) (lo_consensus s')) in Hev
    as (shard & lb & h1 & El & Hl & Hst & ->); [|done].
  destruct (run_provenance _ _ _ _ _ _ Hrun El) as [?|(j & a & h0 & Hj & Hl0 & ->)]; [done|].
  apply andb_prop in Hst as [Hle Hov]. apply Z.leb_le in Hle.
  unfold ti_nodes in Hl, Hl0. rewrite collect_headers_nodes in Hl, Hl0.
  eapply stuck_shard; [exact Hlast|by eapply consensus_round|done..].
Qed.

Lemma consensus_cause pre acts x :
  in_tick cloop (of_go consensus_go pre) acts → x ∈ acts → notable x → cause pre x.
Proof.
  intros (h & s & rt & now & es & rest & s' & Ht & Hm & E) Hx Hn.
  apply may_tick in Hm as (i & ls & En & Hi & Es & Etick). symmetry in Es.
  assert (last_round pre now (h ≫= tick_rounds) (ti_replies i)) as Hr.
  { eapply (tick_rounds_of _ _ _ _ _ [_]);
      [by eapply ticked_unticked|exact E|exact Es|exact Hx|exact Hn|by repeat constructor]. }
  pose proof (tick_shape_elem _ _ _ _ _ _ _ Es Hx) as Hin.
  pose proof (consensus_tick_actions _ _ _ _ _ _ _ _ Etick) as Ha. rewrite Forall_forall in Ha.
  specialize (Ha x Hin). rewrite collect_headers_nodes in Ha.
  destruct x as [| | |ev| | | | | | |]; try done; cbn in Ha.
  - subst now. apply (tick_step_intro _ _ _ _ _ _ (rt_go rt)) in Etick.
    eapply consensus_page_cause; [exact Ht|exact Etick|exact Hr|by apply elem_of_pages].
  - destruct Ha as (-> & -> & -> & -> & ->). by eapply heights_started.
  - destruct Ha as ((h1 & Hl & ->) & -> & -> & -> & -> & ->). by eapply beacon_started.
Qed.

Lemma cx_cause pre acts x :
  in_tick xloop (of_go cx_go pre) acts → x ∈ acts → notable x → cause pre x.
Proof.
  intros (h & s & rt & now & es & rest & s' & Ht & Hm & E) Hx Hn.
  apply (may_cx _ _ _ now) in Hm as (metas & replies & ls & Hms & Hrs & Es & Etick & _). symmetry in Es.
  pose proof (tick_rounds_of _ _ _ _ _ _ _ _ _ _ _ (ticked_unticked _ _ _ _ Ht) E Es Hx Hn
    ltac:(by repeat constructor)) as Hr. cbn in Hr.
  pose proof (tick_shape_elem _ _ _ _ _ _ _ Es Hx) as Hin. rewrite <-Etick in Hin.
  pose proof (cx_tick_reports (MR := rt_go rt) (rt_pager rt) xcfg metas replies) as Ha.
  rewrite Forall_forall in Ha. specialize (Ha x Hin). destruct x as [| | |ev| | | | | | |]; try done.
  apply elem_of_pages in Hin. rewrite cx_tick_pages in Hin.
  apply list_elem_of_omap in Hin as (r & Hin & Hal).
  apply (cx_alarm_iff (rt_go rt) (rt_go rt) (rt_go rt) xcfg shardMap metas replies) in Hal
    as (d & Hd & Hlead & Haddr & Hok & Hlim & ->); [|done..].
  by eapply full_pool.
Qed.

(** What the ticks of the trace observed is what those of the run did. *)
Lemma crosslink_observed tr h :
  Forall2 crosslink_in tr h → observed (h ≫= tick_rounds) = history tr.*1.
Proof.
  induction 1 as [|[i acts] [now es] tr h Hin _ IH]; [done|].
  destruct Hin as (E1 & _ & metas & E2 & _). cbn [fst snd] in E1, E2.
  cbn [mbind list_bind]. unfold tick_rounds at 1. cbn [fst snd].
  unfold observed, history in *. rewrite bind_app, IH, E2, <-E1. cbn. by rewrite app_nil_r.
Qed.

Lemma crosslink_cause pre acts x :
  in_tick lloop (of_go crosslink_go pre) acts → x ∈ acts → notable x → cause pre x.
Proof.
  intros (h & s & rt & now & es & rest & s' & Ht & Hm & E) Hx Hn.
  apply may_link_tick in Hm as (metas & replies & ls & links & Hi & Es & Hstep). symmetry in Es.
  pose proof (tick_rounds_of _ _ _ _ _ _ _ _ _ _ _ (ticked_unticked _ _ _ _ Ht) E Es Hx Hn
    ltac:(by repeat constructor)) as Hr. cbn in Hr.
  pose proof (tick_shape_elem _ _ _ _ _ _ _ Es Hx) as Hin.
  assert (link_action x) as Ha.
  { destruct Hstep as [R pd Etick]. apply crosslink_tick_links in Etick.
    rewrite Forall_forall in Etick. by apply Etick. }
  destruct x as [| | |ev| | | | | | |]; try done. apply elem_of_pages in Hin.
  apply crosslink_history in Ht as (tr & Hrun & Hall).
  pose proof (crosslink_run_remembers _ _ _ (crosslink_trace_run _ _ _ Hrun)) as Hrem.
  apply (crosslink_step_pages lcfg _ _ _ _ _ _ ev Hrem Hstep) in Hin
    as (seen & l & rest' & t & l0 & El & Hmax & Hle & Hw & ->).
  rewrite <-(crosslink_observed _ _ Hall) in Hmax. by eapply stuck_link.
Qed.

(** What the managers start. *)
Lemma managers_cause (a : state) pre i acts x :
  arun a → a_trace a = pre ++ [(i, Logged acts)] → x ∈ acts →
  (∃ nodes, x = GoP2pMonitor (wp_Connectivity_Warning params) key chain nodes)
  ∨ (∃ node, x = GoStakingCommitteeUpdate node) →
  cause pre x.
Proof.
  intros Ha E Hx Hor. destruct (arun_sound _ _ _ _ a Ha) as [_ _ _ Hlog]. rewrite E in Hlog.
  rewrite Forall_forall in Hlog. assert (action_from shardMap (pre ++ [(i, Logged acts)]) x) as H.
  { apply Hlog, elem_of_logged. exists i, acts. split; [|done]. apply elem_of_app. right. apply list_elem_of_here. }
  assert (∀ k rpc ds, (k, Received rpc ds) ∈ pre ++ [(i, Logged acts)] → (k, Received rpc ds) ∈ pre) as Hin.
  { intros k rpc ds Hk. apply elem_of_app in Hk as [Hk|Hk]; [exact Hk|].
    apply list_elem_of_singleton in Hk. discriminate Hk. }
  destruct Hor as [[nodes ->]|[node ->]]; cbn in H.
  - destruct H as (ds & [_ Hds] & ->). apply peers_started. by apply Hin.
  - destruct H as (Hn & ds & h & [_ Hds] & Hh & H0 & He). eapply committee_started; eauto.
Qed.

Lemma epoch_check_actions prev node nodes x :
  x ∈ (epoch_check prev node nodes).2 → x = GoStakingCommitteeUpdate node.
Proof.
  induction nodes as [|n nodes IH]; cbn; [by intros ?%elem_of_nil|].
  destruct (header_shard n =? 0); [|done]. destruct (prev <? header_epoch n); cbn; [apply list_elem_of_singleton|by intros ?%elem_of_nil].
Qed.

(** A line of a loop was logged in a tick of it. *)
Lemma loop_line (a : state) pre i acts l g :
  arun a → a_trace a = pre ++ [(i, Logged acts)] → a_gos a !! i = Some (Some l, g) →
  in_tick l (of_go i pre) acts ∧ y_gos start !! i = Some (Some l, Waiting initial_local).
Proof.
  intros Ha E Hi. destruct (arun_loop _ _ _ _ a i l g Ha Hi) as [g' Hg].
  destruct (start_loops _ _ _ _ _ _ Hg) as [Hl ->]. split; [|done].
  destruct (arun_chronicle a Ha) as [_ Ht]. specialize (Ht i _ g Hi).
  rewrite E, of_go_app in Ht. change [(i, Logged acts)] with (own i [Logged acts]) in Ht.
  rewrite of_go_own in Ht. eapply (told_tick (new_monitor "")); [|exact Ht].
  intros rt now s. by apply watchdog_loop_total.
Qed.

Lemma loop_cause (a : state) pre i acts l g x :
  arun a → a_trace a = pre ++ [(i, Logged acts)] → a_gos a !! i = Some (Some l, g) →
  x ∈ acts → notable x → cause pre x.
Proof.
  intros Ha E Hi Hx Hn. destruct (loop_line a pre i acts l g Ha E Hi) as [Hl Hg].
  rewrite start_gos in Hg. destruct i as [|[|[|[|[|[|i]]]]]]; try done; cbn in Hg; injection Hg as <-.
  - destruct Hl as (h & s & rt & now & es & rest & s' & _ & Hm & _).
    eapply managers_cause; [exact Ha|exact E|done|]. right.
    apply (may_header _ now) in Hm as (ds & prev & nodes & _ & Es). eexists.
    eapply epoch_check_actions. symmetry in Es. eapply elem_of_lines in Es; [|exact Hx].
    cbn in Es. rewrite app_nil_r in Es. exact Es.
  - by eapply consensus_cause.
  - by eapply cx_cause.
  - by eapply crosslink_cause.
  - destruct Hl as (h & s & rt & now & es & rest & s' & _ & Hm & _).
    eapply managers_cause; [exact Ha|exact E|done|]. left.
    apply (may_metadata _ _ _ _ now) in Hm as (ds & nodes & _ & Es). exists nodes.
    symmetry in Es. eapply elem_of_lines in Es; [|exact Hx].
    by apply list_elem_of_singleton in Es.
Qed.

(** *** The checks *)

(** A line of another goroutine: it was started by an action, and what it did since
    then begins what its check does. *)
Lemma check_line (a : state) pre i acts g x :
  arun a → a_trace a = pre ++ [(i, Logged acts)] → a_gos a !! i = Some (None, g) →
  x ∈ acts → notable x →
  ∃ c pre1 j acts' pre2 rt rest, pre = pre1 ++ (j, Logged acts') :: pre2 ∧ c ∈ acts'
    ∧ does_check (MR := rt_go rt) (rt_pager rt) shardMap c (of_go i pre2 ++ Logged acts :: rest).
Proof.
  intros Ha E Hi Hx Hn. destruct (arun_chronicle a Ha) as [_ Ht]. specialize (Ht i _ g Hi).
  rewrite E, of_go_app in Ht. change [(i, Logged acts)] with (own i [Logged acts]) in Ht at 2.
  rewrite of_go_own in Ht. apply (told_check (new_monitor "")) in Ht as (p & rest & s & Hp & Hm).
  2:{ intros p [-> |Hp|rt c j acts' tr1 tr2 _ _ Hs _ _]; [left; apply committee_total|
        right; by eapply http_request_mute|left; by apply (spawns_total (MR := rt_go rt) (rt_pager rt)) in Hs]. }
  destruct Hp as [-> |Hp|rt c j acts' tr1 tr2 Etr Hc Hs Hne Hno].
  - exfalso. apply may_committee in Hm. eapply not_logging; [exact Hn|exact Hm|].
    by eapply elem_of_lines.
  - exfalso. apply http_request_mute in Hp. apply may_mute in Hm; [|done]. by destruct (of_go i pre).
  - destruct tr2 as [|e tr2 _] using rev_ind.
    { apply app_inj_2 in Etr as [_ [= -> _]]; [|done]. done. }
    rewrite app_comm_cons, app_assoc in Etr. apply app_inj_2 in Etr as [-> _]; [|done].
    rewrite of_go_app, Hno in Hm. exists c, tr1, j, acts', tr2, rt, rest.
    split_and!; [done|done|]. eapply (may_check (MR := rt_go rt)); [exact Hs|].
    change ((j, Logged acts') :: tr2) with (own j [Logged acts'] ++ tr2) in Hm.
    rewrite of_go_app, of_go_other in Hm by done. exact Hm.
Qed.

(** What was seen stays seen. *)
Lemma behind_shard_app tr tr' ds v : behind_shard tr ds v → behind_shard (tr ++ tr') ds v.
Proof. intros (H1 & H2). split; [|done]. apply elem_of_app. by left. Qed.

Lemma behind_beacon_app tr tr' node h hd :
  behind_beacon tr node h hd → behind_beacon (tr ++ tr') node h hd.
Proof.
  intros (tr1 & i & d & tr2 & ds & shard & -> & H). exists tr1, i, d, (tr2 ++ tr'), ds, shard.
  by rewrite <-app_assoc.
Qed.

Lemma last_round_in tr now before ds :
  last_round tr now before ds → (consensus_go, Received BlockHeaderRPC ds) ∈ tr.
Proof.
  intros H. apply (elem_of_rounds _ _ now). rewrite H. apply elem_of_app. right. apply list_elem_of_here.
Qed.

(** A second look: it sleeps, asks, and says what it found. *)
Lemma look_line (es : list go_event) first e acts' acts rest x :
  [Logged first; e; Logged acts'] = es ++ Logged acts :: rest → acts_of e = [] →
  Forall logging first → x ∈ acts → notable x → acts = acts' ∧ e ∈ es.
Proof.
  intros E He Hf Hx Hn. destruct es as [|e1 [|e2 es]].
  - injection E as <- _. by destruct (not_logging _ _ Hn Hf).
  - injection E as <- -> _. cbn in He. subst acts. by apply elem_of_nil in Hx.
  - injection E as <- <- E. destruct es as [|e3 [|e4 es]]; try done. injection E as <- _.
    split; [done|]. right. left.
Qed.

(** The event of a goroutine among those of all. *)
Lemma of_go_split i (e : go_event) tr : e ∈ of_go i tr → ∃ tr1 tr2, tr = tr1 ++ (i, e) :: tr2.
Proof. intros H%elem_of_go. by apply list_elem_of_split. Qed.

Section one_check.
Context (R : GoRuntime) (pd : pager) (pre pre1 pre2 : trace) (i j : nat) (acts' acts : list action)
  (rest : list go_event) (x : action).
Hypothesis pre_split : pre = pre1 ++ (j, Logged acts') :: pre2.
Hypothesis x_logged : x ∈ acts.
Hypothesis x_notable : notable x.
Notation does c := (does_check (MR := R) pd shardMap c (of_go i pre2 ++ Logged acts :: rest)).

Lemma logging_sync nodes t w k c :
  Forall (λ a, logging a ∨ is_Some (sync_check a)) (checkShardHeight (MR := R) nodes t w k c).
Proof.
  constructor; [by left|]. apply Forall_bind, Forall_forall. intros [n s] _. apply check_heights_logs.
Qed.

Lemma heights_cause nodes t w k c :
  cause pre1 (GoCheckShardHeight nodes t w k c) → does (GoCheckShardHeight nodes t w k c) →
  cause pre x.
Proof using pre_split x_logged x_notable.
  intros Hc (ls & Es & Els). inversion Hc as [| | | | | |now before ds Hlast| | | | |]; subst nodes t w k c.
  symmetry in Es. eapply elem_of_lines in Es as Hx; [|exact x_logged].
  rewrite all_acts_logged, Els in Hx.
  pose proof (logging_sync (headers ds) (cf_warning ccfg) (cf_tolerance ccfg) key chain) as Hlog.
  rewrite Forall_forall in Hlog. destruct (Hlog x Hx) as [?|[x' Hs]]; [by destruct x|].
  assert (x' ∈ omap sync_check (checkShardHeight (MR := R) (headers ds) (cf_warning ccfg)
    (cf_tolerance ccfg) key chain)) as Ho by (apply list_elem_of_omap; by exists x).
  assert (x' = x) as -> by (destruct x; try done; by injection Hs).
  rewrite checkShardHeight_run in Ho.
  2:{ intros v (d & _ & Ed)%list_elem_of_omap. unfold header_of_reply in Ed.
      destruct (r_oops d); simplify_eq. apply decode_header_wf. }
  apply list_elem_of_fmap in Ho as (v & -> & [Hlag Hv]%list_elem_of_filter). apply sync_started.
  rewrite pre_split. apply behind_shard_app. by split; [eapply last_round_in|].
Qed.

Lemma sync_cause IP k c block height t :
  cause pre1 (GoCheckSync IP k c block height t) → does (GoCheckSync IP k c block height t) →
  cause pre x.
Proof using pre_split x_logged x_notable.
  intros Hc (r & Es). inversion Hc as [| | | | | | |ds v Hv| | | |]; subst IP k c block height t.
  symmetry in Es. eapply look_line in Es as [-> He];
    [|done|by repeat constructor|exact x_logged|exact x_notable].
  pose proof (sync_reply_reports pd (bhd_IP v) key chain (header_block v)
    (shard_height (headers ds) (header_shard v)) r) as Hrep.
  rewrite Forall_forall in Hrep. specialize (Hrep x x_logged).
  destruct x as [| | |ev| | | | | | |]; try done.
  apply elem_of_pages, sync_reply_pages in x_logged as (res & payload & -> & Hle & ->).
  apply of_go_split in He as (p1 & p2 & ->).
  eapply (lagging_node _ (pre1 ++ (j, Logged acts') :: p1)); [|by apply behind_shard_app|done].
  rewrite pre_split, <-app_assoc. done.
Qed.

(** The beacon headers, and what follows on them. *)
Lemma logging_beacon block interval threshold k c data :
  Forall (λ a, logging a ∨ is_Some (beacon_check a))
    (beaconSyncMonitor (MR := R) block interval threshold k c shardMap data).
Proof.
  unfold beaconSyncMonitor, getBeaconHeaders. destruct (collect_beacon data) as [ret success].
  rewrite fold_adds by (intros; apply beacon_header_acts). rewrite fold_then_acts. cbn [fst snd].
  destruct (fold_left _ _ _) as [blocks acts1] eqn:E.
  repeat (constructor; [by left|]). apply Forall_app_2.
  - change acts1 with (blocks, acts1).2. rewrite <-E. apply fold_left_inv; [|done].
    intros e [b a] _ Hl. unfold then_acts. cbn [fst snd] in *.
    pose proof (beacon_header_logs shardMap block interval threshold k c b e) as Hb.
    destruct (beacon_header _ _ _ _ _ _ _ _) as [b' a']. cbn [snd] in *. by apply Forall_app_2.
  - apply Forall_bind, Forall_forall. intros e _. eapply Forall_impl; [apply beacon_log_logs|].
    intros a Ha. by left.
Qed.

(** A node the beacon check found behind. *)
Lemma beacon_lag h data x' :
  is_uint64 (header_block h) → Forall2 answers (beacon_requests (MR := R) shardMap) data →
  x' ∈ omap beacon_check (beaconSyncMonitor (MR := R) (header_block h) (cf_warning ccfg)
         (cf_tolerance ccfg) key chain shardMap data) →
  ∃ node d hd shard, fetched (job LatestHeadersRPC node) d
      ∈ zip_with fetched (beacon_requests (MR := R) shardMap) data
    ∧ shardMap !! node = Some shard ∧ shard ≠ 0 ∧ beacon_view d = Some hd
    ∧ hd_Number hd < header_block h ∧ cf_tolerance ccfg ≤ header_block h - hd_Number hd
    ∧ x' = GoCheckBeaconSync (hd_Number hd) (header_block h) (cf_tolerance ccfg) (cf_warning ccfg)
             node key chain.
Proof.
  intros Hb Hs Ho. rewrite beaconSyncMonitor_checks in Ho; [|done|].
  2:{ rewrite (served_addresses (beacon_requests (MR := R) shardMap)) by (by exists data).
      apply beacon_requests_addresses. }
  apply list_elem_of_omap in Ho as (d & Hd & E). unfold lag_check in E.
  destruct (beacon_view d) as [hd|] eqn:Ev; [|done]. case_decide as Hlag; [|done]. injection E as <-.
  apply list_elem_of_lookup in Hd as [n Hn].
  destruct (Forall2_lookup_r _ _ _ _ _ Hs Hn) as (w & Hw & Hans).
  assert (w ∈ beacon_requests (MR := R) shardMap) as Hin by by eapply list_elem_of_lookup_2.
  rewrite beacon_requests_nodes in Hin. apply list_elem_of_fmap in Hin as (node & -> & Hnode).
  apply list_elem_of_fmap in Hnode as ([node' shard] & -> & [Hsh Hr]%list_elem_of_filter).
  apply elem_of_range in Hr. destruct (answers_address _ _ Hans) as [-> _]. cbn in *.
  exists node', d, hd, shard. destruct Hlag. split_and!; try done.
  apply (list_elem_of_lookup_2 _ n). by rewrite lookup_zip_with, Hw, Hn.
Qed.

Lemma latest_wf ds shard h : latest (headers ds) shard h → is_uint64 (header_block h).
Proof.
  intros [(d & _ & Ed)%list_elem_of_omap _]. unfold header_of_reply in Ed.
  destruct (r_oops d); simplify_eq. apply decode_header_wf.
Qed.

Lemma beacon_cause b t w n k c :
  cause pre1 (GoBeaconSyncMonitor b t w n k c) → does (GoBeaconSyncMonitor b t w n k c) →
  cause pre x.
Proof using pre_split x_logged x_notable.
  intros Hc Hd. inversion Hc as [| | | | | | | |now before ds h Hlast Hl| | |]; subst b t w n k c.
  assert (x ∉ beacon_first (header_block h)) as Hnf by (apply not_logging; [done|by repeat constructor]).
  destruct Hd as [Es|(data & ls & Hs & Es & Els)]; symmetry in Es.
  { eapply elem_of_lines in Es; [|exact x_logged]. cbn in Es. done. }
  pose proof (elem_of_lines _ _ _ _ _ Es x_logged) as Hx. rewrite shape_acts, <-Els in Hx by apply fetched_quiet.
  eapply shape_split in Es as [ls1 E1]; [|apply fetched_quiet|exact x_logged|exact Hnf].
  pose proof (logging_beacon (header_block h) (cf_warning ccfg) (cf_tolerance ccfg) key chain data) as Hlog.
  rewrite Forall_forall in Hlog. destruct (Hlog x Hx) as [?|[x' Hx']]; [by destruct x|].
  assert (x' = x) as -> by (destruct x; try done; by injection Hx').
  destruct (beacon_lag h data x (latest_wf _ _ _ Hl) Hs)
    as (node & d & hd & shard & Hin & Hsh & Hne & Hv & Hlt & Hlag & ->);
    [apply list_elem_of_omap; by eexists|].
  apply (beacon_sync_started _ node h hd).
  assert (fetched (job LatestHeadersRPC node) d ∈ of_go i pre2) as Hd.
  { rewrite E1. right. apply elem_of_app. by left. }
  apply of_go_split in Hd as (p1 & p2 & ->).
  exists (pre1 ++ (j, Logged acts') :: p1), i, d, p2, ds, shard.
  split; [by rewrite pre_split, <-app_assoc|]. split; [|by split_and!].
  apply elem_of_app. left. by eapply last_round_in.
Qed.

Lemma beacon_sync_cause block height w t IP k c :
  cause pre1 (GoCheckBeaconSync block height w t IP k c) →
  does (GoCheckBeaconSync block height w t IP k c) → cause pre x.
Proof using pre_split x_logged x_notable.
  intros Hc (r & Es). inversion Hc as [| | | | | | | | |node h hd Hb| |]; subst block height w t IP k c.
  symmetry in Es. eapply look_line in Es as [-> He];
    [|done|by repeat constructor|exact x_logged|exact x_notable].
  pose proof (beacon_reply_reports pd (hd_Number hd) (header_block h) (cf_tolerance ccfg) node key chain r)
    as Hrep.
  rewrite Forall_forall in Hrep. specialize (Hrep x x_logged).
  destruct x as [| | |ev| | | | | | |]; try done. pose proof Hb as (_ & _ & _ & _ & ds & _ & _ & _ & Hl & _ & _ & _ & Hlt & _).
  apply elem_of_pages, beacon_reply_pages in x_logged as (res & payload & -> & Hle & Hw & ->);
    [|by eapply latest_wf|done].
  apply of_go_split in He as (p1 & p2 & ->).
  eapply (lagging_beacon _ (pre1 ++ (j, Logged acts') :: p1)); [|by apply behind_beacon_app|done|done].
  rewrite pre_split, <-app_assoc. done.
Qed.

Lemma peers_cause w k c nodes :
  cause pre1 (GoP2pMonitor w k c nodes) → does (GoP2pMonitor w k c nodes) → cause pre x.
Proof using pre_split x_logged x_notable.
  intros Hc (ls & Es & Els). inversion Hc as [| | | | | | | | | |ds Hds|]; subst w k c nodes.
  symmetry in Es. eapply elem_of_lines in Es as Hx; [|exact x_logged].
  rewrite all_acts_logged, Els in Hx. unfold p2pMonitor in Hx.
  apply elem_of_cons in Hx as [->|Hx]; [done|].
  apply list_elem_of_bind in Hx as ([shard values] & Hx & Hr).
  pose proof (p2p_shard_reports pd (wp_Connectivity_Warning params) key chain shard values) as Hrep.
  rewrite Forall_forall in Hrep. specialize (Hrep x Hx). destruct x as [| | |ev| | | | | | |]; try done.
  apply elem_of_pages, p2p_shard_pages in Hx as (_ & H0 & Hw & ->). apply elem_of_range in Hr.
  eapply few_peers; [|exact Hr|done|done]. rewrite pre_split. apply elem_of_app. by left.
Qed.

Lemma check_cause c : cause pre1 c → does c → cause pre x.
Proof using pre_split x_logged x_notable.
  intros Hc Hd. destruct c; try done.
  - by eapply heights_cause.
  - by eapply sync_cause.
  - by eapply beacon_cause.
  - by eapply beacon_sync_cause.
  - by eapply peers_cause.
  - exfalso. eapply not_logging; [exact x_notable|exact Hd|]. by eapply elem_of_lines.
Qed.
End one_check.

Lemma line_cause (a : state) pre i acts x :
  arun a → a_trace a = pre ++ [(i, Logged acts)] → x ∈ acts → notable x → cause pre x.
Proof.
  revert a i acts x. induction pre as [pre IH] using (induction_ltof1 _ length).
  intros a i acts x Ha E Hx Hn. destruct (arun_chronicle a Ha) as [Hlt _].
  destruct (lookup_lt_is_Some_2 (a_gos a) i) as [[[l|] g] Hi].
  { apply (Hlt i (Logged acts)). rewrite E. apply elem_of_app. right. apply list_elem_of_here. }
  - by eapply loop_cause.
  - destruct (check_line a pre i acts g x Ha E Hi Hx Hn)
      as (c & pre1 & j & acts' & pre2 & rt & rest & Epre & Hc & Hd).
    destruct (abs_run_prefix _ _ _ _ _ _ pre1 (j, Logged acts') (pre2 ++ [(i, Logged acts)]) Ha)
      as (a1 & Ha1 & E1); [done|by rewrite E, Epre, <-app_assoc|].
    eapply (check_cause (rt_go rt)); [exact Epre|exact Hx|exact Hn| |exact Hd].
    eapply IH; [|exact Ha1|exact E1|exact Hc|by destruct c].
    unfold ltof. rewrite Epre, length_app. cbn. lia.
Qed.

(** C9: every page, and every check that is started, has a cause in what the
    process saw before. Whatever the interleaving of the goroutines and the answers
    of the nodes, a page is one of six: a shard whose latest header in the last
    round is not beyond that of an earlier one, which is overdue; a cross link that
    is not beyond the greatest one seen for its shard, first seen the configured
    time ago; a leader with too many pending transactions in the last round; a
    shard whose nodes had few connections in a round; a node that in a round was
    behind its shard, and did not answer with a later block when asked again after
    that; a node that after a round was behind the beacon chain, and did not answer
    with a later block when asked again after that. The page says so of that shard
    or node, with the values that were answered. *)
Theorem pages_justified y pre i acts post x :
  steps y → y_trace y = pre ++ (i, Logged acts) :: post → x ∈ acts → notable x → cause pre x.
Proof.
  intros Hy E Hx Hn. pose proof (steps_arun _ _ _ _ y Hy) as Ha.
  destruct (abs_run_prefix _ _ _ _ _ _ pre (i, Logged acts) post Ha) as (a1 & Ha1 & E1); [done|exact E|].
  by eapply line_cause.
Qed.
(** ** Tickers without a period *)

(** Every cause is something that a loop received. *)
Lemma cause_received tr ev :
  cause tr (ManageEvent ev) → ∃ i l g e, y_gos start !! i = Some (Some l, g) ∧ (i, e) ∈ tr.
Proof.
  rewrite start_gos. intros Hc.
  assert (∃ i rpc ds, i ∈ [consensus_go; cx_go; crosslink_go; metadata_go] ∧ (i, Received rpc ds) ∈ tr)
    as (i & rpc & ds & Hi & He).
  2:{ rewrite !elem_of_cons, elem_of_nil in Hi.
      destruct Hi as [->|[->|[->|[->|[]]]]]; (eexists _, _, _, _; split; [|exact He]; reflexivity). }
  inversion Hc as [now before ds t0 ds0 shard h0 h Hlast|now before metas ds seen l rest t0 l0 Hr
    |now before metas ds d r Hr|ds shard values Hin|tr1 i res payload tr2 ds v -> [Hin _]
    |tr1 i res payload tr2 node h hd -> Hb| | | | | |].
  - exists consensus_go, BlockHeaderRPC, ds. split; [set_solver|]. by eapply last_round_in.
  - exists crosslink_go, LastCrossLinkRPC, ds. split; [set_solver|].
    apply (elem_of_rounds _ _ now). rewrite Hr. set_solver.
  - exists cx_go, PendingCXRPC, ds. split; [set_solver|].
    apply (elem_of_rounds _ _ now). rewrite Hr. set_solver.
  - exists metadata_go, NodeMetadataRPC, ds. split; [set_solver|done].
  - exists consensus_go, BlockHeaderRPC, ds. split; [set_solver|]. apply elem_of_app. by left.
  - destruct Hb as (p1 & j & d & p2 & ds & shard & -> & Hin & _).
    exists consensus_go, BlockHeaderRPC, ds. split; [set_solver|].
    rewrite <-app_assoc. apply elem_of_app. by left.
Qed.

(** No ticker ever ticks. *)
Hypothesis no_period : ∀ l, l ∈ loops → l_period l ≤ 0.

Lemma loops_idle y i l g :
  steps y → y_gos start !! i = Some (Some l, g) → idle i l initial_local y.
Proof.
  intros Hy Hi. destruct (start_loops _ _ _ _ _ _ Hi) as [Hl ->].
  eapply dead_loop; [|by apply no_period|exact Hy]. split; [exact Hi|]. intros e. apply not_elem_of_nil.
Qed.

Lemma nothing_watched y :
  steps y →
  pages (y_log y) = []
  ∧ (∀ i l g, y_gos y !! i = Some (Some l, g) → g = Waiting initial_local ∧ of_go i (y_trace y) = [])
  ∧ mc_Nodes (m_MetadataSnapshot (y_mem y)) = [] ∧ bc_Nodes (m_BlockHeaderSnapshot (y_mem y)) = []
  ∧ lc_CrossLinks (m_LastCrossLinks (y_mem y)) = [].
Proof.
  intros Hy. assert (∀ i l g e, y_gos start !! i = Some (Some l, g) → (i, e) ∉ y_trace y) as Hno.
  { intros i l g e Hi. by apply (loops_idle y i l g Hy Hi). }
  destruct (arun_sound _ _ _ _ _ (steps_arun _ _ _ _ y Hy)) as [_ _ [_ _ Hm Hh _ Hl _] _].
  rewrite start_gos in Hno. cbn [a_mem a_trace abs] in Hm, Hh, Hl. split_and!.
  - destruct (pages (y_log y)) as [|ev evs] eqn:E; [done|]. exfalso.
    assert (ev ∈ pages (y_log y)) as Hev by (rewrite E; apply list_elem_of_here).
    apply elem_of_pages, elem_of_logged in Hev as (i & acts & Hin & Hx).
    apply list_elem_of_split in Hin as (pre & post & Etr).
    destruct (abs_run_prefix _ _ _ _ _ _ pre (i, Logged acts) post (steps_arun _ _ _ _ y Hy))
      as (a1 & Ha1 & E1); [done|exact Etr|].
    destruct (cause_received pre ev) as (j & l & g & e & Hj & He); [by eapply line_cause|].
    rewrite start_gos in Hj. apply (Hno j l g e Hj). rewrite Etr. apply elem_of_app. by left.
  - intros i l g Hi. destruct (proj1 (process_loops _ _ _ _ y i l Hy)) as [g0 Hg]; [by exists g|].
    destruct (loops_idle y i l g0 Hy Hg) as [Hi' Htr]. split; [congruence|].
    apply of_go_none. intros j e Hj ->. by apply (Htr e).
  - destruct Hm as [[E _]|(ds & [_ Hds] & _)]; [done|]. by destruct (Hno metadata_go _ _ _ eq_refl Hds).
  - destruct Hh as [[E _]|(ds & [_ Hds] & _)]; [done|]. by destruct (Hno header_go _ _ _ eq_refl Hds).
  - destruct Hl as [E|(ds & Hds & _)]; [done|]. by destruct (Hno crosslink_go _ _ _ eq_refl Hds).
Qed.
End process.

(** The same configuration with the five intervals negated. *)
Definition negated (w : watchParams) : watchParams :=
  MkWatchParams (wp_EventServiceKey w) (wp_TargetChain w) (wp_RPCPort w)
    (- wp_Inspect_BlockHeader w) (- wp_Inspect_NodeMetadata w) (- wp_Inspect_CxPending w)
    (- wp_Inspect_CrossLink w) (wp_WorkerPoolSize w) (wp_HTTPTimeout w) (wp_Port w)
    (- wp_Consensus_Interval w) (wp_Consensus_Warning w) (wp_CxPending_Warning w)
    (wp_CrossLink_Warning w) (wp_ShardHeight_Warning w) (wp_Connectivity_Warning w)
    (wp_MachineIPList w).

Definition intervals (w : watchParams) : list Z :=
  [wp_Inspect_BlockHeader w; wp_Inspect_NodeMetadata w; wp_Inspect_CxPending w;
   wp_Inspect_CrossLink w; wp_Consensus_Interval w].

Lemma negated_sane sys w : sanityCheck sys (negated w) = sanityCheck sys w.
Proof.
  assert (∀ v, (- v =? 0) = (v =? 0)) as E by (intros v; destruct (Z.eqb_spec (- v) 0), (Z.eqb_spec v 0); lia).
  unfold sanityCheck, sanity_errors, required. cbn. by rewrite !E.
Qed.

Lemma negative_period v :
  0 < v ≤ 9223372036 → tick_period (- v) ≤ 0 ∧ tick_period (uint64 (- v)) ≤ 0.
Proof.
  intros Hv. unfold tick_period. assert (int64 (uint64 (- v)) = int64 (- v)) as ->.
  { unfold int64, uint64, two64. zmod. }
  rewrite (int64_id (- v)) by (unfold is_int64, two63; lia).
  rewrite int64_id by (unfold is_int64, two63; lia). lia.
Qed.

(** C17: the sanity check lets a watchdog start that watches nothing. A
    configuration whose intervals are negated is accepted exactly when the
    original one is. But then, in every reachable state, whatever the nodes and
    the clients do, no loop has left its first wait or done anything, the
    snapshots for the reports are empty, and no page was sent. *)
Theorem negative_intervals MR buildVersion w superCommittee :
  Forall (λ v, 0 < v ≤ 9223372036) (intervals w) →
  (∀ sys, sanityCheck sys (negated w) = sanityCheck sys w)
  ∧ ∀ y, watchdog_steps MR buildVersion (negated w) superCommittee y →
      pages (y_log y) = []
      ∧ (∀ i l g, y_gos y !! i = Some (Some l, g) →
           g = Waiting initial_local ∧ of_go i (y_trace y) = [])
      ∧ mc_Nodes (m_MetadataSnapshot (y_mem y)) = []
      ∧ bc_Nodes (m_BlockHeaderSnapshot (y_mem y)) = []
      ∧ lc_CrossLinks (m_LastCrossLinks (y_mem y)) = [].
Proof.
  intros Hw. split; [intros sys; apply negated_sane|]. intros y. apply nothing_watched.
  rewrite Forall_forall in Hw. intros l. unfold watchdog_loops. rewrite !elem_of_cons, elem_of_nil.
  intros [-> | [-> | [-> | [-> | [-> | []]]]]]; cbn; apply negative_period, Hw;
    unfold intervals; rewrite !elem_of_cons; tauto.
Qed.

Lemma monitors_run_witness :
  ∃ y i l g h part, Example.paged y = true ∧ y_gos y !! i = Some (Some l, g)
    ∧ of_go i (y_trace y) = (h ≫= tick_events) ++ part
    ∧ does_run range_ref Example.params Example.sc l h.
Proof.
  destruct Example.page_sent as (y & Hy & Hp). exists y.
  destruct (proj2 (process_loops range_ref "v1" Example.params Example.sc y consensus_go
    (consensus_loop range_ref Example.params Example.sc) Hy))
    as [g Hi]; [eexists; rewrite start_gos; reflexivity|].
  destruct (monitors_run range_ref "v1" Example.params Example.sc y _ _ g Hy Hi) as (h & part & H1 & H2 & _).
  by exists consensus_go, (consensus_loop range_ref Example.params Example.sc), g, h, part.
Defined.

Lemma pages_justified_witness :
  ∃ (y : process) pre i acts post ev, y_trace y = pre ++ (i, Logged acts) :: post ∧ ManageEvent ev ∈ acts
    ∧ cause range_ref Example.params Example.sc pre (ManageEvent ev).
Proof.
  destruct Example.page_sent as (y & Hy & Hp). exists y. unfold Example.paged in Hp.
  destruct (pages (y_log y)) as [|ev evs] eqn:E; [discriminate Hp|].
  assert (ev ∈ pages (y_log y)) as Hev by (rewrite E; apply list_elem_of_here).
  apply elem_of_pages, elem_of_logged in Hev as (i & acts & Hin & Hx).
  apply list_elem_of_split in Hin as (pre & post & Etr).
  exists pre, i, acts, post, ev. split; [exact Etr|]. split; [exact Hx|].
  exact (pages_justified range_ref "v1" Example.params Example.sc y pre i acts post
    (ManageEvent ev) Hy Etr Hx I).
Defined.

Lemma negative_intervals_witness :
  sanityCheck (ConfigWitness.sys (λ _, None)) (negated Example.params) = None
  ∧ ∀ y, watchdog_steps range_ref "v1" (negated Example.params) Example.sc y → pages (y_log y) = [].
Proof.
  assert (Forall (λ v, 0 < v ≤ 9223372036) (intervals Example.params)) as Hw
    by (apply (bool_decide_unpack _); vm_compute; exact I).
  destruct (negative_intervals range_ref "v1" Example.params Example.sc Hw) as [H1 H2]. split.
  - rewrite H1. reflexivity.
  - intros y Hy. exact (proj1 (H2 y Hy)).
Defined.
