(* ===== verification/Page.v ===== *)
(** * The report page (html-generators.go)

    [reportPage] is the template of the page as text, parsed and executed by the
    engine of [Template] on the data [renderReport] gives it. A Go raw string
    holds no back quote, so in the texts below a back quote stands for a double
    quote. *)

From S2P Require Import Prelude GoFloat GoFmt GoTime GoJson Template Rpc Linq Alerts Summary Monitor Manager Reports.

(** ** The text *)

Definition style_text : string := "
<!DOCTYPE html>
<html lang=`en`>
  <meta charset=`utf-8`
        content=`width=device-width,initial-scale=1.0,maximum-scale=1.0,user-scalable=0`
        name=`viewport`>
  <head>
<script src=`https://cdnjs.cloudflare.com/ajax/libs/sortable/0.8.0/js/sortable.min.js`
        integrity=`sha256-gCtdA1cLK2EhQZCMhhvGzUsWM/fsxtJ2IImUJ+4UOP8=`
        crossorigin=`anonymous`></script>
<link rel=`stylesheet`
      href=`https://cdnjs.cloudflare.com/ajax/libs/sortable/0.8.0/css/sortable-theme-bootstrap.min.css`
      integrity=`sha256-S9t86HqhPL8nNR85dIjDQCJMPd9RULmRAub6xBksk9M=`
      crossorigin=`anonymous` />
<link href=`https://fonts.googleapis.com/css?family=Open+Sans`
      rel=`stylesheet`
      crossorigin=`anonymous` />
<style>
* {margin:0;padding:0;}
body {font-family: `Open Sans`, sans-serif;}
.report-wrapper {padding:17px;padding-bottom:30px;background-color:#344E4F;}
.report-wrapper > label {color: #AFCAC5;}
.report-table {width:100%%; table-layout:fixed;word-break:break-all;}
.report-descr {display:flex; justify-content:space-between; padding-bottom: 15px;}
.flex-col {display:flex;flex-direction:column;}
.flex-row {display:flex;justify-content:space-between;}
.build-stat {
  background-color:#E0EFC7;
  padding: 10px; display:flex; justify-content:space-between;
}
.build-stat-values {font-size: 15px; font-weight: bolder;}
.summary-details {
  background-color:#7F9A95;
  box-shadow: 0 2px 2px -1px rgba(0, 0, 0, 0.4);
  position: -webkit-sticky;
  position: sticky;
  top:0px;
  padding: 10px;
  height:95px;
}
.align-right { text-align: right; }
.space-between { justify-content:space-between; width: 100%% }
.is-leader { background-color: #c4b8b178; }
.center { align-items: center; }
.stat-box { box-shadow: 0 2px 2px 0px rgba(0, 0, 0, 0.9); padding: 10px; background-color:#7F9A95;}
.stat-field {
  display: flex;
  justify-content:space-between;
}
.flex-both {
  display: flex;
  flex-direction: column;
}
".

Definition more_style_text : string := "@media only screen and (min-width: 670px) {
  .flex-both {
    display: flex;
    flex-direction: row;
  }
}
th {
  background: #c9d1ac;
  position: sticky;
  top: 91px;
  box-shadow: 0 2px 2px -1px rgba(0, 0, 0, 0.4);
}
hr{
  overflow: visible; /* For IE */
  padding: 0;
  border: none;
  border-top: medium double #333;
  color: #333;
  text-align: center;
  height: 0px;
}
hr:after {
  content: `§`;
  display: inline-block;
  position: relative;
  top: -0.7em;
  font-size: 1.5em;
  padding: 0 0.25em;
}

.stat-box > p {
  display:flex;
  justify-content: space-between;
  width: 100%%;
}
".

Definition title_text : string := "{{ with (index .Summary `block-header`) }}
{{ range $key, $value := .}}
#curr-hn-toggle-{{$key}}:checked ~ * .curr-harmony-node-{{$key}}-true {
  display: table-row;
}
#curr-hn-toggle-{{$key}}:not(checked) ~ * .curr-harmony-node-{{$key}}-true {
  display: none;
}
#prev-hn-toggle-{{$key}}:checked ~ * .prev-harmony-node-{{$key}}-true {
  display: table-row;
}
#prev-hn-toggle-{{$key}}:not(checked) ~ * .prev-harmony-node-{{$key}}-true {
  display: none;
}
{{end}}
{{end}}
</style>
  </head>
  <body>
    <header id=`top-of-page`>
      <div class=`build-stat`>
        <div class=`flex-row space-between`>
          <div class=`flex-col`>
          {{ range .LeftTitle }}
            <span class=`build-stat-values`>{{.}}</span>
          {{end}}
          </div>
          <div class=`flex-col`>
          {{ range .RightTitle }}
            <span class=`build-stat-values align-right`>{{.}}</span>
          {{end}}
          </div>
        </div>
      </div>
      <hr/>
      <div class=`build-stat flex-both`>
".

Definition chain_text : string := "        {{ $root := . }}
        {{ with (index .Summary `chain-config`) }}
        {{ range $key, $value := . }}
          <div class=`flex-col center stat-box`>
            <a href=`#shard-{{$key}}`>Shard-{{$key}}</a>
            <p><span>Consensus:</span><span> {{index $value `consensus-status`}}</span></p>
            <p><span>Chain ID:</span><span> {{index $value `chain-id`}}</span></p>
            <p><span>Cross Link Epoch:</span><span>{{index $value `cross-link-epoch`}}</span></p>
            <p><span>Cross Tx Epoch:</span><span>{{index $value `cross-tx-epoch`}}</span></p>
            <p><span>Eip155 Epoch:</span><span>{{index $value `eip155-epoch`}}</span></p>
            <p><span>S3 Epoch:</span><span>{{index $value `s3-epoch`}}</span></p>
            <p><span>Pre-Staking Epoch:</span><span>{{index $value `pre-staking-epoch`}}</span></p>
            <p><span>Staking Epoch:</span><span>{{index $value `staking-epoch`}}</span></p>
            <p><span>Blocks Per Epoch:</span><span>{{index $value `blocks-per-epoch`}}</span></p>
            <p><span>DNS Zone:</span><span>{{index $value `dns-zone`}}</span></p>
            <p><span>Last Crosslink:</span><span>{{index (index (index $root.Summary `block-header`) $key) `last-crosslink`}}</span></p>
            {{ if $root.SuperCommittee.CurrentCommittee.Deciders }}
               {{ $externCount := currentCommitteeCount $key }}
              <a href=`#current-committee-{{$key}}`><span>{{ $externCount }}</span> Current Committee</a>
            {{end}}
            {{ if $root.SuperCommittee.PreviousCommittee.Deciders }}
               {{ $externCount := previousCommitteeCount $key }}
              <a href=`#previous-committee-{{$key}}`><span>{{ $externCount }}</span> Previous Committee</a>
            {{end}}
          </div>
        {{end}}
        {{end}}
      </div>
".

Definition stat_text : string := "      <div class=`build-stat flex-both`>
        {{ with (index .Summary `block-header`) }}
        {{range $key, $value := .}}
          <div class=`flex-col center stat-box`>
            <a href=`#shard-{{$key}}`>Shard-{{$key}}</a>
            <p><span>Node Count:</span><span>{{ len (index $value `records`) }}</span></p>
            <p><span>Max Block:</span><span>{{index $value `block-max`}}</span></p>
            <p><span>Max Epoch:</span><span>{{index $value `epoch-max`}}</span></p>
            <p><span>Leader:</span><span>{{index $value `shard-leader`}}</span></p>
          </div>
        {{end}}
        {{end}}
      </div>
      <div class=`build-stat flex-both`>
        {{ with (index .Summary `node-metadata`) }}
        {{range $key, $value := .}}
          <div class=`flex-col center stat-box`>
            <a href=`#version-{{$key}}`>{{$key}}</a>
            <p>
              Node Count:{{ len (index $value `records`) }}
              {{ with getCommitID $key }}
                <a href=`https://github.com/harmony-one/harmony/commit/{{.}}`>commit</a>
              {{end}}
            <p>
          </div>
        {{end}}
        {{end}}
      </div>
    </header>

".

Definition down_text : string := "    <main>
    {{ if ne (len .NoReply) 0 }}
    <section class=`report-wrapper`>
      <div class=`summary-details`>
        <div class=`flex-col`>
          <div class=`flex-row space-between`>
            <h3>
              Down machines <span><a href=`#top-of-page`>(Top)</a></span>
            </h3>
            <p style=`width: 375px;`>
             Note: `dialing to the given TCP address timed out` failure could
             just mean that the HTTP RPC did not complete fast enough.
            </p>
          </div>
          <div class=`flex-row`>
            <p>Distinct down machine count: {{ .DownMachineCount }}</p>
          </div>
        </div>
      </div>
      <table class=`sortable-theme-bootstrap report-table` data-sortable>
        <thead>
          <tr>
            <th>IP</th>
            <th>Intended ShardID</th>
            <th>RPC Payload</th>
            <th>Failure Reason</th>
          </tr>
        </thead>
        <tbody>
        {{range .NoReply}}
          <tr style=`background-color:#F0B4B4;`>
            <td>{{.IP}}</td>
            <td>{{.ShardID}}</td>
            <td>{{.RPCPayload}}</td>
            <td>{{.FailureReason}}</td>
          </tr>
        {{end}}
        </tbody>
      </table>
    </section>
    {{end}}

".

Definition header_text : string := "    {{ with (index .Summary `block-header`) }}
    {{range $key, $value := .}}
    <section class=`report-wrapper` id=`shard-{{$key}}`>
      <div class=`summary-details`>
        <div class=`flex-col`>
          <div class=`flex-row`>
            <h3>
              Block Header <span><a href=`#top-of-page`>(Top)</a></span>
            </h3>
            <a href=`/report-download-%s?report=%s&shard={{$key}}`>Download CSV</a>
          </div>
          <div class=`flex-row`>
            <p>Shard: {{ $key }}</p>
            <p>Nodes: {{ len (index $value `records`) }}</p>
            <p>Max Block: {{ index $value `block-max` }}</p>
            <p>Min Block: {{ index $value `block-min` }}</p>
            <p>Max Epoch: {{ index $value `epoch-max` }}</p>
            <p>Min Epoch: {{ index $value `epoch-min` }}</p>
          </div>
          <div class=`flex-row`>
            <p>Unique Blocks: {{ index $value `uniq-blocks` }}</p>
            <p>Unique Epochs: {{ index $value `uniq-epochs` }}</p>
          </div>
        </div>
      </div>
      <table class=`sortable-theme-bootstrap report-table` data-sortable>
        <thead>
	  <tr>
	    <th>IP</th>
	    <th>Block Hash</th>
	    <th>Epoch</th>
	    <th>Block Number</th>
	    <th>Leader</th>
	    <th>ViewID</th>
	    <th>Timestamp</th>
	    <th>Last Commit Sig</th>
	    <th>Last Commit Bitmap</th>
	  </tr>
        </thead>
        <tbody>
          {{ with (index $value `records`) }}
          {{range .}}
          <tr>
            <td>{{.IP}} </td>
            <td>{{ .Payload.BlockHash }}</td>
            <td>{{ .Payload.Epoch }}</td>
            <td>{{ .Payload.BlockNumber }}</td>
            <td>{{ .Payload.Leader }}</td>
            <td>{{ .Payload.ViewID }}</td>
            <td>{{ convertUnixTime .Payload.UnixTime }}</td>
            <td>{{ .Payload.LastCommitSig }}</td>
            <td>{{ .Payload.LastCommitBitmap }}</td>
          </tr>
          {{end}}
          {{end}}
        </tbody>
      </table>
    </section>
    {{end}}
    {{end}}

".

Definition metadata_text : string := "    {{ with (index .Summary `node-metadata`) }}
    {{ range $key, $value := . }}
    <section class=`report-wrapper` id=`version-{{$key}}`>
      <div class=`summary-details`>
        <div class=`flex-col`>
          <div class=`flex-row`>
            <h3>
              Node Metadata <span><a href=`#top-of-page`>(Top)</a></span>
           </h3>
            <a href=`/report-download-%s?report=%s&vrs={{$key}}`>Download CSV</a>
          </div>
          <div class=`flex-row`>
            <p>Build Version: {{ $key }}</p>
            <p>Nodes: {{ len (index $value `records`) }}</p>
          </div>
        </div>
      </div>
      <table class=`sortable-theme-bootstrap report-table` data-sortable>
        <thead>
	  <tr>
	    <th>IP</th>
	    <th>BLSKey</th>
	    <th>Version</th>
	    <th>Network Type</th>
	    <th>ChainID</th>
	    <th>ShardID</th>
	    <th>Role</th>
	    <th>Archival</th>
	    <th>Connected Peers</th>
	    <th>Total Peers</th>
	    <th>Connectivity</th>
	    <th>Start Time</th>
	  </tr>
        </thead>
        <tbody>
          {{ with (index $value `records`) }}
          {{ range . }}
          <tr class=`{{if .Payload.IsLeader}}is-leader{{end}}`>
            <td>{{ .IP }}</td>
            <td>{{ getShortBLSKey .Payload.BLSPublicKey }}</td>
            <td>{{ .Payload.Version }}</td>
            <td>{{ .Payload.NetworkType }}</td>
            <td>{{ .Payload.ChainConfig.ChainID }}</td>
            <td>{{ .Payload.ShardID }}</td>
            <td>{{ .Payload.NodeRole }}</td>
            <td>{{ .Payload.ArchivalNode }}</td>
            <td>{{ .Payload.P2PConnectivity.Connected }}</td>
            <td>{{ .Payload.P2PConnectivity.TotalKnown }}</td>
            <td>{{ calcConnectivity .Payload.P2PConnectivity.Connected .Payload.P2PConnectivity.TotalKnown }}</td>
            <td>{{ convertUnixTime .Payload.NodeStartTime }}</td>
          </tr>
          {{end}}
          {{end}}
        </tbody>
      </table>
    </section>
    {{ end }}
    {{ end }}

".

Definition current_text : string := "    {{ with .SuperCommittee }}
    {{ range $key, $value := .CurrentCommittee.Deciders}}
    {{ $shard := getShardID $key }}
    <section class=`report-wrapper` id=`current-committee-{{ $shard }}`>
      <input type=`checkbox` id=`curr-hn-toggle-{{ $shard }}`>
      <label for=`curr-hn-toggle-{{ $shard }}`>show harmony nodes</label>
      <div class=`summary-details`>
        <div class=`flex-col`>
          <div class=`flex-row`>
            <h3>
              Shard {{ $shard }} Current Committee <span><a href=`#top-of-page`>(Top)</a></span>
           </h3>
          </div>
          {{ with $value }}
          <div class=`flex-row`>
            <div class=`flex-col`>
              <p>Policy: {{ .PolicyType }}</p>
              <p>Members: {{ .MemberCount }}</p>
            </div>
            <div class=`flex-col`>
              <p>Internal Vote Power: {{ .HarmonyPower }}</p>
              <p>Staked Vote Power: {{ .StakedPower }}</p>
              <p>Total Raw Stake: {{ .TotalRawStake }}</p>
            </div>
          </div>
        </div>
      </div>
      <table class=`sortable-theme-bootstrap report-table` data-sortable>
        <thead>
	  <tr>
            <th>Address</th>
	    <th>BLSKey</th>
	    <th>Is Harmony Node</th>
	    <th>Voting Power</th>
	    <th>External Vote Power</th>
	    <th>Effective Stake</th>
	  </tr>
        </thead>
        <tbody>
          {{ range .Committee }}
          {{ with . }}
          <tr class=`curr-harmony-node-{{ $shard }}-{{.IsHarmonyNode}}`>
            <td>{{ .Address }}</td>
            <td>{{ .BLSKey }}</td>
            <td>{{ .IsHarmonyNode }}</td>
            <td>{{ .VotingPower }}</td>
            <td>{{ .RawPercent }}</td>
            <td>{{ .EffectiveStake }}</td>
          </tr>
          {{end}}
          {{end}}
        </tbody>
      </table>
    </section>
    {{end}}
    {{end}}
    {{end}}

".

Definition previous_text : string := "    {{ with .SuperCommittee }}
    {{ range $key, $value := .PreviousCommittee.Deciders }}
    {{ $shard := getShardID $key }}
    <section class=`report-wrapper` id=`previous-committee-{{ $shard }}`>
      <input type=`checkbox` id=`prev-hn-toggle-{{ $shard }}`>
      <label for=`prev-hn-toggle-{{ $shard }}`>show harmony nodes</label>
      <div class=`summary-details`>
         <div class=`flex-col`>
           <div class=`flex-row`>
	     <h3>
               Shard {{ $shard }} Previous Commitee <span><a href=`#top-of-page`>(Top)</a></span>
             </h3>
           </div>
           {{ with $value }}
           <div class=`flex-row`>
             <div class=`flex-col`>
               <p>Policy: {{ .PolicyType }}</p>
               <p>Member Count: {{ .MemberCount }}</p>
             </div>
             <div class=`flex-col`>
               <p>Internal Vote Power: {{ .HarmonyPower }}</p>
               <p>Staked Vote Power: {{ .StakedPower }}</p>
               <p>Total Raw Staked: {{ .TotalRawStake }}</p>
             </div>
           </div>
         </div>
       </div>
       <table class=`sortable-theme-bootstrap report-table` data-sortable>
         <thead>
           <tr>
             <th>Address</th>
             <th>BLSKey</th>
             <th>Is Harmony Node</th>
             <th>Voting Power</th>
             <th>External Vote Power</th>
             <th>Effective Stake</th>
           </tr>
         </thead>
         <tbody>
           {{ range .Committee }}
           {{ with . }}
           <tr class=`prev-harmony-node-{{ $shard }}-{{ .IsHarmonyNode }}`>
             <td>{{ .Address }}</td>
             <td>{{ .BLSKey }}</td>
             <td>{{ .IsHarmonyNode }}</td>
             <td>{{ .VotingPower }}</td>
             <td>{{ .RawPercent }}</td>
             <td>{{ .EffectiveStake }}</td>
           </tr>
           {{end}}
           {{end}}
         </tbody>
       </table>
     </section>
     {{end}}
     {{end}}
     {{end}}

".

Definition end_text : string := "    </main>
<script>
setInterval(() => window.location.reload(true),  1000 * 120);
</script>
  </body>
</html>
".

Fixpoint unquote (s : string) : string :=
  match s with
  | EmptyString => EmptyString
  | String c r => String (if decide (c = "`"%char) then dquote else c) (unquote r)
  end.

Definition report_format : string := unquote (
  style_text +:+ more_style_text +:+ title_text +:+ chain_text +:+ stat_text +:+ down_text
  +:+ header_text +:+ metadata_text +:+ current_text +:+ previous_text +:+ end_text).

Definition reportPage (chain : string) : string :=
  Sprintf report_format
    [OStr chain; OStr blockHeaderReport; OStr chain; OStr nodeMetadataReport].

(** The functions [renderReport] adds to the template. *)
Definition page_funcs : list string :=
  ["getCommitID"; "currentCommitteeCount"; "previousCommitteeCount"; "getShardID";
   "calcConnectivity"; "convertUnixTime"; "getShortBLSKey"].

(** ** The nodes of the page

    The name of the chain is part of the text of the template, in the two
    download links. [page_nodes] are the nodes of the page with the two texts
    that hold the name left open. *)

(** The constant parts of a format whose verbs are all [%s]. *)
Fixpoint split_verbs (s : string) (part : list ascii) : list string :=
  match s with
  | String "%"%char (String "%"%char r) => split_verbs r ("%"%char :: part)
  | String "%"%char (String "s"%char r) => text_of part :: split_verbs r []
  | String c r => split_verbs r (c :: part)
  | EmptyString => [text_of part]
  end.

Definition format_part (n : nat) : string :=
  default EmptyString (split_verbs report_format [] !! n).

Definition skip (n : nat) (s : string) : string := String.substring n (String.length s - n) s.

(** The parts around the name: before the first link, between the links, and
    after the second one; the last two start with the rest of a link. *)
Definition header_link : string := "?report=block-header&shard=".
Definition metadata_link : string := "?report=node-metadata&vrs=".
Definition before_header : string := format_part 0.
Definition after_header : string :=
  skip (String.length header_link + 2)
    (format_part 1 +:+ blockHeaderReport +:+ format_part 2).
Definition after_metadata : string :=
  skip (String.length metadata_link + 2)
    (format_part 3 +:+ nodeMetadataReport +:+ format_part 4).

Lemma reportPage_parts chain :
  reportPage chain =
  before_header +:+ chain +:+ header_link +:+ "{{" +:+ after_header
  +:+ chain +:+ metadata_link +:+ "{{" +:+ after_metadata.
Proof. vm_cast_no_check (@eq_refl string (reportPage chain)). Qed.

(** *** The scanner *)

Fixpoint no_brace (s : string) : bool :=
  match s with
  | EmptyString => true
  | String c s => bool_decide (c ≠ "{"%char) && no_brace s
  end.

(** The characters of a text put before those read, latest first. *)
Fixpoint rev_onto (s : string) (buf : list ascii) : list ascii :=
  match s with EmptyString => buf | String c s => rev_onto s (c :: buf) end.

Lemma scan_app st s t : scan st (s +:+ t) = scan (scan st s) t.
Proof. revert st. induction s as [|c s IH]; intros st; [done|]. apply IH. Qed.

Lemma scan_no_brace s buf out :
  no_brace s = true → scan (InText, buf, out) s = (InText, rev_onto s buf, out).
Proof.
  revert buf. induction s as [|c s IH]; intros buf; [done|]. cbn.
  intros [Hc Hs]%andb_true_iff. apply bool_decide_eq_true in Hc.
  rewrite decide_False by done. by apply IH.
Qed.

Lemma no_brace_app s t : no_brace (s +:+ t) = no_brace s && no_brace t.
Proof. induction s as [|c s IH]; [done|]. rewrite app_cons_string. cbn. by rewrite IH, andb_assoc. Qed.

Lemma text_of_snoc buf s : fold_left (λ s c, String c s) buf s = text_of buf +:+ s.
Proof.
  unfold text_of. revert s. induction buf as [|c buf IH]; intros s; [done|]. cbn.
  rewrite IH, (IH (String c EmptyString)). by rewrite string_app_assoc.
Qed.

Lemma text_of_rev_onto s buf : text_of (rev_onto s buf) = text_of buf +:+ s.
Proof.
  revert buf. induction s as [|c s IH]; intros buf; cbn [rev_onto]; [by rewrite string_app_nil_r|].
  rewrite IH. unfold text_of at 1. cbn [fold_left]. by rewrite text_of_snoc, string_app_assoc.
Qed.

(** The pieces read so far are only added to. *)
Definition onto (out : list piece) (st : scan_state) : scan_state :=
  let '(md, buf, out') := st in (md, buf, out' ++ out).

Lemma scan_char_onto out st c : scan_char (onto out st) c = onto out (scan_char st c).
Proof.
  destruct st as [[[] buf] out']; cbn; repeat case_decide; try done.
  by destruct buf.
Qed.

Lemma scan_onto out st s : scan (onto out st) s = onto out (scan st s).
Proof.
  revert st. induction s as [|c s IH]; intros st; [done|]. cbn. by rewrite scan_char_onto, IH.
Qed.

(** A text that is followed by an action. *)
Lemma scan_text_action c buf out t :
  no_brace t = true →
  scan (InText, c :: buf, out) (t +:+ "{{")
  = (InAction, [], PText (text_of (c :: buf) +:+ t) :: out).
Proof.
  intros Ht. rewrite scan_app, scan_no_brace, <-text_of_rev_onto by done.
  assert (∃ c' buf', rev_onto t (c :: buf) = c' :: buf') as (c' & buf' & E).
  { clear Ht. revert c buf. induction t as [|c' t IH]; intros c buf; cbn; eauto. }
  by rewrite E.
Qed.

(** The page up to the first link, up to the second one and the rest. *)
Definition ends_in_text (st : scan_state) : bool :=
  match st with (InText, _ :: _, _) => true | _ => false end.

Definition state_text (st : scan_state) : string := text_of st.1.2.

Definition state_0 : scan_state := Eval vm_compute in scan (InText, [], []) before_header.
Definition state_1 : scan_state := Eval vm_compute in scan (InAction, [], []) after_header.
Definition state_2 : scan_state := Eval vm_compute in scan (InAction, [], []) after_metadata.

Lemma state_0_eq : scan (InText, [], []) before_header = state_0.
Proof. by vm_compute. Qed.
Lemma state_1_eq : scan (InAction, [], []) after_header = state_1.
Proof. by vm_compute. Qed.
Lemma state_2_eq : scan (InAction, [], []) after_metadata = state_2.
Proof. by vm_compute. Qed.

(** The pieces of the page, with the texts of the two links left open. *)
Definition page_pieces (header metadata : string) : list piece :=
  rev (add_text state_2.1.2
    (state_2.2 ++ PText (state_text state_1 +:+ metadata)
     :: state_1.2 ++ PText (state_text state_0 +:+ header) :: state_0.2)).

Lemma scan_text_action_st st t :
  ends_in_text st = true → no_brace t = true →
  scan st (t +:+ "{{") = onto (PText (state_text st +:+ t) :: st.2) (InAction, [], []).
Proof.
  destruct st as [[[] [|c buf]] out]; try done. intros _ Ht. by rewrite scan_text_action.
Qed.

Lemma ends_in_text_onto out st : ends_in_text (onto out st) = ends_in_text st.
Proof. by destruct st as [[[] []] ?]. Qed.

Lemma pieces_page chain :
  no_brace chain = true →
  pieces (reportPage chain) = Some (page_pieces (chain +:+ header_link) (chain +:+ metadata_link)).
Proof.
  intros Hc. unfold pieces.
  replace (reportPage chain) with
    (before_header +:+ ((chain +:+ header_link) +:+ "{{") +:+ after_header
     +:+ ((chain +:+ metadata_link) +:+ "{{") +:+ after_metadata)
    by (rewrite reportPage_parts; by rewrite !string_app_assoc).
  assert (no_brace (chain +:+ header_link) = true) as H1 by (by rewrite no_brace_app, Hc).
  assert (no_brace (chain +:+ metadata_link) = true) as H2 by (by rewrite no_brace_app, Hc).
  generalize dependent (chain +:+ header_link). generalize dependent (chain +:+ metadata_link).
  intros metadata H2 header H1.
  rewrite scan_app, state_0_eq, scan_app, scan_text_action_st by done.
  rewrite scan_app, scan_onto, state_1_eq, scan_app, scan_text_action_st
    by (by rewrite ?ends_in_text_onto).
  by rewrite scan_onto, state_2_eq.
Qed.

(** The nodes of the page. *)
Definition page_nodes (header metadata : string) : list node :=
  Eval vm_compute in default [] (parse_nodes (page_pieces header metadata) [] []).

Lemma parse_page header metadata :
  parse_nodes (page_pieces header metadata) [] [] = Some (page_nodes header metadata).
Proof. by vm_compute. Qed.

Lemma check_page header metadata :
  check_nodes (builtins ++ page_funcs) (page_nodes header metadata) ["$"%string] = true.
Proof. by vm_compute. Qed.

Definition nodes_of (chain : string) : list node :=
  page_nodes (chain +:+ header_link) (chain +:+ metadata_link).

Lemma Parse_page chain :
  no_brace chain = true → Parse page_funcs (reportPage chain) = Some (nodes_of chain).
Proof.
  intros Hc. unfold Parse. rewrite (pieces_page chain Hc). cbn [mbind option_bind].
  rewrite parse_page. cbn [mbind option_bind]. rewrite check_page. done.
Qed.
