(* ===== verification/PageView.v ===== *)
(** * The page of a report

    What [renderReport] hands to the template, as the template sees it, the
    functions it adds, and what becomes of the page: it is complete exactly when
    every shard with metadata has a header and no committee has an empty name,
    and a complete page shows every record of the snapshots. *)

From S2P Require Import Prelude GoFloat GoFmt GoTime GoJson Template TemplateTypes.
From S2P Require Import Rpc Linq Alerts Summary Monitor Manager Reports Page.

(** ** Values *)

(** [range] visits the entries of a map in the order of their keys. *)
Definition map_value {V} (zero : tval) (f : V → tval) (m : gmap string V) : tval :=
  VMap zero ((λ p, (p.1, f p.2)) <$> sorted_entries m).

Definition strings_value (l : list string) : tval := VList (VStr <$> l).

Definition header_reply_value (p : BlockHeaderReply) : tval := VStruct [
  ("BlockHash"%string, VStr (bh_BlockHash p)); ("BlockNumber"%string, VInt (bh_BlockNumber p));
  ("ShardID"%string, VInt (bh_ShardID p)); ("Leader"%string, VStr (bh_Leader p));
  ("ViewID"%string, VInt (bh_ViewID p)); ("Epoch"%string, VInt (bh_Epoch p));
  ("Timestamp"%string, VStr (bh_Timestamp p)); ("UnixTime"%string, VInt (bh_UnixTime p));
  ("LastCommitSig"%string, VStr (bh_LastCommitSig p));
  ("LastCommitBitmap"%string, VStr (bh_LastCommitBitmap p))].

Definition header_value (h : BlockHeader) : tval := VStruct [
  ("Payload"%string, header_reply_value (bhd_Payload h)); ("IP"%string, VStr (bhd_IP h))].

Definition chain_config_value (c : ChainConfig) : tval := VStruct [
  ("ChainID"%string, VInt (cc_ChainID c)); ("CrossLinkEpoch"%string, VInt (cc_CrossLinkEpoch c));
  ("CrossTxEpoch"%string, VInt (cc_CrossTxEpoch c));
  ("Eip155Epoch"%string, VInt (cc_Eip155Epoch c));
  ("PreStakingEpoch"%string, VInt (cc_PreStakingEpoch c));
  ("S3Epoch"%string, VInt (cc_S3Epoch c)); ("StakingEpoch"%string, VInt (cc_StakingEpoch c))].

Definition p2p_value (c : P2PConnectivity) : tval := VStruct [
  ("Connected"%string, VInt (p2p_Connected c)); ("NotConnected"%string, VInt (p2p_NotConnected c));
  ("TotalKnown"%string, VInt (p2p_TotalKnown c))].

Definition metadata_reply_value (p : NodeMetadataReply) : tval := VStruct [
  ("BLSPublicKey"%string, strings_value (slice_elems (nm_BLSPublicKey p)));
  ("Version"%string, VStr (nm_Version p)); ("NetworkType"%string, VStr (nm_NetworkType p));
  ("IsLeader"%string, VBool (nm_IsLeader p)); ("ShardID"%string, VInt (nm_ShardID p));
  ("NodeRole"%string, VStr (nm_NodeRole p)); ("BlocksPerEpoch"%string, VInt (nm_BlocksPerEpoch p));
  ("DNSZone"%string, VStr (nm_DNSZone p)); ("ArchivalNode"%string, VBool (nm_ArchivalNode p));
  ("NodeStartTime"%string, VInt (nm_NodeStartTime p));
  ("ChainConfig"%string, chain_config_value (nm_Chain p));
  ("P2PConnectivity"%string, p2p_value (nm_P2P p))].

Definition metadata_value (n : NodeMetadata) : tval := VStruct [
  ("Payload"%string, metadata_reply_value (nmd_Payload n)); ("IP"%string, VStr (nmd_IP n))].

Definition noReply_value (n : noReply) : tval := VStruct [
  ("IP"%string, VStr (nr_IP n)); ("FailureReason"%string, VStr (nr_FailureReason n));
  ("RPCPayload"%string, VStr (nr_RPCPayload n)); ("ShardID"%string, VInt (nr_ShardID n))].

Definition member_value (c : CommitteeMember) : tval := VStruct [
  ("Address"%string, VStr (cm_Address c)); ("IsHarmonyNode"%string, VBool (cm_IsHarmonyNode c));
  ("BLSKey"%string, VStr (cm_BLSKey c)); ("RawPercent"%string, VStr (cm_RawPercent c));
  ("VotingPower"%string, VStr (cm_VotingPower c));
  ("EffectiveStake"%string, VStr (cm_EffectiveStake c))].

Definition committee_info_value (c : CommitteeInfo) : tval := VStruct [
  ("PolicyType"%string, VStr (ci_PolicyType c)); ("MemberCount"%string, VInt (ci_MemberCount c));
  ("Externals"%string, VInt (ci_Externals c));
  ("Committee"%string, VList (member_value <$> ci_Committee c));
  ("HarmonyPower"%string, VStr (ci_HarmonyPower c));
  ("StakedPower"%string, VStr (ci_StakedPower c));
  ("TotalRawStake"%string, VStr (ci_TotalRawStake c))].

Definition committees_value (c : Committees) : tval := VStruct [
  ("Deciders"%string,
   map_value (committee_info_value zero_CommitteeInfo) committee_info_value (co_Deciders c));
  ("ExternalCount"%string, VInt (co_ExternalCount c))].

Definition super_committee_value (c : SuperCommitteeReply) : tval := VStruct [
  ("PreviousCommittee"%string, committees_value (sc_PreviousCommittee c));
  ("CurrentCommittee"%string, committees_value (sc_CurrentCommittee c))].

Definition leaf_value (l : leaf) : tval :=
  match l with
  | LNil => VNil
  | LU64 z | LInt z => VInt z
  | LBool b => VBool b
  | LStr s => VStr s
  | LStrs l => strings_value l
  | LU64s l => VList (VInt <$> l)
  | LHeader h => header_value h
  | LHeaders l => VList (header_value <$> l)
  | LMetas l => VList (metadata_value <$> l)
  end.

(** The element type of the maps is an interface, whose zero value is nil. *)
Definition iface_value (e : iface) : tval :=
  match e with IAny m | IMap m => map_value VNil leaf_value m end.

Definition summary_part_value (m : gmap string iface) : tval := map_value VNil iface_value m.

Definition summary_value (s : summary) : tval :=
  map_value (VMap VNil []) summary_part_value s.

(** The struct [v] of [renderReport]. *)
Definition page_value (d : page_data) : tval := VStruct [
  ("LeftTitle"%string, strings_value (pg_LeftTitle d));
  ("RightTitle"%string, strings_value (pg_RightTitle d));
  ("Summary"%string, summary_value (pg_Summary d));
  ("SuperCommittee"%string, super_committee_value (pg_SuperCommittee d));
  ("NoReply"%string, VList (noReply_value <$> pg_NoReply d));
  ("DownMachineCount"%string, VInt (pg_DownMachineCount d))].

(** ** Functions *)

Definition str_fun (f : string → outcome string) (args : list tval) : eres :=
  match args with
  | [VStr s] => match f s with Done r => inr (VStr r) | Panic w => inl w end
  | _ => inl "wrong type for value; expected string"%string
  end.

Fixpoint strings_of (l : list tval) : option (list string) :=
  match l with
  | [] => Some []
  | VStr s :: l => (s ::.) <$> strings_of l
  | _ => None
  end.

(** The functions of the template; a panic in one ends the execution with an
    error. The committee counts read the monitor when they are called. *)
Definition page_fs (m : monitor) : funcs := λ f,
  if decide (f = "getCommitID"%string) then Some (str_fun (λ s, Done (getCommitID s)))
  else if decide (f = "currentCommitteeCount"%string) then
    Some (str_fun (λ s, Done (currentCommitteeCount m s)))
  else if decide (f = "previousCommitteeCount"%string) then
    Some (str_fun (λ s, Done (previousCommitteeCount m s)))
  else if decide (f = "getShardID"%string) then Some (str_fun getShardID)
  else if decide (f = "calcConnectivity"%string) then Some (λ args,
    match args with
    | [VInt connected; VInt known] => inr (VStr (calcConnectivity connected known))
    | _ => inl "wrong type for value; expected int"%string
    end)
  else if decide (f = "convertUnixTime"%string) then Some (λ args,
    match args with
    | [VInt t] => inr (VStr (convertUnixTime t))
    | _ => inl "wrong type for value; expected int64"%string
    end)
  else if decide (f = "getShortBLSKey"%string) then Some (λ args,
    match args with
    | [VList l] =>
        match strings_of l with
        | Some keys => inr (VStr (getShortBLSKey keys))
        | None => inl "wrong type for value; expected []string"%string
        end
    | _ => inl "wrong type for value; expected []string"%string
    end)
  else None.

(** ** The type of the data *)

Definition any_fields (l : list string) : list (string * ty) := (λ f, (f, TAny)) <$> l.

Definition header_ty : ty := TStruct [("IP"%string, TStr); ("Payload"%string, TStruct (
  ("UnixTime"%string, TInt) :: any_fields
  ["BlockHash"; "BlockNumber"; "Leader"; "ViewID"; "Epoch"; "LastCommitSig"; "LastCommitBitmap"]%string))].

Definition metadata_ty : ty := TStruct [("IP"%string, TStr); ("Payload"%string, TStruct (
  ("BLSPublicKey"%string, TList TStr) :: ("NodeStartTime"%string, TInt)
  :: ("IsLeader"%string, TBool)
  :: ("ChainConfig"%string, TStruct [("ChainID"%string, TInt)])
  :: ("P2PConnectivity"%string, TStruct [("Connected"%string, TInt); ("TotalKnown"%string, TInt)])
  :: any_fields ["Version"; "NetworkType"; "ShardID"; "NodeRole"; "ArchivalNode"]%string))].

Definition noReply_ty : ty :=
  TStruct (any_fields ["IP"; "FailureReason"; "RPCPayload"; "ShardID"]%string).

Definition member_ty : ty := TStruct (any_fields
  ["Address"; "IsHarmonyNode"; "BLSKey"; "RawPercent"; "VotingPower"; "EffectiveStake"]%string).

Definition info_ty : ty := TStruct (
  ("Committee"%string, TList member_ty)
  :: any_fields ["PolicyType"; "MemberCount"; "HarmonyPower"; "StakedPower"; "TotalRawStake"]%string).

(** The key sets: shards with headers, shards with a chain configuration,
    versions, and the names of the current and of the previous committees. *)
Definition page_ty : ty := TStruct [
  ("LeftTitle"%string, TList TStr); ("RightTitle"%string, TList TStr);
  ("Summary"%string, TDict [
     (headerSumry, TKeyMap 0 (TDict [("records"%string, TList header_ty)]));
     (chainSumry, TKeyMap 1 (TDict []));
     (metaSumry, TKeyMap 2 (TDict [("records"%string, TList metadata_ty)]))]);
  ("SuperCommittee"%string, TStruct [
     ("CurrentCommittee"%string, TStruct [("Deciders"%string, TKeyMap 3 info_ty)]);
     ("PreviousCommittee"%string, TStruct [("Deciders"%string, TKeyMap 4 info_ty)])]);
  ("NoReply"%string, TList noReply_ty);
  ("DownMachineCount"%string, TInt)].

(** The shards with a chain configuration are shards with headers. *)
Definition page_sub (a b : nat) : bool := (a =? 1)%nat && (b =? 0)%nat.

Definition page_sig (f : string) (ts : list ty) : option ty :=
  if decide (f = "getCommitID"%string) then
    match ts with [TKey 2] => Some TStr | _ => None end
  else if decide (f = "currentCommitteeCount"%string) then
    match ts with [TKey 1] => Some TStr | _ => None end
  else if decide (f = "previousCommitteeCount"%string) then
    match ts with [TKey 1] => Some TStr | _ => None end
  else if decide (f = "getShardID"%string) then
    match ts with [TKey 3] | [TKey 4] => Some TStr | _ => None end
  else if decide (f = "calcConnectivity"%string) then
    match ts with [TInt; TInt] => Some TStr | _ => None end
  else if decide (f = "convertUnixTime"%string) then
    match ts with [TInt] => Some TStr | _ => None end
  else if decide (f = "getShortBLSKey"%string) then
    match ts with [TList TStr] => Some TStr | _ => None end
  else None.

Lemma page_typed header metadata :
  type_nodes page_sub page_sig (page_nodes header metadata) [("$"%string, page_ty)] page_ty = true.
Proof. by vm_compute. Qed.

(** ** The data has its type *)

Lemma elem_of_sorted_keys {V} (m : gmap string V) k :
  k ∈ (sorted_entries m).*1 ↔ is_Some (m !! k).
Proof.
  rewrite list_elem_of_fmap. split.
  - intros ([k' v] & -> & Hin%elem_of_sorted_entries). eauto.
  - intros [v Hv%elem_of_sorted_entries]. by exists (k, v).
Qed.

Lemma assoc_NoDup {A} (l : list (string * A)) k a :
  NoDup l.*1 → (k, a) ∈ l → assoc k l = Some a.
Proof.
  induction l as [|[k' a'] l IH]; cbn; [intros _ ?%not_elem_of_nil; done|].
  intros [Hn Hd]%NoDup_cons [[= <- <-]|Hin]%elem_of_cons; [by rewrite decide_True|].
  rewrite decide_False; [by apply IH|]. intros ->. apply Hn.
  by apply (list_elem_of_fmap_2' fst _ (k, a)).
Qed.

Lemma assoc_None {A} (l : list (string * A)) k : k ∉ l.*1 → assoc k l = None.
Proof.
  induction l as [|[k' a] l IH]; cbn; [done|]. intros [Hk Hl]%not_elem_of_cons.
  rewrite decide_False by done. by apply IH.
Qed.

(** Looking up a key of a map, as the template does. *)
Lemma assoc_map {V} (f : V → tval) (m : gmap string V) k :
  assoc k ((λ p, (p.1, f p.2)) <$> sorted_entries m) = f <$> m !! k.
Proof.
  assert (((λ p, (p.1, f p.2)) <$> sorted_entries m).*1 = (sorted_entries m).*1) as Ek
    by (rewrite <-list_fmap_compose; by apply list_fmap_ext).
  destruct (m !! k) as [v|] eqn:E; cbn.
  - apply assoc_NoDup; rewrite ?Ek.
    + rewrite sorted_entries_perm. apply NoDup_fst_map_to_list.
    + apply list_elem_of_fmap. exists (k, v). by rewrite elem_of_sorted_entries.
  - apply assoc_None. rewrite Ek, elem_of_sorted_keys, E. by intros [].
Qed.

Lemma index_map {V} zero (f : V → tval) m k :
  index1 (map_value zero f m) (VStr k) = inr (default zero (f <$> m !! k)).
Proof. cbn. by rewrite assoc_map. Qed.

Lemma elements_map {V} zero (f : V → tval) m :
  elements (map_value zero f m) = inr ((λ p, (VStr p.1, f p.2)) <$> sorted_entries m).
Proof. cbn. by rewrite <-list_fmap_compose. Qed.

Section page_types.
Context (keys : nat → list string).

Lemma map_value_keys {V} n t zero (f : V → tval) m :
  keys n = (sorted_entries m).*1 → (∀ k v, m !! k = Some v → has_type keys t (f v)) →
  has_type keys (TKeyMap n t) (map_value zero f m).
Proof.
  intros Hk Hv. cbn. eexists _, _. split; [done|]. split.
  - intros s. rewrite Hk. f_equiv. rewrite <-list_fmap_compose. f_equiv.
  - apply Forall_fmap, Forall_forall. intros [k v] Hin%elem_of_sorted_entries. by eapply Hv.
Qed.

Lemma map_value_dict {V} fields zero (f : V → tval) m :
  Forall (λ p, ∃ v, m !! p.1 = Some v ∧ has_type keys p.2 (f v)) fields →
  has_type keys (TDict fields) (map_value zero f m).
Proof.
  intros Hf. apply has_type_dict. eexists _, _. split; [done|].
  eapply Forall_impl; [exact Hf|]. intros [k t] (v & E & Ht). exists (f v). cbn in *.
  by rewrite assoc_map, E.
Qed.

Lemma list_value {A} t (f : A → tval) l :
  (∀ x, has_type keys t (f x)) → has_type keys (TList t) (VList (f <$> l)).
Proof. intros Hf. exists (f <$> l). split; [done|]. apply Forall_fmap, Forall_true, Hf. Qed.

Ltac fields := cbn; eexists; split; [reflexivity|]; repeat (split; [eexists; split; [reflexivity|]|]);
  try done; eauto.

Lemma strings_typed l : has_type keys (TList TStr) (strings_value l).
Proof. apply list_value. cbn. eauto. Qed.

Lemma header_typed h : has_type keys header_ty (header_value h).
Proof. fields. fields. Qed.

Lemma metadata_typed n : has_type keys metadata_ty (metadata_value n).
Proof. fields. fields; try (by fields). exact (strings_typed _). Qed.

Lemma noReply_typed n : has_type keys noReply_ty (noReply_value n).
Proof. fields. Qed.

Lemma member_typed c : has_type keys member_ty (member_value c).
Proof. fields. Qed.

Lemma info_typed c : has_type keys info_ty (committee_info_value c).
Proof. fields. exact (list_value member_ty member_value _ member_typed). Qed.

Lemma super_committee_typed c :
  keys 3%nat = (sorted_entries (co_Deciders (sc_CurrentCommittee c))).*1 →
  keys 4%nat = (sorted_entries (co_Deciders (sc_PreviousCommittee c))).*1 →
  has_type keys (TStruct [
     ("CurrentCommittee"%string, TStruct [("Deciders"%string, TKeyMap 3 info_ty)]);
     ("PreviousCommittee"%string, TStruct [("Deciders"%string, TKeyMap 4 info_ty)])])
    (super_committee_value c).
Proof.
  intros H3 H4. apply has_type_struct. eexists. split; [reflexivity|].
  repeat constructor; (eexists; split; [reflexivity|]); apply has_type_struct;
    (eexists; split; [reflexivity|]); repeat constructor; (eexists; split; [reflexivity|]);
    apply map_value_keys; auto using info_typed.
Qed.
End page_types.

(** The functions keep to their types. *)
Definition named (keys : nat → list string) : Prop :=
  ∀ s, s ∈ keys 3%nat ∨ s ∈ keys 4%nat → s ≠ EmptyString.

Lemma strings_of_values l : Forall (λ v, ∃ s, v = VStr s) l → ∃ keys, strings_of l = Some keys.
Proof. induction 1 as [|v l [s ->] _ [keys IH]]; cbn; [eauto|]. rewrite IH. cbn. eauto. Qed.

Lemma getShardID_Done s : s ≠ EmptyString → ∃ r, getShardID s = Done r.
Proof.
  intros Hs. unfold getShardID. destruct s as [|c s]; [done|]. cbn [String.length Nat.eqb].
  rewrite slice_ok by (cbn; lia). eauto.
Qed.

Ltac args :=
  repeat match goal with
  | H : Forall2 _ (_ :: _) _ |- _ => apply Forall2_cons_inv_l in H as (? & ? & ? & ? & ->)
  | H : Forall2 _ [] _ |- _ => apply Forall2_nil_inv_l in H as ->
  end.

Lemma page_sig_ok keys m f ts t vs :
  (f = "getShardID"%string → named keys) → page_sig f ts = Some t →
  Forall2 (has_type keys) ts vs →
  ∃ g v, page_fs m f = Some g ∧ g vs = inr v ∧ has_type keys t v.
Proof.
  intros Hn. unfold page_sig, page_fs.
  repeat (case_decide; [subst f|]); try done; intros Hs Hvs.
  all: repeat (case_match; try done); simplify_eq; args; cbn [has_type] in *; crush_hyps.
  all: try by (eexists _, (VStr _); split; [done|]; split; [done|]; by eexists).
  all: match goal with
    | H : ?s ∈ _ |- _ => destruct (getShardID_Done s) as [r Hr]; [by apply Hn; auto|]
    | H : Forall _ ?l |- _ => destruct (strings_of_values l H) as [r Hr]
    end.
  all: eexists _, (VStr _); split; [done|]; cbn; rewrite Hr; split; [done|]; by eexists.
Qed.

(** ** The parts of the summary on the page *)

Section page_parts.
Context `{L : Linq} `{MR : GoRuntime}.
Context (metas : list NodeMetadata) (hs : list BlockHeader) (links : list CrossLink).
Context (progress : gmap string bool) (chain : gmap string iface).
Context (Hchain : chain_summaries metas = Done chain).
Context (d : page_data) (Hd : pg_Summary d = page_summary metas hs links progress chain).

Definition summary_part (key : string) : gmap string iface := default ∅ (pg_Summary d !! key).

Definition page_keys (n : nat) : list string :=
  match n with
  | 0 => (sorted_entries (summary_part headerSumry)).*1
  | 1 => (sorted_entries (summary_part chainSumry)).*1
  | 2 => (sorted_entries (summary_part metaSumry)).*1
  | 3 => (sorted_entries (co_Deciders (sc_CurrentCommittee (pg_SuperCommittee d)))).*1
  | _ => (sorted_entries (co_Deciders (sc_PreviousCommittee (pg_SuperCommittee d)))).*1
  end%nat.

Lemma header_part :
  pg_Summary d !! headerSumry = Some (complete metas links (blockHeaderSummary hs true ∅)).
Proof. by rewrite Hd. Qed.
Lemma chain_part : pg_Summary d !! chainSumry = Some (with_status progress chain).
Proof. by rewrite Hd. Qed.
Lemma meta_part : pg_Summary d !! metaSumry = Some (version_summary metas).
Proof. by rewrite Hd. Qed.

(** The keys of the parts. *)
Lemma header_part_key k e :
  complete metas links (blockHeaderSummary hs true ∅) !! k = Some e →
  ∃ shard, k = Itoa shard ∧ shard_entry hs metas links shard e.
Proof.
  intros E. destruct (blockHeaderSummary hs true ∅ !! k) as [e0|] eqn:E0.
  - apply blockHeaderSummary_Some in E0 as (shard & g & _ & -> & _). exists shard.
    split; [done|]. by apply complete_entry.
  - unfold complete in E. rewrite fold_alter_None in E; [done|]. by apply fold_alter_None.
Qed.

Lemma chain_part_any : any_map (with_status progress chain).
Proof.
  unfold with_status. apply fold_left_inv; [|by eapply chain_summaries_any].
  intros p inner _. apply any_map_alter.
Qed.

Lemma with_status_dom k : is_Some (with_status progress chain !! k) ↔ is_Some (chain !! k).
Proof.
  unfold with_status. destruct (chain !! k) as [e|] eqn:E.
  - destruct (chain_summaries_any _ _ Hchain _ _ E) as [a ->].
    split; [done|]. intros _. erewrite fold_alter_entry by done. eauto.
  - by rewrite fold_alter_None.
Qed.

(** ** The page has its type *)

Lemma page_data_typed : has_type page_keys page_ty (page_value d).
Proof.
  apply has_type_struct. eexists. split; [reflexivity|].
  repeat constructor; (eexists; split; [reflexivity|]).
  - apply strings_typed.
  - apply strings_typed.
  - apply map_value_dict. rewrite !Forall_cons. cbn [fst snd].
    rewrite header_part, chain_part, meta_part. split_and!; [..|done];
      (eexists; split; [reflexivity|]); apply map_value_keys.
    + unfold page_keys, summary_part. by rewrite header_part.
    + intros k e (shard & -> & a & h & ips & g & -> & _ & Hrec & _)%header_part_key.
      apply map_value_dict. constructor; [|done]. eexists. split; [exact Hrec|].
      apply list_value, header_typed.
    + unfold page_keys, summary_part. by rewrite chain_part.
    + intros k e [a ->]%chain_part_any. by apply map_value_dict.
    + unfold page_keys, summary_part. by rewrite meta_part.
    + intros k e (g & _ & ->)%version_summary_Some.
      apply map_value_dict. constructor; [|done]. eexists. split; [by apply lookup_singleton_eq|].
      apply list_value, metadata_typed.
  - by apply super_committee_typed.
  - apply list_value, noReply_typed.
  - by eexists.
Qed.
End page_parts.

(** The header part has the entries of the header summary. *)
Lemma complete_is_Some `{L : Linq} `{MR : GoRuntime} metas links hs k :
  is_Some (complete metas links (blockHeaderSummary hs true ∅) !! k)
  ↔ is_Some (blockHeaderSummary hs true ∅ !! k).
Proof.
  unfold complete. destruct (blockHeaderSummary hs true ∅ !! k) as [e|] eqn:E.
  - destruct (blockHeaderSummary_any hs _ _ E) as [a ->].
    split; [done|]. intros _. erewrite fold_alter_entry; [eauto|]. by apply fold_alter_entry.
  - rewrite fold_alter_None; [done|]. by apply fold_alter_None.
Qed.

(** ** Rounds of the page's loops

    Most sections of the page are [with] a map and [range $key, $value] over it:
    on a finished page every entry had its round. *)

Lemma truth_map_value {V} zero (f : V → tval) m k v :
  m !! k = Some v → truth (map_value zero f m) = true.
Proof.
  intros Hin%elem_of_sorted_entries. cbn. rewrite length_fmap.
  by destruct (sorted_entries m); [apply not_elem_of_nil in Hin|].
Qed.

Section rounds.
Context (fs : funcs).

Lemma section_round {V} l vars d out vars' k e b r body w zero (f : V → tval) m key v :
  exec_list fs l vars d = (out, inr vars') → l !! k = Some (NWith e b) →
  b !! 1%nat = Some (NRange (Some ("$key", "$value")%string) r body) →
  (∀ vars, eval fs vars d e = inr w) → truth w = true →
  (∀ vars, eval fs vars w r = inr (map_value zero f m)) → m !! key = Some v →
  ∃ out0 vars0 vars1 out1 vars2, exec_list fs (take k l) vars d = (out0, inr vars0)
    ∧ exec_list fs body vars1 (f v) = (out1, inr vars2) ∧ infix out1 out
    ∧ assoc "$key" vars1 = Some (VStr key) ∧ assoc "$value" vars1 = Some (f v)
    ∧ ∀ x, x ≠ "$key"%string → x ≠ "$value"%string → forallb (keeps x) (take 1 b) = true →
        assoc x vars1 = assoc x vars0.
Proof.
  intros E Hk Hb He Hw Hr Hv.
  destruct (exec_list_visit _ _ _ _ _ _ _ _ E Hk) as (out0 & vars0 & out1 & vars1 & E0 & E1 & I1).
  destruct (exec_with_visit _ _ _ _ _ _ _ _ E1 (He _) Hw) as (vars2 & E2).
  destruct (exec_list_visit _ _ _ _ _ _ _ _ E2 Hb) as (out3 & vars3 & out4 & vars4 & E3 & E4 & I4).
  destruct (exec_range_visit _ _ _ _ _ _ _ _ _ _ (VStr key) (f v) E4 (Hr _) (elements_map _ _ _))
    as (out5 & vars5 & E5 & I5).
  { apply list_elem_of_fmap. exists (key, v). by rewrite elem_of_sorted_entries. }
  exists out0, vars0, (loop_vars (Some ("$key", "$value")%string) (VStr key) (f v) vars3), out5, vars5.
  split; [done|]. split; [done|]. split; [by eauto using infix_trans|].
  split; [done|]. split; [done|]. intros x Hx1 Hx2 Hkeep. cbn.
  rewrite !decide_False by done. by eapply exec_list_keeps.
Qed.

(** A round of [range] over a list. *)
Lemma list_round {A} e row vars d out vars' (f : A → tval) els x :
  exec fs (NRange None e row) vars d = (out, inr vars') →
  eval fs vars d e = inr (VList (f <$> els)) → x ∈ els →
  ∃ out1 vars1, exec_list fs row vars (f x) = (out1, inr vars1) ∧ infix out1 out.
Proof.
  intros E He Hx. destruct (list_elem_of_lookup_1 _ _ Hx) as [i Hi].
  apply (exec_range_visit _ _ _ _ _ _ _ _ _ _ (VInt (Z.of_nat i)) (f x) E He eq_refl).
  apply list_elem_of_lookup. exists i. rewrite lookup_zip_with, !list_lookup_fmap, Hi.
  rewrite lookup_seq_lt by (rewrite length_fmap; by apply lookup_lt_Some in Hi). done.
Qed.

(** The rows of a table: [with] a list and [range] over it. *)
Lemma table_round {A} l vars d out vars' k e b row (f : A → tval) els x :
  exec_list fs l vars d = (out, inr vars') → l !! k = Some (NWith e b) →
  b !! 1%nat = Some (NRange None (EDot []) row) →
  (∀ out0 vars0, exec_list fs (take k l) vars d = (out0, inr vars0) →
     eval fs vars0 d e = inr (VList (f <$> els))) → x ∈ els →
  ∃ vars1 out1 vars2, exec_list fs row vars1 (f x) = (out1, inr vars2) ∧ infix out1 out.
Proof.
  intros E Hk Hb He Hx.
  destruct (exec_list_visit _ _ _ _ _ _ _ _ E Hk) as (out0 & vars0 & out1 & vars1 & E0 & E1 & I1).
  destruct (exec_with_visit _ _ _ _ _ _ _ _ E1 (He _ _ E0)) as (vars2 & E2);
    [by destruct els; [apply not_elem_of_nil in Hx|]|].
  destruct (exec_list_visit _ _ _ _ _ _ _ _ E2 Hb) as (out3 & vars3 & out4 & vars4 & E3 & E4 & I4).
  destruct (list_round _ _ _ _ _ _ _ _ _ E4 eq_refl Hx) as (out5 & vars5 & E5 & I5).
  exists vars3, out5, vars5. by eauto using infix_trans.
Qed.
End rounds.

(** ** When the page is complete *)

Section complete.
Context (m : monitor) (d : page_data).

Lemma summary_index vars key part :
  pg_Summary d !! key = Some part →
  eval (page_fs m) vars (page_value d) (ECall "index" [EDot ["Summary"%string]; EStr key])
  = inr (summary_part_value part).
Proof.
  intros E. change (index1 (summary_value (pg_Summary d)) (VStr key) = inr (summary_part_value part)).
  unfold summary_value. by rewrite index_map, E.
Qed.

(** [index] of the missing header entry of a shard. *)
Lemma crosslink_nil vars dot key headers :
  assoc "$root" vars = Some (page_value d) → assoc "$key" vars = Some (VStr key) →
  pg_Summary d !! headerSumry = Some headers → headers !! key = None →
  eval (page_fs m) vars dot (ECall "index" [ECall "index" [ECall "index"
    [EVar "$root" ["Summary"%string]; EStr headerSumry]; EVar "$key" []]; EStr "last-crosslink"])
  = inl "index of untyped nil"%string.
Proof.
  intros Hr Hk Hh Hn.
  assert (eval (page_fs m) vars dot (ECall "index" [EVar "$root" ["Summary"%string]; EStr headerSumry])
    = inr (summary_part_value headers)) as E1.
  { rewrite (eval_two _ _ _ _ _ _ (summary_value (pg_Summary d)) (VStr headerSumry)); [|cbn; by rewrite Hr|done].
    by apply (summary_index []). }
  rewrite (eval_two _ _ _ _ _ _ VNil (VStr "last-crosslink")); [done| |done].
  rewrite (eval_two _ _ _ _ _ _ (summary_part_value headers) (VStr key)); [|done|cbn; by rewrite Hk].
  change (index1 (summary_part_value headers) (VStr key) = inr VNil).
  unfold summary_part_value. by rewrite index_map, Hn.
Qed.

(** The chain section looks up the header entry of every shard it lists. *)
Lemma page_crosslink header metadata out vars chain headers key e :
  exec_list (page_fs m) (take 10 (page_nodes header metadata)) [("$"%string, page_value d)]
    (page_value d) = (out, inr vars) →
  pg_Summary d !! chainSumry = Some chain → pg_Summary d !! headerSumry = Some headers →
  chain !! key = Some e → is_Some (headers !! key).
Proof.
  intros E Hc Hh He.
  destruct (section_round (page_fs m) _ _ _ _ _ 9 _ _ _ _ (summary_part_value chain) VNil
    iface_value chain key e E eq_refl eq_refl (λ vars, summary_index vars chainSumry chain Hc)
    (truth_map_value _ _ _ _ _ He) (λ _, eq_refl) He)
    as (out0 & vars0 & vars1 & out1 & vars2 & E0 & E1 & _ & Hkey & _ & Hx).
  assert (assoc "$root" vars1 = Some (page_value d)) as Hroot.
  { rewrite Hx by done.
    by destruct (exec_list_declared _ "$root" _ _ _ _ _ _ 7 E0 eq_refl eq_refl)
      as (_ & _ & v & _ & [= <-] & Hv). }
  destruct (exec_list_visit _ _ _ _ _ _ 25 _ E1 eq_refl)
    as (out3 & vars3 & out4 & vars4 & E3 & E4 & _).
  destruct (headers !! key) as [h|] eqn:Eh; [eauto|]. exfalso.
  cbn [exec] in E4. rewrite (crosslink_nil _ _ key headers) in E4; [done|..|done|done].
  - by rewrite (exec_list_keeps _ "$root" _ _ _ _ _ E3 eq_refl).
  - by rewrite (exec_list_keeps _ "$key" _ _ _ _ _ E3 eq_refl).
Qed.

(** The committee sections name every committee by the last character of its
    key. *)
Lemma getShardID_named vars dot v :
  eval (page_fs m) vars dot (ECall "getShardID" [EVar "$key" []]) = inr v →
  assoc "$key" vars ≠ Some (VStr EmptyString).
Proof. intros E Hk. rewrite eval_call in E. cbn in E. by rewrite Hk in E. Qed.

Lemma committee_named l vars out vars' k c (part : SuperCommitteeReply → Committees) b r body rest t key info :
  exec_list (page_fs m) l vars (page_value d) = (out, inr vars') →
  l !! k = Some (NWith (EDot ["SuperCommittee"%string]) b) →
  b !! 1%nat = Some (NRange (Some ("$key", "$value")%string) r body) →
  body = NText t :: NAction (Some "$shard"%string) (ECall "getShardID" [EVar "$key" []]) :: rest →
  (∀ vars, eval (page_fs m) vars (super_committee_value (pg_SuperCommittee d)) r
     = inr (map_value c committee_info_value (co_Deciders (part (pg_SuperCommittee d))))) →
  co_Deciders (part (pg_SuperCommittee d)) !! key = Some info → key ≠ EmptyString.
Proof.
  intros E Hk Hb -> Hr Hi ->.
  destruct (section_round (page_fs m) _ _ _ _ _ k _ _ _ _ _ _ _ _ EmptyString info E Hk Hb
    (λ _, eq_refl) eq_refl Hr Hi) as (_ & _ & vars1 & out1 & vars2 & _ & E1 & _ & Hkey & _).
  destruct (exec_list_visit _ _ _ _ _ _ 1 _ E1 eq_refl)
    as (out3 & vars3 & out4 & vars4 & E3 & E4 & _).
  cbn [exec] in E4. destruct (eval _ vars3 _ _) as [err|v] eqn:Ev; [done|].
  apply (getShardID_named _ _ _ Ev). by rewrite (exec_list_keeps _ "$key" _ _ _ _ _ E3 eq_refl).
Qed.
End complete.

(** The page is executed to its end exactly when the header part has an entry
    for every shard of the chain part and no committee has an empty name. *)
Definition committees_named (c : SuperCommitteeReply) : Prop :=
  co_Deciders (sc_CurrentCommittee c) !! EmptyString = None
  ∧ co_Deciders (sc_PreviousCommittee c) !! EmptyString = None.

Lemma Execute_inr fs l v :
  (Execute fs l v).2 = None ↔ ∃ out vars, exec_list fs l [("$"%string, v)] v = (out, inr vars).
Proof.
  unfold Execute. destruct (exec_list _ _ _ _) as [out [err|vars]]; split; try done; eauto.
  by intros (? & ? & ?).
Qed.

(** The nodes before the one of place [k]. *)
Lemma exec_list_take fs k l vars d out vars' :
  exec_list fs l vars d = (out, inr vars') →
  ∃ out1 vars1, exec_list fs (take k l) vars d = (out1, inr vars1) ∧ infix out1 out.
Proof.
  intros E. rewrite <-(take_drop k l), exec_list_app in E.
  apply written_then_inv in E as (out1 & vars1 & out2 & E1 & _ & ->).
  exists out1, vars1. split; [done|]. apply infix_app_r, infix_refl.
Qed.

(** Every shard of the chain part has its key in the header part. *)
Lemma page_sub_ok `{L : Linq} `{MR : GoRuntime} metas hs links progress chain d :
  chain_summaries metas = Done chain → pg_Summary d = page_summary metas hs links progress chain →
  (∀ k, is_Some (chain !! k) → is_Some (blockHeaderSummary hs true ∅ !! k)) →
  ∀ a b, page_sub a b = true → ∀ s, s ∈ page_keys d a → s ∈ page_keys d b.
Proof.
  intros Hc Hd Hk a b Hab s. unfold page_sub in Hab. apply andb_true_iff in Hab as [Ha Hb].
  apply Nat.eqb_eq in Ha as ->, Hb as ->. cbn [page_keys]. unfold summary_part.
  rewrite (header_part _ _ _ _ _ d Hd), (chain_part _ _ _ _ _ d Hd). cbn [default from_option id].
  rewrite !elem_of_sorted_keys, (with_status_dom metas progress chain Hc). intros Hs%Hk.
  by apply complete_is_Some.
Qed.

Lemma page_finished `{L : Linq} `{MR : GoRuntime} metas hs links progress chain m d chain_name :
  chain_summaries metas = Done chain → pg_Summary d = page_summary metas hs links progress chain →
  (Execute (page_fs m) (nodes_of chain_name) (page_value d)).2 = None
  ↔ (∀ k, is_Some (chain !! k) → is_Some (blockHeaderSummary hs true ∅ !! k))
    ∧ committees_named (pg_SuperCommittee d).
Proof.
  intros Hc Hd. split.
  - intros (out & vars & E)%Execute_inr. split; [|split].
    + intros k Hk. apply (with_status_dom metas progress chain Hc) in Hk as [e He].
      apply complete_is_Some with metas links. destruct (exec_list_take _ 10 _ _ _ _ _ E) as (out1 & vars1 & E1 & _).
      eapply page_crosslink; [exact E1|by eapply chain_part|by eapply header_part|done].
    + apply eq_None_not_Some. intros [info Ei].
      by destruct (committee_named m d _ _ _ _ 21 _ sc_CurrentCommittee _ _ _ _ _ _ _ E eq_refl
        eq_refl eq_refl (λ _, eq_refl) Ei).
    + apply eq_None_not_Some. intros [info Ei].
      by destruct (committee_named m d _ _ _ _ 23 _ sc_PreviousCommittee _ _ _ _ _ _ _ E eq_refl
        eq_refl eq_refl (λ _, eq_refl) Ei).
  - intros [Hk [H3 H4]].
    apply (type_nodes_sound (page_keys d) page_sub) with (sig := page_sig) (t := page_ty).
    + by eapply page_sub_ok.
    + intros f ts t vs. apply page_sig_ok. intros _ s Hs ->. cbn [page_keys] in Hs.
      rewrite !elem_of_sorted_keys, H3, H4 in Hs. by destruct Hs as [[]|[]].
    + apply page_typed.
    + by eapply page_data_typed.
Qed.

(** The tables before the committees do not ask for the names of committees. *)
Definition table_sig (f : string) (ts : list ty) : option ty :=
  if decide (f = "getShardID"%string) then None else page_sig f ts.

Lemma tables_finished `{L : Linq} `{MR : GoRuntime} metas hs links progress chain m d chain_name :
  chain_summaries metas = Done chain → pg_Summary d = page_summary metas hs links progress chain →
  (∀ k, is_Some (chain !! k) → is_Some (blockHeaderSummary hs true ∅ !! k)) →
  ∃ out vars, exec_list (page_fs m) (take 20 (nodes_of chain_name)) [("$"%string, page_value d)]
    (page_value d) = (out, inr vars).
Proof.
  intros Hc Hd Hk. apply Execute_inr.
  apply (type_nodes_sound (page_keys d) page_sub) with (sig := table_sig) (t := page_ty).
  - by eapply page_sub_ok.
  - intros f ts t vs. unfold table_sig. case_decide; [done|]. by apply page_sig_ok.
  - by vm_compute.
  - by eapply page_data_typed.
Qed.

(** ** Rows *)

(** Texts and cells in turn, as long as there are texts. *)
Fixpoint weave (texts cells : list string) : list chunk :=
  match texts, cells with
  | t :: texts, c :: cells => Lit t :: Out c :: weave texts cells
  | [], _ => []
  | texts, [] => Lit <$> texts
  end.

Fixpoint weave_nodes (texts : list string) (es : list expr) : list node :=
  match texts, es with
  | t :: texts, e :: es => NText t :: NAction None e :: weave_nodes texts es
  | [], _ => []
  | texts, [] => NText <$> texts
  end.

(** The body of a block, found by its place in the page. *)
Fixpoint body_of (l : list node) (path : list nat) : list node :=
  match path with
  | [] => l
  | k :: path =>
      match l !! k with
      | Some (NIf _ b | NWith _ b | NRange _ _ b) => body_of b path
      | _ => []
      end
  end.

Definition texts_of (l : list node) : list string :=
  omap (λ n, match n with NText s => Some s | _ => None end) l.

Definition exprs_of (l : list node) : list expr :=
  omap (λ n, match n with NAction None e => Some e | _ => None end) l.

(** The texts around the cells of the rows of the page's tables. *)
Definition down_row_texts : list string :=
  Eval vm_compute in texts_of (body_of (page_nodes EmptyString EmptyString) [15; 3]%nat).
Definition header_row_texts : list string :=
  Eval vm_compute in texts_of (body_of (page_nodes EmptyString EmptyString) [17; 1; 21; 1]%nat).
Definition metadata_row_texts : list string :=
  Eval vm_compute in texts_of (body_of (page_nodes EmptyString EmptyString) [19; 1; 9; 1]%nat).
Definition current_row_texts : list string :=
  Eval vm_compute in texts_of (body_of (page_nodes EmptyString EmptyString) [21; 1; 11; 11; 1]%nat).
Definition previous_row_texts : list string :=
  Eval vm_compute in texts_of (body_of (page_nodes EmptyString EmptyString) [23; 1; 11; 11; 1]%nat).

Definition down_cells (n : noReply) : list string :=
  [nr_IP n; Itoa (nr_ShardID n); nr_RPCPayload n; nr_FailureReason n].

Definition header_cells (h : BlockHeader) : list string :=
  let p := bhd_Payload h in
  [bhd_IP h; bh_BlockHash p; Itoa (bh_Epoch p); Itoa (bh_BlockNumber p); bh_Leader p;
   Itoa (bh_ViewID p); convertUnixTime (bh_UnixTime p); bh_LastCommitSig p; bh_LastCommitBitmap p].

Definition metadata_cells (n : NodeMetadata) : list string :=
  let p := nmd_Payload n in
  [nmd_IP n; getShortBLSKey (slice_elems (nm_BLSPublicKey p)); nm_Version p; nm_NetworkType p;
   Itoa (cc_ChainID (nm_Chain p)); Itoa (nm_ShardID p); nm_NodeRole p;
   show_bool (nm_ArchivalNode p); Itoa (p2p_Connected (nm_P2P p));
   Itoa (p2p_TotalKnown (nm_P2P p));
   calcConnectivity (p2p_Connected (nm_P2P p)) (p2p_TotalKnown (nm_P2P p));
   convertUnixTime (nm_NodeStartTime p)].

(** The row of a node marks a leader in the class of the row. *)
Definition metadata_row_chunks (n : NodeMetadata) : list chunk :=
  match metadata_row_texts with
  | t :: texts =>
      Lit t :: (if nm_IsLeader (nmd_Payload n) then [Lit "is-leader"] else [])
      ++ weave texts (metadata_cells n)
  | [] => []
  end.

Definition member_cells (shard : string) (c : CommitteeMember) : list string :=
  [shard; show_bool (cm_IsHarmonyNode c); cm_Address c; cm_BLSKey c;
   show_bool (cm_IsHarmonyNode c); cm_VotingPower c; cm_RawPercent c; cm_EffectiveStake c].

Lemma exec_texts fs texts vars d :
  exec_list fs (NText <$> texts) vars d = (Lit <$> texts, inr vars).
Proof. induction texts as [|t texts IH]; [done|]. cbn in *. by rewrite IH. Qed.

Lemma exec_weave fs texts es vs vars d :
  Forall2 (λ e v, eval fs vars d e = inr v) es vs →
  exec_list fs (weave_nodes texts es) vars d = (weave texts (written <$> vs), inr vars).
Proof.
  intros H2. revert texts. induction H2 as [|e v es vs He _ IH]; intros [|t texts]; try done.
  - apply (exec_texts fs (t :: texts)).
  - change (written_then (exec fs (NText t) vars d) (λ vars, written_then (exec fs (NAction None e) vars d)
      (λ vars, exec_list fs (weave_nodes texts es) vars d))
      = (Lit t :: Out (written v) :: weave texts (written <$> vs), inr vars)).
    cbn. rewrite He. cbn. by rewrite IH.
Qed.

Lemma strings_of_fmap l : strings_of (VStr <$> l) = Some l.
Proof. induction l as [|s l IH]; [done|]. cbn in *. by rewrite IH. Qed.

Section rows.
Context (m : monitor).

(** The cells of a row evaluate to the values listed. *)
Ltac cells := repeat (constructor; [reflexivity|]); constructor.

Lemma row_exec l texts es vs cells vars d :
  l = weave_nodes texts es → Forall2 (λ e v, eval (page_fs m) vars d e = inr v) es vs →
  written <$> vs = cells → exec_list (page_fs m) l vars d = (weave texts cells, inr vars).
Proof. intros -> H2 <-. by apply exec_weave. Qed.

Lemma header_row_exec vars h :
  exec_list (page_fs m) (body_of (page_nodes EmptyString EmptyString) [17; 1; 21; 1]%nat) vars
    (header_value h) = (weave header_row_texts (header_cells h), inr vars).
Proof.
  eapply (row_exec _ _ (exprs_of (body_of (page_nodes EmptyString EmptyString) [17; 1; 21; 1]%nat)));
    [reflexivity|cells|reflexivity].
Qed.

Lemma down_row_exec vars n :
  exec_list (page_fs m) (body_of (page_nodes EmptyString EmptyString) [15; 3]%nat) vars
    (noReply_value n) = (weave down_row_texts (down_cells n), inr vars).
Proof.
  eapply (row_exec _ _ (exprs_of (body_of (page_nodes EmptyString EmptyString) [15; 3]%nat)));
    [reflexivity|cells|reflexivity].
Qed.

Lemma short_keys_eval vars n :
  eval (page_fs m) vars (metadata_value n)
    (ECall "getShortBLSKey" [EDot ["Payload"; "BLSPublicKey"]%string])
  = inr (VStr (getShortBLSKey (slice_elems (nm_BLSPublicKey (nmd_Payload n))))).
Proof.
  change (match strings_of (VStr <$> slice_elems (nm_BLSPublicKey (nmd_Payload n))) with
    | Some keys => inr (VStr (getShortBLSKey keys))
    | None => inl "wrong type for value; expected []string"%string
    end = @inr string tval (VStr (getShortBLSKey (slice_elems (nm_BLSPublicKey (nmd_Payload n)))))).
  by rewrite strings_of_fmap.
Qed.

Lemma metadata_row_exec vars n :
  exec_list (page_fs m) (body_of (page_nodes EmptyString EmptyString) [19; 1; 9; 1]%nat) vars
    (metadata_value n) = (metadata_row_chunks n, inr vars).
Proof.
  set (row := body_of _ _).
  assert (exec_list (page_fs m) (drop 2 row) vars (metadata_value n)
    = (weave (tl metadata_row_texts) (metadata_cells n), inr vars)) as E.
  { eapply (row_exec _ _ (exprs_of (drop 2 row))); [reflexivity| |].
    - constructor; [reflexivity|]. constructor; [apply short_keys_eval|]. cells.
    - reflexivity. }
  change (written_then ([Lit (hd EmptyString metadata_row_texts)], inr vars) (λ vars,
    written_then (exec (page_fs m) (NIf (EDot ["Payload"; "IsLeader"]%string) [NText "is-leader"]) vars
      (metadata_value n)) (λ vars, exec_list (page_fs m) (drop 2 row) vars (metadata_value n)))
    = (metadata_row_chunks n, inr vars)).
  cbn [written_then]. rewrite exec_if.
  change (eval _ _ _ _) with (@inr string tval (VBool (nm_IsLeader (nmd_Payload n)))). cbv iota beta.
  unfold metadata_row_chunks. cbn [truth].
  destruct (nm_IsLeader (nmd_Payload n)); cbn [exec_list exec block written_then]; by rewrite E.
Qed.

Lemma member_row_exec texts path vars shard c :
  texts = texts_of (body_of (page_nodes EmptyString EmptyString) path) →
  path = [21; 1; 11; 11; 1]%nat ∨ path = [23; 1; 11; 11; 1]%nat →
  assoc "$shard" vars = Some (VStr shard) →
  exec_list (page_fs m) (body_of (page_nodes EmptyString EmptyString) path) vars (member_value c)
  = (weave texts (member_cells shard c), inr vars).
Proof.
  intros -> Hp Hs.
  eapply (row_exec _ _ (exprs_of (body_of (page_nodes EmptyString EmptyString) path))).
  - by destruct Hp as [-> | ->].
  - destruct Hp as [-> | ->]; (constructor; [cbn; by rewrite Hs|cells]).
  - reflexivity.
Qed.
End rows.

(** ** What a finished page shows *)

(** [index $value "records"] in a round. *)
Lemma records_index fs vars dot a l :
  assoc "$value" vars = Some (map_value VNil leaf_value a) → a !! "records"%string = Some l →
  eval fs vars dot (ECall "index" [EVar "$value" []; EStr "records"]) = inr (leaf_value l).
Proof.
  intros Hv Hl. rewrite (eval_two _ _ _ _ _ _ (map_value VNil leaf_value a) (VStr "records"));
    [|cbn; by rewrite Hv|done].
  change (index1 (map_value VNil leaf_value a) (VStr "records") = inr (leaf_value l)).
  by rewrite index_map, Hl.
Qed.

(** What a list writes in a finished page is on the page. *)
Lemma row_infix fs l vars d out1 vars1 out2 vars2 out :
  exec_list fs l vars d = (out1, inr vars1) → exec_list fs l vars d = (out2, inr vars2) →
  infix out1 out → infix out2 out.
Proof. intros -> [= -> _]. done. Qed.

Section tables.
Context (m : monitor) (d : page_data) (header metadata : string) (out : list chunk) (vars' : env).
Context (E : exec_list (page_fs m) (take 20 (page_nodes header metadata)) [("$"%string, page_value d)]
  (page_value d) = (out, inr vars')).

Lemma header_shown headers key a g h :
  pg_Summary d !! headerSumry = Some headers → headers !! key = Some (IAny a) →
  a !! "records"%string = Some (LHeaders g) → h ∈ g →
  infix (weave header_row_texts (header_cells h)) out.
Proof.
  intros Hs Hk Hr Hh.
  destruct (section_round (page_fs m) _ _ _ _ _ 17 _ _ _ _ (summary_part_value headers) VNil
    iface_value headers key (IAny a) E eq_refl eq_refl (λ vars, summary_index m d vars headerSumry headers Hs)
    (truth_map_value _ _ _ _ _ Hk) (λ _, eq_refl) Hk)
    as (_ & _ & vars1 & out1 & vars2 & _ & E1 & I1 & _ & Hv & _).
  destruct (table_round (page_fs m) _ _ _ _ _ 21 _ _ _ header_value g h E1 eq_refl eq_refl)
    as (vars3 & out3 & vars4 & E3 & I3); [|done|].
  { intros out0 vars0 E0. apply (records_index _ _ _ a (LHeaders g)); [|done].
    by rewrite (exec_list_keeps _ "$value" _ _ _ _ _ E0 eq_refl). }
  eapply (row_infix _ _ _ _ _ _ _ _ _ E3 (header_row_exec m vars3 h)). by eauto using infix_trans.
Qed.

Lemma metadata_shown metas key a g n :
  pg_Summary d !! metaSumry = Some metas → metas !! key = Some (IMap a) →
  a !! "records"%string = Some (LMetas g) → n ∈ g →
  infix (metadata_row_chunks n) out.
Proof.
  intros Hs Hk Hr Hn.
  destruct (section_round (page_fs m) _ _ _ _ _ 19 _ _ _ _ (summary_part_value metas) VNil
    iface_value metas key (IMap a) E eq_refl eq_refl (λ vars, summary_index m d vars metaSumry metas Hs)
    (truth_map_value _ _ _ _ _ Hk) (λ _, eq_refl) Hk)
    as (_ & _ & vars1 & out1 & vars2 & _ & E1 & I1 & _ & Hv & _).
  destruct (table_round (page_fs m) _ _ _ _ _ 9 _ _ _ metadata_value g n E1 eq_refl eq_refl)
    as (vars3 & out3 & vars4 & E3 & I3); [|done|].
  { intros out0 vars0 E0. apply (records_index _ _ _ a (LMetas g)); [|done].
    by rewrite (exec_list_keeps _ "$value" _ _ _ _ _ E0 eq_refl). }
  eapply (row_infix _ _ _ _ _ _ _ _ _ E3 (metadata_row_exec m vars3 n)). by eauto using infix_trans.
Qed.

Lemma down_shown x :
  x ∈ pg_NoReply d → infix (weave down_row_texts (down_cells x)) out.
Proof.
  intros Hx. destruct (exec_list_visit _ _ _ _ _ _ 15 _ E eq_refl)
    as (out0 & vars0 & out1 & vars1 & _ & E1 & I1).
  destruct (exec_if_visit _ _ _ _ _ _ _ (VBool true) E1) as (vars2 & E2); [|done|].
  { cbn. by destruct (pg_NoReply d); [apply not_elem_of_nil in Hx|]. }
  destruct (exec_list_visit _ _ _ _ _ _ 3 _ E2 eq_refl) as (out3 & vars3 & out4 & vars4 & _ & E4 & I4).
  destruct (list_round (page_fs m) _ _ _ _ _ _ noReply_value _ x E4 eq_refl Hx) as (out5 & vars5 & E5 & I5).
  eapply (row_infix _ _ _ _ _ _ _ _ _ E5 (down_row_exec m vars3 x)). by eauto using infix_trans.
Qed.

End tables.

Section shown.
Context (m : monitor) (d : page_data) (header metadata : string) (out : list chunk) (vars' : env).
Context (E : exec_list (page_fs m) (page_nodes header metadata) [("$"%string, page_value d)]
  (page_value d) = (out, inr vars')).

(** A round of a committee section: the current committees are the 21st node of
    the page, the previous ones the 23rd. *)
Definition member_texts (k : nat) : list string :=
  texts_of (body_of (page_nodes EmptyString EmptyString) [k; 1; 11; 11; 1]%nat).

Lemma shard_eval vars dot key shard :
  assoc "$key" vars = Some (VStr key) → getShardID key = Done shard →
  eval (page_fs m) vars dot (ECall "getShardID" [EVar "$key" []]) = inr (VStr shard).
Proof.
  intros Hk Hs. rewrite eval_call. cbn [eval_args eval]. rewrite Hk. cbn [field_chain].
  change (match getShardID key with Done r => inr (VStr r) | Panic w => inl w end
    = @inr string tval (VStr shard)). by rewrite Hs.
Qed.

Lemma committee_round k key info shard c vars1 out1 vars2 :
  k = 21%nat ∨ k = 23%nat →
  exec_list (page_fs m) (body_of (page_nodes EmptyString EmptyString) [k; 1]%nat) vars1
    (committee_info_value info) = (out1, inr vars2) →
  assoc "$key" vars1 = Some (VStr key) → assoc "$value" vars1 = Some (committee_info_value info) →
  getShardID key = Done shard → c ∈ ci_Committee info →
  infix (weave (member_texts k) (member_cells shard c)) out1.
Proof.
  intros Hk E1 Hkey Hval Hs Hc. 
  assert (Hrow : ∀ vars, assoc "$shard" vars = Some (VStr shard) →
    exec_list (page_fs m) (body_of (page_nodes EmptyString EmptyString) [k; 1; 11; 11; 1]%nat) vars (member_value c)
    = (weave (member_texts k) (member_cells shard c), inr vars)).
  { intros vars Hv. apply member_row_exec; [done|by destruct Hk as [-> | ->]; auto|done]. }
  destruct Hk as [-> | ->].
  all: destruct (exec_list_visit _ _ _ _ _ _ 11 _ E1 eq_refl)
    as (out3 & vars3 & out4 & vars4 & E3 & E4 & I4).
  all: destruct (exec_list_declared _ "$shard" _ _ _ _ _ _ 1 E3 eq_refl eq_refl)
    as (out5 & vars5 & v & E5 & Ev & Hv).
  all: rewrite (shard_eval _ _ key shard) in Ev;
    [|by rewrite (exec_list_keeps _ "$key" _ _ _ _ _ E5 eq_refl)|done].
  all: injection Ev as <-.
  all: destruct (exec_with_visit _ _ _ _ _ _ _ (committee_info_value info) E4) as (vars6 & E6);
    [cbn; by rewrite (exec_list_keeps _ "$value" _ _ _ _ _ E3 eq_refl), Hval|done|].
  all: destruct (exec_list_visit _ _ _ _ _ _ 11 _ E6 eq_refl)
    as (out7 & vars7 & out8 & vars8 & E7 & E8 & I8).
  all: destruct (list_round (page_fs m) _ _ _ _ _ _ member_value _ c E8 eq_refl Hc)
    as (out9 & vars9 & E9 & I9).
  all: destruct (exec_list_visit _ _ _ _ _ _ 1 _ E9 eq_refl)
    as (out10 & vars10 & out11 & vars11 & E10 & E11 & I11).
  all: destruct (exec_with_visit _ _ _ _ _ _ _ (member_value c) E11 eq_refl eq_refl) as (vars12 & E12).
  all: eapply (row_infix _ _ _ _ _ _ _ _ _ E12 (Hrow vars10 _)); by eauto using infix_trans.
Unshelve.
  all: rewrite (exec_list_keeps _ "$shard" _ _ _ _ _ E10 eq_refl).
  all: by rewrite (exec_list_keeps _ "$shard" _ _ _ _ _ E7 eq_refl).
Qed.

Lemma committee_shown k (part : SuperCommitteeReply → Committees) key info c :
  (k, part) = (21%nat, sc_CurrentCommittee) ∨ (k, part) = (23%nat, sc_PreviousCommittee) →
  co_Deciders (part (pg_SuperCommittee d)) !! key = Some info → c ∈ ci_Committee info →
  ∃ shard, getShardID key = Done shard
    ∧ infix (weave (member_texts k) (member_cells shard c)) out.
Proof.
  intros Hk Hi Hc.
  assert (∃ vars1 out1 vars2,
    exec_list (page_fs m) (body_of (page_nodes EmptyString EmptyString) [k; 1]%nat) vars1
      (committee_info_value info) = (out1, inr vars2)
    ∧ infix out1 out ∧ assoc "$key" vars1 = Some (VStr key)
    ∧ assoc "$value" vars1 = Some (committee_info_value info) ∧ key ≠ EmptyString)
    as (vars1 & out1 & vars2 & E1 & I1 & Hkey & Hv & Hn).
  { destruct Hk as [[= -> ->]|[= -> ->]].
    - pose proof (committee_named m d _ _ _ _ 21 _ sc_CurrentCommittee _ _ _ _ _ _ _ E eq_refl
        eq_refl eq_refl (λ _, eq_refl) Hi).
      destruct (section_round (page_fs m) _ _ _ _ _ 21 _ _ _ _ _ _ _ _ key info E eq_refl eq_refl
        (λ _, eq_refl) eq_refl (λ _, eq_refl) Hi)
        as (_ & _ & vars1 & out1 & vars2 & _ & E1 & I1 & Hkey & Hv & _). eauto 10.
    - pose proof (committee_named m d _ _ _ _ 23 _ sc_PreviousCommittee _ _ _ _ _ _ _ E eq_refl
        eq_refl eq_refl (λ _, eq_refl) Hi).
      destruct (section_round (page_fs m) _ _ _ _ _ 23 _ _ _ _ _ _ _ _ key info E eq_refl eq_refl
        (λ _, eq_refl) eq_refl (λ _, eq_refl) Hi)
        as (_ & _ & vars1 & out1 & vars2 & _ & E1 & I1 & Hkey & Hv & _). eauto 10. }
  destruct (getShardID_Done key Hn) as [shard Hs]. exists shard. split; [done|].
  eapply infix_trans; [|exact I1]. eapply committee_round; try done.
  destruct Hk as [[= -> _]|[= -> _]]; auto.
Qed.
End shown.

(** ** Theorems *)

(** Whether the template of a chain's page parses, as [renderReport] sees it;
    the text of the error is html/template's. *)
Definition parses_as (parse : string → option string) : Prop :=
  ∀ chain, parse chain = None ↔ is_Some (Parse page_funcs (reportPage chain)).

Lemma current_texts : member_texts 21 = current_row_texts.
Proof. vm_compute. reflexivity. Qed.
Lemma previous_texts : member_texts 23 = previous_row_texts.
Proof. vm_compute. reflexivity. Qed.

(** Every record of the snapshots is in the summary. *)
Lemma header_record `{L : Linq} `{MR : GoRuntime} metas hs links h :
  h ∈ hs → ∃ a g, complete metas links (blockHeaderSummary hs true ∅) !! Itoa (header_shard h) = Some (IAny a)
    ∧ a !! "records"%string = Some (LHeaders g) ∧ h ∈ g.
Proof.
  intros Hh. destruct (proj2 (complete_dom hs metas links (header_shard h))) as [e He]; [eauto|].
  pose proof (complete_entry _ _ _ _ _ He) as (a & h' & ips & g & -> & _ & Hr & Hg & _).
  exists a, g. split; [done|]. split; [done|]. rewrite Hg. by apply list_elem_of_filter.
Qed.

Lemma metadata_record `{L : Linq} metas n :
  n ∈ metas → ∃ a g, version_summary metas !! meta_version n = Some (IMap a)
    ∧ a !! "records"%string = Some (LMetas g) ∧ n ∈ g.
Proof.
  intros Hn. destruct (proj2 (version_summary_dom metas (meta_version n))) as [e He]; [eauto|].
  pose proof He as (g & Hg & ->)%version_summary_Some. eexists _, g. split; [done|].
  split; [by apply lookup_singleton_eq|]. rewrite (GroupBy_group _ _ _ _ Hg).
  by apply list_elem_of_filter.
Qed.

(** Shards with metadata have a header. *)
Definition headers_cover (metas : list NodeMetadata) (hs : list BlockHeader) : Prop :=
  ∀ n, n ∈ metas → ∃ h, h ∈ hs ∧ header_shard h = meta_shard n.

Lemma headers_cover_keys `{L : Linq} metas hs chain :
  chain_summaries metas = Done chain → (∀ n, n ∈ metas → is_uint32 (meta_shard n)) →
  (∀ k, is_Some (chain !! k) → is_Some (blockHeaderSummary hs true ∅ !! k))
  ↔ headers_cover metas hs.
Proof.
  intros Hc Hw. setoid_rewrite (chain_summaries_dom metas chain _ Hc). unfold headers_cover. split.
  - intros Hk n Hn. apply (blockHeaderSummary_dom hs true). apply Hk. exists n.
    split; [done|]. by rewrite int64_uint32 by auto.
  - intros Hh k (n & Hn & ->). rewrite int64_uint32 by auto. apply blockHeaderSummary_dom. auto.
Qed.

(** The rows that a page has for the headers, the metadata and the silent nodes. *)
Definition shows_tables (metas : list NodeMetadata) (hs : list BlockHeader) (down : list noReply)
    (page : list chunk) : Prop :=
  (∀ h, h ∈ hs → infix (weave header_row_texts (header_cells h)) page)
  ∧ (∀ n, n ∈ metas → infix (metadata_row_chunks n) page)
  ∧ (∀ x, x ∈ down → infix (weave down_row_texts (down_cells x)) page).

Lemma tables_shown `{L : Linq} `{MR : GoRuntime} metas hs links progress chain m d chain_name :
  chain_summaries metas = Done chain → pg_Summary d = page_summary metas hs links progress chain →
  (∀ k, is_Some (chain !! k) → is_Some (blockHeaderSummary hs true ∅ !! k)) →
  shows_tables metas hs (pg_NoReply d) (Execute (page_fs m) (nodes_of chain_name) (page_value d)).1.
Proof.
  intros Hc Hd Hk.
  destruct (tables_finished metas hs links progress chain m d chain_name Hc Hd Hk) as (out & vars & E).
  assert (infix out (Execute (page_fs m) (nodes_of chain_name) (page_value d)).1) as Hi.
  { unfold Execute. rewrite <-(take_drop 20 (nodes_of chain_name)), exec_list_app, E. cbn [written_then].
    destruct (exec_list _ (drop 20 _) _ _) as [out' [err|vars1]]; apply infix_app_r, infix_refl. }
  split_and!.
  - intros h Hh. destruct (header_record metas hs links h Hh) as (a & g & Ha & Hr & Hg).
    eapply infix_trans; [|exact Hi].
    exact (header_shown m d _ _ _ _ E _ _ a g h (header_part _ _ _ _ _ _ Hd) Ha Hr Hg).
  - intros n Hn. destruct (metadata_record metas n Hn) as (a & g & Ha & Hr & Hg).
    eapply infix_trans; [|exact Hi].
    exact (metadata_shown m d _ _ _ _ E _ _ a g n (meta_part _ _ _ _ _ _ Hd) Ha Hr Hg).
  - intros x Hx. eapply infix_trans; [|exact Hi]. exact (down_shown m d _ _ _ _ E x Hx).
Qed.

(** The texts that the rows of the five tables begin with. *)
Definition row_starts : list string :=
  hd EmptyString <$> [down_row_texts; header_row_texts; metadata_row_texts; current_row_texts;
                      previous_row_texts].

Lemma tables_missing `{L : Linq} `{MR : GoRuntime} metas hs links progress chain m d chain_name :
  chain_summaries metas = Done chain → pg_Summary d = page_summary metas hs links progress chain →
  ¬ (∀ k, is_Some (chain !! k) → is_Some (blockHeaderSummary hs true ∅ !! k)) →
  ∀ t, t ∈ row_starts → Lit t ∉ (Execute (page_fs m) (nodes_of chain_name) (page_value d)).1.
Proof.
  intros Hc Hd Hk t Ht Hin. set (l := nodes_of chain_name) in *.
  destruct (exec_list (page_fs m) (take 10 l) [("$"%string, page_value d)] (page_value d))
    as [out [err|vars]] eqn:E.
  - assert (Lit t ∈ (exec_list (page_fs m) (take 10 l) [("$"%string, page_value d)] (page_value d)).1) as H.
    { revert Hin. unfold Execute. rewrite <-(take_drop 10 l) at 1. rewrite exec_list_app, E. done. }
    apply exec_list_texts in H.
    assert (Forall (λ t, t ∉ take 10 l ≫= node_texts) row_starts) as Hno
      by (apply (bool_decide_unpack _); vm_compute; exact I).
    rewrite Forall_forall in Hno. by apply (Hno t Ht).
  - apply Hk. intros k Hs. apply (with_status_dom metas progress chain Hc) in Hs as [e He].
    apply complete_is_Some with metas links.
    eapply page_crosslink; [exact E|by eapply chain_part|by eapply header_part|done].
Qed.

(** The names html/template has no objection to inside a link. *)
Definition plain_char (c : ascii) : bool :=
  let n := nat_of_ascii c in
  ((48 <=? n) && (n <=? 57) || (65 <=? n) && (n <=? 90) || (97 <=? n) && (n <=? 122))%nat
  || bool_decide (c ∈ ["-"; "_"; "."]%char).

Fixpoint plain_name (s : string) : bool :=
  match s with EmptyString => true | String c s => plain_char c && plain_name s end.

Lemma plain_no_brace s : plain_name s = true → no_brace s = true.
Proof.
  induction s as [|c s IH]; [done|]. cbn. intros [Hc Hs]%andb_true_iff. rewrite IH by done.
  rewrite andb_true_r. apply bool_decide_eq_true. by intros ->.
Qed.

(** C14: when the page is complete, and what is missing otherwise. When the lock is
    free, every signature is empty or has at least five bytes and the name of the
    chain is plain, the template parses and a page is rendered. It is written to
    its end exactly when every shard that a node reports metadata for has a header
    in the snapshot and no committee has an empty name; the error of the execution
    is ignored. When a shard with metadata has no header, the page stops in the
    overview, before any of its tables: not one row of the silent nodes, the
    headers, the metadata and the committees is on it. Otherwise the rows of the
    silent nodes, the headers and the metadata all are. [mx] is the monitor while
    the page is written. *)
Theorem page_complete (L : Linq) (MR : GoRuntime) build parse now env env' m mx hs :
  m_inUse m = false → shorten_sigs (bc_Nodes (m_BlockHeaderSnapshot m)) = Done hs →
  let m2 := env (set_snapshot_headers hs m) in
  let metas := mc_Nodes (m_MetadataSnapshot m) in
  m_inUse m2 = false → m_inUse (env' m2) = false →
  parses_as parse → plain_name (m_chain m2) = true →
  (∀ n, n ∈ metas → is_uint32 (meta_shard n)) →
  ∃ m' data nodes page err,
    renderReport build parse now env env' m = Some (m', Done (inl data))
    ∧ Parse page_funcs (reportPage (m_chain m2)) = Some nodes
    ∧ Execute (page_fs mx) nodes (page_value data) = (page, err)
    ∧ (err = None ↔ headers_cover metas hs ∧ committees_named (m_SuperCommittee m2))
    ∧ (¬ headers_cover metas hs → ∀ t, t ∈ row_starts → Lit t ∉ page)
    ∧ (headers_cover metas hs → shows_tables metas hs (silent m2) page).
Proof.
  intros Hl Hs m2 metas Hl2 Hl3 Hp Hb%plain_no_brace Hw.
  pose proof (Parse_page (m_chain m2) Hb) as HP.
  destruct (renderReport_run L MR build parse now env env' m hs Hl Hs Hl2 Hl3) as (chain & Hc & E).
  { apply Hp. eexists. exact HP. }
  cbv zeta in E. set (data := MkPageData _ _ _ _ _ _) in E.
  assert (pg_Summary data = page_summary metas hs (lc_CrossLinks (m_LastCrossLinks m2))
    (m_consensusProgress m2) chain) as Hd by done.
  pose proof (headers_cover_keys metas hs chain Hc Hw) as Hcov.
  eexists _, data, _, _, _. split; [exact E|]. split; [exact HP|]. split; [apply surjective_pairing|].
  split_and!.
  - rewrite <-Hcov. exact (page_finished metas hs _ _ _ mx data _ Hc Hd).
  - rewrite <-Hcov. exact (tables_missing metas hs _ _ _ mx data _ Hc Hd).
  - rewrite <-Hcov. exact (tables_shown metas hs _ _ _ mx data _ Hc Hd).
Qed.

(** C15: a complete page shows everything. When a page is rendered and written to
    its end, it has a row with the cells of every header of the snapshot, of every
    node's metadata, of every silent node and of every member of the current and
    the previous committees. *)
Theorem page_rows (L : Linq) (MR : GoRuntime) build parse now env env' m mx hs :
  m_inUse m = false → shorten_sigs (bc_Nodes (m_BlockHeaderSnapshot m)) = Done hs →
  let m2 := env (set_snapshot_headers hs m) in
  let metas := mc_Nodes (m_MetadataSnapshot m) in
  m_inUse m2 = false → m_inUse (env' m2) = false →
  parses_as parse → no_brace (m_chain m2) = true →
  (∀ n, n ∈ metas → is_uint32 (meta_shard n)) →
  headers_cover metas hs → committees_named (m_SuperCommittee m2) →
  ∃ m' data nodes page,
    renderReport build parse now env env' m = Some (m', Done (inl data))
    ∧ Parse page_funcs (reportPage (m_chain m2)) = Some nodes
    ∧ Execute (page_fs mx) nodes (page_value data) = (page, None)
    ∧ (∀ h, h ∈ hs → infix (weave header_row_texts (header_cells h)) page)
    ∧ (∀ n, n ∈ metas → infix (metadata_row_chunks n) page)
    ∧ (∀ x, x ∈ silent m2 → infix (weave down_row_texts (down_cells x)) page)
    ∧ (∀ key info c, co_Deciders (sc_CurrentCommittee (m_SuperCommittee m2)) !! key = Some info →
         c ∈ ci_Committee info →
         ∃ shard, getShardID key = Done shard
           ∧ infix (weave current_row_texts (member_cells shard c)) page)
    ∧ (∀ key info c, co_Deciders (sc_PreviousCommittee (m_SuperCommittee m2)) !! key = Some info →
         c ∈ ci_Committee info →
         ∃ shard, getShardID key = Done shard
           ∧ infix (weave previous_row_texts (member_cells shard c)) page).
Proof.
  intros Hl Hs m2 metas Hl2 Hl3 Hp Hb Hw Hcov Hnamed.
  pose proof (Parse_page (m_chain m2) Hb) as HP.
  destruct (renderReport_run L MR build parse now env env' m hs Hl Hs Hl2 Hl3) as (chain & Hc & E).
  { apply Hp. eexists. exact HP. }
  cbv zeta in E. set (data := MkPageData _ _ _ _ _ _) in E.
  assert (pg_Summary data = page_summary metas hs (lc_CrossLinks (m_LastCrossLinks m2))
    (m_consensusProgress m2) chain) as Hd by done.
  assert ((Execute (page_fs mx) (nodes_of (m_chain m2)) (page_value data)).2 = None) as Hx.
  { apply (page_finished metas hs _ _ _ mx data _ Hc Hd).
    split; [by apply (headers_cover_keys metas hs chain Hc Hw)|exact Hnamed]. }
  pose proof Hx as (page & vars & Ex)%Execute_inr.
  eexists _, data, _, page. split; [exact E|]. split; [exact HP|].
  split; [by unfold Execute; rewrite Ex|].
  destruct (tables_shown metas hs _ _ _ mx data (m_chain m2) Hc Hd) as (H1 & H2 & H3);
    [by apply (headers_cover_keys metas hs chain Hc Hw)|].
  unfold Execute in H1, H2, H3. rewrite Ex in H1, H2, H3. split_and!; [exact H1|exact H2|exact H3|..].
  - intros key info c Hi Hm. rewrite <-current_texts.
    exact (committee_shown mx data _ _ _ _ Ex 21 _ key info c (or_introl eq_refl) Hi Hm).
  - intros key info c Hi Hm. rewrite <-previous_texts.
    exact (committee_shown mx data _ _ _ _ Ex 23 _ key info c (or_intror eq_refl) Hi Hm).
Qed.

(** ** Concrete pages *)

Module PageWitness.
Definition parse (chain : string) : option string :=
  match Parse page_funcs (reportPage chain) with
  | Some _ => None
  | None => Some "template: report: unexpected text"%string
  end.
Lemma parse_ok : parses_as parse.
Proof.
  intros chain. unfold parse. destruct (Parse page_funcs (reportPage chain)) as [ns|]; split;
    intros H; [by exists ns|done|done|by destruct H].
Qed.
(** A monitor with one node and its header, and one whose node sent no header. *)
Definition mon : monitor := ReportsWitness.mon "0x123456789".
Definition blind : monitor :=
  set_BlockHeaderSnapshot (MkBlockHeaderContainer (Unix 5) [] []) mon.
Lemma shards n : n ∈ mc_Nodes (m_MetadataSnapshot mon) → is_uint32 (meta_shard n).
Proof. intros ->%list_elem_of_singleton. vm_compute. split; [discriminate|reflexivity]. Qed.
Lemma covered : headers_cover (mc_Nodes (m_MetadataSnapshot mon)) ReportsWitness.hs.
Proof. intros n ->%list_elem_of_singleton. exact ReportsWitness.shard_known. Qed.
Lemma not_covered : ¬ headers_cover (mc_Nodes (m_MetadataSnapshot mon)) [].
Proof.
  intros H. destruct (H ReportsWitness.metadata) as (h & Hh & _); [apply list_elem_of_here|].
  by apply not_elem_of_nil in Hh.
Qed.
Lemma named : committees_named (m_SuperCommittee mon).
Proof. split; reflexivity. Qed.
End PageWitness.

Lemma page_complete_witness :
  (∃ m' data nodes page,
    renderReport (L := linq_ref) (MR := range_ref) "v1" PageWitness.parse "now" id id PageWitness.mon
      = Some (m', Done (inl data))
    ∧ Execute (page_fs PageWitness.mon) nodes (page_value data) = (page, None))
  ∧ ∃ m' data nodes page err,
    renderReport (L := linq_ref) (MR := range_ref) "v1" PageWitness.parse "now" id id PageWitness.blind
      = Some (m', Done (inl data))
    ∧ Execute (page_fs PageWitness.mon) nodes (page_value data) = (page, err) ∧ err ≠ None
    ∧ ∀ t, t ∈ row_starts → Lit t ∉ page.
Proof.
  split.
  - destruct (page_complete linq_ref range_ref "v1" PageWitness.parse "now" id id PageWitness.mon
      PageWitness.mon ReportsWitness.hs eq_refl ReportsWitness.shortened_hs eq_refl eq_refl
      PageWitness.parse_ok eq_refl PageWitness.shards)
      as (m' & data & nodes & page & err & E & _ & Ex & H & _).
    exists m', data, nodes, page. split; [exact E|].
    rewrite (proj2 H (conj PageWitness.covered PageWitness.named)) in Ex. exact Ex.
  - destruct (page_complete linq_ref range_ref "v1" PageWitness.parse "now" id id PageWitness.blind
      PageWitness.mon [] eq_refl eq_refl eq_refl eq_refl
      PageWitness.parse_ok eq_refl PageWitness.shards)
      as (m' & data & nodes & page & err & E & _ & Ex & H & Hno & _).
    exists m', data, nodes, page, err. split; [exact E|]. split; [exact Ex|]. split.
    + intros Hn. exact (PageWitness.not_covered (proj1 (proj1 H Hn))).
    + exact (Hno PageWitness.not_covered).
Defined.

Lemma page_rows_witness :
  ∃ m' data nodes page,
    renderReport (L := linq_ref) (MR := range_ref) "v1" PageWitness.parse "now" id id PageWitness.mon
      = Some (m', Done (inl data))
    ∧ Execute (page_fs PageWitness.mon) nodes (page_value data) = (page, None)
    ∧ infix (weave header_row_texts (header_cells (ReportsWitness.header "0x123...56789"))) page.
Proof.
  destruct (page_rows linq_ref range_ref "v1" PageWitness.parse "now" id id PageWitness.mon
    PageWitness.mon ReportsWitness.hs eq_refl ReportsWitness.shortened_hs eq_refl eq_refl
    PageWitness.parse_ok eq_refl PageWitness.shards PageWitness.covered PageWitness.named)
    as (m' & data & nodes & page & E & _ & Ex & Hh & _).
  exists m', data, nodes, page. split; [exact E|]. split; [exact Ex|].
  apply Hh. apply list_elem_of_here.
Defined.
